(* ===== verification/_CoqProject ===== *)
-Q . S2P
Prelude.v
Libc.v
Errors.v
Bytes.v
Attr.v
Wire.v
Inode.v
Handle.v
Host.v
Posix.v
ToyHost.v
ToyPosix.v
Passthrough.v
FsProps.v
GuestView.v
GuestRefine.v
FsErrors.v
Dispatch.v
DispatchProps.v
Capacity.v
VhostMsg.v
Memory.v
Virtqueue.v
VirtqueueProps.v
Doorbell.v
Connection.v
Server.v
ServerProps.v
QueueProps.v
Control.v
Bringup.v
Contested.v
Daemon.v
GuestSession.v
Conversation.v
Places.v
GuestProps.v
Stack.v
Hazards.v
SourceTests.v
CoreTests.v
