(* ===== verification/Prelude.v ===== *)
(** * riftlessfs: a verification development

    riftlessfs shares a directory of the host with a virtual machine.  The guest's kernel speaks
    FUSE over a virtio queue; a vhost-user front-end (the VMM) hands the daemon the guest's memory
    and the queues over a UNIX socket.  The program has three layers, and so has this library.

    - [riftlessfs-core], the file system engine: a table of inodes the guest holds references to,
      a table of open handles, and [PassthroughFs], which turns each operation into calls
      relative to descriptors it owns.
    - [riftlessfs-proto/fuse], the protocol: parsing of request structures, encoding of replies,
      and [Session::handle], which dispatches a request to the engine.
    - [riftlessfs-proto/vhost_user] and [riftlessfsd], the transport: socket messages with
      descriptors, guest memory, split virtqueues, the event loop and the daemon around it.

    ** Conventions

    The model is a shallow embedding.  A Rust function becomes a Rocq function with the source's
    name ([Type_method] for a method).  [outcome] is [Ok], [Err] or [Panic]; [M S E A] is a
    computation on a state [S].  Integers are [Z] with their width written out: [uadd], [usub],
    [urem] and the signed [iadd] are the operators with Rust's overflow rule, which the class [Build] selects (checked
    in debug builds, wrapping in release builds), and [wrap] and [as_u32] etc. are the explicit
    conversions.  Byte strings are [list byte].  A hash map is a [gmap]; where the source iterates
    over one, the order is the parameter [HashOrder].  Code outside the repository is the fields
    of a class, with what the sources rely on as a second class of laws: [Libc] and [FlagLaws],
    [Host] with [HostLaws] (descriptors), [VectoredLaws] (transfers) and [PosixLaws] (what the
    calls do to files), [Mmap], [Socket] and [StreamLaws], [Events] and [EventLaws], [FdCalls],
    [BellCalls] and [BellLaws], [UnixNet] and [NetLaws].  [ToyHost] (a small POSIX kernel),
    [toy_mmap], [toy_stream], [toy_bells] etc. are instances, so that the theorems are about
    something; the witnesses evaluate in them.  The code that reads and writes guest memory is
    defined over the class [Ram] of memories that load and store ranges of bytes.  [Heap] is the
    instance that only the device changes; [Shared] (in [Contested]) is the one in which the guest
    moves before every access, by the class [Guest].  A read of a descriptor that would wait for
    the other side ([read_waits]) ends the run with a result of its own ([Blocked], [BellWaits]).

    ** Files

    - [Prelude]: outcomes, computations, triples ([⟪P⟫ m ⤳ Q ⊘ R]: from [P], no panic, [Q] on
      [Ok], [R] on [Err]), [keeps], [moves] and [secure] for facts every outcome preserves, machine
      integers, generic lemmas and tactics.
    - [Libc], [Errors]: constants and error types; [to_linux_errno] ([fuse/linux_errno.rs]).
    - [Bytes], [Wire]: [fuse/bytes.rs] and [fuse/wire.rs].
    - [Attr], [Inode], [Handle]: [attr.rs], [inode.rs], [handle.rs].
    - [Host], [Posix], [ToyHost], [ToyPosix]: the kernel's interface, its laws, a small kernel and
      that it follows them.
    - [Passthrough], [FsProps], [FsErrors]: [passthrough.rs] and [platform/], their properties, and
      which call or argument each error of each operation comes from.
    - [GuestView], [GuestRefine]: the abstract file system a client sees ([View], [gstep]), and that
      every operation of [PassthroughFs] is a step of it.
    - [Dispatch], [DispatchProps], [Capacity]: [fuse/dispatch.rs], its properties, and how long a
      session lasts.
    - [VhostMsg], [Memory], [Virtqueue], [VirtqueueProps]: [header.rs] and [payload.rs],
      [memory.rs], [virtqueue.rs] of [vhost_user/], and the properties of queues.
    - [Doorbell], [Connection]: [doorbell.rs] and [vhost_user/connection.rs].
    - [Server], [ServerProps], [QueueProps]: [vhost_user/server.rs] and its properties.
    - [Control], [Bringup]: what arbitrary messages of a front-end can do, and what the messages
      that install the memory and a queue leave behind.
    - [Contested]: the event loop on memory that the guest changes at any moment.
    - [Daemon]: [riftlessfsd/src/main.rs].
    - [GuestSession], [Conversation], [Places], [GuestProps]: the requests of a guest's kernel and
      what they ask for, whole sessions as conversations of the abstract file system, where files
      are believed to be, and what a guest can rely on.
    - [Stack]: a mount as rounds of requests published in guest memory, from the rings to the
      abstract file system.
    - [Hazards]: what the engine does outside those conditions, as theorems about every session or
      every host where the behaviour is general and as runs on a small host where it is not.
    - [SourceTests], [CoreTests]: the unit tests, the integration tests and the benchmarks of the
      sources, run on the model.

    ** How the parts fit

    [Daemon.main] builds a [Server]; [Server.run] polls, handles control messages
    ([handle_request]) and serves kicked queues ([process_vring]).  That loop pops heads and reads
    chains ([Virtqueue]) in the mapped regions ([Memory]), serves a request ([serve_request])
    through the zero-copy paths or [dispatch_generic], which calls [Session_handle], which calls
    [PassthroughFs], which updates the tables and the kernel state.  The state is nested the same
    way: the kernel inside the file system inside the session inside the server, beside the
    shared memory.

    ** What is proved

    - The engine: every operation, from any well-formed state and whatever the kernel answers,
      neither panics nor loses track of a descriptor ([fs_op_safe], [fs_no_fd_leak]); ids and
      handles are never reused ([inode_ids_stable], [handles_stable]); the table agrees with the
      references the guest holds ([lookup_counts_exact], [forget_refines]); lookups, renames and
      listings do what they say ([lookup_spec], [rename_then_open], [readdir_spec]); bad
      arguments change nothing ([bad_requests_inert]); an operation fails only with the error of
      a call it makes or for what it was given ([errors_explained]); OPEN and LOOKUP hand flags and
      names to the host as they came ([open_verbatim], [lookup_spec]).
    - The whole path from a request to the files, on a host that follows [PosixLaws]: the bytes of
      a request run the operation the guest meant ([requests_run]); a session is a conversation of
      the abstract file system, in which READDIR serves pages of the listing its handle took at
      the start and every other reply is determined by the step; operations that go by the place
      where a file was last seen reach the file of the id as long as places are not reused
      ([sessions_refine]); so is a whole
      mount, with the requests and the replies in the guest's memory and any number of kicks
      ([mounts_refine]); an id stays with its file until it is forgotten
      ([held_file]); a file is reopened under the right name as long as names are not reused
      ([open_own_file]); what was written is read back ([write_then_read]).
    - The protocol: every byte string is answered as FUSE prescribes ([handle_replies]), also over
      any history of fewer than 2^63 - 1 requests ([serves_any_history]); paging through a
      directory sees all of it ([readdir_lists_all]); encoders and parsers agree (the round
      trips of [Wire] and [VhostMsg]); error numbers are translated by name
      ([to_linux_errno_correct]).
    - The queues: the available ring is a FIFO ([pop_avail_fifo]), chains are read exactly
      ([read_chain_exact]), gather, scatter and [iovec]s agree on the bytes of a chain
      ([chain_bytes], [scatter_exact]), the used ring is published ([push_used_publishes]), and
      no access leaves the mappings of a table whose lengths do not wrap
      ([guest_access_confined]).
    - The server: the zero-copy paths are equivalent to the generic one
      ([zero_copy_transparent]); every published chain of a well-formed queue gets a
      well-formed reply in its buffers, in order, and the loop ends ([queue_answered]), in the
      iteration that sees the kick and empties its descriptor ([kick_answered]); control messages
      keep the queues well formed ([run_keeps_vrings]), build the memory and the queue that were
      sent ([bring_up], [vring_setup]), hand a queue to another server without losing or repeating
      a request ([queue_handover]) and, whatever they are, neither panic nor touch the file system
      ([control_total]); a guest that changes its memory at any moment neither panics the loop nor
      makes it write outside the mapped regions ([hostile_guest_contained]); messages survive a
      socket that cuts them up ([send_recv]); doorbells are one flag ([doorbell_flag], [kick_and_call]); the daemon starts
      the loop in a sound state ([daemon_serves]).
    - Behaviour that departs from the documentation or the intent: [create_leaks_fd],
      [lookup_escapes_root], [link_entry_uncounted], [mmap_len_overflow], [queue_size_zero],
      [mem_table_fd_leak], [note_rename_order_dependent], [setattr_wrong_file],
      [open_follows_link], [open_verbatim_witness] (the flags of a Linux guest on macOS),
      [root_setattr_fails], [lookup_race], [read_buffer_overflow], [stray_fd_leak], [drain_waits].

    ** The conditions of the refinement

    [PosixLaws] states the documented effect of each call for names of one component and for a
    directory that no other process changes while the daemon serves it; a call may fail at any
    time.  [proper] asks of a request what a FUSE client sends: one component per name, open flags
    that neither create nor empty a file, and no operation through the place of a symbolic link or
    of the root.  The generic Unix platform is excluded ([target_os ≠ OtherUnix]): there a lookup
    of a symbolic link keeps a descriptor of its target.  Times are not part of a [View].

    ** Loops and fuel

    A loop bounded by its data is structural or has the bound of the source ([walk_chain] has the
    512 iterations of [read_chain]).  [send_loop] and [recv_loop] get one iteration per byte,
    which more fuel does not change ([send_loop_fuel], [recv_loop_fuel]).  Four loops depend on
    the other side and take fuel, with a distinct result when it runs out: [process_loop] (one
    more than the published chains is enough, [queue_answered]), [drain_fd] and [consume_loop]
    (one per 256 pending bytes and one more, [kick_and_call], [doorbell_flag]), and [run], which
    is meant not to end; its invariant holds for every fuel.  [drain_fd] on a blocking descriptor
    may also wait for ever, which is [Blocked] and not a lack of fuel ([drain_waits]).

    ** Not modelled

    - Logging, timing and the text of error messages: no result depends on them.
    - Running out of memory.  In particular [parse_batch_forget] and [MemoryRegions_from_bytes]
      reserve room for a 32-bit count of the other side before they look at the entries
      ([Vec::with_capacity], up to 64 and 128 GiB), and a failed reservation aborts the process.
    - Waiting in a write: a write to a call descriptor returns.
    - The locks of the two tables: the server is single-threaded, each operation takes and
      releases them.
    - Changes of guest memory in the middle of one access: a slice is read or written in one step,
      before which the guest may have changed any byte ([Contested]).  What the replies say is
      proved for a guest that leaves the chains it has published alone until they are used, as
      virtio asks.
    - The front-end's messages and a hostile guest at once: [hostile_guest_contained] starts when
      the setup is over, [control_total] is about one message.
    - Command-line parsing; the harness and the timing of the benchmarks; the threads and the
      waiting of the server's own tests, whose assertions [SourceTests] checks on the model
      without them. *)

From coqutil Require Export Byte.
From coqutil Require Export Word.LittleEndianList.
From stdpp Require Export base gmap numbers.
From stdpp Require Export list.

Global Set Default Goal Selector "!".
Local Open Scope Z_scope.

(** ** Outcomes and computations

    A Rust function either returns [Ok], returns [Err] or panics.  [M S E] is the same with an
    explicit state: every function that mutates something is a computation in [M]. *)

Inductive outcome (E A : Type) : Type :=
| Ok (a : A)
| Err (e : E)
| Panic.
Arguments Ok {E A} a.
Arguments Err {E A} e.
Arguments Panic {E A}.

#[export] Instance outcome_ret E : MRet (outcome E) := λ A a, Ok a.
#[export] Instance outcome_bind E : MBind (outcome E) := λ A B k m,
  match m with
  | Ok a => k a
  | Err e => Err e
  | Panic => Panic
  end.

(** [Option::ok_or]. *)
Definition ok_or {E A} (o : option A) (e : E) : outcome E A :=
  match o with
  | Some a => Ok a
  | None => Err e
  end.

(** [Result::ok] (a panic is not a value: it propagates as [None] only in specifications). *)
Definition ok_of {E A} (m : outcome E A) : option A :=
  match m with
  | Ok a => Some a
  | _ => None
  end.

(** [Result::map_err], and the conversion [?] applies to an error. *)
Definition map_err {E F A} (f : E → F) (m : outcome E A) : outcome F A :=
  match m with
  | Ok a => Ok a
  | Err e => Err (f e)
  | Panic => Panic
  end.

Definition M (S E A : Type) : Type := S → outcome E A * S.

#[export] Instance M_ret S E : MRet (M S E) := λ A a s, (Ok a, s).
#[export] Instance M_bind S E : MBind (M S E) := λ A B k m s,
  match m s with
  | (Ok a, s') => k a s'
  | (Err e, s') => (Err e, s')
  | (Panic, s') => (Panic, s')
  end.

Section Combinators.
Context {S E : Type}.

Definition gets {A} (f : S → A) : M S E A := λ s, (Ok (f s), s).
Definition modify (f : S → S) : M S E unit := λ s, (Ok tt, f s).
Definition throw {A} (e : E) : M S E A := λ s, (Err e, s).
Definition panic {A} : M S E A := λ s, (Panic, s).
Definition lift {A} (m : outcome E A) : M S E A := λ s, (m, s).
Definition map_errM {F A} (f : E → F) (m : M S E A) : M S F A :=
  λ s, let '(r, s') := m s in (map_err f r, s').
(** Run a computation on a component of the state. *)
Definition zoom {T A} (get : S → T) (set : T → S → S) (m : M T E A) : M S E A :=
  λ s, let '(r, t) := m (get s) in (r, set t s).
(** Observe the outcome of a computation instead of propagating its error. *)
Definition attempt {F A} (m : M S E A) : M S F (outcome E A) :=
  λ s, let '(r, s') := m s in
       match r with
       | Panic => (Panic, s')
       | _ => (Ok r, s')
       end.

(** Total correctness: from a state in [P] the computation does not panic, returns a value in
    [Q] or an error in [R]. *)
Definition triple {A} (P : S → Prop) (m : M S E A) (Q : A → S → Prop) (R : E → S → Prop) : Prop :=
  ∀ s, P s →
  match m s with
  | (Ok a, s') => Q a s'
  | (Err e, s') => R e s'
  | (Panic, _) => False
  end.

(** Whatever the outcome, the computation leads from states in [P] to states in [Q]. *)
Definition moves {A} (P Q : S → Prop) (m : M S E A) : Prop := ∀ s, P s → Q (m s).2.
Definition keeps {A} (P : S → Prop) (m : M S E A) : Prop := moves P P m.
End Combinators.

Declare Scope rust_scope.
Delimit Scope rust_scope with rust.
Notation "⟪ P ⟫ m ⤳ Q ⊘ R" := (triple P m Q R)
  (at level 98, P at level 200, m at level 97, Q at level 97, R at level 97,
   format "⟪  P  ⟫  m  ⤳  Q  ⊘  R") : rust_scope.
Open Scope rust_scope.

(** ** Machine integers

    A [w]-bit unsigned integer is a [Z] in [0, 2^w); [usize] has 64 bits. *)

Definition is_uint (w x : Z) : Prop := 0 ≤ x < 2 ^ w.
Definition wrap (w x : Z) : Z := x mod 2 ^ w.
Definition as_u8 : Z → Z := wrap 8.
Definition as_u16 : Z → Z := wrap 16.
Definition as_u32 : Z → Z := wrap 32.
Definition as_u64 : Z → Z := wrap 64.
Definition sign (w x : Z) : Z :=
  let y := wrap w x in if y <? 2 ^ (w - 1) then y else y - 2 ^ w.
Definition as_i32 : Z → Z := sign 32.
Definition as_i64 : Z → Z := sign 64.

(** Unchecked [+], [-] and [*] on an unsigned type panic on overflow in a build with overflow
    checks (the default of the [dev] and [test] profiles) and wrap in one without (the [release]
    profile of the workspace's Cargo.toml leaves them off). *)
Class Build := { overflow_checks : bool }.

Definition arith `{Build} {E} (w r : Z) : outcome E Z :=
  if (0 <=? r) && (r <? 2 ^ w) then Ok r
  else if overflow_checks then Panic
  else Ok (wrap w r).
Definition uadd `{Build} {E} (w a b : Z) : outcome E Z := arith w (a + b).
Definition usub `{Build} {E} (w a b : Z) : outcome E Z := arith w (a - b).
Definition umul `{Build} {E} (w a b : Z) : outcome E Z := arith w (a * b).
(** [+] on a signed type. *)
Definition iadd `{Build} {E} (w a b : Z) : outcome E Z :=
  if (- 2 ^ (w - 1) <=? a + b) && (a + b <? 2 ^ (w - 1)) then Ok (a + b)
  else if overflow_checks then Panic
  else Ok (sign w (a + b)).
(** [%] panics on a zero divisor in every build. *)
Definition urem {E} (a b : Z) : outcome E Z :=
  if b =? 0 then Panic else Ok (a mod b).

(** ** Little-endian bytes *)

Abbreviation bytes := (list byte).

Definition u16_le (v : Z) : bytes := le_split 2 v.
Definition u32_le (v : Z) : bytes := le_split 4 v.
Definition u64_le (v : Z) : bytes := le_split 8 v.

#[export] Instance byte_eq_dec : EqDecision byte := Byte.byte_eq_dec.

(** [slice.get(a..b)]. *)
Definition get_range {A} (l : list A) (a b : nat) : option (list A) :=
  if (a <=? b)%nat && (b <=? length l)%nat then Some (take (b - a) (drop a l)) else None.

(** Overwrite the bytes from [off] with [new]. *)
Definition splice {A} (off : nat) (new l : list A) : list A :=
  take off l ++ new ++ drop (off + length new) l.

(** [iter().position(|&b| b == x)]. *)
Fixpoint position (x : byte) (l : bytes) : option nat :=
  match l with
  | [] => None
  | y :: l' => if decide (y = x) then Some 0%nat else S <$> position x l'
  end.

Definition NUL : byte := Byte.x00.

(** * Lemmas *)

(** ** Outcomes *)

Lemma ok_or_Ok {E A} (o : option A) (e : E) a : ok_or o e = Ok a ↔ o = Some a.
Proof. destruct o; simpl; naive_solver. Qed.

Lemma outcome_bind_Ok {E A B} (m : outcome E A) (k : A → outcome E B) b :
  m ≫= k = Ok b ↔ ∃ a, m = Ok a ∧ k a = Ok b.
Proof. destruct m; simpl; naive_solver. Qed.

Lemma outcome_bind_Err {E A B} (m : outcome E A) (k : A → outcome E B) e :
  m ≫= k = Err e ↔ m = Err e ∨ ∃ a, m = Ok a ∧ k a = Err e.
Proof. destruct m; simpl; naive_solver. Qed.

Lemma M_bind_Ok {S E A B} (m : M S E A) (k : A → M S E B) s b s' :
  (m ≫= k) s = (Ok b, s') ↔ ∃ a s1, m s = (Ok a, s1) ∧ k a s1 = (Ok b, s').
Proof.
  unfold mbind, M_bind. destruct (m s) as [[a|e|] s1]; naive_solver.
Qed.

Lemma pair_fst {A B} (p : A * B) a : p.1 = a → p = (a, p.2).
Proof. destruct p. by intros <-. Qed.

(** ** Rules for triples *)

Section Triples.
Context {S E : Type}.
Implicit Types P : S → Prop.
Implicit Types R : E → S → Prop.

Lemma triple_ret {A} P (a : A) (Q : A → S → Prop) R :
  (∀ s, P s → Q a s) → ⟪ P ⟫ mret a ⤳ Q ⊘ R.
Proof. intros H s Hs. exact (H s Hs). Qed.

Lemma triple_bind {A B} P (m : M S E A) (k : A → M S E B) Q1 Q R :
  ⟪ P ⟫ m ⤳ Q1 ⊘ R → (∀ a, ⟪ Q1 a ⟫ k a ⤳ Q ⊘ R) → ⟪ P ⟫ m ≫= k ⤳ Q ⊘ R.
Proof.
  intros Hm Hk s Hs. specialize (Hm s Hs). unfold mbind, M_bind.
  destruct (m s) as [[a|e|] s']; [|done..]. by apply Hk.
Qed.

(** The same where the value satisfies a fact that does not depend on the state. *)
Lemma triple_bind_pure {A B} P (m : M S E A) (k : A → M S E B) (I : S → Prop) (V : A → Prop) Q R :
  ⟪ P ⟫ m ⤳ (λ a s, I s ∧ V a) ⊘ R → (∀ a, V a → ⟪ I ⟫ k a ⤳ Q ⊘ R) → ⟪ P ⟫ m ≫= k ⤳ Q ⊘ R.
Proof.
  intros Hm Hk. eapply triple_bind; [exact Hm|]. intros a s [Hs Ha]. by apply Hk.
Qed.

Lemma triple_weaken {A} P P' (m : M S E A) Q Q' R R' :
  ⟪ P' ⟫ m ⤳ Q' ⊘ R' → (∀ s, P s → P' s) → (∀ a s, Q' a s → Q a s) →
  (∀ e s, R' e s → R e s) → ⟪ P ⟫ m ⤳ Q ⊘ R.
Proof.
  intros Hm HP HQ HR s Hs. specialize (Hm s (HP _ Hs)).
  destruct (m s) as [[a|e|] s']; auto.
Qed.

Lemma triple_gets {A} P (f : S → A) (Q : A → S → Prop) R :
  (∀ s, P s → Q (f s) s) → ⟪ P ⟫ gets f ⤳ Q ⊘ R.
Proof. intros H s Hs. exact (H s Hs). Qed.

Lemma triple_modify P (f : S → S) (Q : unit → S → Prop) R :
  (∀ s, P s → Q tt (f s)) → ⟪ P ⟫ modify f ⤳ Q ⊘ R.
Proof. intros H s Hs. exact (H s Hs). Qed.

Lemma triple_throw {A} P (e : E) (Q : A → S → Prop) R :
  (∀ s, P s → R e s) → ⟪ P ⟫ throw e ⤳ Q ⊘ R.
Proof. intros H s Hs. exact (H s Hs). Qed.

Lemma triple_lift {A} P (m : outcome E A) (Q : A → S → Prop) R :
  (∀ s, P s → match m with Ok a => Q a s | Err e => R e s | Panic => False end) →
  ⟪ P ⟫ lift m ⤳ Q ⊘ R.
Proof. intros H s Hs. specialize (H s Hs). unfold lift. by destruct m. Qed.

Lemma triple_map_errM {F A} P (f : E → F) (m : M S E A) (Q : A → S → Prop) (R : F → S → Prop) :
  ⟪ P ⟫ m ⤳ Q ⊘ (λ e s, R (f e) s) → ⟪ P ⟫ map_errM f m ⤳ Q ⊘ R.
Proof.
  intros Hm s Hs. specialize (Hm s Hs). unfold map_errM.
  destruct (m s) as [[a|e|] s']; auto.
Qed.
End Triples.

(** ** Secure computations *)

(** From a state in [I]: no panic, a value in [V], and a state in [I] also after an error. *)
Definition secure {S E A} (I : S → Prop) (V : A → Prop) (m : M S E A) : Prop :=
  ⟪ I ⟫ m ⤳ (λ a s, I s ∧ V a) ⊘ (λ _, I).

Abbreviation any := (λ _, True).

Section Secure.
Context {S E : Type} (I : S → Prop).

Lemma secure_ret {A} (V : A → Prop) a : V a → secure (E := E) I V (mret a).
Proof. intros Ha. by apply triple_ret. Qed.

Lemma secure_throw {A} (V : A → Prop) (e : E) : secure I V (throw e).
Proof. by apply triple_throw. Qed.

Lemma secure_lift {A} (V : A → Prop) (r : outcome E A) :
  match r with Ok a => V a | Err _ => True | Panic => False end → secure I V (lift r).
Proof. intros Hr. apply triple_lift. intros s Hs. by destruct r. Qed.

Lemma secure_bind {A B} (V : A → Prop) (W : B → Prop) (m : M S E A) (k : A → M S E B) :
  secure I V m → (∀ a, V a → secure I W (k a)) → secure I W (m ≫= k).
Proof. intros Hm Hk. by eapply triple_bind_pure. Qed.

Lemma secure_weaken {A} (V W : A → Prop) (m : M S E A) : secure I V m → (∀ a, V a → W a) → secure I W m.
Proof. intros Hm HV. eapply triple_weaken; [exact Hm|done| |done]. naive_solver. Qed.

Lemma secure_gets {A} (f : S → A) : secure (E := E) I any (gets f).
Proof. by apply triple_gets. Qed.

Lemma secure_map_errM {F A} (f : E → F) (V : A → Prop) (m : M S E A) : secure I V m → secure I V (map_errM f m).
Proof. intros Hm. by apply triple_map_errM. Qed.
End Secure.

Create HintDb secure.
#[export] Hint Resolve secure_ret secure_throw secure_gets : secure.

(** One operation after the other. *)
Ltac securely :=
  repeat first
    [ progress intros
    | solve [eauto with secure]
    | eapply secure_bind; [solve [eauto with secure]|]
    | case_match ].

(** ** State properties kept by every outcome *)

Section Keeps.
Context {S E : Type} (P : S → Prop).

Lemma keeps_ret {A} (a : A) : keeps P (mret a : M S E A).
Proof. by intros s. Qed.
Lemma keeps_lift {A} (r : outcome E A) : keeps P (lift r).
Proof. by intros s. Qed.
Lemma keeps_throw {A} (e : E) : keeps P (throw e : M S E A).
Proof. by intros s. Qed.
Lemma keeps_panic {A} : keeps P (panic : M S E A).
Proof. by intros s. Qed.
Lemma keeps_gets {A} (f : S → A) : keeps P (gets f : M S E A).
Proof. by intros s. Qed.
Lemma keeps_modify f : (∀ s, P s → P (f s)) → keeps P (modify f : M S E unit).
Proof. intros Hf s. apply Hf. Qed.

Lemma keeps_bind {A B} (m : M S E A) (k : A → M S E B) :
  keeps P m → (∀ a, keeps P (k a)) → keeps P (m ≫= k).
Proof.
  intros Hm Hk s Hs. unfold mbind, M_bind. specialize (Hm s Hs).
  destruct (m s) as [[a|e|] s']; simpl in *; [by apply Hk|done..].
Qed.

Lemma moves_bind {A B} (P0 Q : S → Prop) (m : M S E A) (k : A → M S E B) :
  moves P0 P m → (∀ a, moves P Q (k a)) → (∀ s, P s → Q s) → moves P0 Q (m ≫= k).
Proof.
  intros Hm Hk Hw s Hs. unfold mbind, M_bind. specialize (Hm s Hs).
  destruct (m s) as [[a|e|] s']; simpl in *; [by apply Hk|by apply Hw..].
Qed.

Lemma keeps_map_errM {F A} (f : E → F) (m : M S E A) : keeps P m → keeps P (map_errM f m).
Proof. intros Hm s Hs. unfold map_errM. specialize (Hm s Hs). by destruct (m s). Qed.

Lemma keeps_attempt {F A} (m : M S E A) : keeps P m → keeps P (attempt m : M S F (outcome E A)).
Proof.
  intros Hm s Hs. unfold attempt. specialize (Hm s Hs). by destruct (m s) as [[?|?|] ?].
Qed.

Lemma keeps_zoom {T A} (get : S → T) (set : T → S → S) (m : M T E A) :
  (∀ t s, P s → P (set t s)) → keeps P (zoom get set m).
Proof. intros Hset s Hs. unfold zoom. destruct (m (get s)) as [r t]. by apply Hset. Qed.
End Keeps.

Ltac keeps_step :=
  repeat first
    [ progress intros
    | apply keeps_bind; [|intros ?]
    | apply keeps_map_errM
    | apply keeps_attempt
    | apply keeps_ret | apply keeps_lift | apply keeps_throw | apply keeps_panic | apply keeps_gets
    | case_match ].

(** ** Integers *)

Lemma wrap_id w x : is_uint w x → wrap w x = x.
Proof. apply Z.mod_small. Qed.

Lemma wrap_range w x : 0 ≤ w → is_uint w (wrap w x).
Proof. intros. apply Z.mod_pos_bound. lia. Qed.

Lemma wrap_wrap w x : 0 ≤ w → wrap w (wrap w x) = wrap w x.
Proof. intros. by apply wrap_id, wrap_range. Qed.

Lemma sign_id w x : 0 < w → -2 ^ (w - 1) ≤ x < 2 ^ (w - 1) → sign w x = x.
Proof.
  intros Hw Hx. unfold sign, wrap.
  assert (2 ^ w = 2 * 2 ^ (w - 1)) as Hp.
  { rewrite <- Z.pow_succ_r by lia. f_equal. lia. }
  destruct (Z_lt_le_dec x 0).
  - replace (x mod 2 ^ w) with (x + 2 ^ w).
    + case_match; lia.
    + apply Z.mod_unique with (-1); lia.
  - rewrite Z.mod_small by lia. case_match; lia.
Qed.

Lemma sign_wrap w x : 0 ≤ w → sign w (wrap w x) = sign w x.
Proof. intros. unfold sign, wrap. by rewrite Z.mod_mod by lia. Qed.

Lemma arith_in `{Build} {E} w r : is_uint w r → arith (E:=E) w r = Ok r.
Proof. intros [? ?]. unfold arith. rewrite (proj2 (Z.leb_le 0 r)), (proj2 (Z.ltb_lt r _)); done. Qed.

Lemma iadd_in `{Build} {E} w a b : - 2 ^ (w - 1) ≤ a + b < 2 ^ (w - 1) → iadd (E:=E) w a b = Ok (a + b).
Proof. intros [? ?]. unfold iadd. by rewrite (proj2 (Z.leb_le _ _)), (proj2 (Z.ltb_lt _ _)). Qed.

Lemma release_iadd `{Build} {E} w a b : overflow_checks = false → ∃ r, iadd (E:=E) w a b = Ok r.
Proof. intros Hrel. unfold iadd. rewrite Hrel. case_match; eauto. Qed.

(** Without overflow checks arithmetic never panics. *)
Lemma release_arith `{Build} {E} w a : overflow_checks = false → 0 ≤ w → ∃ r, arith (E:=E) w a = Ok r ∧ is_uint w r.
Proof.
  intros Hrel Hw. unfold arith. rewrite Hrel. case_match eqn:Hc.
  - eexists. split; [done|]. apply andb_true_iff in Hc as [?%Z.leb_le ?%Z.ltb_lt]. done.
  - eexists. split; [done|]. by apply wrap_range.
Qed.

Lemma uadd_in `{Build} {E} w a b : is_uint w (a + b) → uadd (E:=E) w a b = Ok (a + b).
Proof. apply arith_in. Qed.

Lemma usub_in `{Build} {E} w a b : is_uint w (a - b) → usub (E:=E) w a b = Ok (a - b).
Proof. apply arith_in. Qed.

(** ** Little-endian codecs *)

Lemma le_roundtrip n z : is_uint (Z.of_nat n * 8) z → le_combine (le_split n z) = z.
Proof. intros. rewrite le_combine_split. by apply Z.mod_small. Qed.

Lemma u16_le_split v : u16_le v = le_split 2 v.
Proof. done. Qed.
Lemma u32_le_split v : u32_le v = le_split 4 v.
Proof. done. Qed.
Lemma u64_le_split v : u64_le v = le_split 8 v.
Proof. done. Qed.

(** Encoded integers are handled through their lemmas, not computed in proofs. *)
Global Opaque u16_le u32_le u64_le.

Lemma u16_le_length v : length (u16_le v) = 2%nat.
Proof. rewrite u16_le_split. apply length_le_split. Qed.
Lemma u32_le_length v : length (u32_le v) = 4%nat.
Proof. rewrite u32_le_split. apply length_le_split. Qed.
Lemma u64_le_length v : length (u64_le v) = 8%nat.
Proof. rewrite u64_le_split. apply length_le_split. Qed.

Lemma le_combine_uint bs w : 8 * Z.of_nat (length bs) = w → is_uint w (le_combine bs).
Proof. intros <-. apply le_combine_bound. Qed.

(** ** Lists *)

Lemma get_range_Some {A} (l : list A) a b r :
  get_range l a b = Some r ↔ (a ≤ b ≤ length l)%nat ∧ r = take (b - a) (drop a l).
Proof.
  unfold get_range. destruct (Nat.leb_spec a b), (Nat.leb_spec b (length l)); simpl; naive_solver lia.
Qed.

Lemma get_range_app {A} (l1 l2 l3 : list A) a b :
  a = length l1 → b = (length l1 + length l2)%nat → get_range (l1 ++ l2 ++ l3) a b = Some l2.
Proof.
  intros -> ->. apply get_range_Some. rewrite !length_app. split; [lia|].
  rewrite drop_app_length, Nat.add_comm, Nat.add_sub, take_app_length. done.
Qed.

Lemma length_get_range {A} (l r : list A) a b : get_range l a b = Some r → length r = (b - a)%nat.
Proof. intros [? ->]%get_range_Some. rewrite length_take, length_drop. lia. Qed.

Lemma length_splice {A} off (new l : list A) :
  (off + length new ≤ length l)%nat → length (splice off new l) = length l.
Proof. intros. unfold splice. rewrite !length_app, length_take, length_drop. lia. Qed.

Lemma lookup_splice {A} off (new l : list A) i :
  (off + length new ≤ length l)%nat →
  splice off new l !! i =
    if decide (off ≤ i < off + length new)%nat then new !! (i - off)%nat else l !! i.
Proof.
  intros Hl. unfold splice. assert (length (take off l) = off) as Ht by (rewrite length_take; lia).
  case_decide as Hi.
  - rewrite lookup_app_r, Ht, lookup_app_l by lia. done.
  - destruct (decide (i < off)%nat).
    + rewrite lookup_app_l by lia. by rewrite lookup_take_lt by lia.
    + rewrite lookup_app_r, Ht, lookup_app_r, lookup_drop by lia. f_equal. lia.
Qed.

(** Reading back what was just written. *)
Lemma take_drop_splice {A} off (new l : list A) :
  (off ≤ length l)%nat → take (length new) (drop off (splice off new l)) = new.
Proof.
  intros. unfold splice. rewrite drop_app_length' by (rewrite length_take; lia).
  apply take_app_length.
Qed.

Lemma position_app x l1 l2 : x ∉ l1 → position x (l1 ++ x :: l2) = Some (length l1).
Proof.
  induction l1 as [|y l1 IH]; simpl; intros Hx.
  - by rewrite decide_True.
  - apply not_elem_of_cons in Hx as [? ?]. rewrite decide_False by done. by rewrite IH.
Qed.

Lemma position_Some x l n :
  position x l = Some n → l = take n l ++ (x :: drop (S n) l) ∧ (x ∉ take n l) ∧ (n < length l)%nat.
Proof.
  revert n. induction l as [|y l IH]; simpl; intros n Hn; [done|].
  case_decide; simplify_eq; simpl.
  - split_and!; [done|set_solver|lia].
  - destruct (position x l) as [m|] eqn:E; simplify_eq/=.
    destruct (IH m eq_refl) as (H1 & ? & ?). split_and!; [by f_equal| |lia].
    apply not_elem_of_cons. naive_solver.
Qed.

Lemma position_None x l : position x l = None ↔ x ∉ l.
Proof.
  induction l as [|y l IH]; simpl; [set_solver|].
  rewrite not_elem_of_cons. case_decide; [naive_solver|].
  destruct (position x l); simpl; naive_solver.
Qed.

(** ** Automation *)

Create HintDb rust discriminated.
#[export] Hint Resolve wrap_id wrap_range le_roundtrip : rust.
#[export] Hint Resolve triple_ret triple_gets triple_modify triple_throw : rust.

(** Turn boolean comparisons in the context into propositions. *)
Ltac to_prop :=
  repeat match goal with
  | H : (_ <? _) = true |- _ => apply Z.ltb_lt in H
  | H : (_ <? _) = false |- _ => apply Z.ltb_ge in H
  | H : (_ <=? _) = true |- _ => apply Z.leb_le in H
  | H : (_ <=? _) = false |- _ => apply Z.leb_gt in H
  | H : (_ =? _) = true |- _ => apply Z.eqb_eq in H
  | H : (_ =? _) = false |- _ => apply Z.eqb_neq in H
  | H : (_ && _) = true |- _ => apply andb_prop in H as [? ?]
  | H : (_ || _) = false |- _ => apply orb_false_iff in H as [? ?]
  | H : negb _ = true |- _ => apply negb_true_iff in H
  | H : negb _ = false |- _ => apply negb_false_iff in H
  end.

(** Bounds of machine integers by [lia]. *)
Ltac uint := unfold is_uint in *; lia.
