(* ===== verification/Libc.v ===== *)
(** * The host's C library

    The [libc] crate is not part of the repository: the constants the sources take from it are
    the fields of a class.  Two instances give them the values of the two supported hosts, and
    are used only by witnesses and by theorems about one of the hosts. *)

From S2P Require Import Prelude.
Local Open Scope Z_scope.

(** The error names [fuse/linux_errno.rs] and [error.rs] mention. *)
Inductive Errno :=
| EPERM | ENOENT | ESRCH | EINTR | EIO | ENXIO | E2BIG | ENOEXEC | EBADF | ECHILD | EAGAIN
| ENOMEM | EACCES | EFAULT | EBUSY | EEXIST | EXDEV | ENODEV | ENOTDIR | EISDIR | EINVAL | ENFILE
| EMFILE | ENOTTY | ETXTBSY | EFBIG | ENOSPC | ESPIPE | EROFS | EMLINK | EPIPE | EDOM | ERANGE
| EDEADLK | ENAMETOOLONG | ENOLCK | ENOSYS | ENOTEMPTY | ELOOP | ENOMSG | EIDRM | EOVERFLOW
| EBADMSG | EILSEQ | ENOTSOCK | EDESTADDRREQ | EMSGSIZE | EPROTOTYPE | ENOPROTOOPT
| EPROTONOSUPPORT | ENOTSUP | EOPNOTSUPP | EAFNOSUPPORT | EADDRINUSE | EADDRNOTAVAIL | ENETDOWN
| ENETUNREACH | ENETRESET | ECONNABORTED | ECONNRESET | ENOBUFS | EISCONN | ENOTCONN | ETIMEDOUT
| ECONNREFUSED | EHOSTUNREACH | EALREADY | EINPROGRESS | ESTALE | EDQUOT | ECANCELED.

#[export] Instance Errno_eq_dec : EqDecision Errno.
Proof. solve_decision. Defined.

(** [cfg(target_os = ...)]. *)
Inductive TargetOs := Linux | MacOS | OtherUnix.

#[export] Instance TargetOs_eq_dec : EqDecision TargetOs.
Proof. solve_decision. Defined.

Class Libc := {
  target_os : TargetOs;
  errno_val : Errno → Z;
  S_IFMT : Z; S_IFDIR : Z; S_IFLNK : Z; S_IFREG : Z;
  O_RDONLY : Z; O_WRONLY : Z; O_CREAT : Z; O_EXCL : Z; O_DIRECTORY : Z; O_CLOEXEC : Z;
  O_NOFOLLOW : Z; O_PATH : Z; O_EVTONLY : Z; O_SYMLINK : Z;
  (** Flags the sources do not name but pass on from the guest, the last one [__O_TMPFILE]. *)
  O_TRUNC : Z; O_APPEND : Z; O_TMPFILE_BIT : Z;
  AT_SYMLINK_NOFOLLOW : Z; AT_REMOVEDIR : Z; AT_EMPTY_PATH : Z; UTIME_OMIT : Z;
  MODE_T_BITS : Z;
  POLLIN : Z; POLLHUP : Z; POLLERR : Z;
}.

(** The numbers of Linux's [asm-generic/errno-base.h] and [asm-generic/errno.h]. *)
Definition linux_errno (e : Errno) : Z :=
  match e with
  | EPERM => 1 | ENOENT => 2 | ESRCH => 3 | EINTR => 4 | EIO => 5 | ENXIO => 6 | E2BIG => 7
  | ENOEXEC => 8 | EBADF => 9 | ECHILD => 10 | EAGAIN => 11 | ENOMEM => 12 | EACCES => 13
  | EFAULT => 14 | EBUSY => 16 | EEXIST => 17 | EXDEV => 18 | ENODEV => 19 | ENOTDIR => 20
  | EISDIR => 21 | EINVAL => 22 | ENFILE => 23 | EMFILE => 24 | ENOTTY => 25 | ETXTBSY => 26
  | EFBIG => 27 | ENOSPC => 28 | ESPIPE => 29 | EROFS => 30 | EMLINK => 31 | EPIPE => 32
  | EDOM => 33 | ERANGE => 34 | EDEADLK => 35 | ENAMETOOLONG => 36 | ENOLCK => 37 | ENOSYS => 38
  | ENOTEMPTY => 39 | ELOOP => 40 | ENOMSG => 42 | EIDRM => 43 | EOVERFLOW => 75 | EBADMSG => 74
  | EILSEQ => 84 | ENOTSOCK => 88 | EDESTADDRREQ => 89 | EMSGSIZE => 90 | EPROTOTYPE => 91
  | ENOPROTOOPT => 92 | EPROTONOSUPPORT => 93 | ENOTSUP => 95 | EOPNOTSUPP => 95
  | EAFNOSUPPORT => 97 | EADDRINUSE => 98 | EADDRNOTAVAIL => 99 | ENETDOWN => 100
  | ENETUNREACH => 101 | ENETRESET => 102 | ECONNABORTED => 103 | ECONNRESET => 104
  | ENOBUFS => 105 | EISCONN => 106 | ENOTCONN => 107 | ETIMEDOUT => 110 | ECONNREFUSED => 111
  | EHOSTUNREACH => 113 | EALREADY => 114 | EINPROGRESS => 115 | ESTALE => 116 | EDQUOT => 122
  | ECANCELED => 125
  end.

(** The numbers of Darwin's [sys/errno.h]. *)
Definition macos_errno (e : Errno) : Z :=
  match e with
  | EPERM => 1 | ENOENT => 2 | ESRCH => 3 | EINTR => 4 | EIO => 5 | ENXIO => 6 | E2BIG => 7
  | ENOEXEC => 8 | EBADF => 9 | ECHILD => 10 | EAGAIN => 35 | ENOMEM => 12 | EACCES => 13
  | EFAULT => 14 | EBUSY => 16 | EEXIST => 17 | EXDEV => 18 | ENODEV => 19 | ENOTDIR => 20
  | EISDIR => 21 | EINVAL => 22 | ENFILE => 23 | EMFILE => 24 | ENOTTY => 25 | ETXTBSY => 26
  | EFBIG => 27 | ENOSPC => 28 | ESPIPE => 29 | EROFS => 30 | EMLINK => 31 | EPIPE => 32
  | EDOM => 33 | ERANGE => 34 | EDEADLK => 11 | ENAMETOOLONG => 63 | ENOLCK => 77 | ENOSYS => 78
  | ENOTEMPTY => 66 | ELOOP => 62 | ENOMSG => 91 | EIDRM => 90 | EOVERFLOW => 84 | EBADMSG => 94
  | EILSEQ => 92 | ENOTSOCK => 38 | EDESTADDRREQ => 39 | EMSGSIZE => 40 | EPROTOTYPE => 41
  | ENOPROTOOPT => 42 | EPROTONOSUPPORT => 43 | ENOTSUP => 45 | EOPNOTSUPP => 102
  | EAFNOSUPPORT => 47 | EADDRINUSE => 48 | EADDRNOTAVAIL => 49 | ENETDOWN => 50
  | ENETUNREACH => 51 | ENETRESET => 52 | ECONNABORTED => 53 | ECONNRESET => 54 | ENOBUFS => 55
  | EISCONN => 56 | ENOTCONN => 57 | ETIMEDOUT => 60 | ECONNREFUSED => 61 | EHOSTUNREACH => 65
  | EALREADY => 37 | EINPROGRESS => 36 | ESTALE => 70 | EDQUOT => 69 | ECANCELED => 89
  end.

(** x86-64 Linux.  [O_EVTONLY] and [O_SYMLINK] do not exist there and are not used. *)
Definition linux_libc : Libc := {|
  target_os := Linux;
  errno_val := linux_errno;
  S_IFMT := 0xf000; S_IFDIR := 0x4000; S_IFLNK := 0xa000; S_IFREG := 0x8000;
  O_RDONLY := 0; O_WRONLY := 1; O_CREAT := 0x40; O_EXCL := 0x80; O_DIRECTORY := 0x10000;
  O_CLOEXEC := 0x80000; O_NOFOLLOW := 0x20000; O_PATH := 0x200000; O_EVTONLY := 0; O_SYMLINK := 0;
  O_TRUNC := 0x200; O_APPEND := 0x400; O_TMPFILE_BIT := 0x400000;
  AT_SYMLINK_NOFOLLOW := 0x100; AT_REMOVEDIR := 0x200; AT_EMPTY_PATH := 0x1000;
  UTIME_OMIT := 0x3ffffffe;
  MODE_T_BITS := 32;
  POLLIN := 1; POLLHUP := 16; POLLERR := 8;
|}.

(** Darwin.  [O_PATH] and [AT_EMPTY_PATH] do not exist there and are not used. *)
Definition macos_libc : Libc := {|
  target_os := MacOS;
  errno_val := macos_errno;
  S_IFMT := 0xf000; S_IFDIR := 0x4000; S_IFLNK := 0xa000; S_IFREG := 0x8000;
  O_RDONLY := 0; O_WRONLY := 1; O_CREAT := 0x200; O_EXCL := 0x800; O_DIRECTORY := 0x100000;
  O_CLOEXEC := 0x1000000; O_NOFOLLOW := 0x100; O_PATH := 0; O_EVTONLY := 0x8000;
  O_SYMLINK := 0x200000; O_TRUNC := 0x400; O_APPEND := 0x8; O_TMPFILE_BIT := 0;
  AT_SYMLINK_NOFOLLOW := 0x20; AT_REMOVEDIR := 0x80; AT_EMPTY_PATH := 0; UTIME_OMIT := -2;
  MODE_T_BITS := 16;
  POLLIN := 1; POLLHUP := 16; POLLERR := 8;
|}.
