(* ===== verification/Errors.v ===== *)
(** * Errors

    The error types of both crates ([riftlessfs-core/src/error.rs], [riftlessfs-proto/src/error.rs],
    [VirtqueueError]) and the translation of host error numbers into the Linux numbers the FUSE
    wire format carries ([fuse/linux_errno.rs]). *)

From S2P Require Import Prelude Libc.
From Stdlib Require Strings.String.
Export String.StringSyntax.
Delimit Scope string_scope with string.
Bind Scope string_scope with String.string.
Local Open Scope Z_scope.

(** [std::io::Error]: an operating-system error number, or an error built in the program. *)
Inductive io_error :=
| Os (errno : Z)
| Custom (what : String.string).

Definition raw_os_error (e : io_error) : option Z :=
  match e with
  | Os n => Some n
  | Custom _ => None
  end.

(** A call whose failure becomes [io::Error::last_os_error()]. *)
Definition os_call {W A} (call : W → (A + Z) * W) : M W io_error A := λ w,
  let '(r, w) := call w in
  (match r with inl a => Ok a | inr e => Err (Os e) end, w).

Inductive FsError :=
| Io (errno : Z) (source : io_error)
| UnknownInode (id : Z)
| UnknownHandle (id : Z)
| Unsupported (what : String.string)
| InvalidArgument (what : String.string)
| NameTooLong
| PathEscape.

Inductive VirtqueueError :=
| OutOfBounds
| ChainTooLong
| IndirectUnsupported.

Inductive ProtoError :=
| PIo (source : io_error)
| UnknownRequest (code : Z)
| Truncated
| Disconnected
| PayloadTooLarge (size : Z)
| MissingFd
| PVirtqueue (e : VirtqueueError).

Section WithLibc.
Context `{Libc}.

Definition FsError_errno (e : FsError) : Z :=
  match e with
  | Io errno _ => errno
  | UnknownInode _ => errno_val EBADF
  | UnknownHandle _ => errno_val EBADF
  | Unsupported _ => errno_val ENOSYS
  | InvalidArgument _ => errno_val EINVAL
  | NameTooLong => errno_val ENAMETOOLONG
  | PathEscape => errno_val EACCES
  end.

(** [impl From<io::Error> for FsError]. *)
Definition FsError_from_io (source : io_error) : FsError :=
  Io (default (errno_val EIO) (raw_os_error source)) source.

(** [impl From<nix::Error> for FsError]: a [nix] error is an error number. *)
Definition FsError_from_nix (e : Z) : FsError := Io e (Os e).

(** The arms of the [match] in [to_linux_errno], in source order: the host names an arm tests
    and the Linux number it returns. *)
Definition errno_arms : list (list Errno * Z) :=
  [([EPERM], 1); ([ENOENT], 2); ([ESRCH], 3); ([EINTR], 4); ([EIO], 5); ([ENXIO], 6);
   ([E2BIG], 7); ([ENOEXEC], 8); ([EBADF], 9); ([ECHILD], 10); ([EAGAIN], 11); ([ENOMEM], 12);
   ([EACCES], 13); ([EFAULT], 14); ([EBUSY], 16); ([EEXIST], 17); ([EXDEV], 18); ([ENODEV], 19);
   ([ENOTDIR], 20); ([EISDIR], 21); ([EINVAL], 22); ([ENFILE], 23); ([EMFILE], 24);
   ([ENOTTY], 25); ([ETXTBSY], 26); ([EFBIG], 27); ([ENOSPC], 28); ([ESPIPE], 29); ([EROFS], 30);
   ([EMLINK], 31); ([EPIPE], 32); ([EDOM], 33); ([ERANGE], 34); ([EDEADLK], 35);
   ([ENAMETOOLONG], 36); ([ENOLCK], 37); ([ENOSYS], 38); ([ENOTEMPTY], 39); ([ELOOP], 40);
   ([ENOMSG], 42); ([EIDRM], 43); ([EOVERFLOW], 75); ([EBADMSG], 74); ([EILSEQ], 84);
   ([ENOTSOCK], 88); ([EDESTADDRREQ], 89); ([EMSGSIZE], 90); ([EPROTOTYPE], 91);
   ([ENOPROTOOPT], 92); ([EPROTONOSUPPORT], 93); ([ENOTSUP; EOPNOTSUPP], 95);
   ([EAFNOSUPPORT], 97); ([EADDRINUSE], 98); ([EADDRNOTAVAIL], 99); ([ENETDOWN], 100);
   ([ENETUNREACH], 101); ([ENETRESET], 102); ([ECONNABORTED], 103); ([ECONNRESET], 104);
   ([ENOBUFS], 105); ([EISCONN], 106); ([ENOTCONN], 107); ([ETIMEDOUT], 110);
   ([ECONNREFUSED], 111); ([EHOSTUNREACH], 113); ([EALREADY], 114); ([EINPROGRESS], 115);
   ([ESTALE], 116); ([EDQUOT], 122); ([ECANCELED], 125)].

Definition to_linux_errno (host_errno : Z) : Z :=
  match List.find (λ arm, existsb (λ n, host_errno =? errno_val n) arm.1) errno_arms with
  | Some arm => arm.2
  | None => 5
  end.

Definition fs_error_to_linux_errno (e : FsError) : Z := to_linux_errno (FsError_errno e).

(** Host names that share a number on the host share one on Linux: documented of both hosts
    ([EAGAIN]/[EWOULDBLOCK] and [ENOTSUP]/[EOPNOTSUPP] are the only POSIX aliases). *)
Definition errno_coherent : Prop :=
  ∀ n m, errno_val n = errno_val m → linux_errno n = linux_errno m.
End WithLibc.

(** * Lemmas *)

Section Lemmas.
Context `{Libc}.

Lemma errno_arms_numbers : Forall (λ arm, 1 ≤ arm.2 ≤ 125) errno_arms.
Proof. repeat constructor; simpl; lia. Qed.

(** Every name is tested by an arm, and every arm that tests a name returns its Linux number. *)
Lemma errno_arms_complete n : ∃ arm, arm ∈ errno_arms ∧ n ∈ arm.1.
Proof.
  assert (n ∈ concat (errno_arms.*1)) as Hn.
  { apply (bool_decide_unpack (n ∈ concat (errno_arms.*1))). destruct n; vm_compute; exact I. }
  apply list_elem_of_In, in_concat in Hn as (ns & Hns & Hn).
  apply list_elem_of_In, list_elem_of_fmap in Hns as (arm & -> & Harm).
  exists arm. split; [done|]. by apply list_elem_of_In.
Qed.

Lemma errno_arms_sound arm n : arm ∈ errno_arms → n ∈ arm.1 → arm.2 = linux_errno n.
Proof.
  assert (Forall (λ arm, Forall (λ n, arm.2 = linux_errno n) arm.1) errno_arms) as Hall.
  { repeat constructor. }
  rewrite Forall_forall in Hall. intros Harm Hn. specialize (Hall _ Harm).
  rewrite Forall_forall in Hall. by apply Hall.
Qed.

Lemma to_linux_errno_range e : 1 ≤ to_linux_errno e ≤ 125.
Proof.
  unfold to_linux_errno. destruct (List.find _ _) as [arm|] eqn:Hf; [|lia].
  apply List.find_some in Hf as [Hin _]. pose proof errno_arms_numbers as Hall.
  rewrite Forall_forall in Hall. by apply Hall, list_elem_of_In.
Qed.

Lemma to_linux_errno_name n : errno_coherent → to_linux_errno (errno_val n) = linux_errno n.
Proof.
  intros Hco. unfold to_linux_errno. destruct (List.find _ _) as [arm|] eqn:Hf.
  - apply List.find_some in Hf as [Hin [m [Hm Hnm]]%existsb_exists]. to_prop.
    rewrite (Hco _ _ Hnm). apply errno_arms_sound; by apply list_elem_of_In.
  - exfalso. destruct (errno_arms_complete n) as (arm & Harm & Hn).
    apply list_elem_of_In in Harm, Hn. apply (List.find_none _ _ Hf) in Harm.
    rewrite <- not_true_iff_false in Harm. apply Harm, existsb_exists.
    exists n. split; [done|]. apply Z.eqb_refl.
Qed.

Lemma to_linux_errno_other e : (∀ n, e ≠ errno_val n) → to_linux_errno e = 5.
Proof.
  intros Hn. unfold to_linux_errno. destruct (List.find _ _) as [arm|] eqn:Hf; [|done].
  apply List.find_some in Hf as [_ [m [_ Hm]]%existsb_exists]. to_prop. by destruct (Hn m).
Qed.
End Lemmas.

Lemma linux_coherent : errno_coherent (H := linux_libc).
Proof. intros n m Hnm. exact Hnm. Qed.

Lemma macos_coherent : errno_coherent (H := macos_libc).
Proof.
  assert (∀ n, linux_errno n = to_linux_errno (H := macos_libc) (macos_errno n)) as Hn.
  { intros n. destruct n; vm_compute; reflexivity. }
  intros n m Hnm. change (macos_errno n = macos_errno m) in Hnm. by rewrite (Hn n), (Hn m), Hnm.
Qed.

(** * Properties *)

(** C35: the error numbers on the wire are Linux's.  For each of the seventy-one error names of the
    table, and any numbering by the host in which names that share a number share one on Linux,
    the host's number of a name is translated to Linux's number of it; every other number becomes
    [EIO]. *)
Theorem to_linux_errno_correct `{Libc} (e : Z) :
  errno_coherent →
  (∀ n, e = errno_val n → to_linux_errno e = linux_errno n) ∧
  ((∀ n, e ≠ errno_val n) → to_linux_errno e = linux_errno EIO).
Proof.
  intros Hco. split; [intros n ->; by apply to_linux_errno_name|by apply to_linux_errno_other].
Qed.

(** On macOS [ENOSYS] is 78 and must go out as Linux's 38. *)
Lemma to_linux_errno_correct_witness :
  to_linux_errno (H := macos_libc) 78 = 38.
Proof. exact (proj1 (to_linux_errno_correct (H := macos_libc) 78 macos_coherent) ENOSYS eq_refl). Defined.

(** An error is never sent as a success.  Every host error number, known or not, becomes a
    Linux number between 1 and 125, and a number outside the table becomes [EIO]. *)
Theorem to_linux_errno_total `{Libc} (e : FsError) :
  1 ≤ fs_error_to_linux_errno e ≤ 125 ∧
  ((∀ n, FsError_errno e ≠ errno_val n) → fs_error_to_linux_errno e = 5).
Proof.
  unfold fs_error_to_linux_errno. split; [apply to_linux_errno_range|apply to_linux_errno_other].
Qed.

(** The comment in [to_linux_errno] says that on Linux the function is the identity.  It is
    on the numbers of the table, and on no other except 5: a Linux [ENODATA] (61), say, reaches
    the guest as [EIO]. *)
Theorem to_linux_errno_on_linux (e : Z) :
  to_linux_errno (H := linux_libc) e = e ↔ ∃ n, e = linux_errno n.
Proof.
  split.
  - unfold to_linux_errno. destruct (List.find _ _) as [arm|] eqn:Hf; intros He.
    + apply List.find_some in Hf as [_ [m [_ Hm]]%existsb_exists]. to_prop. eauto.
    + exists EIO. done.
  - intros [n ->]. apply (to_linux_errno_name (H := linux_libc)), linux_coherent.
Qed.
