(* ===== verification/Bytes.v ===== *)
(** * The little-endian cursor reader and writer

    [fuse/bytes.rs].  A [Reader] is a buffer and a position; each read either advances the
    position or fails with [Truncated] and leaves it where it was.  A [Writer] is the buffer
    written so far. *)

From S2P Require Import Prelude Libc Errors.
Local Open Scope nat_scope.

Record Reader := mkReader { rd_buf : bytes; rd_pos : nat }.

Definition Reader_new (buf : bytes) : Reader := mkReader buf 0.

(** [<[u8; n]>::try_from(slice).unwrap()]. *)
Definition to_array {E} (n : nat) (s : bytes) : outcome E bytes :=
  if length s =? n then Ok s else Panic.

(** [&buf[a..]]. *)
Definition slice_from {E} (buf : bytes) (a : nat) : outcome E bytes :=
  if a <=? length buf then Ok (drop a buf) else Panic.

Definition Reader_take (n : nat) : M Reader ProtoError bytes := λ r,
  if (2 ^ 64 <=? Z.of_nat (rd_pos r) + Z.of_nat n)%Z then (Err Truncated, r)
  else match get_range (rd_buf r) (rd_pos r) (rd_pos r + n) with
       | None => (Err Truncated, r)
       | Some s => (Ok s, mkReader (rd_buf r) (rd_pos r + n))
       end.

Definition Reader_u16 : M Reader ProtoError Z :=
  s ← Reader_take 2; a ← lift (to_array 2 s); mret (le_combine a).
Definition Reader_u32 : M Reader ProtoError Z :=
  s ← Reader_take 4; a ← lift (to_array 4 s); mret (le_combine a).
Definition Reader_i32 : M Reader ProtoError Z :=
  s ← Reader_take 4; a ← lift (to_array 4 s); mret (as_i32 (le_combine a)).
Definition Reader_u64 : M Reader ProtoError Z :=
  s ← Reader_take 8; a ← lift (to_array 8 s); mret (le_combine a).

Definition Reader_skip (n : nat) : M Reader ProtoError unit :=
  _ ← Reader_take n; mret tt.

Definition Reader_remaining : M Reader ProtoError bytes := λ r,
  (slice_from (rd_buf r) (rd_pos r), r).

Definition Reader_cstr : M Reader ProtoError bytes := λ r,
  match slice_from (rd_buf r) (rd_pos r) with
  | Ok rest =>
      match position NUL rest with
      | None => (Err Truncated, r)
      | Some nul => (Ok (take nul rest), mkReader (rd_buf r) (rd_pos r + (nul + 1)))
      end
  | Err e => (Err e, r)
  | Panic => (Panic, r)
  end.

(** Run a parser over a whole buffer, as every [from_bytes] does. *)
Definition parse {A} (m : M Reader ProtoError A) (buf : bytes) : outcome ProtoError A :=
  (m (Reader_new buf)).1.

Record Writer := mkWriter { w_buf : bytes }.

Definition Writer_new : Writer := mkWriter [].
Definition Writer_u16 (v : Z) (w : Writer) : Writer := mkWriter (w_buf w ++ u16_le v).
Definition Writer_u32 (v : Z) (w : Writer) : Writer := mkWriter (w_buf w ++ u32_le v).
Definition Writer_i32 (v : Z) (w : Writer) : Writer := mkWriter (w_buf w ++ u32_le v).
Definition Writer_u64 (v : Z) (w : Writer) : Writer := mkWriter (w_buf w ++ u64_le v).
Definition Writer_bytes (b : bytes) (w : Writer) : Writer := mkWriter (w_buf w ++ b).
Definition Writer_cstr (s : bytes) (w : Writer) : Writer := mkWriter (w_buf w ++ s ++ [NUL]).
Definition Writer_pad_to (len : nat) (w : Writer) : Writer :=
  if length (w_buf w) <? len
  then mkWriter (w_buf w ++ replicate (len - length (w_buf w)) NUL)
  else w.
Definition Writer_len (w : Writer) : nat := length (w_buf w).
Definition Writer_is_empty (w : Writer) : bool := Writer_len w =? 0.
Definition Writer_into_vec (w : Writer) : bytes := w_buf w.

(** The methods return [&mut Self] and are chained. *)
Notation "w |> f" := (f w) (at level 51, left associativity, only parsing) : rust_scope.

(** A Rust slice is never longer than [isize::MAX] bytes. *)
Definition slice_ok (buf : bytes) : Prop := (Z.of_nat (length buf) < 2 ^ 63)%Z.

(** The [n]-byte little-endian integer at byte offset [off]: how the kernel headers describe a
    structure, and the reference the parsers are compared with. *)
Definition field (n off : nat) (buf : bytes) : Z := le_combine (take n (drop off buf)).

(** * Lemmas *)

Lemma M_bind_run {S E A B} (m : M S E A) (k : A → M S E B) s :
  (m ≫= k) s = match m s with
               | (Ok a, s') => k a s'
               | (Err e, s') => (Err e, s')
               | (Panic, s') => (Panic, s')
               end.
Proof. done. Qed.

Create Rewrite HintDb len.
#[export] Hint Rewrite u16_le_length u32_le_length u64_le_length @length_app @length_replicate
  @length_take @length_drop @length_cons @length_nil : len.

(** Lengths of concatenations of encoded fields. *)
Ltac len := autorewrite with len in *; simpl in *; try first [lia | done].

Lemma field_range n off buf w :
  (w = 8 * Z.of_nat n)%Z → off + n ≤ length buf → is_uint w (field n off buf).
Proof. intros -> Hl. apply le_combine_uint. rewrite length_take, length_drop. lia. Qed.

Lemma field_app_l n off l1 l2 :
  off + n ≤ length l1 → field n off (l1 ++ l2) = field n off l1.
Proof.
  intros. unfold field. rewrite drop_app_le, take_app_le by (rewrite ?length_drop; lia). done.
Qed.

Lemma field_app_r n off l1 l2 :
  length l1 ≤ off → field n off (l1 ++ l2) = field n (off - length l1) l2.
Proof. intros. unfold field. by rewrite drop_app_ge. Qed.

Lemma field_le_split n v l : field n 0 (le_split n v ++ l) = wrap (8 * Z.of_nat n) v.
Proof.
  unfold field. rewrite drop_0, take_app_length' by (by rewrite length_le_split).
  rewrite le_combine_split. by rewrite Z.mul_comm.
Qed.

(** A field that starts before the end of the first encoded piece is that piece. *)
Lemma field_u16 off v l : off = 0 → field 2 off (u16_le v ++ l) = as_u16 v.
Proof. intros ->. rewrite u16_le_split. apply field_le_split. Qed.
Lemma field_u32 off v l : off = 0 → field 4 off (u32_le v ++ l) = as_u32 v.
Proof. intros ->. rewrite u32_le_split. apply field_le_split. Qed.
Lemma field_u64 off v l : off = 0 → field 8 off (u64_le v ++ l) = as_u64 v.
Proof. intros ->. rewrite u64_le_split. apply field_le_split. Qed.
Lemma field_u16_end off v : off = 0 → field 2 off (u16_le v) = as_u16 v.
Proof. rewrite <- (app_nil_r (u16_le v)). apply field_u16. Qed.
Lemma field_u32_end off v : off = 0 → field 4 off (u32_le v) = as_u32 v.
Proof. rewrite <- (app_nil_r (u32_le v)). apply field_u32. Qed.
Lemma field_u64_end off v : off = 0 → field 8 off (u64_le v) = as_u64 v.
Proof. rewrite <- (app_nil_r (u64_le v)). apply field_u64. Qed.

(** Compute the fields of a concatenation of encoded values. *)
Ltac fields :=
  repeat first
    [ rewrite field_u16 by len | rewrite field_u32 by len | rewrite field_u64 by len
    | rewrite field_u16_end by len | rewrite field_u32_end by len | rewrite field_u64_end by len
    | rewrite field_app_r by len ];
  repeat (rewrite ?u16_le_length, ?u32_le_length, ?u64_le_length; simpl).

(** The bytes a chain of writes produces. *)
Ltac writes :=
  unfold Writer_into_vec, Writer_bytes, Writer_cstr, Writer_u16, Writer_u32, Writer_i32, Writer_u64,
    Writer_new; cbn [w_buf]; rewrite ?app_nil_l; rewrite <- ?app_assoc.

(** ** Reads as functions of the buffer and the position *)

Section Reads.
Context (buf : bytes) (Hbuf : slice_ok buf).

Lemma Reader_take_at p n : p ≤ length buf →
  Reader_take n (mkReader buf p) =
    if decide (p + n ≤ length buf) then (Ok (take n (drop p buf)), mkReader buf (p + n))
    else (Err Truncated, mkReader buf p).
Proof.
  intros Hp. unfold Reader_take; simpl. destruct (Z.leb_spec (2 ^ 64) (Z.of_nat p + Z.of_nat n)).
  - rewrite decide_False; [done|]. unfold slice_ok in Hbuf. lia.
  - unfold get_range. rewrite (proj2 (Nat.leb_le p (p + n))) by lia. simpl.
    case_decide as Hd.
    + rewrite (proj2 (Nat.leb_le _ _) Hd). by rewrite Nat.add_comm, Nat.add_sub.
    + by rewrite (proj2 (Nat.leb_gt _ _)) by lia.
Qed.

Lemma Reader_int_at {A} (f : Z → A) p n : p ≤ length buf →
  (s ← Reader_take n; a ← lift (to_array n s); mret (f (le_combine a))) (mkReader buf p) =
    if decide (p + n ≤ length buf) then (Ok (f (field n p buf)), mkReader buf (p + n))
    else (Err Truncated, mkReader buf p).
Proof.
  intros Hp. rewrite M_bind_run, Reader_take_at by done. case_decide; [|done].
  unfold to_array, lift, mbind, M_bind.
  rewrite (proj2 (Nat.eqb_eq (length (take n (drop p buf))) n)); [done|].
  rewrite length_take, length_drop. lia.
Qed.

Lemma Reader_u16_at p : p ≤ length buf →
  Reader_u16 (mkReader buf p) =
    if decide (p + 2 ≤ length buf) then (Ok (field 2 p buf), mkReader buf (p + 2))
    else (Err Truncated, mkReader buf p).
Proof. apply (Reader_int_at (λ z, z)). Qed.

Lemma Reader_u32_at p : p ≤ length buf →
  Reader_u32 (mkReader buf p) =
    if decide (p + 4 ≤ length buf) then (Ok (field 4 p buf), mkReader buf (p + 4))
    else (Err Truncated, mkReader buf p).
Proof. apply (Reader_int_at (λ z, z)). Qed.

Lemma Reader_i32_at p : p ≤ length buf →
  Reader_i32 (mkReader buf p) =
    if decide (p + 4 ≤ length buf) then (Ok (as_i32 (field 4 p buf)), mkReader buf (p + 4))
    else (Err Truncated, mkReader buf p).
Proof. apply Reader_int_at. Qed.

Lemma Reader_u64_at p : p ≤ length buf →
  Reader_u64 (mkReader buf p) =
    if decide (p + 8 ≤ length buf) then (Ok (field 8 p buf), mkReader buf (p + 8))
    else (Err Truncated, mkReader buf p).
Proof. apply (Reader_int_at (λ z, z)). Qed.

Lemma Reader_skip_at p n : p ≤ length buf →
  Reader_skip n (mkReader buf p) =
    if decide (p + n ≤ length buf) then (Ok tt, mkReader buf (p + n))
    else (Err Truncated, mkReader buf p).
Proof.
  intros Hp. unfold Reader_skip. rewrite M_bind_run, Reader_take_at by done. by case_decide.
Qed.

Lemma Reader_remaining_at p : p ≤ length buf →
  Reader_remaining (mkReader buf p) = (Ok (drop p buf), mkReader buf p).
Proof.
  intros. unfold Reader_remaining, slice_from; simpl. by rewrite (proj2 (Nat.leb_le _ _)).
Qed.

Lemma Reader_cstr_at p : p ≤ length buf →
  Reader_cstr (mkReader buf p) =
    match position NUL (drop p buf) with
    | Some nul => (Ok (take nul (drop p buf)), mkReader buf (p + (nul + 1)))
    | None => (Err Truncated, mkReader buf p)
    end.
Proof.
  intros. unfold Reader_cstr, slice_from; simpl. by rewrite (proj2 (Nat.leb_le _ _)).
Qed.
End Reads.

(** Execute a parser symbolically: [Hbuf : slice_ok buf] is in the context, every test on the
    length of the buffer becomes a case. *)
Ltac rd_step Hbuf :=
  rewrite M_bind_run;
  first
    [ rewrite (Reader_u32_at _ Hbuf) by lia | rewrite (Reader_u64_at _ Hbuf) by lia
    | rewrite (Reader_u16_at _ Hbuf) by lia | rewrite (Reader_i32_at _ Hbuf) by lia
    | rewrite (Reader_skip_at _ Hbuf) by lia ];
  case_decide; [|].
Ltac rd_run Hbuf :=
  unfold parse, Reader_new;
  repeat (rd_step Hbuf; [simpl|try (simpl; first [done | lia])]).

Lemma cstr_roundtrip s l p buf :
  slice_ok buf → drop p buf = s ++ NUL :: l → p ≤ length buf → NUL ∉ s →
  Reader_cstr (mkReader buf p) = (Ok s, mkReader buf (p + (length s + 1))).
Proof.
  intros Hbuf Hd Hp Hs. rewrite Reader_cstr_at by done. rewrite Hd, position_app by done.
  by rewrite take_app_length.
Qed.

(** ** Parsers never panic and consume what they need *)

Section Total.
Context (buf : bytes) (Hbuf : slice_ok buf).

Definition at_least (k : nat) (r : Reader) : Prop :=
  rd_buf r = buf ∧ k ≤ rd_pos r ≤ length buf.

Lemma total_take n k :
  ⟪ at_least k ⟫ Reader_take n ⤳ (λ s r, at_least (k + n) r ∧ length s = n) ⊘ (λ _ _, True).
Proof.
  intros [b p] [Hb Hp]. simpl in *. subst b. rewrite Reader_take_at by (done || lia).
  case_decide; [|done]. split; [split; simpl; [done|lia]|]. rewrite length_take, length_drop. lia.
Qed.

Lemma total_int {A} (f : Z → A) n k :
  ⟪ at_least k ⟫ (s ← Reader_take n; a ← lift (to_array n s); mret (f (le_combine a)))
  ⤳ (λ a r, at_least (k + n) r ∧ ∃ v, a = f v ∧ is_uint (8 * Z.of_nat n) v) ⊘ (λ _ _, True).
Proof.
  intros [b p] [Hb Hp]. simpl in *. subst b. rewrite Reader_int_at by (done || lia).
  case_decide; [|done]. split; [split; simpl; [done|lia]|]. eexists. split; [done|].
  apply le_combine_uint. rewrite length_take, length_drop. lia.
Qed.

Lemma total_u32 k :
  ⟪ at_least k ⟫ Reader_u32 ⤳ (λ v r, at_least (k + 4) r ∧ is_uint 32 v) ⊘ (λ _ _, True).
Proof.
  eapply triple_weaken; [apply (total_int (λ z, z) 4 k)|done| |done]. by intros a s [? (v & -> & ?)].
Qed.

Lemma total_u64 k :
  ⟪ at_least k ⟫ Reader_u64 ⤳ (λ v r, at_least (k + 8) r ∧ is_uint 64 v) ⊘ (λ _ _, True).
Proof.
  eapply triple_weaken; [apply (total_int (λ z, z) 8 k)|done| |done]. by intros a s [? (v & -> & ?)].
Qed.

Lemma total_skip n k :
  ⟪ at_least k ⟫ Reader_skip n ⤳ (λ _, at_least (k + n)) ⊘ (λ _ _, True).
Proof.
  eapply triple_bind; [apply total_take|]. intros s. apply triple_ret. by intros r [? _].
Qed.

Lemma total_remaining k :
  ⟪ at_least k ⟫ Reader_remaining ⤳ (λ _, at_least k) ⊘ (λ _ _, True).
Proof.
  intros [b p] [Hb Hp]. simpl in Hb, Hp. subst b. rewrite Reader_remaining_at by lia. by split.
Qed.

Lemma total_cstr k :
  ⟪ at_least k ⟫ Reader_cstr ⤳ (λ _, at_least (k + 1)) ⊘ (λ _ _, True).
Proof.
  intros [b p] [Hb Hp]. simpl in Hb, Hp. subst b. rewrite Reader_cstr_at by lia.
  destruct (position NUL (drop p buf)) as [n|] eqn:Hn; [|done].
  apply position_Some in Hn as (_ & _ & Hn). rewrite length_drop in Hn. split; simpl; [done|lia].
Qed.

(** A parser with these guarantees over a whole buffer. *)
Lemma parse_total {A} (m : M Reader ProtoError A) k (V : A → Prop) :
  ⟪ at_least 0 ⟫ m ⤳ (λ a r, at_least k r ∧ V a) ⊘ (λ _ _, True) →
  parse m buf ≠ Panic ∧ ∀ a, parse m buf = Ok a → k ≤ length buf ∧ V a.
Proof.
  intros Hm. unfold parse. specialize (Hm (Reader_new buf)).
  assert (at_least 0 (Reader_new buf)) as H0 by (split; simpl; [done|lia]).
  specialize (Hm H0). destruct (m (Reader_new buf)) as [[a|e|] r]; simpl; [|by split..|done].
  split; [done|]. intros a' [= <-]. destruct Hm as [[? ?] ?]. split; [lia|done].
Qed.
End Total.

(** Chain the guarantees over a parser. *)
Ltac rd_total_step Hbuf :=
  first
    [ eapply triple_bind_pure;
      [first [apply (total_u32 _ Hbuf) | apply (total_u64 _ Hbuf)]|intros ? ?; cbn beta]
    | eapply triple_bind;
      [first [apply (total_skip _ Hbuf) | apply total_cstr | apply total_remaining]
      |intros ?; cbn beta] ].
Ltac rd_total Hbuf := repeat rd_total_step Hbuf; apply triple_ret; intros ? ?; split; [done|].
