(* ===== verification/Attr.v ===== *)
(** * File attributes and kinds

    [attr.rs] and the [FileKind] of [inode.rs].  [stat] is the part of [libc::stat] the sources
    read; its fields have the signed and unsigned widths of the platform and are cast. *)

From S2P Require Import Prelude Libc Errors Bytes.
Local Open Scope Z_scope.

Record stat := mkStat {
  st_dev : Z; st_ino : Z; st_mode : Z; st_nlink : Z; st_uid : Z; st_gid : Z; st_rdev : Z;
  st_size : Z; st_blocks : Z; st_blksize : Z;
  st_atime : Z; st_atime_nsec : Z; st_mtime : Z; st_mtime_nsec : Z; st_ctime : Z; st_ctime_nsec : Z;
}.

(** [attr.rs] has its own copies of the file-type bits. *)
Module Mode.
Definition S_IFMT : Z := 0xf000.
Definition S_IFDIR : Z := 0x4000.
Definition S_IFLNK : Z := 0xa000.
Definition S_IFREG : Z := 0x8000.
End Mode.

Record Attr := mkAttr {
  a_ino : Z; a_size : Z; a_blocks : Z;
  a_atime : Z * Z; a_mtime : Z * Z; a_ctime : Z * Z;
  a_mode : Z; a_nlink : Z; a_uid : Z; a_gid : Z; a_rdev : Z; a_blksize : Z;
}.

Definition Attr_from_stat (st : stat) : Attr := {|
  a_ino := st_ino st;
  a_size := as_u64 (st_size st);
  a_blocks := as_u64 (st_blocks st);
  a_atime := (st_atime st, as_u32 (st_atime_nsec st));
  a_mtime := (st_mtime st, as_u32 (st_mtime_nsec st));
  a_ctime := (st_ctime st, as_u32 (st_ctime_nsec st));
  a_mode := as_u32 (st_mode st);
  a_nlink := as_u32 (st_nlink st);
  a_uid := st_uid st;
  a_gid := st_gid st;
  a_rdev := as_u32 (st_rdev st);
  a_blksize := as_u32 (st_blksize st);
|}.

Definition Attr_is_dir (a : Attr) : bool := Z.land (a_mode a) Mode.S_IFMT =? Mode.S_IFDIR.
Definition Attr_is_symlink (a : Attr) : bool := Z.land (a_mode a) Mode.S_IFMT =? Mode.S_IFLNK.
Definition Attr_is_regular (a : Attr) : bool := Z.land (a_mode a) Mode.S_IFMT =? Mode.S_IFREG.

Record SetAttr := mkSetAttr {
  sa_size : option Z; sa_mode : option Z; sa_uid : option Z; sa_gid : option Z;
  sa_atime : option (Z * Z); sa_mtime : option (Z * Z);
}.

Definition SetAttr_default : SetAttr := mkSetAttr None None None None None None.

Inductive FileKind := Dir | Symlink | Regular | Other.

#[export] Instance FileKind_eq_dec : EqDecision FileKind.
Proof. solve_decision. Defined.

Definition FileKind_from_mode `{Libc} (mode : Z) : FileKind :=
  let m := Z.land mode S_IFMT in
  if m =? S_IFDIR then Dir
  else if m =? S_IFLNK then Symlink
  else if m =? S_IFREG then Regular
  else Other.

(** The fields of an [Attr] are within the widths of their Rust types. *)
Record Attr_ok (a : Attr) : Prop := {
  ok_ino : is_uint 64 (a_ino a);
  ok_size : is_uint 64 (a_size a);
  ok_blocks : is_uint 64 (a_blocks a);
  ok_atime : -2 ^ 63 ≤ (a_atime a).1 < 2 ^ 63 ∧ is_uint 32 (a_atime a).2;
  ok_mtime : -2 ^ 63 ≤ (a_mtime a).1 < 2 ^ 63 ∧ is_uint 32 (a_mtime a).2;
  ok_ctime : -2 ^ 63 ≤ (a_ctime a).1 < 2 ^ 63 ∧ is_uint 32 (a_ctime a).2;
  ok_mode : is_uint 32 (a_mode a);
  ok_nlink : is_uint 32 (a_nlink a);
  ok_uid : is_uint 32 (a_uid a);
  ok_gid : is_uint 32 (a_gid a);
  ok_rdev : is_uint 32 (a_rdev a);
  ok_blksize : is_uint 32 (a_blksize a);
}.

(** The widths of the [libc::stat] fields that [from_stat] copies without a cast. *)
Record stat_ok (st : stat) : Prop := {
  st_ok_ino : is_uint 64 (st_ino st);
  st_ok_atime : -2 ^ 63 ≤ st_atime st < 2 ^ 63;
  st_ok_mtime : -2 ^ 63 ≤ st_mtime st < 2 ^ 63;
  st_ok_ctime : -2 ^ 63 ≤ st_ctime st < 2 ^ 63;
  st_ok_uid : is_uint 32 (st_uid st);
  st_ok_gid : is_uint 32 (st_gid st);
}.

(** * Lemmas *)

Lemma Attr_from_stat_ok st : stat_ok st → Attr_ok (Attr_from_stat st).
Proof.
  intros []. split; simpl; auto; try (split; auto); by apply wrap_range.
Qed.

(** The three predicates of [Attr] classify a mode as [FileKind::from_mode] does, on a host with
    POSIX's file-type bits. *)
Lemma FileKind_from_mode_Attr `{Libc} st :
  S_IFMT = Mode.S_IFMT → S_IFDIR = Mode.S_IFDIR → S_IFLNK = Mode.S_IFLNK →
  S_IFREG = Mode.S_IFREG → is_uint 32 (st_mode st) →
  FileKind_from_mode (st_mode st) =
    if Attr_is_dir (Attr_from_stat st) then Dir
    else if Attr_is_symlink (Attr_from_stat st) then Symlink
    else if Attr_is_regular (Attr_from_stat st) then Regular else Other.
Proof.
  intros H1 H2 H3 H4 Hm. unfold FileKind_from_mode, Attr_is_dir, Attr_is_symlink, Attr_is_regular.
  simpl. unfold as_u32. rewrite wrap_id by done. by rewrite H1, H2, H3, H4.
Qed.

(** A file status with the given number and mode, for concrete examples. *)
Definition sample_stat (ino mode : Z) : stat :=
  mkStat 1 ino mode 1 0 0 0 0 0 4096 0 0 0 0 0 0.
