(* ===== verification/Wire.v ===== *)
(** * FUSE wire structures

    [fuse/wire.rs]: the request structures and their parsers, the reply structures and their
    encoders, the opcodes, and [READDIR]'s directory entries. *)

From S2P Require Import Prelude Libc Errors Bytes Attr.
Local Open Scope Z_scope.

Definition IN_HEADER_LEN : nat := 40.
Definition OUT_HEADER_LEN : nat := 16.
Definition INIT_OUT_MINOR : Z := 31.
Definition INIT_OUT_LEN : nat := 64.

(** ** Headers *)

Record InHeader := mkInHeader {
  ih_len : Z; ih_opcode : Z; ih_unique : Z; ih_nodeid : Z; ih_uid : Z; ih_gid : Z; ih_pid : Z;
}.

Definition InHeader_from_bytes : bytes → outcome ProtoError InHeader := parse (
  len ← Reader_u32;
  opcode ← Reader_u32;
  unique ← Reader_u64;
  nodeid ← Reader_u64;
  uid ← Reader_u32;
  gid ← Reader_u32;
  pid ← Reader_u32;
  _ ← Reader_skip 4;
  mret (mkInHeader len opcode unique nodeid uid gid pid)).

Definition InHeader_body (buf : bytes) : bytes := drop (min IN_HEADER_LEN (length buf)) buf.

Definition OutHeader_reply (unique error : Z) (body : bytes) : bytes :=
  let body := if error =? 0 then body else [] in
  Writer_into_vec (Writer_new
    |> Writer_u32 (as_u32 (Z.of_nat (OUT_HEADER_LEN + length body)))
    |> Writer_i32 error
    |> Writer_u64 unique
    |> Writer_bytes body).

Definition OutHeader_error_for `{Libc} (unique host_errno : Z) : bytes :=
  OutHeader_reply unique (- to_linux_errno host_errno) [].

Definition OutHeader_success_header_only (unique total_len : Z) : bytes :=
  Writer_into_vec (Writer_new
    |> Writer_u32 total_len
    |> Writer_i32 0
    |> Writer_u64 unique).

(** ** Opcodes *)

Inductive Opcode :=
| OpLookup | OpForget | OpGetattr | OpSetattr | OpReadlink | OpSymlink | OpMkdir | OpUnlink
| OpRmdir | OpRename | OpLink | OpOpen | OpRead | OpWrite | OpStatfs | OpRelease | OpFsync
| OpGetxattr | OpListxattr | OpSetxattr | OpRemovexattr | OpFlush | OpInit | OpOpendir
| OpReaddir | OpReleasedir | OpFsyncdir | OpAccess | OpCreate | OpDestroy | OpBatchForget
| OpRename2 | OpUnknown (v : Z).

#[export] Instance Opcode_eq_dec : EqDecision Opcode.
Proof. solve_decision. Defined.

Definition Opcode_from (v : Z) : Opcode :=
  match v with
  | 1 => OpLookup | 2 => OpForget | 3 => OpGetattr | 4 => OpSetattr | 5 => OpReadlink
  | 6 => OpSymlink | 9 => OpMkdir | 10 => OpUnlink | 11 => OpRmdir | 12 => OpRename
  | 13 => OpLink | 14 => OpOpen | 15 => OpRead | 16 => OpWrite | 17 => OpStatfs
  | 18 => OpRelease | 20 => OpFsync | 21 => OpSetxattr | 22 => OpGetxattr | 23 => OpListxattr
  | 24 => OpRemovexattr | 25 => OpFlush | 26 => OpInit | 27 => OpOpendir | 28 => OpReaddir
  | 29 => OpReleasedir | 30 => OpFsyncdir | 34 => OpAccess | 35 => OpCreate | 38 => OpDestroy
  | 42 => OpBatchForget | 45 => OpRename2
  | other => OpUnknown other
  end.

(** ** Replies *)

Definition FuseAttr_write (attr : Attr) (w : Writer) : Writer :=
  w |> Writer_u64 (a_ino attr)
    |> Writer_u64 (a_size attr)
    |> Writer_u64 (a_blocks attr)
    |> Writer_u64 (as_u64 (a_atime attr).1)
    |> Writer_u64 (as_u64 (a_mtime attr).1)
    |> Writer_u64 (as_u64 (a_ctime attr).1)
    |> Writer_u32 (a_atime attr).2
    |> Writer_u32 (a_mtime attr).2
    |> Writer_u32 (a_ctime attr).2
    |> Writer_u32 (a_mode attr)
    |> Writer_u32 (a_nlink attr)
    |> Writer_u32 (a_uid attr)
    |> Writer_u32 (a_gid attr)
    |> Writer_u32 (a_rdev attr)
    |> Writer_u32 (a_blksize attr)
    |> Writer_u32 0.

Definition ATTR_LEN : nat := 88.
Definition ENTRY_OUT_LEN : nat := 128.
Definition ATTR_OUT_LEN : nat := 104.
Definition CACHE_TIMEOUT_SECS : Z := 1.

Definition entry_out (nodeid : Z) (attr : Attr) : bytes :=
  Writer_into_vec (Writer_new
    |> Writer_u64 nodeid
    |> Writer_u64 1
    |> Writer_u64 CACHE_TIMEOUT_SECS
    |> Writer_u64 CACHE_TIMEOUT_SECS
    |> Writer_u32 0
    |> Writer_u32 0
    |> FuseAttr_write attr).

Definition attr_out (attr : Attr) : bytes :=
  Writer_into_vec (Writer_new
    |> Writer_u64 CACHE_TIMEOUT_SECS
    |> Writer_u32 0
    |> Writer_u32 0
    |> FuseAttr_write attr).

Definition MAX_WRITE : Z := Z.shiftl 1 20.
Definition FUSE_WRITEBACK_CACHE : Z := Z.shiftl 1 16.
Definition FUSE_ASYNC_READ : Z := Z.shiftl 1 0.
Definition FUSE_MAX_PAGES : Z := Z.shiftl 1 22.
Definition ASSUMED_GUEST_PAGE_SIZE : Z := 4096.
Definition U16_MAX : Z := 65535.

Definition init_out (max_readahead : Z) : bytes :=
  Writer_into_vec (Writer_new
    |> Writer_u32 7
    |> Writer_u32 INIT_OUT_MINOR
    |> Writer_u32 max_readahead
    |> Writer_u32 (Z.lor (Z.lor FUSE_WRITEBACK_CACHE FUSE_ASYNC_READ) FUSE_MAX_PAGES)
    |> Writer_u16 U16_MAX
    |> Writer_u16 (U16_MAX / 4 * 3)
    |> Writer_u32 MAX_WRITE
    |> Writer_u32 1
    |> Writer_u16 (as_u16 (MAX_WRITE / ASSUMED_GUEST_PAGE_SIZE))
    |> Writer_u16 0
    |> Writer_u32 0
    |> Writer_u32 0
    |> Writer_u16 0
    |> Writer_pad_to INIT_OUT_LEN).

Definition FOPEN_KEEP_CACHE : Z := Z.shiftl 1 1.

Definition open_out (fh : Z) : bytes :=
  Writer_into_vec (Writer_new
    |> Writer_u64 fh
    |> Writer_u32 FOPEN_KEEP_CACHE
    |> Writer_i32 0).

Definition write_out (size : Z) : bytes :=
  Writer_into_vec (Writer_new |> Writer_u32 size |> Writer_u32 0).

(** The fields of [libc::statvfs] the reply uses. *)
Record statvfs := mkStatvfs {
  f_blocks : Z; f_bfree : Z; f_bavail : Z; f_files : Z; f_ffree : Z;
  f_bsize : Z; f_namemax : Z; f_frsize : Z;
}.

Definition statfs_out (st : statvfs) : bytes :=
  Writer_into_vec (Nat.iter 6 (Writer_u32 0) (Writer_new
    |> Writer_u64 (as_u64 (f_blocks st))
    |> Writer_u64 (as_u64 (f_bfree st))
    |> Writer_u64 (as_u64 (f_bavail st))
    |> Writer_u64 (as_u64 (f_files st))
    |> Writer_u64 (as_u64 (f_ffree st))
    |> Writer_u32 (as_u32 (f_bsize st))
    |> Writer_u32 (as_u32 (f_namemax st))
    |> Writer_u32 (as_u32 (f_frsize st))
    |> Writer_u32 0)).

(** ** Requests *)

Record InitIn := mkInitIn { ii_major : Z; ii_minor : Z; ii_max_readahead : Z; ii_flags : Z }.

Definition InitIn_from_bytes : bytes → outcome ProtoError InitIn := parse (
  major ← Reader_u32;
  minor ← Reader_u32;
  max_readahead ← Reader_u32;
  flags ← attempt Reader_u32;
  mret (mkInitIn major minor max_readahead (default 0 (ok_of flags)))).

Record GetattrIn := mkGetattrIn { gi_flags : Z; gi_fh : Z }.

Definition GetattrIn_from_bytes : bytes → outcome ProtoError GetattrIn := parse (
  flags ← Reader_u32;
  _ ← Reader_skip 4;
  fh ← Reader_u64;
  mret (mkGetattrIn flags fh)).

Definition FATTR_MODE : Z := Z.shiftl 1 0.
Definition FATTR_UID : Z := Z.shiftl 1 1.
Definition FATTR_GID : Z := Z.shiftl 1 2.
Definition FATTR_SIZE : Z := Z.shiftl 1 3.
Definition FATTR_ATIME : Z := Z.shiftl 1 4.
Definition FATTR_MTIME : Z := Z.shiftl 1 5.
Definition FATTR_ATIME_NOW : Z := Z.shiftl 1 7.
Definition FATTR_MTIME_NOW : Z := Z.shiftl 1 8.

Record SetattrIn := mkSetattrIn {
  si_valid : Z; si_size : Z; si_atime : Z; si_mtime : Z; si_atimensec : Z; si_mtimensec : Z;
  si_mode : Z; si_uid : Z; si_gid : Z;
}.

Definition SetattrIn_from_bytes : bytes → outcome ProtoError SetattrIn := parse (
  valid ← Reader_u32;
  _ ← Reader_skip 4;
  _ ← Reader_skip 8;
  size ← Reader_u64;
  _ ← Reader_skip 8;
  atime ← Reader_u64;
  mtime ← Reader_u64;
  _ ← Reader_skip 8;
  atimensec ← Reader_u32;
  mtimensec ← Reader_u32;
  _ ← Reader_skip 4;
  mode ← Reader_u32;
  _ ← Reader_skip 4;
  uid ← Reader_u32;
  gid ← Reader_u32;
  mret (mkSetattrIn valid size atime mtime atimensec mtimensec mode uid gid)).

Definition MkdirIn_from_bytes : bytes → outcome ProtoError (Z * bytes) := parse (
  mode ← Reader_u32;
  _ ← Reader_skip 4;
  name ← Reader_cstr;
  mret (mode, name)).

Definition RenameIn_from_bytes : bytes → outcome ProtoError (Z * bytes * bytes) := parse (
  newdir ← Reader_u64;
  old ← Reader_cstr;
  new ← Reader_cstr;
  mret (newdir, old, new)).

Definition RenameIn_from_bytes_v2 : bytes → outcome ProtoError (Z * bytes * bytes) := parse (
  newdir ← Reader_u64;
  _ ← Reader_skip 8;
  old ← Reader_cstr;
  new ← Reader_cstr;
  mret (newdir, old, new)).

Definition LinkIn_from_bytes : bytes → outcome ProtoError (Z * bytes) := parse (
  oldnodeid ← Reader_u64;
  name ← Reader_cstr;
  mret (oldnodeid, name)).

Definition OpenIn_from_bytes : bytes → outcome ProtoError Z := parse Reader_u32.

Record CreateIn := mkCreateIn { ci_flags : Z; ci_mode : Z }.

Definition CreateIn_from_bytes : bytes → outcome ProtoError (CreateIn * bytes) := parse (
  flags ← Reader_u32;
  mode ← Reader_u32;
  _ ← Reader_skip 4;
  _ ← Reader_skip 4;
  name ← Reader_cstr;
  mret (mkCreateIn flags mode, name)).

Definition ReleaseIn_from_bytes : bytes → outcome ProtoError Z := parse Reader_u64.
Definition FlushIn_from_bytes : bytes → outcome ProtoError Z := parse Reader_u64.

Record ReadIn := mkReadIn { ri_fh : Z; ri_offset : Z; ri_size : Z }.

Definition ReadIn_from_bytes : bytes → outcome ProtoError ReadIn := parse (
  fh ← Reader_u64;
  offset ← Reader_u64;
  size ← Reader_u32;
  mret (mkReadIn fh offset size)).

Record WriteIn := mkWriteIn { wi_fh : Z; wi_offset : Z; wi_size : Z }.

Definition WriteIn_from_bytes : bytes → outcome ProtoError (WriteIn * bytes) := parse (
  fh ← Reader_u64;
  offset ← Reader_u64;
  size ← Reader_u32;
  _ ← Reader_skip 4;
  _ ← Reader_skip 8;
  _ ← Reader_skip 4;
  _ ← Reader_skip 4;
  rest ← Reader_remaining;
  mret (mkWriteIn fh offset size, rest)).

Definition AccessIn_from_bytes : bytes → outcome ProtoError Z := parse Reader_u32.
Definition ForgetIn_from_bytes : bytes → outcome ProtoError Z := parse Reader_u64.

Record ForgetOne := mkForgetOne { fo_nodeid : Z; fo_nlookup : Z }.

Fixpoint batch_forget_entries (count : nat) (out : list ForgetOne)
    : M Reader ProtoError (list ForgetOne) :=
  match count with
  | O => mret out
  | S count' =>
      nodeid ← Reader_u64;
      nlookup ← Reader_u64;
      batch_forget_entries count' (out ++ [mkForgetOne nodeid nlookup])
  end.

(** The source reserves room for [count] entries before it reads them ([Vec::with_capacity]); the
    reservation is not modelled. *)
Definition parse_batch_forget : bytes → outcome ProtoError (list ForgetOne) := parse (
  count ← Reader_u32;
  _ ← Reader_skip 4;
  batch_forget_entries (Z.to_nat count) []).

(** ** Directory entries *)

(** Round up to a multiple of 8: [unpadded.div_ceil(8) * 8]. *)
Definition dirent_padded (unpadded : nat) : nat := (unpadded + 7) / 8 * 8.

(** [out] after the call and whether the entry fitted. *)
Definition push_dirent (out : bytes) (remaining : nat) (ino off kind : Z) (name : bytes)
    : bool * bytes :=
  let unpadded := (24 + length name)%nat in
  let padded := dirent_padded unpadded in
  if (remaining <? padded)%nat then (false, out)
  else (true, out ++ u64_le ino ++ u64_le off ++ u32_le (as_u32 (Z.of_nat (length name)))
                  ++ u32_le kind ++ name ++ replicate (padded - unpadded) NUL).

Definition DT_UNKNOWN : Z := 0.
Definition DT_DIR : Z := 4.
Definition DT_REG : Z := 8.
Definition DT_LNK : Z := 10.

(** ** The guest's side

    What the kernel reads out of a reply, by the offsets of [include/uapi/linux/fuse.h], and what
    it writes into a request: the references the encoders and parsers above are compared with. *)

(** [struct fuse_attr] at offset [o]. *)
Definition attr_at (o : nat) (buf : bytes) : Attr := {|
  a_ino := field 8 o buf;
  a_size := field 8 (o + 8) buf;
  a_blocks := field 8 (o + 16) buf;
  a_atime := (as_i64 (field 8 (o + 24) buf), field 4 (o + 48) buf);
  a_mtime := (as_i64 (field 8 (o + 32) buf), field 4 (o + 52) buf);
  a_ctime := (as_i64 (field 8 (o + 40) buf), field 4 (o + 56) buf);
  a_mode := field 4 (o + 60) buf;
  a_nlink := field 4 (o + 64) buf;
  a_uid := field 4 (o + 68) buf;
  a_gid := field 4 (o + 72) buf;
  a_rdev := field 4 (o + 76) buf;
  a_blksize := field 4 (o + 80) buf;
|}.

(** The opcode number of an [Opcode]. *)
Definition Opcode_code (o : Opcode) : Z :=
  match o with
  | OpLookup => 1 | OpForget => 2 | OpGetattr => 3 | OpSetattr => 4 | OpReadlink => 5
  | OpSymlink => 6 | OpMkdir => 9 | OpUnlink => 10 | OpRmdir => 11 | OpRename => 12
  | OpLink => 13 | OpOpen => 14 | OpRead => 15 | OpWrite => 16 | OpStatfs => 17
  | OpRelease => 18 | OpFsync => 20 | OpSetxattr => 21 | OpGetxattr => 22 | OpListxattr => 23
  | OpRemovexattr => 24 | OpFlush => 25 | OpInit => 26 | OpOpendir => 27 | OpReaddir => 28
  | OpReleasedir => 29 | OpFsyncdir => 30 | OpAccess => 34 | OpCreate => 35 | OpDestroy => 38
  | OpBatchForget => 42 | OpRename2 => 45 | OpUnknown v => v
  end.

(** [struct fuse_batch_forget_in] followed by its entries. *)
Definition encode_forget (f : ForgetOne) : bytes := u64_le (fo_nodeid f) ++ u64_le (fo_nlookup f).
Definition encode_batch_forget (count : Z) (l : list ForgetOne) : bytes :=
  u32_le count ++ u32_le 0 ++ concat (encode_forget <$> l).

Record ForgetOne_ok (f : ForgetOne) : Prop := {
  fo_ok_nodeid : is_uint 64 (fo_nodeid f);
  fo_ok_nlookup : is_uint 64 (fo_nlookup f);
}.

(** * Lemmas *)

(** ** Lengths and layout of replies *)

Lemma OutHeader_reply_unfold u e b :
  OutHeader_reply u e b =
    u32_le (as_u32 (Z.of_nat (OUT_HEADER_LEN + length (if e =? 0 then b else []))))
      ++ u32_le e ++ u64_le u ++ (if e =? 0 then b else []).
Proof. unfold OutHeader_reply. writes. done. Qed.

Lemma length_OutHeader_reply u e b :
  length (OutHeader_reply u e b) = (16 + length (if (e =? 0)%Z then b else []))%nat.
Proof. rewrite OutHeader_reply_unfold. len. Qed.

Lemma length_FuseAttr_write a w :
  length (w_buf (FuseAttr_write a w)) = (length (w_buf w) + 88)%nat.
Proof. unfold FuseAttr_write. writes. len. Qed.

Lemma FuseAttr_write_app a w :
  w_buf (FuseAttr_write a w) = w_buf w ++ w_buf (FuseAttr_write a Writer_new).
Proof. unfold FuseAttr_write. writes. done. Qed.

Lemma length_entry_out n a : length (entry_out n a) = ENTRY_OUT_LEN.
Proof. unfold entry_out, Writer_into_vec. rewrite length_FuseAttr_write. writes. len. Qed.
Lemma length_attr_out a : length (attr_out a) = ATTR_OUT_LEN.
Proof. unfold attr_out, Writer_into_vec. rewrite length_FuseAttr_write. writes. len. Qed.
Lemma length_open_out fh : length (open_out fh) = 16%nat.
Proof. unfold open_out. writes. len. Qed.
Lemma length_write_out n : length (write_out n) = 8%nat.
Proof. unfold write_out. writes. len. Qed.
Lemma length_statfs_out st : length (statfs_out st) = 80%nat.
Proof. unfold statfs_out. cbn [Nat.iter nat_rect]. writes. len. Qed.
Lemma length_init_out r : length (init_out r) = INIT_OUT_LEN.
Proof.
  unfold init_out, Writer_into_vec, Writer_pad_to. set (w := Writer_u16 0 _).
  assert (length (w_buf w) = 42%nat) as Hw by (subst w; writes; len).
  rewrite Hw. change (42 <? INIT_OUT_LEN)%nat with true. cbn [w_buf].
  by rewrite length_app, Hw, length_replicate.
Qed.

#[export] Hint Rewrite length_OutHeader_reply length_entry_out length_attr_out length_open_out
  length_write_out length_statfs_out length_init_out : len.

Lemma attr_at_write a :
  Attr_ok a → attr_at 0 (w_buf (FuseAttr_write a Writer_new)) = a.
Proof.
  intros [? ? ? [? ?] [? ?] [? ?] ? ? ? ? ? ?].
  destruct a as [ino size blocks [at1 at2] [mt1 mt2] [ct1 ct2] mode nlink uid gid rdev blksize].
  unfold FuseAttr_write; simpl in *. writes. unfold attr_at; simpl.
  fields. unfold as_u64, as_u32, as_i64.
  rewrite !wrap_wrap by lia.
  rewrite !sign_wrap, !sign_id by lia. rewrite !wrap_id by done. done.
Qed.

Lemma attr_at_app o l1 l2 :
  length l1 = o → attr_at o (l1 ++ l2) = attr_at 0 l2.
Proof.
  intros <-. unfold attr_at. rewrite !field_app_r by lia.
  repeat match goal with |- context [(length l1 + ?k - length l1)%nat] =>
    replace (length l1 + k - length l1)%nat with k by lia end.
  by rewrite Nat.sub_diag.
Qed.

(** ** Parsers as reads at fixed offsets *)

Lemma InHeader_from_bytes_eq buf : slice_ok buf →
  InHeader_from_bytes buf =
    if decide (40 ≤ length buf)%nat then
      Ok (mkInHeader (field 4 0 buf) (field 4 4 buf) (field 8 8 buf) (field 8 16 buf)
                     (field 4 24 buf) (field 4 28 buf) (field 4 32 buf))
    else Err Truncated.
Proof.
  intros Hbuf. unfold InHeader_from_bytes. rd_run Hbuf; case_decide; simpl in *; first [done|lia].
Qed.

Lemma ReadIn_from_bytes_eq buf : slice_ok buf →
  ReadIn_from_bytes buf =
    if decide (20 ≤ length buf)%nat then
      Ok (mkReadIn (field 8 0 buf) (field 8 8 buf) (field 4 16 buf))
    else Err Truncated.
Proof.
  intros Hbuf. unfold ReadIn_from_bytes. rd_run Hbuf; case_decide; simpl in *; first [done|lia].
Qed.

Lemma WriteIn_from_bytes_eq buf : slice_ok buf →
  WriteIn_from_bytes buf =
    if decide (40 ≤ length buf)%nat then
      Ok (mkWriteIn (field 8 0 buf) (field 8 8 buf) (field 4 16 buf), drop 40 buf)
    else Err Truncated.
Proof.
  intros Hbuf. unfold WriteIn_from_bytes. rd_run Hbuf.
  all: try (case_decide; simpl in *; first [done|lia]).
  rewrite M_bind_run, Reader_remaining_at by lia. case_decide; simpl in *; first [done|lia].
Qed.

Lemma SetattrIn_from_bytes_eq buf : slice_ok buf →
  SetattrIn_from_bytes buf =
    if decide (84 ≤ length buf)%nat then
      Ok (mkSetattrIn (field 4 0 buf) (field 8 16 buf) (field 8 32 buf) (field 8 40 buf)
                      (field 4 56 buf) (field 4 60 buf) (field 4 68 buf) (field 4 76 buf)
                      (field 4 80 buf))
    else Err Truncated.
Proof.
  intros Hbuf. unfold SetattrIn_from_bytes. rd_run Hbuf; case_decide; simpl in *; first [done|lia].
Qed.

Lemma GetattrIn_from_bytes_eq buf : slice_ok buf →
  GetattrIn_from_bytes buf =
    if decide (16 ≤ length buf)%nat then Ok (mkGetattrIn (field 4 0 buf) (field 8 8 buf))
    else Err Truncated.
Proof.
  intros Hbuf. unfold GetattrIn_from_bytes. rd_run Hbuf; case_decide; simpl in *; first [done|lia].
Qed.

Lemma InitIn_from_bytes_eq buf : slice_ok buf →
  InitIn_from_bytes buf =
    if decide (12 ≤ length buf)%nat then
      Ok (mkInitIn (field 4 0 buf) (field 4 4 buf) (field 4 8 buf)
            (if decide (16 ≤ length buf)%nat then field 4 12 buf else 0))
    else Err Truncated.
Proof.
  intros Hbuf. unfold InitIn_from_bytes. rd_run Hbuf.
  all: try (case_decide; simpl in *; first [done|lia]).
  rewrite M_bind_run. unfold attempt. rewrite (Reader_u32_at _ Hbuf) by lia.
  repeat case_decide; simpl in *; first [done|lia].
Qed.

(** The entry the [i]-th iteration of [parse_batch_forget] reads, from offset [p]. *)
Definition forget_at (buf : bytes) (p i : nat) : ForgetOne :=
  mkForgetOne (field 8 (p + 16 * i) buf) (field 8 (p + 16 * i + 8) buf).

Lemma batch_forget_entries_at buf (Hbuf : slice_ok buf) n : ∀ p out,
  (p ≤ length buf)%nat →
  (batch_forget_entries n out (mkReader buf p)).1 =
    if decide (p + 16 * n ≤ length buf)%nat then Ok (out ++ (forget_at buf p <$> seq 0 n))
    else Err Truncated.
Proof.
  induction n as [|n IH]; intros p out Hp; simpl.
  - rewrite decide_True by lia. by rewrite app_nil_r.
  - rewrite M_bind_run, (Reader_u64_at _ Hbuf) by lia.
    case_decide; [simpl|by rewrite decide_False by lia].
    rewrite M_bind_run, (Reader_u64_at _ Hbuf) by lia.
    case_decide; [simpl|by rewrite decide_False by lia].
    rewrite IH by lia. destruct (decide (p + 8 + 8 + 16 * n ≤ length buf)%nat).
    + rewrite decide_True by lia. f_equal. rewrite <- app_assoc. f_equal. simpl. f_equal.
      { unfold forget_at. f_equal; f_equal; lia. }
      rewrite <- (fmap_S_seq 0 n), <- list_fmap_compose. apply list_fmap_ext. intros i x _. simpl.
      unfold forget_at. f_equal; f_equal; lia.
    + by rewrite decide_False by lia.
Qed.

Lemma parse_batch_forget_eq buf : slice_ok buf →
  parse_batch_forget buf =
    if decide (8 ≤ length buf ∧ 8 + 16 * Z.to_nat (field 4 0 buf) ≤ length buf)%nat
    then Ok (forget_at buf 8 <$> seq 0 (Z.to_nat (field 4 0 buf)))
    else Err Truncated.
Proof.
  intros Hbuf. unfold parse_batch_forget. rd_run Hbuf.
  all: try (rewrite decide_False by lia; done).
  rewrite batch_forget_entries_at by (done || lia).
  destruct (decide (8 + 16 * Z.to_nat (field 4 0 buf) ≤ length buf)%nat).
  - by rewrite decide_True by lia.
  - by rewrite decide_False by lia.
Qed.

Lemma length_concat_forgets l : length (concat (encode_forget <$> l)) = (16 * length l)%nat.
Proof.
  induction l as [|f l IH]; [done|]. cbn [fmap list_fmap concat]. rewrite length_app, IH.
  unfold encode_forget. len.
Qed.

Lemma forget_at_concat l l1 buf p :
  length l1 = p → buf = l1 ++ concat (encode_forget <$> l) → Forall ForgetOne_ok l →
  forget_at buf p <$> seq 0 (length l) = l.
Proof.
  intros <- -> Hl. revert l1. induction Hl as [|f l [Hn Hk] Hl IH]; intros l1; [done|].
  cbn [fmap list_fmap concat length seq]. f_equal.
  - unfold forget_at, encode_forget. rewrite !field_app_r by lia.
    replace (length l1 + 16 * 0 - length l1)%nat with 0%nat by lia.
    replace (length l1 + 16 * 0 + 8 - length l1)%nat with 8%nat by lia.
    rewrite <- app_assoc. fields. unfold as_u64. rewrite !wrap_id by done. by destruct f.
  - rewrite <- fmap_S_seq, <- list_fmap_compose. etrans; [|exact (IH (l1 ++ encode_forget f))].
    apply list_fmap_ext. intros i x _. simpl. unfold forget_at. rewrite <- app_assoc, length_app.
    replace (length (encode_forget f)) with 16%nat by (unfold encode_forget; len).
    f_equal; f_equal; lia.
Qed.

(** ** Directory entries *)

Lemma dirent_padded_spec n :
  (n ≤ dirent_padded n < n + 8 ∧ Nat.divide 8 (dirent_padded n))%nat.
Proof.
  unfold dirent_padded. pose proof (Nat.div_mod_eq (n + 7) 8).
  pose proof (Nat.mod_upper_bound (n + 7) 8). split; [lia|]. exists ((n + 7) / 8)%nat. lia.
Qed.

(** The bytes of one entry. *)
Definition dirent (ino off kind : Z) (name : bytes) : bytes :=
  u64_le ino ++ u64_le off ++ u32_le (as_u32 (Z.of_nat (length name))) ++ u32_le kind ++ name
    ++ replicate (dirent_padded (24 + length name) - (24 + length name)) NUL.

Lemma length_dirent ino off kind name :
  length (dirent ino off kind name) = dirent_padded (24 + length name).
Proof.
  unfold dirent. pose proof (dirent_padded_spec (24 + length name)) as [? _].
  autorewrite with len. lia.
Qed.

Lemma push_dirent_eq out remaining ino off kind name :
  push_dirent out remaining ino off kind name =
    if decide (dirent_padded (24 + length name) ≤ remaining)%nat
    then (true, out ++ dirent ino off kind name) else (false, out).
Proof.
  unfold push_dirent. case_decide.
  - by rewrite (proj2 (Nat.ltb_ge _ _)) by lia.
  - by rewrite (proj2 (Nat.ltb_lt _ _)) by lia.
Qed.

(** What the kernel reads back from an entry: number, cookie, type, name, and where the next
    entry starts. *)
Definition dirent_read (buf : bytes) : Z * Z * Z * bytes * bytes :=
  let namelen := Z.to_nat (field 4 16 buf) in
  (field 8 0 buf, field 8 8 buf, field 4 20 buf, take namelen (drop 24 buf),
   drop (dirent_padded (24 + namelen)) buf).

Lemma dirent_read_dirent ino off kind name rest :
  is_uint 64 ino → is_uint 64 off → is_uint 32 kind → is_uint 32 (Z.of_nat (length name)) →
  dirent_read (dirent ino off kind name ++ rest) = (ino, off, kind, name, rest).
Proof.
  intros Hi Ho Hk Hn. unfold dirent_read.
  assert (field 4 16 (dirent ino off kind name ++ rest) = Z.of_nat (length name)) as ->.
  { unfold dirent. rewrite <- !app_assoc. fields. unfold as_u32. by rewrite wrap_wrap, wrap_id. }
  rewrite Nat2Z.id. f_equal; [f_equal|].
  - unfold dirent. rewrite <- !app_assoc. fields. unfold as_u64, as_u32. by rewrite !wrap_id.
  - unfold dirent. rewrite !app_assoc. rewrite <- (app_assoc _ _ rest), <- (app_assoc _ name).
    rewrite drop_app_length' by len. by rewrite take_app_length.
  - rewrite drop_app_length'; [done|]. by rewrite length_dirent.
Qed.

(** ** Requests that carry names *)

(** Find a suffix of a concatenation by the lengths of the pieces before it. *)
Ltac suffix :=
  repeat (rewrite drop_app_ge by len);
  match goal with
  | |- drop ?k (?x ++ _) = ?x ++ _ => replace k with 0%nat by len; apply drop_0
  | |- drop ?k (_ :: _) = _ => replace k with 1%nat by len; reflexivity
  end.

(** Read one NUL-terminated name. *)
Ltac rd_cstr name rest :=
  rewrite M_bind_run, (cstr_roundtrip name rest); [simpl|done|suffix|len|done].

(** * Properties *)

(** The parsers of the fixed-size requests read the fields at the offsets of the kernel's
    structures ([fuse_in_header], [fuse_setattr_in], [fuse_read_in], [fuse_write_in]), and fail
    with [Truncated], never with a panic, exactly on buffers that are too short. *)
Theorem requests_layout buf (Hbuf : slice_ok buf) :
  InHeader_from_bytes buf =
    (if decide (40 ≤ length buf)%nat then
       Ok (mkInHeader (field 4 0 buf) (field 4 4 buf) (field 8 8 buf) (field 8 16 buf)
                      (field 4 24 buf) (field 4 28 buf) (field 4 32 buf))
     else Err Truncated) ∧
  SetattrIn_from_bytes buf =
    (if decide (84 ≤ length buf)%nat then
       Ok (mkSetattrIn (field 4 0 buf) (field 8 16 buf) (field 8 32 buf) (field 8 40 buf)
                       (field 4 56 buf) (field 4 60 buf) (field 4 68 buf) (field 4 76 buf)
                       (field 4 80 buf))
     else Err Truncated) ∧
  ReadIn_from_bytes buf =
    (if decide (20 ≤ length buf)%nat then
       Ok (mkReadIn (field 8 0 buf) (field 8 8 buf) (field 4 16 buf))
     else Err Truncated) ∧
  WriteIn_from_bytes buf =
    (if decide (40 ≤ length buf)%nat then
       Ok (mkWriteIn (field 8 0 buf) (field 8 8 buf) (field 4 16 buf), drop 40 buf)
     else Err Truncated).
Proof.
  split_and!; auto using InHeader_from_bytes_eq, SetattrIn_from_bytes_eq, ReadIn_from_bytes_eq,
    WriteIn_from_bytes_eq.
Qed.

Lemma requests_layout_witness :
  WriteIn_from_bytes (u64_le 7 ++ u64_le 4096 ++ u32_le 2 ++ replicate 20 NUL ++ [Byte.x68; Byte.x69])
  = Ok (mkWriteIn 7 4096 2, [Byte.x68; Byte.x69]).
Proof.
  set (buf := _ ++ _). assert (slice_ok buf) as Hbuf by (vm_compute; reflexivity).
  rewrite (proj2 (proj2 (proj2 (requests_layout buf Hbuf)))). vm_compute. reflexivity.
Defined.

(** A reply is what the guest expects.  Its first word is its own length, its second the
    error, then the request's [unique]; a successful reply carries the body, an error reply
    carries none. *)
Theorem OutHeader_reply_layout unique error body :
  is_uint 64 unique → -2 ^ 31 ≤ error < 2 ^ 31 → is_uint 32 (Z.of_nat (16 + length body)) →
  let r := OutHeader_reply unique error body in
  field 4 0 r = Z.of_nat (length r) ∧ as_i32 (field 4 4 r) = error ∧ field 8 8 r = unique ∧
  drop OUT_HEADER_LEN r = (if error =? 0 then body else []).
Proof.
  intros Hu He Hb r. subst r. rewrite length_OutHeader_reply, OutHeader_reply_unfold.
  set (b := if error =? 0 then body else []).
  assert (is_uint 32 (Z.of_nat (16 + length b))) by (subst b; case_match; simpl; uint).
  split_and!; fields.
  - unfold as_u32. by rewrite wrap_wrap, wrap_id.
  - unfold as_i32, as_u32. rewrite sign_wrap, sign_id by lia. done.
  - unfold as_u64. by rewrite wrap_id.
  - rewrite !app_assoc. by rewrite drop_app_length' by len.
Qed.

Lemma OutHeader_reply_layout_witness :
  field 4 0 (OutHeader_reply 5 0 [Byte.x68]) = 17 ∧
  as_i32 (field 4 4 (OutHeader_reply 5 (-38) [Byte.x68])) = -38.
Proof.
  split.
  - apply (OutHeader_reply_layout 5 0 [Byte.x68]); vm_compute; split; congruence.
  - apply (OutHeader_reply_layout 5 (-38) [Byte.x68]); vm_compute; split; congruence.
Defined.

(** The guest reads back from [entry_out] the node id and every attribute the server put in
    it, at the offsets of [fuse_entry_out], and the entry has the size the kernel expects. *)
Theorem entry_out_roundtrip nodeid attr :
  is_uint 64 nodeid → Attr_ok attr →
  length (entry_out nodeid attr) = ENTRY_OUT_LEN ∧
  field 8 0 (entry_out nodeid attr) = nodeid ∧
  attr_at 40 (entry_out nodeid attr) = attr ∧
  length (attr_out attr) = ATTR_OUT_LEN ∧ attr_at 16 (attr_out attr) = attr.
Proof.
  intros Hn Ha. split_and!; [apply length_entry_out| | |apply length_attr_out|].
  - unfold entry_out, Writer_into_vec. rewrite FuseAttr_write_app. writes. fields.
    by apply wrap_id.
  - unfold entry_out, Writer_into_vec. rewrite FuseAttr_write_app, attr_at_app by (writes; len).
    by apply attr_at_write.
  - unfold attr_out, Writer_into_vec. rewrite FuseAttr_write_app, attr_at_app by (writes; len).
    by apply attr_at_write.
Qed.

Definition sample_attr : Attr :=
  mkAttr 42 5 8 (1700000000, 1) (1700000001, 2) (-1, 3) 0x81a4 1 1000 1000 0 4096.

Lemma entry_out_roundtrip_witness :
  attr_at 40 (entry_out 2 sample_attr) = sample_attr.
Proof.
  apply (entry_out_roundtrip 2 sample_attr); [uint|]. split; simpl; try uint; split; uint.
Defined.

(** [FUSE_INIT]'s reply is 64 bytes long, advertises [FUSE_MAX_PAGES], and its [max_pages]
    covers exactly [max_write], whatever readahead the guest asked for (without the flag or the
    field the kernel caps writes at 128 KiB). *)
Theorem init_out_max_pages max_readahead :
  let r := init_out max_readahead in
  length r = INIT_OUT_LEN ∧ field 4 0 r = 7 ∧ 28 ≤ field 4 4 r ∧
  field 4 8 r = as_u32 max_readahead ∧
  Z.land (field 4 12 r) FUSE_MAX_PAGES = FUSE_MAX_PAGES ∧
  field 4 20 r = MAX_WRITE ∧ field 2 28 r * ASSUMED_GUEST_PAGE_SIZE = MAX_WRITE.
Proof.
  intros r. split; [apply length_init_out|]. subst r. unfold init_out, Writer_into_vec, Writer_pad_to.
  set (w := Writer_u16 0 _).
  assert (length (w_buf w) = 42%nat) as Hw by (subst w; writes; len).
  rewrite Hw. change (42 <? INIT_OUT_LEN)%nat with true. cbn [w_buf].
  rewrite !field_app_l by lia. subst w. writes. fields. done.
Qed.

(** [BATCH_FORGET] parsing recovers exactly the list of forgets the guest encoded; a count
    that promises more entries than the body holds is an error, not a partial list. *)
Theorem parse_batch_forget_roundtrip count l :
  is_uint 32 count → slice_ok (encode_batch_forget count l) → Forall ForgetOne_ok l →
  Z.of_nat (length l) ≤ count →
  parse_batch_forget (encode_batch_forget count l) =
    if decide (count = Z.of_nat (length l)) then Ok l else Err Truncated.
Proof.
  intros Hc Hs Hl Hle. rewrite parse_batch_forget_eq by done.
  assert (length (encode_batch_forget count l) = (8 + 16 * length l)%nat) as Hlen.
  { unfold encode_batch_forget. rewrite !length_app, length_concat_forgets. len. }
  assert (field 4 0 (encode_batch_forget count l) = count) as Hf.
  { unfold encode_batch_forget. rewrite field_u32 by done. by apply wrap_id. }
  rewrite Hlen, Hf. case_decide as Hd.
  - assert (count = Z.of_nat (length l)) as -> by uint. rewrite decide_True, Nat2Z.id by done.
    f_equal. unfold encode_batch_forget at 1. rewrite app_assoc.
    apply (forget_at_concat l (u32_le (Z.of_nat (length l)) ++ u32_le 0)); len.
  - rewrite decide_False; [done|]. intros ->. apply Hd. lia.
Qed.

Lemma parse_batch_forget_roundtrip_witness :
  parse_batch_forget (encode_batch_forget 2 [mkForgetOne 3 1; mkForgetOne 9 4])
  = Ok [mkForgetOne 3 1; mkForgetOne 9 4].
Proof.
  rewrite (parse_batch_forget_roundtrip 2); [done|uint|vm_compute; reflexivity| |simpl; lia].
  repeat constructor; simpl; uint.
Defined.

(** Opcodes are decoded faithfully: each number is decoded to the opcode with that number,
    so no two numbers are confused, and an unknown one is kept. *)
Theorem Opcode_from_roundtrip v : Opcode_code (Opcode_from v) = v.
Proof.
  unfold Opcode_from. repeat (case_match; try reflexivity).
Qed.

(** A directory entry that fits is appended whole, 8-byte aligned, within the space that
    remains, and the guest reads back from it the inode number, cookie, type and name and finds
    the next entry right after; one that does not fit leaves the buffer unchanged. *)
Theorem push_dirent_roundtrip out remaining ino off kind name rest :
  is_uint 64 ino → is_uint 64 off → is_uint 32 kind → is_uint 32 (Z.of_nat (length name)) →
  match push_dirent out remaining ino off kind name with
  | (true, out') =>
      ∃ e, out' = out ++ e ∧ (length e ≤ remaining)%nat ∧ Nat.divide 8 (length e) ∧
           dirent_read (e ++ rest) = (ino, off, kind, name, rest)
  | (false, out') => out' = out ∧ (remaining < 24 + length name + 8)%nat
  end.
Proof.
  intros ????. pose proof (dirent_padded_spec (24 + length name)) as [Hp Hd].
  rewrite push_dirent_eq. case_decide.
  - exists (dirent ino off kind name). rewrite length_dirent.
    split_and!; auto using dirent_read_dirent.
  - split; [done|lia].
Qed.

Lemma push_dirent_roundtrip_witness :
  ∃ e, push_dirent [] 32 77 1 DT_REG [Byte.x61] = (true, e) ∧
       dirent_read (e ++ []) = (77, 1, DT_REG, [Byte.x61], []).
Proof.
  pose proof (push_dirent_roundtrip [] 32 77 1 DT_REG [Byte.x61] []
    ltac:(uint) ltac:(uint) ltac:(unfold DT_REG; uint) ltac:(simpl; uint)) as Hp.
  rewrite push_dirent_eq, decide_True in * by (vm_compute; lia).
  destruct Hp as (e & -> & _ & _ & He). exists e. split; [done|exact He].
Defined.

(** The requests that carry names ([MKDIR], [CREATE], [LINK], [RENAME], [RENAME2]) are parsed
    back to what the guest encoded: the fixed fields, then each NUL-terminated name without its
    NUL, whatever follows the last one. *)
Theorem named_requests_roundtrip a b c d name new rest :
  is_uint 32 a → is_uint 32 b → is_uint 64 d → NUL ∉ name → NUL ∉ new →
  slice_ok (u64_le d ++ u64_le c ++ name ++ NUL :: new ++ NUL :: rest) →
  MkdirIn_from_bytes (u32_le a ++ u32_le c ++ name ++ NUL :: rest) = Ok (a, name) ∧
  CreateIn_from_bytes (u32_le a ++ u32_le b ++ u64_le c ++ name ++ NUL :: rest)
    = Ok (mkCreateIn a b, name) ∧
  LinkIn_from_bytes (u64_le d ++ name ++ NUL :: rest) = Ok (d, name) ∧
  RenameIn_from_bytes (u64_le d ++ name ++ NUL :: new ++ NUL :: rest) = Ok (d, name, new) ∧
  RenameIn_from_bytes_v2 (u64_le d ++ u64_le c ++ name ++ NUL :: new ++ NUL :: rest)
    = Ok (d, name, new).
Proof.
  intros Ha Hb Hd Hn Hm Hs. unfold slice_ok in Hs. autorewrite with len in Hs.
  pose proof (wrap_id 32 a Ha). pose proof (wrap_id 32 b Hb). pose proof (wrap_id 64 d Hd).
  split_and!.
  1: unfold MkdirIn_from_bytes. 2: unfold CreateIn_from_bytes. 3: unfold LinkIn_from_bytes.
  4: unfold RenameIn_from_bytes. 5: unfold RenameIn_from_bytes_v2.
  all: match goal with |- parse _ ?buf = _ =>
         assert (slice_ok buf) as Hbuf by (unfold slice_ok; len);
         assert (8 ≤ length buf)%nat by len;
         unfold parse, Reader_new end.
  all: repeat (rd_step Hbuf; [simpl|exfalso; len]).
  1, 2, 3: rd_cstr name rest. 4, 5: rd_cstr name (new ++ NUL :: rest); rd_cstr new rest.
  all: fields; unfold as_u32, as_u64; congruence.
Qed.

Lemma named_requests_roundtrip_witness :
  MkdirIn_from_bytes (u32_le 0x1ed ++ u32_le 0x12 ++ [Byte.x61; Byte.x62] ++ NUL :: [])
  = Ok (0x1ed, [Byte.x61; Byte.x62]).
Proof.
  apply (named_requests_roundtrip 0x1ed 0 0x12 0 [Byte.x61; Byte.x62] [] []).
  all: try uint; try (vm_compute; reflexivity).
  - apply (bool_decide_unpack _). vm_compute. exact I.
  - apply not_elem_of_nil.
Defined.
