(* ===== verification/Inode.v ===== *)
(** * The inode table

    [inode.rs]: opaque inode ids, the file descriptor and the location [(parent, name)] behind
    each, and the lookup counts of the FUSE protocol.  An [OwnedFd] that goes out of scope is
    closed: the operations return the descriptors they drop, and the file system closes them.

    The locks of the two maps are taken and released within each operation; the server runs the
    operations one after the other, and so does the model. *)

From S2P Require Import Prelude Libc Errors Bytes Attr.
Local Open Scope Z_scope.

Definition ROOT_ID : Z := 1.

Record FileKey := mkFileKey { fk_dev : Z; fk_ino : Z }.

#[export] Instance FileKey_eq_dec : EqDecision FileKey.
Proof. solve_decision. Defined.
#[export] Program Instance FileKey_countable : Countable FileKey :=
  inj_countable' (λ k, (fk_dev k, fk_ino k)) (λ p, mkFileKey p.1 p.2) _.
Next Obligation. by intros []. Qed.

Record InodeData := mkInodeData {
  i_id : Z;
  i_fd : Z;
  i_kind : FileKind;
  i_key : FileKey;
  i_parent : option Z;
  i_name : bytes;
  i_lookups : Z;
}.

Definition InodeData_set_location (parent : Z) (name : bytes) (d : InodeData) : InodeData :=
  mkInodeData (i_id d) (i_fd d) (i_kind d) (i_key d) (Some parent) name (i_lookups d).

Definition InodeData_set_lookups (n : Z) (d : InodeData) : InodeData :=
  mkInodeData (i_id d) (i_fd d) (i_kind d) (i_key d) (i_parent d) (i_name d) n.

Record InodeStore := mkInodeStore {
  by_id : gmap Z InodeData;
  by_key : gmap FileKey Z;
  next_id : Z;
}.

(** The order in which [HashMap::values] visits the entries is unspecified: it is an argument,
    of which only that it visits every key exactly once is known. *)
Class HashOrder := { hash_order : gmap Z InodeData → list Z }.
Class HashOrderLaws `{HashOrder} : Prop := {
  hash_order_perm m : hash_order m ≡ₚ elements (dom m);
}.

Section Operations.
Context `{Libc, HashOrder}.

Definition stat_key (st : stat) : FileKey := mkFileKey (as_u64 (st_dev st)) (st_ino st).

Definition InodeStore_new (root_fd : Z) (root_stat : stat) : InodeStore :=
  let root := mkInodeData ROOT_ID root_fd Dir (stat_key root_stat) None [] 1 in
  mkInodeStore {[ROOT_ID := root]} {[i_key root := ROOT_ID]} (ROOT_ID + 1).

Definition InodeStore_get (id : Z) : M InodeStore FsError InodeData := λ s,
  (ok_or (by_id s !! id) (UnknownInode id), s).

Definition InodeStore_register (parent : Z) (name : bytes) (fd : Z) (st : stat)
    : M InodeStore FsError (InodeData * list Z) := λ s,
  let key := stat_key st in
  match by_key s !! key with
  | Some existing =>
      match by_id s !! existing with
      | None => (Panic, s)
      | Some data =>
          let data := InodeData_set_lookups (wrap 64 (i_lookups data + 1)) data in
          let data := InodeData_set_location parent name data in
          (Ok (data, [fd]),
           mkInodeStore (<[existing := data]> (by_id s)) (by_key s) (next_id s))
      end
  | None =>
      let id := next_id s in
      let data := mkInodeData id fd (FileKind_from_mode (as_u32 (st_mode st))) key
                              (Some parent) name 1 in
      (Ok (data, []),
       mkInodeStore (<[id := data]> (by_id s)) (<[key := id]> (by_key s)) (wrap 64 (id + 1)))
  end.

Definition InodeStore_forget (id count : Z) (s : InodeStore) : list Z * InodeStore :=
  if id =? ROOT_ID then ([], s)
  else match by_id s !! id with
       | None => ([], s)
       | Some data =>
           let prev := i_lookups data in
           let data := InodeData_set_lookups (wrap 64 (prev - Z.min count prev)) data in
           let s := mkInodeStore (<[id := data]> (by_id s)) (by_key s) (next_id s) in
           if prev <=? count
           then ([i_fd data],
                 mkInodeStore (delete id (by_id s)) (delete (i_key data) (by_key s)) (next_id s))
           else ([], s)
       end.

(** [data.parent() == Some(old_parent) && data.name() == old_name]. *)
Definition located (parent : Z) (name : bytes) (d : InodeData) : bool :=
  bool_decide (i_parent d = Some parent) && bool_decide (i_name d = name).

Definition InodeStore_note_rename (old_parent : Z) (old_name : bytes) (new_parent : Z)
    (new_name : bytes) (s : InodeStore) : InodeStore :=
  match List.find (λ id, default false (located old_parent old_name <$> by_id s !! id))
                  (hash_order (by_id s)) with
  | Some id =>
      mkInodeStore (alter (InodeData_set_location new_parent new_name) id (by_id s))
                   (by_key s) (next_id s)
  | None => s
  end.

Definition InodeStore_len (s : InodeStore) : nat := size (by_id s).
End Operations.

(** ** Specifications *)

(** The two maps agree, the root is there, ids are below the counter and every tracked inode has
    been looked up. *)
Record entry_ok (s : InodeStore) (id : Z) (d : InodeData) : Prop := {
  eo_id : i_id d = id;
  eo_range : ROOT_ID ≤ id < next_id s;
  eo_key : by_key s !! i_key d = Some id;
  eo_lookups : 1 ≤ i_lookups d < 2 ^ 64;
}.
Record store_ok (s : InodeStore) : Prop := {
  so_root : is_Some (by_id s !! ROOT_ID);
  so_entry id d : by_id s !! id = Some d → entry_ok s id d;
  so_key k id : by_key s !! k = Some id → ∃ d, by_id s !! id = Some d ∧ i_key d = k;
  so_next : is_uint 64 (next_id s);
}.

(** The abstract state of the table: how many lookups of each id are outstanding. *)
Definition refs (s : InodeStore) : gmap Z Z := i_lookups <$> by_id s.

(** The FUSE protocol's forget: subtract, and drop the entry when nothing is left. *)
Definition spec_forget (id count : Z) (m : gmap Z Z) : gmap Z Z :=
  match m !! id with
  | Some n => if decide (id = ROOT_ID) then m
              else if decide (n ≤ count) then delete id m else <[id := n - count]> m
  | None => m
  end.

(** The abstract lookup: one more reference to the id. *)
Definition spec_lookup (id : Z) (m : gmap Z Z) : gmap Z Z :=
  <[id := default 0 (m !! id) + 1]> m.

(** The counters have not run out: fewer than 2^64 ids were handed out and no count is at the
    top of its range. *)
Definition roomy (s : InodeStore) : Prop :=
  next_id s < 2 ^ 64 - 1 ∧ ∀ id d, by_id s !! id = Some d → i_lookups d < 2 ^ 64 - 1.

(** * Lemmas *)

Section Lemmas.
Context `{Libc, HashOrder, HashOrderLaws}.
Implicit Types s : InodeStore.

Lemma refs_lookup s id : refs s !! id = i_lookups <$> by_id s !! id.
Proof. apply lookup_fmap. Qed.

Lemma store_ok_new fd st : store_ok (InodeStore_new fd st).
Proof.
  split; simpl.
  - by rewrite lookup_singleton_eq.
  - intros id d [<- <-]%lookup_singleton_Some. split; simpl; [done|unfold ROOT_ID; lia| |lia].
    by rewrite lookup_singleton_eq.
  - intros k id [<- <-]%lookup_singleton_Some. eexists. by rewrite lookup_singleton_eq.
  - unfold ROOT_ID. uint.
Qed.

(** Changing the mutable fields of a tracked inode keeps the table well formed. *)
Lemma store_ok_update s id d d' :
  store_ok s → by_id s !! id = Some d → i_id d' = i_id d → i_key d' = i_key d →
  1 ≤ i_lookups d' < 2 ^ 64 →
  store_ok (mkInodeStore (<[id := d']> (by_id s)) (by_key s) (next_id s)).
Proof.
  intros Hs Hd Hid Hk Hl. destruct (so_entry s Hs id d Hd). split; simpl.
  - rewrite lookup_insert_is_Some'. right. apply (so_root s Hs).
  - intros id' d''. rewrite lookup_insert_Some. intros [[<- <-]|[? Hd'']].
    + split; simpl; congruence || done.
    + by destruct (so_entry s Hs _ _ Hd'').
  - intros k id' Hk'. destruct (so_key s Hs k id' Hk') as (d'' & Hd'' & <-).
    destruct (decide (id = id')) as [<-|].
    + exists d'. rewrite lookup_insert_eq. split; congruence.
    + exists d''. by rewrite lookup_insert_ne.
  - apply (so_next s Hs).
Qed.

(** The two outcomes of [register]: the file is known, or it gets the next id. *)
Lemma register_known s parent name fd st id d :
  store_ok s → by_key s !! stat_key st = Some id → by_id s !! id = Some d →
  InodeStore_register parent name fd st s =
    let d' := InodeData_set_location parent name
                (InodeData_set_lookups (wrap 64 (i_lookups d + 1)) d) in
    (Ok (d', [fd]), mkInodeStore (<[id := d']> (by_id s)) (by_key s) (next_id s)).
Proof. intros Hs Hk Hd. unfold InodeStore_register. by rewrite Hk, Hd. Qed.

Lemma next_id_fresh s : store_ok s → by_id s !! next_id s = None.
Proof.
  intros Hs. destruct (by_id s !! next_id s) as [d|] eqn:E; [|done].
  destruct (so_entry s Hs _ _ E). lia.
Qed.

Lemma register_ok s parent name fd st :
  store_ok s → roomy s →
  ∃ d dropped s', InodeStore_register parent name fd st s = (Ok (d, dropped), s') ∧
    store_ok s' ∧ by_id s' !! i_id d = Some d ∧ i_key d = stat_key st ∧
    i_parent d = Some parent ∧ i_name d = name ∧
    refs s' = spec_lookup (i_id d) (refs s) ∧
    match by_key s !! stat_key st with
    | Some id => i_id d = id ∧ dropped = [fd] ∧ next_id s' = next_id s
    | None => i_id d = next_id s ∧ i_fd d = fd ∧ dropped = [] ∧ next_id s' = next_id s + 1
    end.
Proof.
  intros Hs [Hn Hroom]. pose proof (so_next s Hs) as Hnx.
  destruct (by_key s !! stat_key st) as [id|] eqn:Hk.
  - destruct (so_key s Hs _ _ Hk) as (d & Hd & Hkey). pose proof (Hroom _ _ Hd).
    pose proof (so_entry s Hs id d Hd) as [Hid ? ? ?].
    rewrite (register_known _ _ _ _ _ id d) by done. simpl.
    assert (wrap 64 (i_lookups d + 1) = i_lookups d + 1) as Hw by (apply wrap_id; uint).
    do 3 eexists. split; [done|]. simpl. rewrite Hid. split_and!; try done.
    + eapply store_ok_update; eauto. simpl. rewrite Hw. lia.
    + by rewrite lookup_insert_eq.
    + unfold refs, spec_lookup; simpl. rewrite fmap_insert, lookup_fmap, Hd; simpl. by rewrite Hw.
  - pose proof (next_id_fresh s Hs) as Hf. unfold InodeStore_register. rewrite Hk.
    assert (wrap 64 (next_id s + 1) = next_id s + 1) as Hw by (apply wrap_id; uint).
    do 3 eexists. split; [done|]. simpl. rewrite Hw. split_and!; try done.
    + split; simpl.
      * rewrite lookup_insert_is_Some'. right. apply (so_root s Hs).
      * intros id d. rewrite lookup_insert_Some. intros [[<- <-]|[? Hd]].
        { destruct (so_root s Hs) as [r Hr]. destruct (so_entry s Hs _ _ Hr).
          split; simpl; [done|lia| |lia]. by rewrite lookup_insert_eq. }
        destruct (so_entry s Hs _ _ Hd) as [? ? Hdk ?]. split; simpl; [done|lia| |done].
        rewrite lookup_insert_ne by congruence. done.
      * intros k id. rewrite lookup_insert_Some. intros [[<- <-]|[? Hki]].
        { eexists. by rewrite lookup_insert_eq. }
        destruct (so_key s Hs _ _ Hki) as (d & Hd & ?). exists d.
        rewrite lookup_insert_ne; [done|]. intros Heq. congruence.
      * uint.
    + by rewrite lookup_insert_eq.
    + unfold refs, spec_lookup; simpl. rewrite fmap_insert, lookup_fmap, Hf. done.
Qed.

Lemma forget_refs s id count :
  store_ok s → 0 ≤ count →
  refs (InodeStore_forget id count s).2 = spec_forget id count (refs s).
Proof.
  intros Hs Hc. unfold InodeStore_forget, spec_forget. rewrite refs_lookup.
  destruct (Z.eqb_spec id ROOT_ID) as [->|Hne].
  { by destruct (by_id s !! ROOT_ID). }
  destruct (by_id s !! id) as [d|] eqn:Hd; simpl; [|done].
  rewrite decide_False by done. destruct (so_entry s Hs id d Hd).
  destruct (Z.leb_spec (i_lookups d) count).
  - rewrite decide_True by done. unfold refs; simpl. rewrite fmap_delete, fmap_insert.
    by rewrite delete_insert_eq.
  - rewrite decide_False by lia. unfold refs; simpl. rewrite fmap_insert; simpl.
    rewrite wrap_id by uint. f_equal. lia.
Qed.

Lemma forget_ok s id count :
  store_ok s → 0 ≤ count → store_ok (InodeStore_forget id count s).2.
Proof.
  intros Hs Hc. unfold InodeStore_forget. destruct (Z.eqb_spec id ROOT_ID) as [|Hne]; [done|].
  destruct (by_id s !! id) as [d|] eqn:Hd; [|done]. destruct (so_entry s Hs id d Hd).
  destruct (Z.leb_spec (i_lookups d) count); simpl.
  - split; simpl.
    + rewrite lookup_delete_ne, lookup_insert_ne by done. apply (so_root s Hs).
    + intros id' d'. rewrite lookup_delete_Some. intros [? Hd'].
      rewrite lookup_insert_ne in Hd' by done. destruct (so_entry s Hs _ _ Hd').
      split; simpl; try done. rewrite lookup_delete_ne; [done|]. congruence.
    + intros k id' [? Hk]%lookup_delete_Some. destruct (so_key s Hs _ _ Hk) as (d' & Hd' & <-).
      exists d'. assert (id ≠ id') by congruence. by rewrite lookup_delete_ne, lookup_insert_ne.
    + apply (so_next s Hs).
  - eapply store_ok_update; eauto. simpl. rewrite wrap_id by uint. lia.
Qed.

Lemma note_rename_refs s op on np nn :
  refs (InodeStore_note_rename op on np nn s) = refs s.
Proof.
  unfold InodeStore_note_rename. case_match; [|done]. unfold refs; simpl.
  apply map_eq. intros i. rewrite !lookup_fmap, lookup_alter. case_decide; [|done].
  subst. by destruct (by_id s !! _).
Qed.

Lemma alter_location_ok s id np nn :
  store_ok s →
  store_ok (mkInodeStore (alter (InodeData_set_location np nn) id (by_id s)) (by_key s) (next_id s)).
Proof.
  intros Hs. rewrite alter_alt. destruct (by_id s !! id) as [d|] eqn:Hd; [|by destruct s].
  destruct (so_entry s Hs id d Hd). by eapply store_ok_update.
Qed.

Lemma note_rename_ok s op on np nn :
  store_ok s → store_ok (InodeStore_note_rename op on np nn s).
Proof.
  intros Hs. unfold InodeStore_note_rename. case_match; [|done]. by apply alter_location_ok.
Qed.

(** When the tracked inodes have distinct locations the order of the map does not matter. *)
Lemma note_rename_unique s op on np nn id d :
  by_id s !! id = Some d → i_parent d = Some op → i_name d = on →
  (∀ id' d', by_id s !! id' = Some d' → i_parent d' = Some op → i_name d' = on → id' = id) →
  InodeStore_note_rename op on np nn s =
    mkInodeStore (<[id := InodeData_set_location np nn d]> (by_id s)) (by_key s) (next_id s).
Proof.
  intros Hd Hp Hn Huniq. unfold InodeStore_note_rename. destruct (List.find _ _) as [id'|] eqn:Hf.
  - apply List.find_some in Hf as [_ Hloc]. destruct (by_id s !! id') as [d'|] eqn:Hd'; [|done].
    simpl in Hloc. unfold located in Hloc. apply andb_prop in Hloc as [Hp' Hn'].
    apply bool_decide_eq_true in Hp', Hn'. rewrite (Huniq id' d') by done.
    by rewrite alter_alt, Hd.
  - assert (In id (hash_order (by_id s))) as Hin.
    { apply list_elem_of_In. rewrite hash_order_perm. apply elem_of_elements, elem_of_dom. eauto. }
    apply (List.find_none _ _ Hf) in Hin. rewrite Hd in Hin; simpl in Hin. unfold located in Hin.
    by rewrite !bool_decide_true in Hin.
Qed.
End Lemmas.

(** ** Histories of the table

    The guest's own count of a node id goes up by one with every entry it receives and down by
    the count of every forget it sends; it never forgets more than it has.  A history interleaves
    lookups, forgets and renames in any order. *)

Section Histories.
Context `{Libc, HashOrder, HashOrderLaws}.

Definition guest_count (g : gmap Z Z) (id : Z) : Z := default 0 (g !! id).

Inductive table_step : InodeStore * gmap Z Z → InodeStore * gmap Z Z → Prop :=
| step_register s g parent name fd st d dropped s' :
    roomy s → InodeStore_register parent name fd st s = (Ok (d, dropped), s') →
    table_step (s, g) (s', spec_lookup (i_id d) g)
| step_forget s g id count :
    0 ≤ count ≤ guest_count g id →
    table_step (s, g) ((InodeStore_forget id count s).2, <[id := guest_count g id - count]> g)
| step_note_rename s g op on np nn :
    table_step (s, g) (InodeStore_note_rename op on np nn s, g).

(** What the server tracks is what the guest holds. *)
Definition balanced (s : InodeStore) (g : gmap Z Z) : Prop :=
  ∀ id, id ≠ ROOT_ID →
  0 ≤ guest_count g id ∧
  refs s !! id = (if decide (guest_count g id = 0) then None else Some (guest_count g id)).

Lemma table_step_inv s g s' g' :
  store_ok s → balanced s g → table_step (s, g) (s', g') → store_ok s' ∧ balanced s' g'.
Proof.
  intros Hs Hb Hstep. inversion Hstep as
    [? ? parent name fd st d dropped ? Hroom Hreg|? ? id count Hc|? ? op on np nn]; subst.
  - destruct (register_ok s parent name fd st Hs Hroom) as (d' & dr & s'' & Hreg' & Hs' & _ & _ & _ & _ & Hr & _).
    rewrite Hreg in Hreg'. simplify_eq. split; [done|]. intros id Hid. rewrite Hr.
    unfold spec_lookup, guest_count. rewrite !lookup_insert. case_decide as Hd; [subst id|by apply Hb].
    destruct (Hb _ Hid) as [Hpos Href]. rewrite Href. simpl. unfold guest_count in *.
    repeat case_decide; simpl; split; f_equal; lia.
  - split; [apply forget_ok; [done|lia]|]. intros id' Hid. rewrite forget_refs by (done || lia).
    destruct (Hb _ Hid) as [Hpos Href]. unfold spec_forget. destruct (decide (id = id')) as [<-|Hne].
    + assert (guest_count (<[id := guest_count g id - count]> g) id = guest_count g id - count) as ->.
      { unfold guest_count at 1. by rewrite lookup_insert_eq. }
      split; [lia|]. rewrite Href. destruct (decide (guest_count g id = 0)) as [Hz|Hz].
      * rewrite Href, !decide_True by lia. done.
      * rewrite decide_False by done. repeat case_decide; try lia.
        -- by rewrite lookup_delete_eq.
        -- by rewrite lookup_insert_eq.
    + assert (guest_count (<[id := guest_count g id - count]> g) id' = guest_count g id') as ->.
      { unfold guest_count at 1. by rewrite lookup_insert_ne. }
      split; [done|]. destruct (refs s !! id); [|done].
      repeat case_decide; rewrite ?lookup_delete_ne, ?lookup_insert_ne by done; done.
  - split; [by apply note_rename_ok|]. unfold balanced. by rewrite note_rename_refs.
Qed.

Lemma balanced_new fd st : balanced (InodeStore_new fd st) ∅.
Proof.
  intros id Hid. unfold guest_count. rewrite lookup_empty. split; [done|]. simpl.
  unfold refs; simpl. rewrite map_fmap_singleton, lookup_singleton_ne by done. done.
Qed.

Lemma table_history_inv fd st s g :
  rtc table_step (InodeStore_new fd st, ∅) (s, g) → store_ok s ∧ balanced s g.
Proof.
  intros Hr. change (store_ok (s, g).1 ∧ balanced (s, g).1 (s, g).2).
  revert Hr. generalize (s, g). apply rtc_ind_r.
  - split; [apply store_ok_new|apply balanced_new].
  - intros [s1 g1] [s2 g2] _ Hstep [? ?]. by eapply table_step_inv.
Qed.

(** Ids below the counter keep the file they were given for. *)
Definition same_files (s s' : InodeStore) : Prop :=
  next_id s ≤ next_id s' ∧
  ∀ id d', id < next_id s → by_id s' !! id = Some d' →
  ∃ d, by_id s !! id = Some d ∧ i_key d = i_key d' ∧ i_fd d = i_fd d'.

#[export] Instance same_files_preorder : PreOrder same_files.
Proof.
  split.
  - intros s. split; [done|]. eauto.
  - intros s1 s2 s3 [Hn1 H1'] [Hn2 H2']. split; [lia|]. intros id d3 Hid Hd3.
    destruct (H2' id d3) as (d2 & Hd2 & ? & ?); [lia|done|].
    destruct (H1' id d2) as (d1 & Hd1 & ? & ?); [done|done|]. exists d1. split_and!; congruence.
Qed.

Lemma same_files_step s g s' g' :
  store_ok s → table_step (s, g) (s', g') → same_files s s'.
Proof.
  intros Hs Hstep. inversion Hstep as
    [? ? parent name fd st d dropped ? [Hroom _] Hreg|? ? id count Hc|? ? op on np nn]; subst.
  - unfold InodeStore_register in Hreg. pose proof (so_next s Hs). pose proof (next_id_fresh s Hs).
    destruct (by_key s !! stat_key st) as [id|] eqn:Hk.
    + destruct (by_id s !! id) as [d0|] eqn:Hd0; simplify_eq/=. split; [done|].
      intros id' d' _. simpl. rewrite lookup_insert_Some. intros [[<- <-]|[? ?]]; eauto.
    + simplify_eq/=. unfold same_files; simpl. rewrite wrap_id by uint. split; [lia|].
      intros id' d' Hlt. rewrite lookup_insert_Some. intros [[<- <-]|[? ?]]; [lia|eauto].
  - unfold InodeStore_forget. repeat case_match; simpl; try reflexivity; split; try done; simpl.
    + intros id' d' _. rewrite lookup_delete_Some. intros [? Hd'].
      rewrite lookup_insert_ne in Hd' by done. eauto.
    + intros id' d' _. rewrite lookup_insert_Some. intros [[<- <-]|[? ?]]; eauto.
  - unfold InodeStore_note_rename. case_match; [|reflexivity]. split; [done|]. simpl.
    intros id' d' _. rewrite lookup_alter_Some. intros [(<- & d & Hd & ->)|[? ?]]; eauto.
Qed.
End Histories.

(** ** A concrete table

    The root (file 100), then two different files that were found one after the other under the
    same name [a] of the root: the first was replaced on the host between the two lookups. *)

Definition key_order : HashOrder := {| hash_order m := elements (dom m) |}.
Definition rev_key_order : HashOrder := {| hash_order m := reverse (elements (dom m)) |}.

#[export] Instance key_order_laws : HashOrderLaws (H := key_order).
Proof. split. done. Qed.
#[export] Instance rev_key_order_laws : HashOrderLaws (H := rev_key_order).
Proof. split. intros m. simpl. apply reverse_Permutation. Qed.

Definition name_a : bytes := [Byte.x61].
Definition name_b : bytes := [Byte.x62].

Definition sample_store0 : InodeStore := InodeStore_new 3 (sample_stat 100 0x41ed).
Definition sample_store1 : InodeStore :=
  (InodeStore_register (H := linux_libc) ROOT_ID name_a 4 (sample_stat 101 0x81a4) sample_store0).2.
Definition sample_store2 : InodeStore :=
  (InodeStore_register (H := linux_libc) ROOT_ID name_a 5 (sample_stat 102 0x81a4) sample_store1).2.

Lemma roomy_dec s :
  (next_id s <? 2 ^ 64 - 1) && forallb (λ p, i_lookups p.2 <? 2 ^ 64 - 1) (map_to_list (by_id s))
    = true → roomy s.
Proof.
  intros Hs. to_prop. split; [done|]. intros id d Hd.
  rewrite forallb_forall in H0. specialize (H0 (id, d)). simpl in H0. to_prop. apply Z.ltb_lt, H0.
  by apply list_elem_of_In, elem_of_map_to_list.
Qed.

Lemma sample_roomy0 : roomy sample_store0.
Proof. apply roomy_dec. vm_compute. reflexivity. Qed.
Lemma sample_roomy1 : roomy sample_store1.
Proof. apply roomy_dec. vm_compute. reflexivity. Qed.

(** * Properties *)

(** C15: in any history of lookups, forgets and renames by a guest that does not forget more than
    it was given, the server tracks exactly the inodes the guest still holds, with exactly the
    guest's counts: nothing the guest can still name is evicted, and nothing it has forgotten is
    kept (the root, which is never forgotten, apart).  The table stays well formed throughout. *)
Theorem lookup_counts_exact `{Libc, HashOrder} fd st s g id :
  rtc table_step (InodeStore_new fd st, ∅) (s, g) → id ≠ ROOT_ID →
  store_ok s ∧ 0 ≤ guest_count g id ∧
  (by_id s !! id = None ↔ guest_count g id = 0) ∧
  (∀ d, by_id s !! id = Some d → i_lookups d = guest_count g id ∧ 0 < guest_count g id).
Proof.
  intros Hr Hid. destruct (table_history_inv fd st s g Hr) as [Hs Hb].
  destruct (Hb id Hid) as [Hpos Href]. rewrite refs_lookup in Href. split_and!; [done..| |].
  - destruct (by_id s !! id); simpl in Href; case_decide; split; congruence.
  - intros d Hd. rewrite Hd in Href. simpl in Href. case_decide; [done|].
    injection Href as Hl. split; [done|lia].
Qed.

(** A file is looked up and forgotten: it is tracked in between and gone afterwards. *)
Lemma lookup_counts_exact_witness :
  by_id (InodeStore_forget 2 1 sample_store1).2 !! 2 = None.
Proof.
  eapply (lookup_counts_exact (H := linux_libc) (H0 := key_order) 3 (sample_stat 100 0x41ed)
    (InodeStore_forget 2 1 sample_store1).2 _ 2).
  - eapply rtc_l; [|eapply rtc_once].
    + eapply (step_register _ _ ROOT_ID name_a 4 (sample_stat 101 0x81a4) _ _ sample_store1);
        [apply sample_roomy0|vm_compute; reflexivity].
    + eapply (step_forget sample_store1 _ 2 1). vm_compute. split; congruence.
  - done.
  - vm_compute. reflexivity.
Defined.

(** C31: an inode id handed out to the guest never comes to denote another file: whatever happens
    afterwards, an id below the counter that is tracked was tracked before, for the same file and
    with the same descriptor. *)
Theorem inode_ids_stable `{Libc, HashOrder} s g s' g' :
  store_ok s → balanced s g → rtc table_step (s, g) (s', g') → same_files s s'.
Proof.
  intros Hs Hb Hr. change (same_files s (s', g').1).
  cut (store_ok (s', g').1 ∧ balanced (s', g').1 (s', g').2 ∧ same_files s (s', g').1);
    [tauto|].
  revert Hr. generalize (s', g'). apply rtc_ind_r; [done|].
  intros [s1 g1] [s2 g2] _ Hstep (Hs1 & Hb1 & Hsame). simpl in *.
  destruct (table_step_inv _ _ _ _ Hs1 Hb1 Hstep) as [? ?]. split_and!; [done..|].
  etrans; [exact Hsame|]. by eapply same_files_step.
Qed.

Lemma inode_ids_stable_witness : same_files sample_store0 sample_store1.
Proof.
  eapply (inode_ids_stable (H := linux_libc) (H0 := key_order) sample_store0 ∅ sample_store1).
  - apply store_ok_new.
  - apply balanced_new.
  - eapply rtc_once, (step_register _ _ ROOT_ID name_a 4 (sample_stat 101 0x81a4));
      [apply sample_roomy0|vm_compute; reflexivity].
Defined.

(** [register] never panics on a well-formed table and deduplicates by device and inode
    number: a file that is already tracked keeps its id and descriptor (the new one is dropped),
    a new file gets the next id; either way its count goes up by one and its location is the
    latest one. *)
Theorem register_dedup `{Libc} s parent name fd st :
  store_ok s → roomy s →
  ∃ d dropped s', InodeStore_register parent name fd st s = (Ok (d, dropped), s') ∧
    store_ok s' ∧ by_id s' !! i_id d = Some d ∧ i_key d = stat_key st ∧
    i_parent d = Some parent ∧ i_name d = name ∧
    refs s' = spec_lookup (i_id d) (refs s) ∧
    match by_key s !! stat_key st with
    | Some id => i_id d = id ∧ dropped = [fd] ∧ next_id s' = next_id s
    | None => i_id d = next_id s ∧ i_fd d = fd ∧ dropped = [] ∧ next_id s' = next_id s + 1
    end.
Proof. apply register_ok. Qed.

Lemma sample_ok1 : store_ok sample_store1.
Proof.
  unfold sample_store1.
  by destruct (register_ok (H := linux_libc) sample_store0 ROOT_ID name_a 4 (sample_stat 101 0x81a4)
    (store_ok_new 3 (sample_stat 100 0x41ed)) sample_roomy0) as (? & ? & ? & -> & ? & _).
Qed.

(** The same file found again under another name keeps id 2; descriptor 9 is closed. *)
Lemma register_dedup_witness :
  ∃ d s', InodeStore_register (H := linux_libc) ROOT_ID name_b 9 (sample_stat 101 0x81a4)
            sample_store1 = (Ok (d, [9]), s') ∧ i_id d = 2 ∧ i_name d = name_b.
Proof.
  destruct (register_dedup (H := linux_libc) sample_store1 ROOT_ID name_b 9 (sample_stat 101 0x81a4)
    sample_ok1 sample_roomy1) as (d & dr & s' & Hr & _ & _ & _ & _ & Hn & _ & Hm).
  vm_compute (by_key sample_store1 !! _) in Hm. destruct Hm as (Hid & -> & _). eauto.
Defined.

(** [forget] implements the protocol's forget: saturating subtraction, eviction exactly when
    the count reaches zero, and the root is never forgotten; and it keeps the table well formed. *)
Theorem forget_refines s id count :
  store_ok s → 0 ≤ count →
  refs (InodeStore_forget id count s).2 = spec_forget id count (refs s) ∧
  store_ok (InodeStore_forget id count s).2.
Proof. intros. split; [by apply forget_refs|by apply forget_ok]. Qed.

Lemma forget_refines_witness :
  refs (InodeStore_forget ROOT_ID 7 sample_store0).2 = refs sample_store0.
Proof.
  rewrite (proj1 (forget_refines sample_store0 ROOT_ID 7
    (store_ok_new 3 (sample_stat 100 0x41ed)) ltac:(lia))).
  vm_compute. reflexivity.
Defined.

(** [note_rename] moves the location of the renamed inode and of no other, provided a single
    tracked inode has the old location. *)
Theorem note_rename_exact {o : HashOrder} `{!HashOrderLaws} s op on np nn id d :
  by_id s !! id = Some d → i_parent d = Some op → i_name d = on →
  (∀ id' d', by_id s !! id' = Some d' → i_parent d' = Some op → i_name d' = on → id' = id) →
  InodeStore_note_rename op on np nn s =
    mkInodeStore (<[id := InodeData_set_location np nn d]> (by_id s)) (by_key s) (next_id s).
Proof. apply note_rename_unique. Qed.

Lemma note_rename_exact_witness :
  InodeStore_note_rename (H0 := key_order) ROOT_ID name_a ROOT_ID name_b sample_store1
  = mkInodeStore (alter (InodeData_set_location ROOT_ID name_b) 2 (by_id sample_store1))
                 (by_key sample_store1) (next_id sample_store1).
Proof.
  eapply eq_trans.
  - eapply (note_rename_exact (o := key_order) sample_store1 ROOT_ID name_a ROOT_ID name_b 2);
      [vm_compute; reflexivity|done|done|].
    intros id' d' Hl%elem_of_map_to_list%list_elem_of_In. vm_compute in Hl.
    by destruct Hl as [[= <- <-]|[[= <- <-]|[]]].
  - vm_compute. reflexivity.
Defined.

(** Nothing makes locations unique.  After a file is replaced on the host, two tracked inodes
    share a location, and which of them a rename through the server moves depends on the hash
    map's iteration order: in one order the live file (id 3) follows the rename, in the other it
    is left pointing at a name that no longer exists. *)
Theorem note_rename_order_dependent :
  let loc (o : HashOrder) :=
    (λ d, (i_parent d, i_name d)) <$>
      by_id (InodeStore_note_rename (H0 := o) ROOT_ID name_a ROOT_ID name_b sample_store2) !! 3 in
  loc key_order ≠ loc rev_key_order.
Proof. vm_compute. congruence. Qed.
