(* ===== verification/Handle.v ===== *)
(** * The handle table

    [handle.rs]: open files and directory streams by 64-bit handle.  A [nix::dir::Dir] owns the
    descriptor it was built from, so either kind of handle is a descriptor with a tag. *)

From S2P Require Import Prelude Errors.
Local Open Scope Z_scope.

Inductive HandleData :=
| HFile (fd : Z)
| HDir (fd : Z).

Record HandleStore := mkHandleStore {
  handles : gmap Z HandleData;
  next_handle : Z;
}.

Definition HandleData_fd (d : HandleData) : Z :=
  match d with
  | HFile fd | HDir fd => fd
  end.

Definition HandleStore_new : HandleStore := mkHandleStore ∅ 1.

(** Besides the new id: the handle a wrapped-around counter would overwrite is dropped. *)
Definition HandleStore_insert (data : HandleData) (s : HandleStore) : Z * list Z * HandleStore :=
  let id := next_handle s in
  (id, from_option (λ d, [HandleData_fd d]) [] (handles s !! id),
   mkHandleStore (<[id := data]> (handles s)) (wrap 64 (id + 1))).

Definition HandleStore_remove (id : Z) : M HandleStore FsError HandleData := λ s,
  match handles s !! id with
  | Some d => (Ok d, mkHandleStore (delete id (handles s)) (next_handle s))
  | None => (Err (UnknownHandle id), s)
  end.

(** [with_file] and [with_dir] up to the call of the closure: the descriptor it gets. *)
Definition HandleStore_with_file (id : Z) (s : HandleStore) : outcome FsError Z :=
  match handles s !! id with
  | Some (HFile fd) => Ok fd
  | Some (HDir _) => Err (InvalidArgument "handle is a directory, not a file")
  | None => Err (UnknownHandle id)
  end.

Definition HandleStore_with_dir (id : Z) (s : HandleStore) : outcome FsError Z :=
  match handles s !! id with
  | Some (HDir fd) => Ok fd
  | Some (HFile _) => Err (InvalidArgument "handle is a file, not a directory")
  | None => Err (UnknownHandle id)
  end.

Definition HandleStore_len (s : HandleStore) : nat := size (handles s).

(** Handles are below the counter, which has not run out. *)
Record handles_ok (s : HandleStore) : Prop := {
  ho_range id d : handles s !! id = Some d → 1 ≤ id < next_handle s;
  ho_next : 1 ≤ next_handle s < 2 ^ 64;
}.

(** * Lemmas *)

Lemma handles_ok_new : handles_ok HandleStore_new.
Proof. split; simpl; [|lia]. intros id d. by rewrite lookup_empty. Qed.

Lemma next_handle_fresh s : handles_ok s → handles s !! next_handle s = None.
Proof.
  intros Hs. destruct (handles s !! next_handle s) as [d|] eqn:E; [|done].
  apply (ho_range s Hs) in E. lia.
Qed.

Lemma insert_fresh s data :
  handles_ok s →
  HandleStore_insert data s =
    (next_handle s, [], mkHandleStore (<[next_handle s := data]> (handles s))
                                      (wrap 64 (next_handle s + 1))).
Proof. intros Hs. unfold HandleStore_insert. by rewrite (next_handle_fresh s Hs). Qed.

Lemma insert_handles_ok s data :
  handles_ok s → next_handle s < 2 ^ 64 - 1 → handles_ok (HandleStore_insert data s).2.
Proof.
  intros Hs Hn. pose proof (ho_next s Hs). simpl. rewrite wrap_id by uint. split; simpl; [|lia].
  intros id d. rewrite lookup_insert_Some. intros [[<- _]|[_ Hd]]; [lia|].
  apply (ho_range s Hs) in Hd. lia.
Qed.

Lemma remove_handles_ok s id : handles_ok s → handles_ok (HandleStore_remove id s).2.
Proof.
  intros Hs. unfold HandleStore_remove. case_match; [|done]. split; simpl; [|apply (ho_next s Hs)].
  intros id' d' [_ Hd]%lookup_delete_Some. by apply (ho_range s Hs) in Hd.
Qed.

(** * Properties *)

(** The operations on a handle table a client can cause. *)
Inductive handle_step : HandleStore → HandleStore → Prop :=
| hstep_insert data s :
    next_handle s < 2 ^ 64 - 1 → handle_step s (HandleStore_insert data s).2
| hstep_remove id s : handle_step s (HandleStore_remove id s).2.

(** A handle denotes the file it was opened on until it is released, and nothing afterwards:
    after [insert] returns [id], in every later history [id] has the same descriptor or none, and
    once removed it stays unknown, with the error each access then reports. *)
Theorem handles_stable s data s' :
  handles_ok s → next_handle s < 2 ^ 64 - 1 →
  rtc handle_step (HandleStore_insert data s).2 s' →
  let id := (HandleStore_insert data s).1.1 in
  handles_ok s' ∧ (handles s !! id = None) ∧
  (handles s' !! id = Some data ∨
   handles s' !! id = None ∧ HandleStore_with_file id s' = Err (UnknownHandle id) ∧
   HandleStore_with_dir id s' = Err (UnknownHandle id) ∧
   (HandleStore_remove id s').1 = Err (UnknownHandle id)).
Proof.
  intros Hs Hn Hr id.
  assert (handles_ok s' ∧ id < next_handle s' ∧
          (handles s' !! id = Some data ∨ handles s' !! id = None)) as (Hok & _ & Hd).
  { revert Hr. generalize s'. apply rtc_ind_r.
    - split_and!; [by apply insert_handles_ok| |left; apply lookup_insert_eq].
      simpl. pose proof (ho_next s Hs). rewrite wrap_id by uint. unfold id; simpl. lia.
    - intros s1 s2 _ Hstep (Hok & Hlt & Hd). destruct Hstep as [data' s1 Hn'|id' s1].
      + split_and!; [by apply insert_handles_ok| |].
        * simpl. pose proof (ho_next s1 Hok). rewrite wrap_id by uint. lia.
        * simpl. rewrite lookup_insert_ne by lia. done.
      + split_and!; [by apply remove_handles_ok| |]; unfold HandleStore_remove; case_match; simpl;
          try done.
        destruct (decide (id' = id)) as [->|]; [right; apply lookup_delete_eq|].
        rewrite lookup_delete_ne by done. done. }
  split_and!; [done|by apply next_handle_fresh|]. destruct Hd as [Hd|Hd]; [by left|right].
  unfold HandleStore_with_file, HandleStore_with_dir, HandleStore_remove. by rewrite Hd.
Qed.

(** Handle 1 is released: it is unknown, and the next open gets handle 2. *)
Lemma handles_stable_witness :
  HandleStore_with_file 1 (HandleStore_insert (HFile 9) (HandleStore_remove 1
    (HandleStore_insert (HFile 7) HandleStore_new).2).2).2 = Err (UnknownHandle 1).
Proof.
  destruct (handles_stable HandleStore_new (HFile 7)
    (HandleStore_insert (HFile 9) (HandleStore_remove 1
      (HandleStore_insert (HFile 7) HandleStore_new).2).2).2) as (_ & _ & [Hd|(_ & Hf & _)]).
  - apply handles_ok_new.
  - done.
  - eapply rtc_l; [apply (hstep_remove 1)|]. eapply rtc_once, hstep_insert. done.
  - vm_compute in Hd. congruence.
  - exact Hf.
Defined.
