(* ===== verification/Host.v ===== *)
(** * The host kernel

    The system calls [riftlessfs-core] makes are not part of the repository.  [Host] is the
    interface: a type of kernel states and one operation per call, each returning a value or an
    error number.  [HostLaws] states what the sources rely on, all of it documented behaviour of
    the calls: which descriptors are open before and after, and the sizes of what is returned.
    [VectoredLaws] is the documented relation between the vectored and the plain transfers. *)

From S2P Require Import Prelude Libc Errors Attr Wire.
From stdpp Require Import gmultiset.
Local Open Scope Z_scope.

(** [nix::dir::Type]; the kinds the sources do not distinguish are one constructor. *)
Inductive NixType := NixDirectory | NixSymlink | NixFile | NixSpecial.

(** [nix::dir::Entry]. *)
Record NixEntry := mkNixEntry {
  ne_name : bytes;
  ne_ino : Z;
  ne_type : option NixType;
}.

Class Host := {
  World : Type;
  sys_open : bytes → Z → World → (Z + Z) * World;
  sys_openat : Z → bytes → Z → option Z → World → (Z + Z) * World;
  sys_dupfd_cloexec : Z → World → (Z + Z) * World;
  sys_close : Z → World → World;
  sys_fstat : Z → World → (stat + Z) * World;
  sys_fstatat : Z → bytes → Z → World → (stat + Z) * World;
  sys_fstatvfs : Z → World → (statvfs + Z) * World;
  sys_mkdirat : Z → bytes → Z → World → (unit + Z) * World;
  sys_unlinkat : Z → bytes → Z → World → (unit + Z) * World;
  sys_renameat : Z → bytes → Z → bytes → World → (unit + Z) * World;
  sys_symlinkat : bytes → Z → bytes → World → (unit + Z) * World;
  sys_readlinkat : Z → bytes → nat → World → (bytes + Z) * World;
  sys_linkat : Z → bytes → Z → bytes → Z → World → (unit + Z) * World;
  sys_fchmodat : Z → bytes → Z → Z → World → (unit + Z) * World;
  sys_fchownat : Z → bytes → Z → Z → Z → World → (unit + Z) * World;
  sys_utimensat : Z → bytes → (Z * Z) * (Z * Z) → Z → World → (unit + Z) * World;
  sys_ftruncate : Z → Z → World → (unit + Z) * World;
  sys_pread : Z → nat → Z → World → (bytes + Z) * World;
  sys_pwrite : Z → bytes → Z → World → (nat + Z) * World;
  (** The lengths of the buffers to fill, and the bytes to fill them with in order. *)
  sys_preadv : Z → list nat → Z → World → (bytes + Z) * World;
  sys_pwritev : Z → list bytes → Z → World → (nat + Z) * World;
  sys_fsync : Z → World → (unit + Z) * World;
  (** [nix::dir::Dir::from_fd], which closes the descriptor when it fails. *)
  nix_dir_from_fd : Z → World → (unit + Z) * World;
  (** The items [nix::dir::Dir::iter] yields. *)
  nix_dir_iter : Z → World → list (NixEntry + Z) * World;
  (** [SystemTime::now().duration_since(UNIX_EPOCH)], [None] before the epoch. *)
  sys_now : World → option (Z * Z) * World;
}.

(** ** Laws *)

Section Laws.
Context `{Host}.

(** A call that opens, leaves alone or closes descriptors, in terms of the multiset of open
    descriptors (a descriptor number is open at most once; counting makes ownership a sum). *)
Definition opens_fd (fds : World → gmultiset Z) (call : World → (Z + Z) * World) : Prop :=
  ∀ w, match call w with
       | (inl fd, w') => fds w' = {[+ fd +]} ⊎ fds w ∧ fd ∉ fds w
       | (inr _, w') => fds w' = fds w
       end.

Definition keeps_fds {A} (fds : World → gmultiset Z) (call : World → A * World) : Prop :=
  ∀ w, fds (call w).2 = fds w.
End Laws.

Class HostLaws `{Host} := {
  open_fds : World → gmultiset Z;
  law_open path flags : opens_fd open_fds (sys_open path flags);
  law_openat dirfd name flags mode : opens_fd open_fds (sys_openat dirfd name flags mode);
  law_dupfd fd : opens_fd open_fds (sys_dupfd_cloexec fd);
  law_close fd w : open_fds (sys_close fd w) = open_fds w ∖ {[+ fd +]};
  law_from_fd fd w :
    match nix_dir_from_fd fd w with
    | (inl _, w') => open_fds w' = open_fds w
    | (inr _, w') => open_fds w' = open_fds w ∖ {[+ fd +]}
    end;
  law_iter fd : keeps_fds open_fds (nix_dir_iter fd);
  (** A directory has fewer than 2^63 entries. *)
  law_iter_length fd w : Z.of_nat (length (nix_dir_iter fd w).1) < 2 ^ 63;
  law_now : keeps_fds open_fds sys_now;
  law_fstat fd : keeps_fds open_fds (sys_fstat fd);
  law_fstatat dirfd name flags : keeps_fds open_fds (sys_fstatat dirfd name flags);
  law_fstatvfs fd : keeps_fds open_fds (sys_fstatvfs fd);
  law_mkdirat dirfd name mode : keeps_fds open_fds (sys_mkdirat dirfd name mode);
  law_unlinkat dirfd name flags : keeps_fds open_fds (sys_unlinkat dirfd name flags);
  law_renameat d1 n1 d2 n2 : keeps_fds open_fds (sys_renameat d1 n1 d2 n2);
  law_symlinkat target dirfd name : keeps_fds open_fds (sys_symlinkat target dirfd name);
  law_readlinkat dirfd name n : keeps_fds open_fds (sys_readlinkat dirfd name n);
  law_linkat d1 n1 d2 n2 flags : keeps_fds open_fds (sys_linkat d1 n1 d2 n2 flags);
  law_fchmodat dirfd name mode flags : keeps_fds open_fds (sys_fchmodat dirfd name mode flags);
  law_fchownat dirfd name u g flags : keeps_fds open_fds (sys_fchownat dirfd name u g flags);
  law_utimensat dirfd name ts flags : keeps_fds open_fds (sys_utimensat dirfd name ts flags);
  law_ftruncate fd n : keeps_fds open_fds (sys_ftruncate fd n);
  law_pread fd n off : keeps_fds open_fds (sys_pread fd n off);
  law_pwrite fd b off : keeps_fds open_fds (sys_pwrite fd b off);
  law_preadv fd ns off : keeps_fds open_fds (sys_preadv fd ns off);
  law_pwritev fd bs off : keeps_fds open_fds (sys_pwritev fd bs off);
  law_fsync fd : keeps_fds open_fds (sys_fsync fd);
  law_readlinkat_length dirfd name n w b :
    (sys_readlinkat dirfd name n w).1 = inl b → (length b ≤ n)%nat;
  law_pread_length fd n off w b : (sys_pread fd n off w).1 = inl b → (length b ≤ n)%nat;
  law_preadv_length fd ns off w b :
    (sys_preadv fd ns off w).1 = inl b → (length b ≤ sum_list ns)%nat;
  law_pwrite_length fd b off w n : (sys_pwrite fd b off w).1 = inl n → (n ≤ length b)%nat;
}.

(** readv(2): a vectored transfer is the plain transfer of the buffers one after the other.  Some
    hosts reject a transfer of no buffers at all, so the law is about at least one. *)
Class VectoredLaws `{Host} := {
  law_preadv_pread fd ns off w : ns ≠ [] → sys_preadv fd ns off w = sys_pread fd (sum_list ns) off w;
  law_pwritev_pwrite fd bs off w : bs ≠ [] → sys_pwritev fd bs off w = sys_pwrite fd (concat bs) off w;
}.
