(* ===== verification/Posix.v ===== *)
(** * A POSIX file system behind the calls

    [HostLaws] says which descriptors a call opens and closes.  This file says what the calls do to
    files: a [PosixView] reads off a kernel state the files there are, as a map from the pair of
    device and inode number to the contents, and the file behind each open descriptor.
    [PosixLaws] states the documented effect of each call on the two, for the names a FUSE client
    sends (one path component) and for a directory that no other process changes meanwhile.  A call
    may fail at any time, and then leaves both alone. *)

From S2P Require Import Prelude Libc Errors Bytes Attr Wire Inode Host.
Local Open Scope Z_scope.

#[export] Program Instance byte_countable : Countable byte := inj_countable Byte.to_N Byte.of_N _.
Next Obligation. intros b. apply Byte.of_to_N. Qed.

(** ** Files *)

Inductive body :=
| BDir (entries : gmap bytes FileKey)
| BFile (data : bytes)
| BLink (target : bytes)
| BOther.

(** A file with its permission bits and owner; times are not recorded. *)
Record node := mkNode { n_body : body; n_perm : Z; n_uid : Z; n_gid : Z }.

Abbreviation tree := (gmap FileKey node).

(** What a descriptor is open on. *)
Record OpenFile := mkOpenFile { of_file : FileKey; of_append : bool }.

Definition PERM_BITS : Z := 0x1ff.

Definition set_body (b : body) (n : node) : node := mkNode b (n_perm n) (n_uid n) (n_gid n).
Definition set_perm (p : Z) (n : node) : node := mkNode (n_body n) p (n_uid n) (n_gid n).
Definition set_owner (u g : Z) (n : node) : node := mkNode (n_body n) (n_perm n) u g.

Definition body_kind (b : body) : FileKind :=
  match b with
  | BDir _ => Dir
  | BFile _ => Regular
  | BLink _ => Symlink
  | BOther => Other
  end.

Definition entries_of (t : tree) (d : FileKey) : option (gmap bytes FileKey) :=
  n ← t !! d;
  match n_body n with
  | BDir es => Some es
  | _ => None
  end.

Definition child (t : tree) (d : FileKey) (name : bytes) : option FileKey :=
  es ← entries_of t d; es !! name.

Definition edit_dir (f : gmap bytes FileKey → gmap bytes FileKey) (n : node) : node :=
  match n_body n with
  | BDir es => set_body (BDir (f es)) n
  | _ => n
  end.

Definition edit_data (f : bytes → bytes) (n : node) : node :=
  match n_body n with
  | BFile data => set_body (BFile (f data)) n
  | _ => n
  end.

Definition put_entry (d : FileKey) (name : bytes) (k : FileKey) (t : tree) : tree :=
  alter (edit_dir (<[name := k]>)) d t.

Definition drop_entry (d : FileKey) (name : bytes) (t : tree) : tree :=
  alter (edit_dir (delete name)) d t.

Definition move_entry (d1 : FileKey) (n1 : bytes) (d2 : FileKey) (n2 : bytes) (k : FileKey) (t : tree) : tree :=
  put_entry d2 n2 k (drop_entry d1 n1 t).

(** A new file under a new name. *)
Definition add_node (d : FileKey) (name : bytes) (k : FileKey) (m : node) (t : tree) : tree :=
  <[k := m]> (put_entry d name k t).

(** Bytes written at an offset; a gap is filled with zeroes, and writing nothing does nothing. *)
Definition write_at (off : nat) (b data : bytes) : bytes :=
  if decide (b = []) then data
  else splice off b (data ++ replicate (off + length b - length data) NUL).

(** A file without a name or a descriptor may go. *)
Definition referenced (fds : gmap Z OpenFile) (t : tree) (k : FileKey) : Prop :=
  (∃ fd o, fds !! fd = Some o ∧ of_file o = k) ∨ (∃ d name, child t d name = Some k).

Definition reaped (fds : gmap Z OpenFile) (t t' : tree) : Prop :=
  t' ⊆ t ∧ ∀ k, is_Some (t !! k) → t' !! k = None → ¬ referenced fds t' k.

(** ** Names and flags *)

(** One path component. *)
Definition plain (name : bytes) : Prop :=
  name ≠ [] ∧ (NUL ∉ name) ∧ (Byte.x2f ∉ name) ∧ name ≠ [Byte.x2e] ∧ name ≠ [Byte.x2e; Byte.x2e].

#[export] Instance plain_dec name : Decision (plain name).
Proof. unfold plain. apply _. Defined.

Section Flags.
Context `{Libc}.

Definition has (bit flags : Z) : bool := negb (Z.land flags bit =? 0).

Definition CREATING : Z := Z.lor (Z.lor O_CREAT O_TRUNC) O_TMPFILE_BIT.

(** An [open] with such flags neither creates nor empties a file. *)
Definition opens_existing (flags : Z) : Prop := Z.land flags CREATING = 0.

(** An [open] with such flags opens a symbolic link itself. *)
Definition nofollow (flags : Z) : bool :=
  match target_os with
  | Linux => has O_PATH flags && has O_NOFOLLOW flags
  | MacOS => has O_SYMLINK flags
  | OtherUnix => false
  end.

(** With [O_CREAT] and [O_EXCL], such flags make [open] create a regular file. *)
Definition creates_file (flags : Z) : Prop :=
  Z.land flags (Z.lor (Z.lor O_PATH O_DIRECTORY) (Z.lor O_SYMLINK O_EVTONLY)) = 0.

(** The values of the flags are distinct bits. *)
Class FlagLaws : Prop := {
  fl_bits f : f ∈ [O_RDONLY; O_WRONLY; O_DIRECTORY; O_CLOEXEC; O_NOFOLLOW; O_PATH; O_EVTONLY; O_SYMLINK] →
    opens_existing f;
  fl_linux : target_os = Linux → O_PATH ≠ 0 ∧ O_NOFOLLOW ≠ 0;
  fl_macos : target_os = MacOS → O_SYMLINK ≠ 0;
}.
End Flags.

(** ** Laws *)

Class PosixView `{Host} := {
  files : World → tree;
  fd_files : World → gmap Z OpenFile;
}.
#[global] Arguments files {_ _} w : simpl never.
#[global] Arguments fd_files {_ _} w : simpl never.

Section Effects.
Context `{Libc, PosixView}.

Definition same (w w' : World) : Prop := files w' = files w ∧ fd_files w' = fd_files w.

(** A call with its effect when it succeeds. *)
Definition effect {A} (call : World → (A + Z) * World) (post : A → World → World → Prop) : Prop :=
  ∀ w, match call w with
       | (inl a, w') => post a w w'
       | (inr _, w') => same w w'
       end.

(** The file a name in the directory behind a descriptor denotes. *)
Definition denotes (w : World) (dirfd : Z) (name : bytes) (d k : FileKey) : Prop :=
  (∃ o, fd_files w !! dirfd = Some o ∧ of_file o = d) ∧ child (files w) d name = Some k.

(** A name the directory does not have yet. *)
Definition free_in (w : World) (dirfd : Z) (name : bytes) (d : FileKey) : Prop :=
  (∃ o, fd_files w !! dirfd = Some o ∧ of_file o = d) ∧ is_Some (entries_of (files w) d) ∧
  child (files w) d name = None.

Definition opened (fd : Z) (o : OpenFile) (w w' : World) : Prop :=
  fd_files w !! fd = None ∧ fd_files w' = <[fd := o]> (fd_files w).

(** What a [stat] tells about a file. *)
Record describes (k : FileKey) (n : node) (st : stat) : Prop := {
  ds_key : stat_key st = k;
  ds_kind : FileKind_from_mode (as_u32 (st_mode st)) = body_kind (n_body n);
  ds_perm : Z.land (st_mode st) PERM_BITS = n_perm n;
  ds_uid : st_uid st = n_uid n;
  ds_gid : st_gid st = n_gid n;
  ds_size data : n_body n = BFile data → st_size st = Z.of_nat (length data);
}.

(** A new file: its number is not in use, and its permissions are among those asked for. *)
Definition created (d : FileKey) (name : bytes) (b : body) (mode : Z) (k : FileKey) (w w' : World) : Prop :=
  files w !! k = None ∧
  ∃ m, n_body m = b ∧ n_perm m = Z.land (n_perm m) (Z.land mode PERM_BITS) ∧ files w' = add_node d name k m (files w).

(** The bytes of a transfer of [n] from a regular file: some of those there, and none only at the
    end of the file. *)
Definition read_from (data : bytes) (off : Z) (n : nat) (b : bytes) : Prop :=
  let there := take n (drop (Z.to_nat off) data) in
  0 ≤ off ∧ b `prefix_of` there ∧ (b = [] → there = []).

(** Where a positioned write goes: pwrite(2) of Linux appends to a file opened with [O_APPEND]. *)
Definition write_offset (o : OpenFile) (off : Z) (data : bytes) : nat :=
  if of_append o && bool_decide (target_os = Linux) then length data else Z.to_nat off.

Definition reads (fd : Z) (n : nat) (off : Z) (b : bytes) (w w' : World) : Prop :=
  same w w' ∧ ∃ o nd, fd_files w !! fd = Some o ∧ files w !! of_file o = Some nd ∧
    ∀ data, n_body nd = BFile data → read_from data off n b.

Definition writes_at (fd : Z) (b : bytes) (off : Z) (n : nat) (w w' : World) : Prop :=
  fd_files w' = fd_files w ∧ (n ≤ length b)%nat ∧ 0 ≤ off ∧
  ∃ o, fd_files w !! fd = Some o ∧
    files w' = alter (edit_data (λ data, write_at (write_offset o off data) (take n b) data))
                     (of_file o) (files w).
End Effects.

Class PosixLaws `{Libc, PosixView} : Prop := {
  pl_live w fd o : fd_files w !! fd = Some o → is_Some (files w !! of_file o);
  pl_open path :
    effect (sys_open path (Z.lor (Z.lor O_DIRECTORY O_RDONLY) O_CLOEXEC))
      (λ fd w w', files w' = files w ∧
         ∃ o, opened fd o w w' ∧ is_Some (entries_of (files w) (of_file o)));
  pl_openat dirfd name flags mode :
    plain name → opens_existing flags →
    effect (sys_openat dirfd name flags mode)
      (λ fd w w', ∃ d k n, denotes w dirfd name d k ∧ files w !! k = Some n ∧
         (body_kind (n_body n) ≠ Symlink ∨ nofollow flags = true →
          files w' = files w ∧ opened fd (mkOpenFile k (has O_APPEND flags)) w w'));
  pl_create dirfd name flags mode :
    plain name → creates_file flags →
    effect (sys_openat dirfd name (Z.lor (Z.lor flags O_CREAT) O_EXCL) (Some mode))
      (λ fd w w', ∃ d k, free_in w dirfd name d ∧ created d name (BFile []) mode k w w' ∧
         opened fd (mkOpenFile k (has O_APPEND flags)) w w');
  pl_dupfd fd :
    effect (sys_dupfd_cloexec fd)
      (λ fd' w w', files w' = files w ∧ ∃ o, fd_files w !! fd = Some o ∧ opened fd' o w w');
  pl_close fd w :
    fd_files (sys_close fd w) = delete fd (fd_files w) ∧
    reaped (fd_files (sys_close fd w)) (files w) (files (sys_close fd w));
  pl_fstat fd :
    effect (sys_fstat fd)
      (λ st w w', same w w' ∧ ∃ o n, fd_files w !! fd = Some o ∧ files w !! of_file o = Some n ∧
         describes (of_file o) n st);
  pl_fstatat dirfd name :
    plain name →
    effect (sys_fstatat dirfd name AT_SYMLINK_NOFOLLOW)
      (λ st w w', same w w' ∧ ∃ d k n, denotes w dirfd name d k ∧ files w !! k = Some n ∧ describes k n st);
  pl_fstatvfs fd : effect (sys_fstatvfs fd) (λ _, same);
  pl_mkdirat dirfd name mode :
    plain name →
    effect (sys_mkdirat dirfd name mode)
      (λ _ w w', fd_files w' = fd_files w ∧
         ∃ d k, free_in w dirfd name d ∧ created d name (BDir ∅) mode k w w');
  pl_symlinkat target dirfd name :
    plain name →
    effect (sys_symlinkat target dirfd name)
      (λ _ w w', fd_files w' = fd_files w ∧
         ∃ d k, free_in w dirfd name d ∧ created d name (BLink target) PERM_BITS k w w');
  pl_unlinkat dirfd name :
    plain name →
    effect (sys_unlinkat dirfd name 0)
      (λ _ w w', fd_files w' = fd_files w ∧
         ∃ d k n, denotes w dirfd name d k ∧ files w !! k = Some n ∧ body_kind (n_body n) ≠ Dir ∧
           reaped (fd_files w') (drop_entry d name (files w)) (files w'));
  pl_rmdir dirfd name :
    plain name →
    effect (sys_unlinkat dirfd name AT_REMOVEDIR)
      (λ _ w w', fd_files w' = fd_files w ∧
         ∃ d k, denotes w dirfd name d k ∧ entries_of (files w) k = Some ∅ ∧
           reaped (fd_files w') (drop_entry d name (files w)) (files w'));
  (** rename(2): nothing happens when both names are the same file. *)
  pl_renameat d1 n1 d2 n2 :
    plain n1 → plain n2 →
    effect (sys_renameat d1 n1 d2 n2)
      (λ _ w w', fd_files w' = fd_files w ∧
         ∃ k1 k2 k o2, denotes w d1 n1 k1 k ∧ fd_files w !! d2 = Some o2 ∧ of_file o2 = k2 ∧
           is_Some (entries_of (files w) k2) ∧
           if decide (child (files w) k2 n2 = Some k) then files w' = files w
           else reaped (fd_files w') (move_entry k1 n1 k2 n2 k (files w)) (files w'));
  pl_readlinkat dirfd name n :
    plain name →
    effect (sys_readlinkat dirfd name n)
      (λ b w w', same w w' ∧ ∃ d k nd target, denotes w dirfd name d k ∧ files w !! k = Some nd ∧
         n_body nd = BLink target ∧ b = take n target);
  pl_linkat fd dirfd name :
    plain name → target_os = Linux →
    effect (sys_linkat fd [] dirfd name AT_EMPTY_PATH)
      (λ _ w w', fd_files w' = fd_files w ∧
         ∃ o d, fd_files w !! fd = Some o ∧ free_in w dirfd name d ∧
           files w' = put_entry d name (of_file o) (files w));
  pl_linkat_name d1 n1 dirfd name :
    plain n1 → plain name →
    effect (sys_linkat d1 n1 dirfd name 0)
      (λ _ w w', fd_files w' = fd_files w ∧
         ∃ k1 k d, denotes w d1 n1 k1 k ∧ free_in w dirfd name d ∧
           files w' = put_entry d name k (files w));
  pl_fchmodat dirfd name mode :
    plain name →
    effect (sys_fchmodat dirfd name mode AT_SYMLINK_NOFOLLOW)
      (λ _ w w', fd_files w' = fd_files w ∧
         ∃ d k, denotes w dirfd name d k ∧
           files w' = alter (set_perm (Z.land mode PERM_BITS)) k (files w));
  pl_fchownat dirfd name u g :
    plain name →
    effect (sys_fchownat dirfd name u g AT_SYMLINK_NOFOLLOW)
      (λ _ w w', fd_files w' = fd_files w ∧
         ∃ d k, denotes w dirfd name d k ∧
           files w' = alter (λ n, set_owner (if u =? 2 ^ 32 - 1 then n_uid n else u)
                                            (if g =? 2 ^ 32 - 1 then n_gid n else g) n) k (files w));
  pl_utimensat dirfd name times :
    effect (sys_utimensat dirfd name times AT_SYMLINK_NOFOLLOW) (λ _, same);
  pl_ftruncate fd n :
    effect (sys_ftruncate fd n)
      (λ _ w w', fd_files w' = fd_files w ∧ 0 ≤ n ∧
         ∃ o, fd_files w !! fd = Some o ∧
           files w' = alter (edit_data (resize (Z.to_nat n) NUL)) (of_file o) (files w));
  pl_pread fd n off : effect (sys_pread fd n off) (reads fd n off);
  pl_preadv fd ns off : effect (sys_preadv fd ns off) (reads fd (sum_list ns) off);
  pl_pwrite fd b off : effect (sys_pwrite fd b off) (writes_at fd b off);
  pl_pwritev fd bs off : effect (sys_pwritev fd bs off) (writes_at fd (concat bs) off);
  pl_fsync fd : effect (sys_fsync fd) (λ _, same);
  pl_from_fd fd w :
    match nix_dir_from_fd fd w with
    | (inl _, w') => same w w'
    | (inr _, w') => fd_files w' = delete fd (fd_files w) ∧ reaped (fd_files w') (files w) (files w')
    end;
  (** A directory stream without an error lists every name once, besides [.] and [..]. *)
  pl_iter fd w :
    same w (nix_dir_iter fd w).2 ∧
    ∀ l, (nix_dir_iter fd w).1 = inl <$> l →
    ∃ o es, fd_files w !! fd = Some o ∧ entries_of (files w) (of_file o) = Some es ∧
      NoDup (ne_name <$> l) ∧
      ∀ name, plain name → (name ∈ (ne_name <$> l) ↔ is_Some (es !! name));
  pl_now : ∀ w, same w (sys_now w).2;
}.

(** * Lemmas *)

Lemma reaped_refl fds t : reaped fds t t.
Proof. split; [done|]. intros k [n Hn]. congruence. Qed.
