(* ===== verification/ToyHost.v ===== *)
(** * A small host

    An in-memory kernel that implements [Host], used only in witnesses and in theorems that
    exhibit a behaviour: directories with a parent, regular files and symbolic links, addressed
    by inode number, permissions and owners, and a table of open descriptors of limited size.
    Names are single components; the top of the tree is inode 9.  It satisfies [HostLaws],
    [VectoredLaws] and, with the flags of Linux, [PosixLaws]. *)

From S2P Require Import Prelude Libc Errors Bytes Attr Wire Inode Host Posix.
From stdpp Require Import gmultiset.
Local Open Scope Z_scope.

Inductive toy_node :=
| TDir (parent : Z) (entries : list (bytes * Z))
| TFile (data : bytes)
| TLink (target : bytes).

(** Permissions and owners that are not the defaults, and the descriptors opened to append. *)
Record toy_extra := mkExtra {
  x_perm : gmap Z Z;
  x_owner : gmap Z (Z * Z);
  x_append : gset Z;
}.

Definition extra0 : toy_extra := mkExtra ∅ ∅ ∅.

Record toy_world := mkToy {
  t_nodes : gmap Z toy_node;
  t_fds : gmap Z Z;
  t_next : Z;
  t_limit : nat;
  t_extra : toy_extra;
}.

Definition toy_dot : bytes := [Byte.x2e].
Definition toy_dotdot : bytes := [Byte.x2e; Byte.x2e].

Definition toy_fresh (m : gmap Z Z) : Z := map_fold (λ fd _ n, Z.max fd n) 2 m + 1.

(** An inode number no file and no descriptor has. *)
Definition toy_fresh_ino (w : toy_world) : Z :=
  Z.max (t_next w)
    (Z.max (map_fold (λ i _ n, Z.max i n) 2 (t_nodes w)) (map_fold (λ _ i n, Z.max i n) 2 (t_fds w)) + 1).

Definition toy_open_fds (w : toy_world) : gmultiset Z :=
  list_to_set_disj (fst <$> map_to_list (t_fds w)).

Definition toy_set_nodes (m : gmap Z toy_node) (w : toy_world) : toy_world :=
  mkToy m (t_fds w) (t_next w) (t_limit w) (t_extra w).

Definition toy_set_extra (x : toy_extra) (w : toy_world) : toy_world :=
  mkToy (t_nodes w) (t_fds w) (t_next w) (t_limit w) x.

Definition toy_set_perm (ino p : Z) (w : toy_world) : toy_world :=
  toy_set_extra (mkExtra (<[ino := p]> (x_perm (t_extra w))) (x_owner (t_extra w)) (x_append (t_extra w))) w.

Definition toy_set_owner (ino u g : Z) (w : toy_world) : toy_world :=
  toy_set_extra (mkExtra (x_perm (t_extra w)) (<[ino := (u, g)]> (x_owner (t_extra w))) (x_append (t_extra w))) w.

Fixpoint toy_assoc (name : bytes) (es : list (bytes * Z)) : option Z :=
  match es with
  | [] => None
  | (n, ino) :: es => if decide (n = name) then Some ino else toy_assoc name es
  end.

Definition toy_remove (name : bytes) (es : list (bytes * Z)) : list (bytes * Z) :=
  filter (λ e, e.1 ≠ name) es.

Definition toy_node_at (fd : Z) (w : toy_world) : option (Z * toy_node) :=
  ino ← t_fds w !! fd; n ← t_nodes w !! ino; Some (ino, n).

(** The directory behind a descriptor. *)
Definition toy_dir (fd : Z) (w : toy_world) : option (Z * Z * list (bytes * Z)) :=
  match toy_node_at fd w with
  | Some (d, TDir p es) => Some (d, p, es)
  | _ => None
  end.

(** The file a name denotes in a directory. *)
Definition toy_child (d p : Z) (es : list (bytes * Z)) (name : bytes) (w : toy_world) : option (Z * toy_node) :=
  ino ← (if decide (name = toy_dotdot) then Some p
         else if decide (name = toy_dot) then Some d else toy_assoc name es);
  n ← t_nodes w !! ino; Some (ino, n).

Definition toy_resolve (dirfd : Z) (name : bytes) (w : toy_world) : option (Z * toy_node) :=
  '(d, p, es) ← toy_dir dirfd w; toy_child d p es name w.

Definition toy_reserved (name : bytes) : bool := bool_decide (name = toy_dot) || bool_decide (name = toy_dotdot).

(** The directory in which a new name can be put. *)
Definition toy_slot (dirfd : Z) (name : bytes) (w : toy_world) : (Z * Z * list (bytes * Z)) + Z :=
  match toy_dir dirfd w with
  | Some (d, p, es) =>
      if toy_reserved name || bool_decide (is_Some (toy_assoc name es)) then inr 17 else inl (d, p, es)
  | None => inr 20
  end.

(** Add a new node under a name. *)
Definition toy_add (d p : Z) (es : list (bytes * Z)) (name : bytes) (n : toy_node) (mode : Z)
    (w : toy_world) : toy_world :=
  let ino := toy_fresh_ino w in
  let x := t_extra w in
  mkToy (<[ino := n]> (<[d := TDir p ((name, ino) :: es)]> (t_nodes w))) (t_fds w) (ino + 1) (t_limit w)
        (mkExtra (<[ino := Z.land mode 0x1ed]> (x_perm x)) (x_owner x) (x_append x)).

Definition toy_perm (w : toy_world) (ino : Z) (n : toy_node) : Z :=
  Z.land (default (match n with TDir _ _ => 0x1ed | TFile _ => 0x1a4 | TLink _ => 0x1ff end)
                  (x_perm (t_extra w) !! ino)) PERM_BITS.

Definition toy_owner (w : toy_world) (ino : Z) : Z * Z := default (0, 0) (x_owner (t_extra w) !! ino).

(** The names of a file. *)
Definition toy_links (w : toy_world) (ino : Z) : Z :=
  map_fold (λ _ n k, match n with
                     | TDir _ es => k + Z.of_nat (length (filter (λ e, e.2 = ino) es))
                     | _ => k
                     end) 0 (t_nodes w).

Definition toy_stat (w : toy_world) (ino : Z) (n : toy_node) : stat :=
  let '(u, g) := toy_owner w ino in
  let p := toy_perm w ino n in
  match n with
  | TDir _ _ => mkStat 1 ino (0x4000 + p) 1 u g 0 0 0 4096 0 0 0 0 0 0
  | TFile data => mkStat 1 ino (0x8000 + p) (toy_links w ino) u g 0 (Z.of_nat (length data)) 0 4096 0 0 0 0 0 0
  | TLink _ => mkStat 1 ino (0xa000 + p) 1 u g 0 0 0 4096 0 0 0 0 0 0
  end.

Definition toy_full (w : toy_world) : bool := (t_limit w <=? size (t_fds w))%nat.

Definition toy_alloc_flags (ino : Z) (append : bool) (w : toy_world) : (Z + Z) * toy_world :=
  let fd := toy_fresh (t_fds w) in
  let x := t_extra w in
  if toy_full w then (inr 24, w)
  else (inl fd, mkToy (t_nodes w) (<[fd := ino]> (t_fds w)) (t_next w) (t_limit w)
                      (mkExtra (x_perm x) (x_owner x)
                               (if append then {[fd]} ∪ x_append x else x_append x ∖ {[fd]}))).

Definition toy_alloc (ino : Z) (w : toy_world) : (Z + Z) * toy_world := toy_alloc_flags ino false w.

(** The data of the file behind a descriptor. *)
Definition toy_data (fd : Z) (w : toy_world) : option (Z * bytes) :=
  match toy_node_at fd w with
  | Some (ino, TFile data) => Some (ino, data)
  | _ => None
  end.

Definition toy_set_data (ino : Z) (data : bytes) (w : toy_world) : toy_world :=
  toy_set_nodes (<[ino := TFile data]> (t_nodes w)) w.

(** The components of a path. *)
Fixpoint toy_split (path cur : bytes) : list bytes :=
  match path with
  | [] => [cur]
  | c :: path => if decide (c = Byte.x2f) then cur :: toy_split path [] else toy_split path (cur ++ [c])
  end.

(** Walk a path, through the symbolic links on the way. *)
Fixpoint toy_walk (fuel : nat) (d : Z) (path : list bytes) (w : toy_world) : option (Z * toy_node) :=
  match fuel, path with
  | O, _ => None
  | S _, [] => n ← t_nodes w !! d; Some (d, n)
  | S fuel, [] :: path => toy_walk fuel 9 path w
  | S fuel, c :: path =>
      match t_nodes w !! d with
      | Some (TDir p es) =>
          match toy_child d p es c w with
          | Some (_, TLink target) => toy_walk fuel d (toy_split target [] ++ path) w
          | Some (ino, _) => toy_walk fuel ino path w
          | None => None
          end
      | _ => None
      end
  end.

(** Open a file that exists: [O_DIRECTORY], [O_TRUNC] (unless [O_PATH]) and [O_APPEND]. *)
Definition toy_open_node (ino : Z) (n : toy_node) (flags : Z) (w : toy_world) : (Z + Z) * toy_world :=
  match n with
  | TDir _ _ => toy_alloc_flags ino (has 0x400 flags) w
  | TFile data =>
      if has 0x10000 flags then (inr 20, w)
      else if toy_full w then (inr 24, w)
      else toy_alloc_flags ino (has 0x400 flags)
             (if has 0x200 flags && negb (has 0x200000 flags) then toy_set_data ino [] w else w)
  | TLink _ => if has 0x200000 flags && has 0x20000 flags && negb (has 0x10000 flags)
               then toy_alloc_flags ino (has 0x400 flags) w else (inr 40, w)
  end.

Definition toy_openat (dirfd : Z) (name : bytes) (flags : Z) (mode : option Z) (w : toy_world)
    : (Z + Z) * toy_world :=
  let creat := has 0x40 flags && negb (has 0x200000 flags) in
  match toy_resolve dirfd name w with
  | Some (ino, n) =>
      if creat && has 0x80 flags then (inr 17, w)
      else match n with
           | TLink target =>
               if has 0x20000 flags then toy_open_node ino n flags w
               else match toy_walk 16 (default 0 (t_fds w !! dirfd)) (toy_split target []) w with
                    | Some (ino, n) => toy_open_node ino n flags w
                    | None => (inr 2, w)
                    end
           | _ => toy_open_node ino n flags w
           end
  | None =>
      if creat then
        match toy_slot dirfd name w with
        | inl (d, p, es) =>
            if toy_full w then (inr 24, w)
            else toy_alloc_flags (toy_fresh_ino w) (has 0x400 flags)
                                 (toy_add d p es name (TFile []) (default 0 mode) w)
        | inr e => (inr e, w)
        end
      else (inr 2, w)
  end.

Definition toy_ok {A} (a : A) (w : toy_world) : (A + Z) * toy_world := (inl a, w).

(** Act on the file a name denotes. *)
Definition toy_named {A} (dirfd : Z) (name : bytes) (f : Z → toy_node → (A + Z) * toy_world) (w : toy_world)
    : (A + Z) * toy_world :=
  match toy_resolve dirfd name w with
  | Some (ino, n) => f ino n
  | None => (inr 2, w)
  end.

Definition toy_pread (fd : Z) (n : nat) (off : Z) (w : toy_world) : (bytes + Z) * toy_world :=
  match toy_data fd w with
  | Some (_, data) => if off <? 0 then (inr 22, w)
                      else (inl (take n (drop (Z.to_nat off) data)), w)
  | None => (inr 9, w)
  end.

Definition toy_pwrite (fd : Z) (b : bytes) (off : Z) (w : toy_world) : (nat + Z) * toy_world :=
  match toy_data fd w with
  | Some (ino, data) =>
      if off <? 0 then (inr 22, w)
      else
        let o := if bool_decide (fd ∈ x_append (t_extra w)) then length data else Z.to_nat off in
        (inl (length b), toy_set_data ino (write_at o b data) w)
  | None => (inr 9, w)
  end.

Definition toy_pwritev (fd : Z) (bs : list bytes) (off : Z) (w : toy_world) : (nat + Z) * toy_world :=
  toy_pwrite fd (concat bs) off w.

Definition toy_preadv (fd : Z) (ns : list nat) (off : Z) (w : toy_world) : (bytes + Z) * toy_world :=
  toy_pread fd (sum_list ns) off w.

Definition toy_close (fd : Z) (w : toy_world) : toy_world :=
  mkToy (t_nodes w) (delete fd (t_fds w)) (t_next w) (t_limit w) (t_extra w).

Definition toy_mk (dirfd : Z) (name : bytes) (mode : Z) (n : Z → toy_node) (w : toy_world)
    : (unit + Z) * toy_world :=
  match toy_slot dirfd name w with
  | inl (d, p, es) => (inl tt, toy_add d p es name (n d) mode w)
  | inr e => (inr e, w)
  end.

(** Replace the entries of a directory. *)
Definition toy_set_entries (d p : Z) (es : list (bytes * Z)) (w : toy_world) : toy_world :=
  toy_set_nodes (<[d := TDir p es]> (t_nodes w)) w.

Definition toy_unlink (dirfd : Z) (name : bytes) (flags : Z) (w : toy_world) : (unit + Z) * toy_world :=
  match toy_dir dirfd w, toy_resolve dirfd name w with
  | Some (d, p, es), Some (_, n) =>
      if toy_reserved name then (inr 22, w)
      else match n with
           | TDir _ sub =>
               if (flags =? 0x200) && bool_decide (sub = []) then (inl tt, toy_set_entries d p (toy_remove name es) w)
               else (inr (if flags =? 0x200 then 39 else 21), w)
           | _ => if flags =? 0x200 then (inr 20, w) else (inl tt, toy_set_entries d p (toy_remove name es) w)
           end
  | _, _ => (inr 2, w)
  end.

(** A directory replaces only an empty directory, another file only another file. *)
Definition toy_replaces (n : toy_node) (old : option (Z * toy_node)) : bool :=
  match n, old with
  | _, None => true
  | TDir _ _, Some (_, TDir _ []) => true
  | TDir _ _, Some _ | _, Some (_, TDir _ _) => false
  | _, Some _ => true
  end.

(** A directory that moves gets its new parent. *)
Definition toy_reparent (ino p : Z) (w : toy_world) : toy_world :=
  match t_nodes w !! ino with
  | Some (TDir _ es) => toy_set_entries ino p es w
  | _ => w
  end.

Definition toy_rename (d1 : Z) (n1 : bytes) (d2 : Z) (n2 : bytes) (w : toy_world)
    : (unit + Z) * toy_world :=
  match toy_dir d1 w, toy_dir d2 w, toy_resolve d1 n1 w with
  | Some (k1, p1, es1), Some (k2, p2, es2), Some (ino, n) =>
      if toy_reserved n1 || toy_reserved n2 then (inr 16, w)
      else if bool_decide (toy_assoc n2 es2 = Some ino) then (inl tt, w)
      else if negb (toy_replaces n (toy_resolve d2 n2 w)) then (inr 39, w)
      else
        let w := toy_set_entries k1 p1 (toy_remove n1 es1) w in
        let es2 := if bool_decide (k1 = k2) then toy_remove n1 es1 else es2 in
        (inl tt, toy_reparent ino k2 (toy_set_entries k2 p2 ((n2, ino) :: toy_remove n2 es2) w))
  | _, _, _ => (inr 2, w)
  end.

Definition toy_link (d1 : Z) (n1 : bytes) (d2 : Z) (n2 : bytes) (flags : Z) (w : toy_world)
    : (unit + Z) * toy_world :=
  match (if decide (n1 = []) then toy_node_at d1 w else toy_resolve d1 n1 w), toy_slot d2 n2 w with
  | Some (_, TDir _ _), _ => (inr 1, w)
  | Some (ino, _), inl (d, p, es) => (inl tt, toy_set_entries d p ((n2, ino) :: es) w)
  | Some _, inr e => (inr e, w)
  | None, _ => (inr 2, w)
  end.

Definition toy_entry (w : toy_world) (name : bytes) (ino : Z) : NixEntry :=
  mkNixEntry name ino (match t_nodes w !! ino with
                       | Some (TDir _ _) => Some NixDirectory
                       | Some (TFile _) => Some NixFile
                       | Some (TLink _) => Some NixSymlink
                       | None => None
                       end).

(** A stream of at most 1000 entries, cut off with an error. *)
Definition toy_iter (fd : Z) (w : toy_world) : list (NixEntry + Z) * toy_world :=
  match toy_dir fd w with
  | Some (ino, p, es) =>
      let names := remove_dups es.*1 in
      let listed := (λ n, toy_entry w n (default 0 (toy_assoc n es)))
                      <$> filter (λ n, toy_reserved n = false) (take 1000 names) in
      ((inl <$> toy_entry w toy_dot ino :: toy_entry w toy_dotdot p :: listed)
       ++ (if (1000 <? length names)%nat then [inr 5] else []), w)
  | None => ([inr 20], w)
  end.

#[export] Instance toy_host : Host := {|
  World := toy_world;
  sys_open path flags w := match t_nodes w !! 10 with Some (TDir _ _) => toy_alloc 10 w | _ => (inr 2, w) end;
  sys_openat := toy_openat;
  sys_dupfd_cloexec fd w :=
    match toy_node_at fd w with
    | Some (ino, _) => toy_alloc_flags ino (bool_decide (fd ∈ x_append (t_extra w))) w
    | None => (inr 9, w)
    end;
  sys_close := toy_close;
  sys_fstat fd w :=
    match toy_node_at fd w with Some (ino, n) => (inl (toy_stat w ino n), w) | None => (inr 9, w) end;
  sys_fstatat dirfd name flags w := toy_named dirfd name (λ ino n, (inl (toy_stat w ino n), w)) w;
  sys_fstatvfs fd := toy_ok (mkStatvfs 0 0 0 0 0 4096 255 4096);
  sys_mkdirat dirfd name mode := toy_mk dirfd name mode (λ d, TDir d []);
  sys_unlinkat := toy_unlink;
  sys_renameat := toy_rename;
  sys_symlinkat target dirfd name := toy_mk dirfd name 0x1ff (λ _, TLink target);
  sys_readlinkat dirfd name n w :=
    toy_named dirfd name (λ _ nd, match nd with TLink target => (inl (take n target), w) | _ => (inr 22, w) end) w;
  sys_linkat := toy_link;
  sys_fchmodat dirfd name mode flags w := toy_named dirfd name (λ ino _, (inl tt, toy_set_perm ino mode w)) w;
  sys_fchownat dirfd name u g flags w :=
    toy_named dirfd name (λ ino _,
      let '(u0, g0) := toy_owner w ino in
      (inl tt, toy_set_owner ino (if u =? 2 ^ 32 - 1 then u0 else u) (if g =? 2 ^ 32 - 1 then g0 else g) w)) w;
  sys_utimensat dirfd name times flags w := toy_named dirfd name (λ _ _, (inl tt, w)) w;
  sys_ftruncate fd n w :=
    match toy_data fd w with
    | Some (ino, data) => if n <? 0 then (inr 22, w) else (inl tt, toy_set_data ino (resize (Z.to_nat n) NUL data) w)
    | None => (inr 9, w)
    end;
  sys_pread := toy_pread;
  sys_pwrite := toy_pwrite;
  sys_preadv := toy_preadv;
  sys_pwritev := toy_pwritev;
  sys_fsync fd := toy_ok tt;
  nix_dir_from_fd fd w :=
    match toy_node_at fd w with
    | Some (_, TDir _ _) => (inl tt, w)
    | _ => (inr 20, toy_close fd w)
    end;
  nix_dir_iter := toy_iter;
  sys_now w := (Some (1700000000, 0), w);
|}.

(** * Lemmas *)

Lemma toy_fresh_max m fd : is_Some (m !! fd) → fd < toy_fresh m.
Proof.
  unfold toy_fresh. intros Hfd. cut (fd ≤ map_fold (λ fd _ n, Z.max fd n) 2 m); [lia|].
  revert Hfd. apply (map_fold_weak_ind (λ n m, is_Some (m !! fd) → fd ≤ n)).
  - rewrite lookup_empty. by intros [? ?].
  - intros i x m' r _ IH. rewrite lookup_insert_is_Some'. intros [->|Hfd]; [lia|].
    specialize (IH Hfd). lia.
Qed.

Lemma toy_fresh_None m : m !! toy_fresh m = None.
Proof.
  destruct (m !! toy_fresh m) eqn:E; [|done].
  pose proof (toy_fresh_max m (toy_fresh m) (mk_is_Some _ _ E)). lia.
Qed.

Lemma elem_of_toy_open_fds fd w : fd ∈ toy_open_fds w ↔ is_Some (t_fds w !! fd).
Proof.
  unfold toy_open_fds. rewrite elem_of_list_to_set_disj, list_elem_of_fmap. split.
  - intros ([fd' ino] & -> & Hin%elem_of_map_to_list). eauto.
  - intros [ino Hin]. exists (fd, ino). by rewrite elem_of_map_to_list.
Qed.

Lemma toy_open_fds_insert w w' fd ino :
  t_fds w' = <[fd := ino]> (t_fds w) → t_fds w !! fd = None →
  toy_open_fds w' = {[+ fd +]} ⊎ toy_open_fds w ∧ fd ∉ toy_open_fds w.
Proof.
  intros Hf Hfd. unfold toy_open_fds at 1. rewrite Hf, map_to_list_insert by done. split; [done|].
  rewrite elem_of_toy_open_fds, Hfd. by intros [? ?].
Qed.

Lemma toy_open_fds_delete w fd : toy_open_fds (toy_close fd w) = toy_open_fds w ∖ {[+ fd +]}.
Proof.
  destruct (t_fds w !! fd) as [ino|] eqn:Hfd.
  - assert (toy_open_fds w = {[+ fd +]} ⊎ toy_open_fds (toy_close fd w)) as ->; [|multiset_solver].
    apply toy_open_fds_insert with ino; simpl; [by rewrite insert_delete_id|apply lookup_delete_eq].
  - assert (fd ∉ toy_open_fds w) by (rewrite elem_of_toy_open_fds, Hfd; by intros [? ?]).
    unfold toy_open_fds at 1. simpl. rewrite delete_id by done. fold (toy_open_fds w).
    multiset_solver.
Qed.

Lemma toy_open_fds_eq w w' : t_fds w' = t_fds w → toy_open_fds w' = toy_open_fds w.
Proof. intros Hf. unfold toy_open_fds. by rewrite Hf. Qed.

Lemma toy_alloc_opens ino b w w0 :
  t_fds w = t_fds w0 →
  match toy_alloc_flags ino b w with
  | (inl fd, w') => toy_open_fds w' = {[+ fd +]} ⊎ toy_open_fds w0 ∧ fd ∉ toy_open_fds w0
  | (inr _, w') => toy_open_fds w' = toy_open_fds w0
  end.
Proof.
  intros Hf. unfold toy_alloc_flags. destruct (toy_full w); [by apply toy_open_fds_eq|].
  apply toy_open_fds_insert with ino; simpl; rewrite <- Hf; [done|apply toy_fresh_None].
Qed.

Lemma toy_open_node_opens ino n flags w :
  match toy_open_node ino n flags w with
  | (inl fd, w') => toy_open_fds w' = {[+ fd +]} ⊎ toy_open_fds w ∧ fd ∉ toy_open_fds w
  | (inr _, w') => toy_open_fds w' = toy_open_fds w
  end.
Proof.
  unfold toy_open_node. destruct n; [by apply toy_alloc_opens|..].
  - destruct (has 0x10000 flags); [done|]. destruct (toy_full w); [done|].
    by destruct (_ && _); apply toy_alloc_opens.
  - destruct (_ && _); [by apply toy_alloc_opens|done].
Qed.

Lemma toy_openat_opens dirfd name flags mode w :
  match toy_openat dirfd name flags mode w with
  | (inl fd, w') => toy_open_fds w' = {[+ fd +]} ⊎ toy_open_fds w ∧ fd ∉ toy_open_fds w
  | (inr _, w') => toy_open_fds w' = toy_open_fds w
  end.
Proof.
  unfold toy_openat. destruct (toy_resolve dirfd name w) as [[ino n]|].
  - destruct (_ && _); [done|]. destruct n; try apply toy_open_node_opens.
    destruct (has _ _); [apply toy_open_node_opens|].
    destruct (toy_walk _ _ _ _) as [[]|]; [apply toy_open_node_opens|done].
  - destruct (_ && _); [|done]. destruct (toy_slot dirfd name w) as [[[d p] es]|e]; [|done].
    destruct (toy_full w); [done|]. by apply toy_alloc_opens.
Qed.

Ltac toy_keeps :=
  intros; match goal with |- keeps_fds _ _ => intros w end;
  cbn [toy_host sys_fstat sys_fstatat sys_fstatvfs sys_mkdirat sys_unlinkat
    sys_renameat sys_symlinkat sys_readlinkat sys_linkat sys_fchmodat sys_fchownat sys_utimensat
    sys_ftruncate sys_pread sys_pwrite sys_preadv sys_pwritev sys_fsync nix_dir_iter sys_now];
  unfold toy_mk, toy_unlink, toy_rename, toy_link, toy_named, toy_preadv, toy_pwritev, toy_pread, toy_pwrite,
    toy_iter, toy_ok, toy_add, toy_reparent;
  repeat case_match; simplify_eq/=; done.

#[export] Instance toy_laws : HostLaws (H := toy_host).
Proof.
  refine {| open_fds := toy_open_fds |}; try toy_keeps.
  - intros path flags w. cbn [toy_host sys_open]. destruct (t_nodes w !! 10) as [[]|]; try done.
    by apply toy_alloc_opens.
  - intros dirfd name flags mode w. apply toy_openat_opens.
  - intros fd w. cbn [toy_host sys_dupfd_cloexec]. destruct (toy_node_at fd w) as [[]|]; [|done].
    by apply toy_alloc_opens.
  - intros. apply toy_open_fds_delete.
  - intros fd w. cbn [toy_host nix_dir_from_fd].
    destruct (toy_node_at fd w) as [[? []]|]; try done; apply toy_open_fds_delete.
  - intros fd w. cbn [toy_host nix_dir_iter]. unfold toy_iter.
    destruct (toy_dir fd w) as [[[ino p] es]|]; [|simpl; lia]. cbv zeta. cbn [fst].
    rewrite length_app, length_fmap. cbn [length]. rewrite length_fmap.
    pose proof (length_filter (λ n, toy_reserved n = false) (take 1000 (remove_dups es.*1))) as Hf.
    rewrite length_take in Hf. destruct (1000 <? _)%nat; simpl; lia.
  - intros dirfd name n w b. cbn [toy_host sys_readlinkat]. unfold toy_named.
    repeat case_match; intros; simplify_eq/=. rewrite length_take. lia.
  - intros fd n off w b. cbn [toy_host sys_pread]. unfold toy_pread.
    repeat case_match; intros; simplify_eq/=. rewrite length_take. lia.
  - intros fd ns off w b. cbn [toy_host sys_preadv]. unfold toy_preadv, toy_pread.
    repeat case_match; intros; simplify_eq/=. rewrite length_take. lia.
  - intros fd b off w n. cbn [toy_host sys_pwrite]. unfold toy_pwrite.
    repeat case_match; intros; simplify_eq/=; done.
Defined.

#[export] Instance toy_vectored : VectoredLaws (H := toy_host).
Proof. split; done. Qed.
