(* ===== verification/ToyPosix.v ===== *)
(** * The small host as a POSIX file system

    The view of [ToyHost]'s kernel states and the proof that its calls satisfy [PosixLaws] with
    the flags of Linux; the flags of both hosts satisfy [FlagLaws]. *)

From S2P Require Import Prelude Libc Errors Bytes Attr Wire Inode Host Posix ToyHost.
Local Open Scope Z_scope.

Ltac flag_bits := split; [|by try split..]; intros f Hf; unfold opens_existing; repeat
  (apply elem_of_cons in Hf as [-> |Hf]; [vm_compute; reflexivity|]); by apply not_elem_of_nil in Hf.

Lemma linux_flags : FlagLaws (H := linux_libc).
Proof. flag_bits. Qed.

Lemma macos_flags : FlagLaws (H := macos_libc).
Proof. flag_bits. Qed.

Definition toy_key (i : Z) : FileKey := mkFileKey 1 i.

#[export] Instance toy_key_inj : Inj (=) (=) toy_key.
Proof. by intros i j [= ->]. Qed.

Definition toy_entries (es : list (bytes * Z)) : gmap bytes FileKey := toy_key <$> list_to_map es.

Definition toy_body (n : toy_node) : body :=
  match n with
  | TDir _ es => BDir (toy_entries es)
  | TFile data => BFile data
  | TLink target => BLink target
  end.

Definition toy_view (w : toy_world) (i : Z) (n : toy_node) : node :=
  mkNode (toy_body n) (toy_perm w i n) (toy_owner w i).1 (toy_owner w i).2.

#[export] Instance toy_posix : PosixView (H := toy_host) := {|
  files w := kmap toy_key (map_imap (λ i n, Some (toy_view w i n)) (t_nodes w));
  fd_files w := map_imap (λ fd i, _ ← t_nodes w !! i;
                            Some (mkOpenFile (toy_key i) (bool_decide (fd ∈ x_append (t_extra w))))) (t_fds w);
|}.

(** * Lemmas *)

Section Lemmas.
Implicit Types w : toy_world.

Lemma toy_files_lookup w i : files w !! toy_key i = toy_view w i <$> t_nodes w !! i.
Proof.
  unfold files, toy_posix. rewrite (lookup_kmap (M1 := gmap Z) (M2 := gmap FileKey) toy_key). rewrite map_lookup_imap. by destruct (t_nodes w !! i).
Qed.

Lemma toy_files_Some w k n :
  files w !! k = Some n ↔ ∃ i m, k = toy_key i ∧ t_nodes w !! i = Some m ∧ n = toy_view w i m.
Proof.
  unfold files, toy_posix. rewrite (lookup_kmap_Some (M1 := gmap Z) (M2 := gmap FileKey) toy_key). split.
  - intros (i & -> & Hi). rewrite map_lookup_imap in Hi.
    destruct (t_nodes w !! i) as [m|] eqn:Hm; simplify_eq/=. eauto.
  - intros (i & m & -> & Hm & ->). exists i. by rewrite map_lookup_imap, Hm.
Qed.

Lemma toy_fd_lookup w fd :
  fd_files w !! fd = '(i, _) ← toy_node_at fd w;
                     Some (mkOpenFile (toy_key i) (bool_decide (fd ∈ x_append (t_extra w)))).
Proof.
  unfold fd_files, toy_posix. rewrite map_lookup_imap. unfold toy_node_at.
  destruct (t_fds w !! fd) as [i|]; simpl; [|done]. by destruct (t_nodes w !! i).
Qed.

Lemma toy_node_at_Some fd w i n :
  toy_node_at fd w = Some (i, n) ↔ t_fds w !! fd = Some i ∧ t_nodes w !! i = Some n.
Proof.
  unfold toy_node_at. destruct (t_fds w !! fd) as [j|] eqn:Hf; simpl; [|naive_solver].
  destruct (t_nodes w !! j) as [m|] eqn:Hm; simpl; naive_solver.
Qed.

Lemma toy_dir_Some fd w d p es :
  toy_dir fd w = Some (d, p, es) ↔ t_fds w !! fd = Some d ∧ t_nodes w !! d = Some (TDir p es).
Proof.
  rewrite <- toy_node_at_Some. unfold toy_dir.
  destruct (toy_node_at fd w) as [[i []]|]; naive_solver.
Qed.

(** ** Equalities of views *)

Lemma toy_files_ext (t : tree) w :
  (∀ i, t !! toy_key i = toy_view w i <$> t_nodes w !! i) → (∀ k, fk_dev k ≠ 1 → t !! k = None) →
  t = files w.
Proof.
  intros Hi Ho. apply map_eq. intros [d i]. destruct (decide (d = 1)) as [->|Hd].
  - fold (toy_key i). by rewrite Hi, toy_files_lookup.
  - rewrite Ho by done. symmetry. destruct (files (H := toy_host) w !! _) eqn:E; [|done].
    apply toy_files_Some in E as (j & m & [= Hdj _] & _). congruence.
Qed.

Lemma toy_files_None w k : fk_dev k ≠ 1 → files w !! k = None.
Proof.
  intros Hd. destruct (files (H := toy_host) w !! k) eqn:E; [|done].
  by apply toy_files_Some in E as (j & m & -> & _).
Qed.

(** One file changes. *)
Lemma toy_files_alter f i n n' w w' :
  t_nodes w !! i = Some n → t_nodes w' !! i = Some n' → toy_view w' i n' = f (toy_view w i n) →
  (∀ j, j ≠ i → toy_view w' j <$> t_nodes w' !! j = toy_view w j <$> t_nodes w !! j) →
  files w' = alter f (toy_key i) (files w).
Proof.
  intros Hn Hn' Hf Hj. symmetry. apply toy_files_ext.
  - intros j. destruct (decide (j = i)) as [->|Hne].
    + by rewrite lookup_alter_eq, toy_files_lookup, Hn, Hn'; simpl; rewrite Hf.
    + rewrite lookup_alter_ne by (by intros [= ?]). by rewrite toy_files_lookup, Hj.
  - intros k Hk. rewrite lookup_alter_ne by (intros <-; by apply Hk). by apply toy_files_None.
Qed.

(** The view of a file depends on its own entry in the table of permissions. *)
Lemma toy_view_eq w w' i n : t_extra w' = t_extra w → toy_view w' i n = toy_view w i n.
Proof. intros Hx. unfold toy_view, toy_perm, toy_owner. by rewrite Hx. Qed.

Lemma toy_same_files w w' :
  t_nodes w' = t_nodes w → x_perm (t_extra w') = x_perm (t_extra w) →
  x_owner (t_extra w') = x_owner (t_extra w) → files w' = files w.
Proof.
  intros Hn Hp Ho. apply toy_files_ext; [|apply toy_files_None]. intros i. rewrite toy_files_lookup, Hn.
  destruct (t_nodes w !! i); [|done]. simpl. f_equal. unfold toy_view, toy_perm, toy_owner. by rewrite Hp, Ho.
Qed.

Lemma toy_same_fds w w' :
  t_fds w' = t_fds w → x_append (t_extra w') = x_append (t_extra w) →
  (∀ fd i, t_fds w !! fd = Some i → is_Some (t_nodes w' !! i) ↔ is_Some (t_nodes w !! i)) →
  fd_files w' = fd_files w.
Proof.
  intros Hf Ha Hn. apply map_eq. intros fd. unfold fd_files, toy_posix. rewrite !map_lookup_imap, Hf, Ha.
  destruct (t_fds w !! fd) as [i|] eqn:Hfd; [|done]. simpl. specialize (Hn fd i Hfd).
  destruct (t_nodes w' !! i), (t_nodes w !! i); simpl; try done; exfalso; naive_solver.
Qed.

Lemma toy_live w fd o : fd_files w !! fd = Some o → is_Some (files w !! of_file o).
Proof.
  rewrite toy_fd_lookup. destruct (toy_node_at fd w) as [[i n]|] eqn:Hn; [|done].
  apply toy_node_at_Some in Hn as [_ Hn]. intros [= <-]. simpl. rewrite toy_files_lookup, Hn. eauto.
Qed.

(** Replacing a file that exists. *)
Lemma toy_set_fds w i n :
  is_Some (t_nodes w !! i) → fd_files (toy_set_nodes (<[i := n]> (t_nodes w)) w) = fd_files w.
Proof.
  intros Hi. apply toy_same_fds; [done..|]. intros fd j _. simpl. rewrite lookup_insert_is_Some.
  destruct (decide (i = j)) as [->|]; naive_solver.
Qed.

Lemma toy_set_files f w i n n' :
  t_nodes w !! i = Some n → toy_view w i n' = f (toy_view w i n) →
  files (toy_set_nodes (<[i := n']> (t_nodes w)) w) = alter f (toy_key i) (files w).
Proof.
  intros Hi Hf. eapply toy_files_alter; [done|apply lookup_insert_eq|exact Hf|].
  intros j Hj. simpl. by rewrite lookup_insert_ne.
Qed.

(** ** Directories *)

Lemma toy_assoc_map name es : toy_assoc name es = (list_to_map es : gmap bytes Z) !! name.
Proof.
  induction es as [|[n i] es IH]; simpl; [done|]. destruct (decide (n = name)) as [->|].
  - by rewrite lookup_insert_eq.
  - by rewrite lookup_insert_ne.
Qed.

Lemma toy_entries_lookup name es : toy_entries es !! name = toy_key <$> toy_assoc name es.
Proof. unfold toy_entries. by rewrite lookup_fmap, toy_assoc_map. Qed.

Lemma toy_entries_cons name i es : toy_entries ((name, i) :: es) = <[name := toy_key i]> (toy_entries es).
Proof. unfold toy_entries. simpl. by rewrite fmap_insert. Qed.

Lemma toy_entries_remove name es : toy_entries (toy_remove name es) = delete name (toy_entries es).
Proof.
  unfold toy_entries. rewrite <- fmap_delete. f_equal. unfold toy_remove.
  induction es as [|[n i] es IH]; simpl; [by rewrite delete_empty|].
  rewrite filter_cons. simpl. case_decide as Hn; simpl; rewrite IH.
  - by rewrite delete_insert_ne.
  - subst. by rewrite delete_insert_eq.
Qed.

Lemma toy_entries_of w d p es : t_nodes w !! d = Some (TDir p es) → entries_of (files w) (toy_key d) = Some (toy_entries es).
Proof. intros Hd. unfold entries_of. by rewrite toy_files_lookup, Hd. Qed.

Lemma toy_child_files w d p es name :
  t_nodes w !! d = Some (TDir p es) → child (files w) (toy_key d) name = toy_key <$> toy_assoc name es.
Proof. intros Hd. unfold child. rewrite (toy_entries_of _ _ _ _ Hd). simpl. apply toy_entries_lookup. Qed.

Lemma toy_dirfd w fd d p es :
  toy_dir fd w = Some (d, p, es) → ∃ o, fd_files w !! fd = Some o ∧ of_file o = toy_key d.
Proof.
  intros [Hf Hn]%toy_dir_Some. rewrite toy_fd_lookup. rewrite (proj2 (toy_node_at_Some fd w d _) (conj Hf Hn)).
  simpl. eauto.
Qed.

Lemma plain_not_reserved name : plain name → toy_reserved name = false.
Proof. intros (_ & _ & _ & H1 & H2). unfold toy_reserved. by rewrite !bool_decide_false. Qed.

Lemma toy_child_plain d p es name w i n :
  plain name → toy_child d p es name w = Some (i, n) ↔ toy_assoc name es = Some i ∧ t_nodes w !! i = Some n.
Proof.
  intros (_ & _ & _ & H1 & H2). unfold toy_child. rewrite !decide_False by done.
  destruct (toy_assoc name es) as [j|]; simpl; [|naive_solver].
  destruct (t_nodes w !! j) as [m|] eqn:Hm; simpl; naive_solver.
Qed.

Lemma toy_resolve_plain dirfd name w i n :
  plain name → toy_resolve dirfd name w = Some (i, n) →
  ∃ d p es, toy_dir dirfd w = Some (d, p, es) ∧ toy_assoc name es = Some i ∧ t_nodes w !! i = Some n ∧
    denotes w dirfd name (toy_key d) (toy_key i) ∧ files w !! toy_key i = Some (toy_view w i n).
Proof.
  intros Hp. unfold toy_resolve. destruct (toy_dir dirfd w) as [[[d p] es]|] eqn:Hd; [|done]. simpl.
  intros [Ha Hn]%toy_child_plain; [|done]. exists d, p, es. split_and!; try done.
  - split; [by eapply toy_dirfd|]. apply toy_dir_Some in Hd as [_ Hd].
    by rewrite (toy_child_files _ _ _ _ _ Hd), Ha.
  - by rewrite toy_files_lookup, Hn.
Qed.

Lemma toy_slot_free dirfd name w d p es :
  toy_slot dirfd name w = inl (d, p, es) →
  t_nodes w !! d = Some (TDir p es) ∧ free_in w dirfd name (toy_key d).
Proof.
  unfold toy_slot. destruct (toy_dir dirfd w) as [[[d' p'] es']|] eqn:Hd; [|done].
  destruct (_ || _) eqn:Hb; [done|]. intros [= <- <- <-]. apply orb_false_iff in Hb as [_ Hb].
  apply bool_decide_eq_false in Hb. pose proof Hd as [_ Hn]%toy_dir_Some. split; [done|].
  split; [by eapply toy_dirfd|]. rewrite (toy_entries_of _ _ _ _ Hn), (toy_child_files _ _ _ _ _ Hn).
  split; [done|]. destruct (toy_assoc name es'); [|done]. exfalso. eauto.
Qed.

(** ** New descriptors and new files *)

Lemma toy_alloc_opened i b w fd w' :
  is_Some (t_nodes w !! i) → toy_alloc_flags i b w = (inl fd, w') →
  files w' = files w ∧ opened fd (mkOpenFile (toy_key i) b) w w'.
Proof.
  intros [n Hn]. unfold toy_alloc_flags. destruct (toy_full w); [done|]. intros [= <- <-].
  pose proof (toy_fresh_None (t_fds w)) as Hf. split; [by apply toy_same_files|]. split.
  - rewrite toy_fd_lookup. unfold toy_node_at. by rewrite Hf.
  - apply map_eq. intros fd. unfold fd_files, toy_posix. rewrite map_lookup_imap. simpl.
    destruct (decide (fd = toy_fresh (t_fds w))) as [->|Hne].
    + rewrite !lookup_insert_eq. simpl. rewrite Hn. simpl. do 2 f_equal.
      destruct b; [apply bool_decide_true|apply bool_decide_false]; set_solver.
    + rewrite !lookup_insert_ne, map_lookup_imap by done. destruct (t_fds w !! fd) as [j|]; [|done]. simpl.
      destruct (t_nodes w !! j); [|done]. simpl. do 2 f_equal. apply bool_decide_ext. destruct b; set_solver.
Qed.

Lemma toy_alloc_fails i b w e w' : toy_alloc_flags i b w = (inr e, w') → w' = w.
Proof. unfold toy_alloc_flags. destruct (toy_full w); by intros [= _ <-]. Qed.

Lemma fold_keys_max {V} (m : gmap Z V) i : is_Some (m !! i) → i ≤ map_fold (λ i _ n, Z.max i n) 2 m.
Proof.
  apply (map_fold_weak_ind (λ n m, is_Some (m !! i) → i ≤ n)).
  - rewrite lookup_empty. by intros [? ?].
  - intros j x m' r _ IH. rewrite lookup_insert_is_Some'. intros [->|Hi]; [lia|]. specialize (IH Hi). lia.
Qed.

Lemma fold_values_max (m : gmap Z Z) fd i : m !! fd = Some i → i ≤ map_fold (λ _ i n, Z.max i n) 2 m.
Proof.
  apply (map_fold_weak_ind (λ n m, m !! fd = Some i → i ≤ n)).
  - by rewrite lookup_empty.
  - intros j x m' r _ IH. rewrite lookup_insert_Some. intros [[-> ->]|[_ Hi]]; [lia|]. specialize (IH Hi). lia.
Qed.

Lemma toy_fresh_node w : t_nodes w !! toy_fresh_ino w = None.
Proof.
  destruct (t_nodes w !! toy_fresh_ino w) eqn:E; [|done].
  pose proof (fold_keys_max (t_nodes w) (toy_fresh_ino w) (mk_is_Some _ _ E)). unfold toy_fresh_ino in *. lia.
Qed.

Lemma toy_fresh_target w fd : t_fds w !! fd ≠ Some (toy_fresh_ino w).
Proof. intros E. pose proof (fold_values_max (t_fds w) fd _ E). unfold toy_fresh_ino in *. lia. Qed.

Lemma toy_add_created d p es name n mode w :
  t_nodes w !! d = Some (TDir p es) →
  let w' := toy_add d p es name n mode w in
  fd_files w' = fd_files w ∧ created (toy_key d) name (toy_body n) mode (toy_key (toy_fresh_ino w)) w w' ∧
  is_Some (t_nodes w' !! toy_fresh_ino w).
Proof.
  intros Hd w'. pose proof (toy_fresh_node w) as Hf. assert (d ≠ toy_fresh_ino w) as Hne by congruence.
  split_and!.
  - apply toy_same_fds; [done..|]. intros fd j Hj. simpl. rewrite !lookup_insert_is_Some.
    pose proof (toy_fresh_target w fd). destruct (decide (d = j)) as [->|]; naive_solver.
  - split; [by rewrite toy_files_lookup, Hf|]. exists (toy_view w' (toy_fresh_ino w) n). split_and!.
    + done.
    + simpl. unfold toy_perm. simpl. rewrite lookup_insert_eq. simpl.
      apply Z.bits_inj'. intros b _. rewrite !Z.land_spec. by destruct (Z.testbit mode b), (Z.testbit 0x1ed b), (Z.testbit PERM_BITS b).
    + symmetry. apply toy_files_ext.
      * intros i. unfold add_node, put_entry. simpl. destruct (decide (i = toy_fresh_ino w)) as [->|Hi].
        { by rewrite !lookup_insert_eq. }
        rewrite !(lookup_insert_ne _ (toy_fresh_ino w)) by done. rewrite lookup_insert_ne by (by intros [= ?]).
        assert (∀ m, toy_view w' i m = toy_view w i m) as Hv.
        { intros m. unfold toy_view, toy_perm, toy_owner. simpl. by rewrite lookup_insert_ne. }
        destruct (decide (i = d)) as [->|Hid].
        { rewrite lookup_alter_eq, lookup_insert_eq, toy_files_lookup, Hd. simpl. rewrite Hv.
          unfold toy_view, edit_dir, set_body. simpl. by rewrite toy_entries_cons. }
        rewrite lookup_alter_ne by (by intros [= ?]). rewrite lookup_insert_ne, toy_files_lookup by done.
        destruct (t_nodes w !! i); [|done]. simpl. by rewrite Hv.
      * intros k Hk. unfold add_node, put_entry. rewrite lookup_insert_ne by (intros <-; by apply Hk).
        rewrite lookup_alter_ne by (intros <-; by apply Hk). by apply toy_files_None.
  - simpl. rewrite lookup_insert_eq. eauto.
Qed.

(** ** Attributes *)

Lemma toy_perm_range w i n : 0 ≤ toy_perm w i n < 512.
Proof.
  unfold toy_perm. generalize (default (match n with TDir _ _ => 0x1ed | TFile _ => 0x1a4 | TLink _ => 0x1ff end)
    (x_perm (t_extra w) !! i)). intros x. change PERM_BITS with (Z.ones 9). rewrite Z.land_ones by lia.
  apply Z.mod_pos_bound. lia.
Qed.

Definition mode_ok (p : Z) : bool :=
  let kind (m : Z) := FileKind_from_mode (H := linux_libc) (as_u32 (m + p)) in
  bool_decide (kind 0x4000 = Dir) && bool_decide (kind 0x8000 = Regular) && bool_decide (kind 0xa000 = Symlink) &&
  (Z.land (0x4000 + p) PERM_BITS =? p) && (Z.land (0x8000 + p) PERM_BITS =? p) && (Z.land (0xa000 + p) PERM_BITS =? p).

Lemma modes_ok : forallb mode_ok (seqZ 0 512) = true.
Proof. vm_compute. reflexivity. Qed.

Lemma toy_describes w i n :
  describes (H := linux_libc) (toy_key i) (toy_view w i n) (toy_stat w i n).
Proof.
  pose proof (toy_perm_range w i n) as Hp. pose proof modes_ok as Hm. rewrite forallb_forall in Hm.
  specialize (Hm (toy_perm w i n)). rewrite <- list_elem_of_In, elem_of_seqZ in Hm. specialize (Hm ltac:(lia)).
  unfold mode_ok in Hm. rewrite !andb_true_iff, !bool_decide_eq_true, !Z.eqb_eq in Hm.
  destruct Hm as [[[[[? ?] ?] ?] ?] ?].
  unfold toy_stat, toy_view. destruct (toy_owner w i) as [u g]. by destruct n; split; intros; simplify_eq/=.
Qed.
End Lemmas.

(** ** The calls *)

Section Calls.
Lemma has_land b flags : has b flags = false ↔ Z.land flags b = 0.
Proof. unfold has. rewrite negb_false_iff. apply Z.eqb_eq. Qed.

Lemma land_sub a b flags : Z.land b a = b → Z.land flags a = 0 → Z.land flags b = 0.
Proof. intros <- Ha. rewrite (Z.land_comm b), Z.land_assoc, Ha. done. Qed.

Lemma toy_open_node_effect i n flags w :
  t_nodes w !! i = Some n → Z.land flags 0x200 = 0 →
  match toy_open_node i n flags w with
  | (inl fd, w') => files w' = files w ∧ opened fd (mkOpenFile (toy_key i) (has 0x400 flags)) w w'
  | (inr _, w') => w' = w
  end.
Proof.
  intros Hn Ht%has_land. unfold toy_open_node. rewrite Ht. cbn [andb].
  assert (∀ b, match toy_alloc_flags i b w with
               | (inl fd, w') => files w' = files w ∧ opened fd (mkOpenFile (toy_key i) b) w w'
               | (inr _, w') => w' = w
               end) as Ha.
  { intros b. destruct (toy_alloc_flags i b w) as [[fd|e] w'] eqn:E.
    - by eapply toy_alloc_opened; [rewrite Hn|].
    - by eapply toy_alloc_fails. }
  destruct n; [apply Ha|..].
  - destruct (has 0x10000 flags); [done|]. destruct (toy_full w); [done|apply Ha].
  - destruct (_ && _); [apply Ha|done].
Qed.

Lemma toy_walk_node fuel : ∀ d path w i n, toy_walk fuel d path w = Some (i, n) → t_nodes w !! i = Some n.
Proof.
  induction fuel as [|fuel IH]; intros d path w i n; [done|]. destruct path as [|[|c cs] path]; cbn [toy_walk].
  - destruct (t_nodes w !! d) eqn:Hd; [|done]. by intros [= <- <-].
  - apply IH.
  - destruct (t_nodes w !! d) as [[p es| |]|]; try done.
    destruct (toy_child d p es (c :: cs) w) as [[j []]|]; [..|done]; apply IH.
Qed.

Lemma toy_openat_effect dirfd name flags mode :
  plain name → opens_existing (H := linux_libc) flags →
  effect (sys_openat dirfd name flags mode)
    (λ fd w w', ∃ d k n, denotes w dirfd name d k ∧ files w !! k = Some n ∧
       (body_kind (n_body n) ≠ Symlink ∨ nofollow (H := linux_libc) flags = true →
        files w' = files w ∧ opened fd (mkOpenFile k (has (O_APPEND (Libc := linux_libc)) flags)) w w')).
Proof.
  intros Hp Hf w. assert (Z.land flags 0x200 = 0 ∧ has 0x40 flags = false) as [Ht Hc].
  { split; [|apply has_land]; by eapply land_sub; [|exact Hf]. }
  cbn [toy_host sys_openat]. unfold toy_openat. rewrite Hc. cbn [andb].
  destruct (toy_resolve dirfd name w) as [[i n]|] eqn:Hr; [|done].
  destruct (toy_resolve_plain _ _ _ _ _ Hp Hr) as (d & p & es & _ & _ & Hn & Hden & Hfile).
  pose proof (toy_open_node_effect i n flags w Hn Ht) as Ho.
  assert (∀ X : (Z + Z) * toy_world, match X with (inl fd, w') => True | (inr _, w') => w' = w end →
    (∀ fd w', X = (inl fd, w') → nofollow (H := linux_libc) flags = true ∨ body_kind (toy_body n) ≠ Symlink →
       files w' = files w ∧ opened fd (mkOpenFile (toy_key i) (has 0x400 flags)) w w') →
    match X with
    | (inl fd, w') => ∃ d k n, denotes w dirfd name d k ∧ files w !! k = Some n ∧
       (body_kind (n_body n) ≠ Symlink ∨ nofollow (H := linux_libc) flags = true →
        files w' = files w ∧ opened fd (mkOpenFile k (has (O_APPEND (Libc := linux_libc)) flags)) w w')
    | (inr _, w') => same w w'
    end) as Hgoal.
  { intros [[fd|e] w'] Hw HX; [|by subst]. eexists _, _, _. split_and!; [exact Hden|exact Hfile|].
    intros Hk. apply (HX fd w' eq_refl). naive_solver. }
  assert (∀ j m, t_nodes w !! j = Some m →
    match toy_open_node j m flags w with (inl fd, w') => True | (inr _, w') => w' = w end) as Herr.
  { intros j m Hm. pose proof (toy_open_node_effect j m flags w Hm Ht). by destruct (toy_open_node j m flags w) as [[fd|e] w']. }
  destruct n as [| |target].
  1,2: apply Hgoal; [by apply Herr|]; intros fd w' HX _; by rewrite HX in Ho.
  destruct (has 0x20000 flags) eqn:Hnf.
  - apply Hgoal; [by apply Herr|]. intros fd w' HX _. by rewrite HX in Ho.
  - destruct (toy_walk _ _ _ _) as [[j m]|] eqn:Hw; [|done].
    apply Hgoal; [apply Herr; by eapply toy_walk_node|]. intros fd w' _ [Hno|[]]; [|done].
    unfold nofollow in Hno. simpl in Hno. rewrite Hnf, andb_false_r in Hno. done.
Qed.

Lemma toy_create_effect dirfd name flags mode :
  plain name → creates_file (H := linux_libc) flags →
  effect (sys_openat dirfd name (Z.lor (Z.lor flags 0x40) 0x80) (Some mode))
    (λ fd w w', ∃ d k, free_in w dirfd name d ∧ created d name (BFile []) mode k w w' ∧
       opened fd (mkOpenFile k (has (O_APPEND (Libc := linux_libc)) flags)) w w').
Proof.
  intros Hp Hf w. set (fl := Z.lor _ _).
  assert (has 0x40 fl && negb (has 0x200000 fl) = true ∧ has 0x80 fl = true ∧ has 0x400 fl = has 0x400 flags)
    as (Hc & He & Ha).
  { unfold has, fl. rewrite !Z.land_lor_distr_l.
    assert (Z.land flags 0x200000 = 0) as -> by (by eapply land_sub; [|exact Hf]).
    rewrite !Z.lor_0_r. split_and!; [| |done].
    - rewrite (proj2 (Z.eqb_neq (Z.lor (Z.land flags 64) (Z.land 64 64)) 0)); [done|].
      intros [_ Hx]%Z.lor_eq_0_iff. done.
    - rewrite (proj2 (Z.eqb_neq (Z.lor (Z.land flags 128) (Z.land 128 128)) 0)); [done|].
      intros [_ Hx]%Z.lor_eq_0_iff. done. }
  cbn [toy_host sys_openat]. unfold toy_openat. rewrite Hc, He, Ha. cbn [andb].
  destruct (toy_resolve dirfd name w) as [[i n]|]; [done|].
  destruct (toy_slot dirfd name w) as [[[d p] es]|e] eqn:Hs; [|done].
  destruct (toy_full w) eqn:Hfull; [done|].
  apply toy_slot_free in Hs as [Hd Hfree].
  destruct (toy_add_created d p es name (TFile []) (default 0 (Some mode)) w Hd) as (Hfd & Hcr & Hi).
  destruct (toy_alloc_flags _ _ _) as [[fd|e] w'] eqn:Hal.
  - apply toy_alloc_opened in Hal as [Hfiles [Hno Ho]]; [|done]. exists (toy_key d), (toy_key (toy_fresh_ino w)).
    split; [done|]. unfold created, opened in *. by rewrite Hfiles, Ho, Hfd in *.
  - exfalso. unfold toy_alloc_flags in Hal.
    change (toy_full (toy_add _ _ _ _ _ _ w)) with (toy_full w) in Hal. by rewrite Hfull in Hal.
Qed.

Lemma toy_mk_effect dirfd name mode n :
  effect (toy_mk dirfd name mode n)
    (λ _ w w', fd_files w' = fd_files w ∧
       ∃ d k, free_in w dirfd name d ∧ ∃ i, created d name (toy_body (n i)) mode k w w').
Proof.
  intros w. unfold toy_mk. destruct (toy_slot dirfd name w) as [[[d p] es]|e] eqn:Hs; [|done].
  apply toy_slot_free in Hs as [Hd Hfree].
  destruct (toy_add_created d p es name (n d) mode w Hd) as (Hfd & Hcr & _). split; [done|].
  eexists _, _. split; [done|]. by exists d.
Qed.

(** A change of the entries of a directory. *)
Lemma toy_set_entries_files f d p p' es es' w :
  t_nodes w !! d = Some (TDir p es) → toy_entries es' = f (toy_entries es) →
  files (toy_set_entries d p' es' w) = alter (edit_dir f) (toy_key d) (files w) ∧
  fd_files (toy_set_entries d p' es' w) = fd_files w.
Proof.
  intros Hd He. unfold toy_set_entries. split; [|by apply toy_set_fds; rewrite Hd].
  eapply toy_set_files; [done|]. unfold toy_view, edit_dir, set_body. simpl. by rewrite He.
Qed.

Lemma toy_unlink_effect dirfd name flags :
  plain name →
  effect (toy_unlink dirfd name flags)
    (λ _ w w', fd_files w' = fd_files w ∧
       ∃ d k n, denotes w dirfd name d k ∧ files w !! k = Some n ∧
         (if flags =? 0x200 then n_body n = BDir ∅ else body_kind (n_body n) ≠ Dir) ∧
         files w' = drop_entry d name (files w)).
Proof.
  intros Hp w. unfold toy_unlink. destruct (toy_dir dirfd w) as [[[d0 p] es]|] eqn:Hd; [|done].
  destruct (toy_resolve dirfd name w) as [[i n]|] eqn:Hr; [|done].
  destruct (toy_resolve_plain _ _ _ _ _ Hp Hr) as (d' & p' & es' & Hd' & Ha & Hn & Hden & Hfile).
  rewrite Hd in Hd'. injection Hd' as <- <- <-. apply toy_dir_Some in Hd as [_ Hd].
  rewrite (plain_not_reserved name Hp).
  destruct (toy_set_entries_files (delete name) d0 p p es (toy_remove name es) w Hd) as [Hf Hfd];
    [apply toy_entries_remove|].
  assert (∀ P : node → Prop, P (toy_view w i n) →
    ∃ d k n, denotes w dirfd name d k ∧ files w !! k = Some n ∧ P n ∧
      files (toy_set_entries d0 p (toy_remove name es) w) = drop_entry d name (files w)) as Hgoal.
  { intros P HP. exists (toy_key d0), (toy_key i), (toy_view w i n). done. }
  destruct n as [q sub| |]; [|destruct (flags =? 0x200); [done|]..].
  - destruct (flags =? 0x200); simpl; [|done]. case_bool_decide; [|done]. subst. split; [done|]. by apply Hgoal.
  - split; [done|]. by apply Hgoal.
  - split; [done|]. by apply Hgoal.
Qed.

Lemma toy_reparent_same i p w : files (toy_reparent i p w) = files w ∧ fd_files (toy_reparent i p w) = fd_files w.
Proof.
  unfold toy_reparent. destruct (t_nodes w !! i) as [[q es| |]|] eqn:Hi; try done.
  destruct (toy_set_entries_files id i q p es es w Hi eq_refl) as [-> ->]. split; [|done].
  apply alter_id. intros n _. unfold edit_dir, set_body, id. by destruct n as [[]].
Qed.

Lemma toy_rename_effect d1 n1 d2 n2 :
  plain n1 → plain n2 →
  effect (toy_rename d1 n1 d2 n2)
    (λ _ w w', fd_files w' = fd_files w ∧
       ∃ k1 k2 k o2, denotes w d1 n1 k1 k ∧ fd_files w !! d2 = Some o2 ∧ of_file o2 = k2 ∧
         is_Some (entries_of (files w) k2) ∧
         if decide (child (files w) k2 n2 = Some k) then files w' = files w
         else files w' = move_entry k1 n1 k2 n2 k (files w)).
Proof.
  intros Hp1 Hp2 w. unfold toy_rename. destruct (toy_dir d1 w) as [[[k1 p1] es1]|] eqn:Hd1; [|done].
  destruct (toy_dir d2 w) as [[[k2 p2] es2]|] eqn:Hd2; [|done].
  destruct (toy_resolve d1 n1 w) as [[i n]|] eqn:Hr; [|done].
  destruct (toy_resolve_plain _ _ _ _ _ Hp1 Hr) as (d' & p' & es' & Hd' & _ & _ & Hden & _).
  rewrite Hd1 in Hd'. injection Hd' as <- <- <-.
  destruct (toy_dirfd _ _ _ _ _ Hd2) as (o2 & Ho2 & Hk2).
  apply toy_dir_Some in Hd1 as [_ Hd1], Hd2 as [_ Hd2].
  rewrite (plain_not_reserved n1 Hp1), (plain_not_reserved n2 Hp2). cbn [orb].
  pose proof (toy_child_files _ _ _ _ n2 Hd2) as Hch.
  case_bool_decide as Hsame.
  - split; [done|]. exists (toy_key k1), (toy_key k2), (toy_key i), o2. split_and!; [done..| |].
    + by rewrite (toy_entries_of _ _ _ _ Hd2).
    + by rewrite decide_True by (by rewrite Hch, Hsame).
  - destruct (negb _); [done|]. cbv zeta. set (es := if bool_decide (k1 = k2) then _ else es2).
    destruct (toy_set_entries_files (delete n1) k1 p1 p1 es1 (toy_remove n1 es1) w Hd1) as [Hf1 Hfd1];
      [apply toy_entries_remove|].
    set (w1 := toy_set_entries k1 p1 (toy_remove n1 es1) w) in *.
    assert (∃ q, t_nodes w1 !! k2 = Some (TDir q es)) as [q Hq].
    { unfold w1, es. simpl. destruct (decide (k1 = k2)) as [<-|Hne].
      - rewrite lookup_insert_eq, bool_decide_true by done. eauto.
      - rewrite lookup_insert_ne, bool_decide_false by done. eauto. }
    destruct (toy_set_entries_files (<[n2 := toy_key i]>) k2 q p2 es ((n2, i) :: toy_remove n2 es) w1 Hq)
      as [Hf2 Hfd2]; [by rewrite toy_entries_cons, toy_entries_remove, insert_delete_eq|].
    destruct (toy_reparent_same i k2 (toy_set_entries k2 p2 ((n2, i) :: toy_remove n2 es) w1)) as [Hf3 Hfd3].
    split; [congruence|]. exists (toy_key k1), (toy_key k2), (toy_key i), o2. split_and!; [done..| |].
    + by rewrite (toy_entries_of _ _ _ _ Hd2).
    + rewrite decide_False.
      * by rewrite Hf3, Hf2, Hf1.
      * rewrite Hch. intros Heq. apply Hsame. destruct (toy_assoc n2 es2); by simplify_eq/=.
Qed.

Lemma toy_link_effect d1 n1 d2 n2 flags (w : toy_world) i n :
  (if decide (n1 = []) then toy_node_at d1 w else toy_resolve d1 n1 w) = Some (i, n) →
  match toy_link d1 n1 d2 n2 flags w with
  | (inl _, w') => fd_files w' = fd_files w ∧
      ∃ d, free_in w d2 n2 d ∧ files w' = put_entry d n2 (toy_key i) (files w)
  | (inr _, w') => same w w'
  end.
Proof.
  intros Hn. unfold toy_link. rewrite Hn. destruct n as [| |]; [done|..];
    (destruct (toy_slot d2 n2 w) as [[[d p] es]|e] eqn:Hs; [|done]); apply toy_slot_free in Hs as [Hd Hfree];
    destruct (toy_set_entries_files (<[n2 := toy_key i]>) d p p es ((n2, i) :: es) w Hd (toy_entries_cons _ _ _))
      as [Hf Hfd]; (split; [done|]); by exists (toy_key d).
Qed.

Lemma toy_data_at fd (w : toy_world) i data :
  toy_data fd w = Some (i, data) → t_nodes w !! i = Some (TFile data) ∧
  fd_files w !! fd = Some (mkOpenFile (toy_key i) (bool_decide (fd ∈ x_append (t_extra w)))).
Proof.
  unfold toy_data. destruct (toy_node_at fd w) as [[j []]|] eqn:Hn; [done| |done..]. intros [= <- <-].
  split; [by apply toy_node_at_Some in Hn as [_ ?]|]. by rewrite toy_fd_lookup, Hn.
Qed.

Lemma toy_set_data_files f i data data' (w : toy_world) :
  t_nodes w !! i = Some (TFile data) → data' = f data →
  files (toy_set_data i data' w) = alter (edit_data f) (toy_key i) (files w) ∧
  fd_files (toy_set_data i data' w) = fd_files w.
Proof.
  intros Hd ->. unfold toy_set_data. split; [|by apply toy_set_fds; rewrite Hd].
  eapply toy_set_files; [done|]. unfold toy_view, edit_data, set_body. done.
Qed.

Lemma toy_pread_effect fd n off : effect (toy_pread fd n off) (reads fd n off).
Proof.
  intros w. unfold toy_pread. destruct (toy_data fd w) as [[i data]|] eqn:Hd; [|done].
  apply toy_data_at in Hd as [Hn Ho]. destruct (Z.ltb_spec off 0); [done|]. split; [done|].
  eexists _, _. split; [exact Ho|]. simpl. rewrite toy_files_lookup, Hn. split; [done|].
  simpl. intros ? [= <-]. by split_and!.
Qed.

Lemma toy_pwrite_effect fd b off : effect (toy_pwrite fd b off) (writes_at (H := linux_libc) fd b off).
Proof.
  intros w. unfold toy_pwrite. destruct (toy_data fd w) as [[i data]|] eqn:Hd; [|done].
  apply toy_data_at in Hd as [Hn Ho]. destruct (Z.ltb_spec off 0); [done|].
  set (o := mkOpenFile _ _) in Ho.
  destruct (toy_set_data_files (λ data, write_at (write_offset (H := linux_libc) o off data) (take (length b) b) data)
    i data (write_at (if bool_decide (fd ∈ x_append (t_extra w)) then length data else Z.to_nat off) b data)
    w Hn) as [Hf Hfd].
  { unfold write_offset, o. simpl. by rewrite firstn_all, andb_true_r. }
  split; [done|]. split; [done|]. split; [done|]. exists o. split; [done|]. exact Hf.
Qed.

(** A change of the permissions or the owner of a file. *)
Lemma toy_extra_effect f i n x (w : toy_world) :
  t_nodes w !! i = Some n → toy_view (toy_set_extra x w) i n = f (toy_view w i n) →
  (∀ j, j ≠ i → x_perm x !! j = x_perm (t_extra w) !! j ∧ x_owner x !! j = x_owner (t_extra w) !! j) →
  x_append x = x_append (t_extra w) →
  files (toy_set_extra x w) = alter f (toy_key i) (files w) ∧ fd_files (toy_set_extra x w) = fd_files w.
Proof.
  intros Hn Hf Hj Ha. split; [|by apply toy_same_fds]. eapply toy_files_alter; [done|exact Hn|exact Hf|].
  intros j Hne. simpl. destruct (t_nodes w !! j); [|done]. simpl. f_equal. destruct (Hj j Hne) as [Hp Ho].
  unfold toy_view, toy_perm, toy_owner. simpl. by rewrite Hp, Ho.
Qed.
End Calls.

Lemma toy_iter_lists fd (w : toy_world) l :
  (toy_iter fd w).1 = inl <$> l →
  ∃ o es, fd_files w !! fd = Some o ∧ entries_of (files w) (of_file o) = Some es ∧ NoDup (ne_name <$> l) ∧
    ∀ name, plain name → (name ∈ (ne_name <$> l) ↔ is_Some (es !! name)).
Proof.
  unfold toy_iter. destruct (toy_dir fd w) as [[[d p] es]|] eqn:Hd; [|by destruct l].
  destruct (toy_dirfd _ _ _ _ _ Hd) as (o & Ho & Hk). apply toy_dir_Some in Hd as [_ Hd]. cbv zeta. cbn [fst].
  destruct (Nat.ltb_spec 1000 (length (remove_dups es.*1))) as [|Hlen].
  { intros Hl. exfalso. apply (f_equal last) in Hl. rewrite last_snoc, fmap_last in Hl. by destruct (last l). }
  rewrite app_nil_r, take_ge by done. intros Hl%(inj (fmap inl)). subst l.
  exists o, (toy_entries es). rewrite Hk, (toy_entries_of _ _ _ _ Hd). rewrite !fmap_cons, <- list_fmap_compose.
  simpl. rewrite (list_fmap_ext _ id), list_fmap_id by done.
  split_and!; [done..| |].
  - rewrite !NoDup_cons, elem_of_cons, !list_elem_of_filter. split_and!; [|by intros [? _]|].
    + intros [?|[? _]]; done.
    + apply NoDup_filter, NoDup_remove_dups.
  - intros name Hp. pose proof (plain_not_reserved name Hp) as Hr. destruct Hp as (_ & _ & _ & H1 & H2).
    rewrite !elem_of_cons, list_elem_of_filter, elem_of_remove_dups, toy_entries_lookup, fmap_is_Some, toy_assoc_map.
    rewrite <- not_eq_None_Some, <- not_elem_of_list_to_map. unfold toy_dot, toy_dotdot.
    destruct (decide (name ∈ es.*1)); naive_solver.
Qed.

(** The calls that name a file. *)
Lemma toy_named_effect {A} dirfd name (f : Z → toy_node → toy_world → (A + Z) * toy_world)
    (post : A → toy_world → toy_world → Prop) :
  (∀ w i n d, toy_resolve dirfd name w = Some (i, n) → t_nodes w !! i = Some n →
     denotes w dirfd name (toy_key d) (toy_key i) → files w !! toy_key i = Some (toy_view w i n) →
     match f i n w with (inl a, w') => post a w w' | (inr _, w') => same w w' end) →
  plain name → effect (λ w, toy_named dirfd name (λ i n, f i n w) w) post.
Proof.
  intros Hf Hp w. unfold toy_named. destruct (toy_resolve dirfd name w) as [[i n]|] eqn:Hr; [|done].
  destruct (toy_resolve_plain _ _ _ _ _ Hp Hr) as (d & p & es & _ & _ & Hn & Hden & Hfile). by eapply Hf.
Qed.

Lemma toy_chmod_effect dirfd name mode :
  plain name →
  effect (λ w, toy_named dirfd name (λ i _, (inl tt, toy_set_perm i mode w)) w)
    (λ _ w w', fd_files w' = fd_files w ∧ ∃ d k, denotes w dirfd name d k ∧
       files w' = alter (set_perm (Z.land mode PERM_BITS)) k (files w)).
Proof.
  apply (toy_named_effect dirfd name (λ i _ w, (inl tt, toy_set_perm i mode w))). intros w i n d _ Hn Hden _.
  destruct (toy_extra_effect (set_perm (Z.land mode PERM_BITS)) i n
    (mkExtra (<[i := mode]> (x_perm (t_extra w))) (x_owner (t_extra w)) (x_append (t_extra w))) w Hn)
    as [Hf Hfd]; [| |done|].
  - unfold toy_view, set_perm, toy_perm. simpl. by rewrite lookup_insert_eq.
  - intros j Hj. simpl. by rewrite lookup_insert_ne.
  - split; [exact Hfd|]. eauto.
Qed.

Lemma toy_chown_effect dirfd name u g :
  plain name →
  effect (sys_fchownat (Host := toy_host) dirfd name u g 0x100)
    (λ _ w w', fd_files w' = fd_files w ∧ ∃ d k, denotes w dirfd name d k ∧
       files w' = alter (λ n, set_owner (if u =? 2 ^ 32 - 1 then n_uid n else u)
                                        (if g =? 2 ^ 32 - 1 then n_gid n else g) n) k (files w)).
Proof.
  cbn [toy_host sys_fchownat]. apply (toy_named_effect dirfd name (λ i _ w, let '(u0, g0) := toy_owner w i in
    (inl tt, toy_set_owner i (if u =? 2 ^ 32 - 1 then u0 else u) (if g =? 2 ^ 32 - 1 then g0 else g) w))).
  intros w i n d _ Hn Hden _. destruct (toy_owner w i) as [u0 g0] eqn:Ho.
  set (u' := if u =? 2 ^ 32 - 1 then u0 else u). set (g' := if g =? 2 ^ 32 - 1 then g0 else g).
  destruct (toy_extra_effect (λ n, set_owner (if u =? 2 ^ 32 - 1 then n_uid n else u)
                                             (if g =? 2 ^ 32 - 1 then n_gid n else g) n) i n
    (mkExtra (x_perm (t_extra w)) (<[i := (u', g')]> (x_owner (t_extra w))) (x_append (t_extra w))) w Hn)
    as [Hf Hfd]; [| |done|].
  - unfold toy_view, set_owner, toy_owner in *. simpl. rewrite Ho, lookup_insert_eq. done.
  - intros j Hj. simpl. by rewrite lookup_insert_ne.
  - split; [exact Hfd|]. eauto.
Qed.

Lemma toy_alloc_effect i b (w : toy_world) :
  is_Some (t_nodes w !! i) →
  match toy_alloc_flags i b w with
  | (inl fd, w') => files w' = files w ∧ opened fd (mkOpenFile (toy_key i) b) w w'
  | (inr _, w') => same w w'
  end.
Proof.
  intros Hn. destruct (toy_alloc_flags i b w) as [[fd|e] w'] eqn:Ha.
  - by apply toy_alloc_opened.
  - by apply toy_alloc_fails in Ha as ->.
Qed.

Lemma toy_open_effect (w : toy_world) :
  match sys_open (Host := toy_host) [] 0 w with
  | (inl fd, w') => files w' = files w ∧ ∃ o, opened fd o w w' ∧ is_Some (entries_of (files w) (of_file o))
  | (inr _, w') => same w w'
  end.
Proof.
  cbn [toy_host sys_open]. destruct (t_nodes w !! 10) as [[p es| |]|] eqn:Hn; try done.
  pose proof (toy_alloc_effect 10 false w ltac:(by rewrite Hn)) as Ha. unfold toy_alloc.
  destruct (toy_alloc_flags 10 false w) as [[fd|e] w']; [|done]. destruct Ha as [? Ho]. split; [done|].
  eexists. split; [exact Ho|]. simpl. by rewrite (toy_entries_of _ _ _ _ Hn).
Qed.

Lemma toy_dup_effect fd :
  effect (sys_dupfd_cloexec (Host := toy_host) fd)
    (λ fd' w w', files w' = files w ∧ ∃ o, fd_files w !! fd = Some o ∧ opened fd' o w w').
Proof.
  intros w. cbn [toy_host sys_dupfd_cloexec]. destruct (toy_node_at fd w) as [[i n]|] eqn:Hn; [|done].
  pose proof (toy_fd_lookup w fd) as Hl. rewrite Hn in Hl. apply toy_node_at_Some in Hn as [_ Hn].
  pose proof (toy_alloc_effect i (bool_decide (fd ∈ x_append (t_extra w))) w ltac:(by rewrite Hn)) as Ha.
  destruct (toy_alloc_flags i _ w) as [[fd'|e] w']; [|done]. destruct Ha as [? Ho]. split; [done|]. by eexists.
Qed.

Lemma toy_close_effect fd (w : toy_world) :
  fd_files (toy_close fd w) = delete fd (fd_files w) ∧
  reaped (fd_files (toy_close fd w)) (files w) (files (toy_close fd w)).
Proof.
  rewrite (toy_same_files w (toy_close fd w)) by done. split; [|apply reaped_refl].
  apply map_eq. intros fd'. unfold fd_files, toy_posix. rewrite map_lookup_imap. simpl.
  destruct (decide (fd = fd')) as [<-|]; [by rewrite !lookup_delete_eq|].
  by rewrite !lookup_delete_ne, map_lookup_imap by done.
Qed.

Lemma toy_fstat_effect fd :
  effect (sys_fstat (Host := toy_host) fd)
    (λ st w w', same w w' ∧ ∃ o n, fd_files w !! fd = Some o ∧ files w !! of_file o = Some n ∧
       describes (H := linux_libc) (of_file o) n st).
Proof.
  intros w. cbn [toy_host sys_fstat]. pose proof (toy_fd_lookup w fd) as Hl.
  destruct (toy_node_at fd w) as [[i n]|] eqn:Hn; [|done]. apply toy_node_at_Some in Hn as [_ Hn].
  split; [done|]. eexists _, _. split; [exact Hl|]. cbn [of_file]. rewrite toy_files_lookup, Hn.
  split; [done|]. apply toy_describes.
Qed.

Lemma toy_linkat_effect fd dirfd name :
  effect (toy_link fd [] dirfd name 0x1000)
    (λ _ w w', fd_files w' = fd_files w ∧ ∃ o d, fd_files w !! fd = Some o ∧ free_in w dirfd name d ∧
       files w' = put_entry d name (of_file o) (files w)).
Proof.
  intros w. pose proof (toy_fd_lookup w fd) as Hl. destruct (toy_node_at fd w) as [[i n]|] eqn:Hn.
  - pose proof (toy_link_effect fd [] dirfd name 0x1000 w i n Hn) as Hk.
    destruct (toy_link _ _ _ _ _ _) as [[]]; [|done].
    destruct Hk as (? & d & ? & ?). split; [done|]. by eexists _, d.
  - unfold toy_link. simpl. by rewrite Hn.
Qed.

Lemma toy_linkat_name_effect d1 n1 dirfd name :
  plain n1 →
  effect (toy_link d1 n1 dirfd name 0)
    (λ _ w w', fd_files w' = fd_files w ∧ ∃ k1 k d, denotes w d1 n1 k1 k ∧ free_in w dirfd name d ∧
       files w' = put_entry d name k (files w)).
Proof.
  intros Hp1 w. pose proof Hp1 as [Hne _]. destruct (toy_resolve d1 n1 w) as [[i n]|] eqn:Hr.
  - destruct (toy_resolve_plain _ _ _ _ _ Hp1 Hr) as (d' & p' & es' & _ & _ & _ & Hden & _).
    pose proof (toy_link_effect d1 n1 dirfd name 0 w i n) as Hk.
    rewrite decide_False in Hk by done. specialize (Hk Hr). destruct (toy_link _ _ _ _ _ _) as [[]]; [|done].
    destruct Hk as (? & d & ? & ?). split; [done|]. by eexists _, _, d.
  - unfold toy_link. by rewrite decide_False, Hr.
Qed.

Lemma toy_ftruncate_effect fd n :
  effect (sys_ftruncate (Host := toy_host) fd n)
    (λ _ w w', fd_files w' = fd_files w ∧ 0 ≤ n ∧ ∃ o, fd_files w !! fd = Some o ∧
       files w' = alter (edit_data (resize (Z.to_nat n) NUL)) (of_file o) (files w)).
Proof.
  intros w. cbn [toy_host sys_ftruncate]. destruct (toy_data fd w) as [[i data]|] eqn:Hd; [|done].
  apply toy_data_at in Hd as [Hn Ho]. destruct (Z.ltb_spec n 0); [done|].
  destruct (toy_set_data_files (resize (Z.to_nat n) NUL) i data _ w Hn eq_refl) as [Hf Hfd].
  split; [done|]. split; [done|]. eexists. split; [exact Ho|]. exact Hf.
Qed.

(** A weaker postcondition. *)
Lemma effect_mono {A} (call : toy_world → (A + Z) * toy_world) post post' :
  effect call post → (∀ a w w', post a w w' → post' a w w') → effect call post'.
Proof. intros Hc Hp w. specialize (Hc w). destruct (call w) as [[a|e] w']; [by apply Hp|done]. Qed.

#[export] Instance toy_posix_laws : PosixLaws (H := linux_libc) (H1 := toy_posix).
Proof.
  split.
  - apply toy_live.
  - intros path w. apply (toy_open_effect w).
  - intros. by apply toy_openat_effect.
  - intros. by apply toy_create_effect.
  - apply toy_dup_effect.
  - apply toy_close_effect.
  - apply toy_fstat_effect.
  - intros dirfd name Hp. apply (toy_named_effect dirfd name (λ i n w, (inl (toy_stat w i n), w))); [|done].
    intros w i n d _ Hn Hden Hf. split; [done|]. eexists _, _, _. split_and!; [done..|]. apply toy_describes.
  - by intros fd w.
  - intros dirfd name mode _. eapply effect_mono; [apply (toy_mk_effect dirfd name mode (λ d, TDir d []))|].
    intros _ w w' (? & d & k & ? & i & ?). split; [done|]. by exists d, k.
  - intros target dirfd name _. eapply effect_mono; [apply (toy_mk_effect dirfd name 0x1ff (λ _, TLink target))|].
    intros _ w w' (? & d & k & ? & i & ?). split; [done|]. by exists d, k.
  - intros dirfd name Hp. eapply effect_mono; [by apply (toy_unlink_effect dirfd name 0)|].
    intros _ w w' (? & d & k & n & ? & ? & ? & ->). split; [done|]. exists d, k, n. by split_and!; [..|apply reaped_refl].
  - intros dirfd name Hp. eapply effect_mono; [by apply (toy_unlink_effect dirfd name 0x200)|].
    intros _ w w' (? & d & k & n & ? & Hk & Hb & ->). split; [done|]. exists d, k. split_and!; [done| |apply reaped_refl].
    unfold entries_of. rewrite Hk. simpl in *. by rewrite Hb.
  - intros d1 n1 d2 n2 Hp1 Hp2. eapply effect_mono; [by apply toy_rename_effect|].
    intros _ w w' (? & k1 & k2 & k & o2 & ? & ? & ? & ? & Hif). split; [done|]. exists k1, k2, k, o2.
    split_and!; try done. destruct (decide _); [done|]. rewrite Hif. apply reaped_refl.
  - intros dirfd name n Hp. apply (toy_named_effect dirfd name (λ _ nd w,
      match nd with TLink target => (inl (take n target), w) | _ => (inr 22, w) end)); [|done].
    intros w i nd d _ Hn Hden Hf. destruct nd; try done. split; [done|]. by eexists _, _, _, _.
  - intros. apply toy_linkat_effect.
  - intros. by apply toy_linkat_name_effect.
  - intros. by apply toy_chmod_effect.
  - intros. by apply toy_chown_effect.
  - intros dirfd name times w. cbn [toy_host sys_utimensat]. unfold toy_named. by destruct (toy_resolve _ _ _) as [[]|].
  - apply toy_ftruncate_effect.
  - intros. apply toy_pread_effect.
  - intros. apply toy_pread_effect.
  - intros. apply toy_pwrite_effect.
  - intros. apply toy_pwrite_effect.
  - by intros fd w.
  - intros fd w. cbn [toy_host nix_dir_from_fd].
    destruct (toy_node_at fd w) as [[i []]|]; [done|apply toy_close_effect..].
  - intros fd w. split; [|apply toy_iter_lists]. cbn [toy_host nix_dir_iter]. unfold toy_iter.
    by destruct (toy_dir fd w) as [[[]]|].
  - by intros w.
Qed.
