(* ===== verification/Passthrough.v ===== *)
(** * The passthrough file system

    [passthrough.rs], [open_child] of [inode.rs] and the [platform] flags: every operation of
    [PassthroughFs], on a state that joins the two tables with the kernel the system calls act on.
    An [OwnedFd] that is dropped is closed at the point where the source drops it. *)

From S2P Require Import Prelude Libc Errors Bytes Attr Wire Inode Handle Host.
Local Open Scope Z_scope.

Record DirEntry := mkDirEntry {
  de_name : bytes;
  de_ino : Z;
  de_kind : FileKind;
  de_next_offset : Z;
}.

Section Platform.
Context `{Libc}.

Definition linux_reference_open_flags : Z := Z.lor (Z.lor O_PATH O_NOFOLLOW) O_CLOEXEC.
Definition linux_symlink_open_flags : Z := Z.lor (Z.lor O_PATH O_NOFOLLOW) O_CLOEXEC.
Definition macos_reference_open_flags : Z := Z.lor O_EVTONLY O_CLOEXEC.
Definition macos_symlink_open_flags : Z := Z.lor O_SYMLINK O_CLOEXEC.
Definition generic_reference_open_flags : Z := Z.lor O_RDONLY O_CLOEXEC.
Definition generic_symlink_open_flags : Z := Z.lor O_RDONLY O_CLOEXEC.

Definition reference_open_flags_impl : Z :=
  match target_os with
  | Linux => linux_reference_open_flags
  | MacOS => macos_reference_open_flags
  | OtherUnix => generic_reference_open_flags
  end.

Definition symlink_open_flags : Z :=
  match target_os with
  | Linux => linux_symlink_open_flags
  | MacOS => macos_symlink_open_flags
  | OtherUnix => generic_symlink_open_flags
  end.

Definition reference_open_flags (is_dir is_symlink : bool) : Z :=
  let base := if is_dir then O_DIRECTORY else 0 in
  if is_symlink then symlink_open_flags else Z.lor base reference_open_flags_impl.
End Platform.

(** [CString::new] fails on an interior NUL. *)
Definition to_cstring (name : bytes) : outcome FsError bytes :=
  if bool_decide (NUL ∈ name) then Err (InvalidArgument "name contains NUL") else Ok name.

Record PassthroughFs `{Host} := mkFs {
  world : World;
  inodes : InodeStore;
  fhandles : HandleStore;
}.

Section Operations.
Context `{Libc, HashOrder, Host}.

Abbreviation Fs := (M PassthroughFs FsError).

(** A system call whose failure becomes [io::Error::last_os_error().into()]. *)
Definition syscall {A} (call : World → (A + Z) * World) : Fs A := λ fs,
  let '(r, w) := call (world fs) in
  (match r with inl a => Ok a | inr e => Err (FsError_from_io (Os e)) end,
   mkFs _ w (inodes fs) (fhandles fs)).

Definition with_inodes {A} : M InodeStore FsError A → Fs A :=
  zoom inodes (λ s fs, mkFs _ (world fs) s (fhandles fs)).

Definition with_handles {A} : M HandleStore FsError A → Fs A :=
  zoom fhandles (λ s fs, mkFs _ (world fs) (inodes fs) s).

(** Drop owned descriptors. *)
Definition close_fds (fds : list Z) : Fs unit :=
  modify (λ fs, mkFs _ (foldl (λ w fd, sys_close fd w) (world fs) fds) (inodes fs) (fhandles fs)).

Definition PassthroughFs_new (shared_dir : bytes) (w : World) : outcome FsError PassthroughFs * World :=
  if bool_decide (NUL ∈ shared_dir) then (Err (InvalidArgument "path contains NUL"), w)
  else match sys_open shared_dir (Z.lor (Z.lor O_DIRECTORY O_RDONLY) O_CLOEXEC) w with
       | (inr e, w) => (Err (FsError_from_io (Os e)), w)
       | (inl fd, w) =>
           match sys_fstat fd w with
           | (inr e, w) => (Err (FsError_from_io (Os e)), sys_close fd w)
           | (inl st, w) => (Ok (mkFs _ w (InodeStore_new fd st) HandleStore_new), w)
           end
       end.

Definition PassthroughFs_inode_count (fs : PassthroughFs) : nat := InodeStore_len (inodes fs).
Definition PassthroughFs_handle_count (fs : PassthroughFs) : nat := HandleStore_len (fhandles fs).

Definition PassthroughFs_inode (id : Z) : Fs InodeData := with_inodes (InodeStore_get id).

Definition open_child (parent_fd : Z) (name : bytes) : Fs (Z * stat) :=
  st ← syscall (sys_fstatat parent_fd name AT_SYMLINK_NOFOLLOW);
  let kind := FileKind_from_mode (as_u32 (st_mode st)) in
  let flags := reference_open_flags (bool_decide (kind = Dir)) (bool_decide (kind = Symlink)) in
  fd ← syscall (sys_openat parent_fd name flags None);
  mret (fd, st).

(** [register] drops the descriptor of a file it already tracks. *)
Definition register_inode (parent : Z) (name : bytes) (fd : Z) (st : stat) : Fs InodeData :=
  r ← with_inodes (InodeStore_register parent name fd st);
  _ ← close_fds r.2;
  mret r.1.

Definition PassthroughFs_lookup (parent : Z) (name : bytes) : Fs (Z * Attr) :=
  parent_data ← PassthroughFs_inode parent;
  cname ← lift (to_cstring name);
  c ← open_child (i_fd parent_data) cname;
  data ← register_inode parent name c.1 c.2;
  mret (i_id data, Attr_from_stat c.2).

Definition PassthroughFs_forget (ino count : Z) : Fs unit :=
  dropped ← with_inodes (λ s, let '(fds, s) := InodeStore_forget ino count s in (Ok fds, s));
  close_fds dropped.

Definition PassthroughFs_getattr (ino : Z) : Fs Attr :=
  data ← PassthroughFs_inode ino;
  st ← syscall (sys_fstat (i_fd data));
  mret (Attr_from_stat st).

Definition parent_fd_name (data : InodeData) : Fs (Z * bytes) :=
  let parent_id := default ROOT_ID (i_parent data) in
  parent ← PassthroughFs_inode parent_id;
  name ← lift (to_cstring (i_name data));
  mret (i_fd parent, name).

Definition reopen_via_parent (ino flags : Z) : Fs Z :=
  data ← PassthroughFs_inode ino;
  if ino =? ROOT_ID then syscall (sys_dupfd_cloexec (i_fd data))
  else
    pn ← parent_fd_name data;
    syscall (sys_openat pn.1 pn.2 flags None).

(** The part of [setattr] under [if let Some(size)]: the temporary descriptor is closed whether
    or not [ftruncate] succeeds. *)
Definition setattr_size (ino size : Z) : Fs unit :=
  wfd ← reopen_via_parent ino O_WRONLY;
  rc ← attempt (syscall (sys_ftruncate wfd (as_i64 size)));
  _ ← close_fds [wfd];
  lift rc.

Definition setattr_mode (parent_fd : Z) (name : bytes) (attr : SetAttr) : Fs unit :=
  match sa_mode attr with
  | Some mode => syscall (sys_fchmodat parent_fd name (wrap MODE_T_BITS mode) AT_SYMLINK_NOFOLLOW)
  | None => mret tt
  end.

Definition U32_MAX : Z := 2 ^ 32 - 1.

Definition setattr_owner (parent_fd : Z) (name : bytes) (attr : SetAttr) : Fs unit :=
  if bool_decide (is_Some (sa_uid attr)) || bool_decide (is_Some (sa_gid attr)) then
    let uid := default U32_MAX (sa_uid attr) in
    let gid := default U32_MAX (sa_gid attr) in
    syscall (sys_fchownat parent_fd name uid gid AT_SYMLINK_NOFOLLOW)
  else mret tt.

(** [to_ts]. *)
Definition to_ts (t : option (Z * Z)) : Z * Z := default (0, UTIME_OMIT) t.

Definition setattr_times (parent_fd : Z) (name : bytes) (attr : SetAttr) : Fs unit :=
  if bool_decide (is_Some (sa_atime attr)) || bool_decide (is_Some (sa_mtime attr)) then
    syscall (sys_utimensat parent_fd name (to_ts (sa_atime attr), to_ts (sa_mtime attr))
                           AT_SYMLINK_NOFOLLOW)
  else mret tt.

Definition setattr_by_name (attr : SetAttr) : bool :=
  bool_decide (is_Some (sa_mode attr)) || bool_decide (is_Some (sa_uid attr)) ||
  bool_decide (is_Some (sa_gid attr)) || bool_decide (is_Some (sa_atime attr)) ||
  bool_decide (is_Some (sa_mtime attr)).

Definition PassthroughFs_setattr (ino : Z) (attr : SetAttr) : Fs Attr :=
  data ← PassthroughFs_inode ino;
  _ ← match sa_size attr with
      | Some size => setattr_size ino size
      | None => mret tt
      end;
  _ ← if setattr_by_name attr then
        pn ← parent_fd_name data;
        _ ← setattr_mode pn.1 pn.2 attr;
        _ ← setattr_owner pn.1 pn.2 attr;
        setattr_times pn.1 pn.2 attr
      else mret tt;
  PassthroughFs_getattr ino.

Definition PassthroughFs_mkdir (parent : Z) (name : bytes) (mode : Z) : Fs (Z * Attr) :=
  parent_data ← PassthroughFs_inode parent;
  cname ← lift (to_cstring name);
  _ ← syscall (sys_mkdirat (i_fd parent_data) cname (wrap MODE_T_BITS mode));
  PassthroughFs_lookup parent name.

(** [HandleStore::insert], with what it drops closed. *)
Definition insert_handle (data : HandleData) : Fs Z :=
  r ← with_handles (λ s, let '(id, dropped, s) := HandleStore_insert data s in
                         (Ok (id, dropped), s));
  _ ← close_fds r.2;
  mret r.1.

(** [fd] is a bare descriptor until [from_raw_fd] after the lookup. *)
Definition PassthroughFs_create (parent : Z) (name : bytes) (flags mode : Z)
    : Fs (Z * Z * Attr) :=
  parent_data ← PassthroughFs_inode parent;
  cname ← lift (to_cstring name);
  fd ← syscall (sys_openat (i_fd parent_data) cname (Z.lor (Z.lor flags O_CREAT) O_EXCL)
                           (Some mode));
  r ← PassthroughFs_lookup parent name;
  handle ← insert_handle (HFile fd);
  mret (r.1, handle, r.2).

Definition PassthroughFs_unlink (parent : Z) (name : bytes) : Fs unit :=
  parent_data ← PassthroughFs_inode parent;
  cname ← lift (to_cstring name);
  syscall (sys_unlinkat (i_fd parent_data) cname 0).

Definition PassthroughFs_rmdir (parent : Z) (name : bytes) : Fs unit :=
  parent_data ← PassthroughFs_inode parent;
  cname ← lift (to_cstring name);
  syscall (sys_unlinkat (i_fd parent_data) cname AT_REMOVEDIR).

Definition PassthroughFs_rename (parent : Z) (name : bytes) (new_parent : Z) (new_name : bytes)
    : Fs unit :=
  parent_data ← PassthroughFs_inode parent;
  new_parent_data ← PassthroughFs_inode new_parent;
  cname ← lift (to_cstring name);
  cnew ← lift (to_cstring new_name);
  _ ← syscall (sys_renameat (i_fd parent_data) cname (i_fd new_parent_data) cnew);
  with_inodes (modify (InodeStore_note_rename parent name new_parent new_name)).

Definition PassthroughFs_symlink (parent : Z) (name target : bytes) : Fs (Z * Attr) :=
  parent_data ← PassthroughFs_inode parent;
  cname ← lift (to_cstring name);
  ctarget ← lift (to_cstring target);
  _ ← syscall (sys_symlinkat ctarget (i_fd parent_data) cname);
  PassthroughFs_lookup parent name.

Definition PassthroughFs_readlink (ino : Z) : Fs bytes :=
  data ← PassthroughFs_inode ino;
  pn ← parent_fd_name data;
  syscall (sys_readlinkat pn.1 pn.2 4096).

Definition PassthroughFs_link (ino new_parent : Z) (new_name : bytes) : Fs Attr :=
  data ← PassthroughFs_inode ino;
  new_parent_data ← PassthroughFs_inode new_parent;
  cnew ← lift (to_cstring new_name);
  _ ← if decide (target_os = Linux)
      then syscall (sys_linkat (i_fd data) [] (i_fd new_parent_data) cnew AT_EMPTY_PATH)
      else pn ← parent_fd_name data;
           syscall (sys_linkat pn.1 pn.2 (i_fd new_parent_data) cnew 0);
  PassthroughFs_getattr ino.

Definition PassthroughFs_open (ino flags : Z) : Fs Z :=
  fd ← reopen_via_parent ino flags;
  insert_handle (HFile fd).

Definition with_file (handle : Z) : Fs Z := λ fs, (HandleStore_with_file handle (fhandles fs), fs).
Definition with_dir (handle : Z) : Fs Z := λ fs, (HandleStore_with_dir handle (fhandles fs), fs).

Definition PassthroughFs_read (handle offset : Z) (size : nat) : Fs bytes :=
  fd ← with_file handle;
  syscall (sys_pread fd size (as_i64 offset)).

Definition PassthroughFs_write (handle offset : Z) (data : bytes) : Fs nat :=
  fd ← with_file handle;
  syscall (sys_pwrite fd data (as_i64 offset)).

(** The lengths of the buffers, and the bytes the call puts into them in order: their number is
    the count the source returns, and the caller owns the buffers. *)
Definition PassthroughFs_read_vectored (handle offset : Z) (iov : list nat) : Fs bytes :=
  fd ← with_file handle;
  syscall (sys_preadv fd iov (as_i64 offset)).

(** The contents of the buffers. *)
Definition PassthroughFs_write_vectored (handle offset : Z) (iov : list bytes) : Fs nat :=
  fd ← with_file handle;
  syscall (sys_pwritev fd iov (as_i64 offset)).

Definition PassthroughFs_fsync (handle : Z) : Fs unit :=
  fd ← with_file handle;
  syscall (sys_fsync fd).

(** The removed handle goes out of scope. *)
Definition drop_handle (handle : Z) : Fs unit :=
  data ← with_handles (HandleStore_remove handle);
  close_fds [HandleData_fd data].

Definition PassthroughFs_release (handle : Z) : Fs unit := drop_handle handle.

Definition PassthroughFs_opendir (ino : Z) : Fs Z :=
  fd ← reopen_via_parent ino (Z.lor O_RDONLY O_DIRECTORY);
  _ ← λ fs, let '(r, w) := nix_dir_from_fd fd (world fs) in
            (match r with inl _ => Ok tt | inr e => Err (FsError_from_nix e) end,
             mkFs _ w (inodes fs) (fhandles fs));
  insert_handle (HDir fd).

Definition dot : bytes := [Byte.x2e].
Definition dotdot : bytes := [Byte.x2e; Byte.x2e].

Definition nix_kind (t : option NixType) : FileKind :=
  match t with
  | Some NixDirectory => Dir
  | Some NixSymlink => Symlink
  | Some NixFile => Regular
  | _ => Other
  end.

(** The [for] loop over the directory stream. *)
Fixpoint readdir_entries (items : list (NixEntry + Z)) (out : list DirEntry)
    : outcome FsError (list DirEntry) :=
  match items with
  | [] => Ok out
  | inr e :: _ => Err (FsError_from_nix e)
  | inl entry :: items =>
      if bool_decide (ne_name entry = dot) || bool_decide (ne_name entry = dotdot)
      then readdir_entries items out
      else readdir_entries items
             (out ++ [mkDirEntry (ne_name entry) (ne_ino entry) (nix_kind (ne_type entry)) 0])
  end.

Definition PassthroughFs_readdir (handle : Z) : Fs (list DirEntry) :=
  fd ← with_dir handle;
  items ← λ fs, let '(items, w) := nix_dir_iter fd (world fs) in
                (Ok items, mkFs _ w (inodes fs) (fhandles fs));
  lift (readdir_entries items []).

Definition PassthroughFs_releasedir (handle : Z) : Fs unit := drop_handle handle.

Definition PassthroughFs_statfs (ino : Z) : Fs statvfs :=
  data ← PassthroughFs_inode ino;
  syscall (sys_fstatvfs (i_fd data)).
End Operations.
