(* ===== verification/FsProps.v ===== *)
(** * The file system's properties

    Theorems about [Passthrough]: which descriptors the process owns (every operation, every
    branch), what a failed validation leaves untouched, and the functional behaviour of lookups,
    renames and listings. *)

From S2P Require Import Prelude Libc Errors Bytes Attr Wire Inode Handle Host ToyHost Passthrough.
From stdpp Require Import gmultiset.
Local Open Scope Z_scope.

(** ** Specification: who owns which descriptor *)

(** The operations a client can ask for, as data. *)
Inductive FsOp :=
| FLookup (parent : Z) (name : bytes)
| FForget (ino count : Z)
| FGetattr (ino : Z)
| FSetattr (ino : Z) (attr : SetAttr)
| FMkdir (parent : Z) (name : bytes) (mode : Z)
| FCreate (parent : Z) (name : bytes) (flags mode : Z)
| FUnlink (parent : Z) (name : bytes)
| FRmdir (parent : Z) (name : bytes)
| FRename (parent : Z) (name : bytes) (new_parent : Z) (new_name : bytes)
| FSymlink (parent : Z) (name target : bytes)
| FReadlink (ino : Z)
| FLink (ino new_parent : Z) (new_name : bytes)
| FOpen (ino flags : Z)
| FRead (handle offset : Z) (size : nat)
| FWrite (handle offset : Z) (data : bytes)
| FReadVectored (handle offset : Z) (iov : list nat)
| FWriteVectored (handle offset : Z) (iov : list bytes)
| FFsync (handle : Z)
| FRelease (handle : Z)
| FOpendir (ino : Z)
| FReaddir (handle : Z)
| FReleasedir (handle : Z)
| FStatfs (ino : Z).

Section Specification.
Context `{Libc, HashOrder, Host}.

Definition discard {A} (m : M PassthroughFs FsError A) : M PassthroughFs FsError unit :=
  _ ← m; mret tt.

Definition run_op (op : FsOp) : M PassthroughFs FsError unit :=
  match op with
  | FLookup p n => discard (PassthroughFs_lookup p n)
  | FForget i c => PassthroughFs_forget i c
  | FGetattr i => discard (PassthroughFs_getattr i)
  | FSetattr i a => discard (PassthroughFs_setattr i a)
  | FMkdir p n m => discard (PassthroughFs_mkdir p n m)
  | FCreate p n f m => discard (PassthroughFs_create p n f m)
  | FUnlink p n => PassthroughFs_unlink p n
  | FRmdir p n => PassthroughFs_rmdir p n
  | FRename p n p' n' => PassthroughFs_rename p n p' n'
  | FSymlink p n t => discard (PassthroughFs_symlink p n t)
  | FReadlink i => discard (PassthroughFs_readlink i)
  | FLink i p n => discard (PassthroughFs_link i p n)
  | FOpen i f => discard (PassthroughFs_open i f)
  | FRead h o n => discard (PassthroughFs_read h o n)
  | FWrite h o b => discard (PassthroughFs_write h o b)
  | FReadVectored h o v => discard (PassthroughFs_read_vectored h o v)
  | FWriteVectored h o v => discard (PassthroughFs_write_vectored h o v)
  | FFsync h => PassthroughFs_fsync h
  | FRelease h => PassthroughFs_release h
  | FOpendir i => discard (PassthroughFs_opendir i)
  | FReaddir h => discard (PassthroughFs_readdir h)
  | FReleasedir h => PassthroughFs_releasedir h
  | FStatfs i => discard (PassthroughFs_statfs i)
  end.

(** The descriptors a table holds. *)
Definition fds_of {V} (f : V → Z) (m : gmap Z V) : gmultiset Z :=
  list_to_set_disj (f ∘ snd <$> map_to_list m).

Definition owned_fds (i : InodeStore) (h : HandleStore) : gmultiset Z :=
  fds_of i_fd (by_id i) ⊎ fds_of HandleData_fd (handles h).
End Specification.

Section Invariant.
Context `{Libc, HashOrder, HL : HostLaws}.

(** Both tables are well formed, and the open descriptors of the process are those of [base]
    (which the file system does not own), one per tracked inode and one per open handle. *)
Record fs_inv (base : gmultiset Z) (fs : PassthroughFs) : Prop := {
  fi_inodes : store_ok (inodes fs);
  fi_handles : handles_ok (fhandles fs);
  fi_fds : open_fds (world fs) = base ⊎ owned_fds (inodes fs) (fhandles fs);
}.

(** The invariant with a fact about the tables. *)
Definition inv (base : gmultiset Z) (X : InodeStore → HandleStore → Prop) (fs : PassthroughFs) : Prop :=
  fs_inv base fs ∧ X (inodes fs) (fhandles fs).

(** No 64-bit counter is about to wrap. *)
Definition fs_roomy (fs : PassthroughFs) : Prop :=
  roomy (inodes fs) ∧ next_handle (fhandles fs) < 2 ^ 64 - 1.
End Invariant.

(** * Lemmas *)

Section Owned.
Context {V : Type} (f : V → Z).
Implicit Types m : gmap Z V.

Lemma fds_of_perm m l : map_to_list m ≡ₚ l → fds_of f m = list_to_set_disj (f ∘ snd <$> l).
Proof. intros Hp. unfold fds_of. by rewrite Hp. Qed.

Lemma fds_of_empty : fds_of f ∅ = ∅.
Proof. unfold fds_of. by rewrite map_to_list_empty. Qed.

Lemma fds_of_insert m i x : m !! i = None → fds_of f (<[i:=x]> m) = {[+ f x +]} ⊎ fds_of f m.
Proof. intros Hi. by rewrite (fds_of_perm _ _ (map_to_list_insert m i x Hi)). Qed.

Lemma fds_of_delete m i x : m !! i = Some x → fds_of f m = {[+ f x +]} ⊎ fds_of f (delete i m).
Proof.
  intros Hi. rewrite <- (fds_of_insert _ i); [by rewrite insert_delete_id|apply lookup_delete_eq].
Qed.

Lemma fds_of_update m i x y : m !! i = Some x → f y = f x → fds_of f (<[i:=y]> m) = fds_of f m.
Proof.
  intros Hi Hf. rewrite <- insert_delete_eq, fds_of_insert by apply lookup_delete_eq.
  by rewrite Hf, <- fds_of_delete.
Qed.
End Owned.

(** ** What each table operation owns before and after *)

Section Tables.
Context `{Libc, HashOrder}.

Lemma register_owned i parent name fd st :
  store_ok i → roomy i →
  ∃ d dropped i', InodeStore_register parent name fd st i = (Ok (d, dropped), i') ∧ store_ok i' ∧
    {[+ fd +]} ⊎ fds_of i_fd (by_id i) = list_to_set_disj dropped ⊎ fds_of i_fd (by_id i').
Proof.
  intros Hs Hr. destruct (register_ok i parent name fd st Hs Hr)
    as (d & dr & i' & Hreg & Hs' & _). exists d, dr, i'. split_and!; [done..|].
  revert Hreg. unfold InodeStore_register.
  destruct (by_key i !! stat_key st) as [id|] eqn:Hk; intros Hreg.
  - destruct (so_key i Hs _ _ Hk) as (d0 & Hd0 & _). rewrite Hd0 in Hreg.
    injection Hreg as <- <- <-. simpl. erewrite fds_of_update by done. multiset_solver.
  - injection Hreg as <- <- <-. simpl. rewrite fds_of_insert by by apply next_id_fresh.
    multiset_solver.
Qed.

Lemma forget_owned i id count :
  fds_of i_fd (by_id i) = list_to_set_disj (InodeStore_forget id count i).1
                          ⊎ fds_of i_fd (by_id (InodeStore_forget id count i).2).
Proof.
  unfold InodeStore_forget. destruct (id =? ROOT_ID); [multiset_solver|].
  destruct (by_id i !! id) as [d|] eqn:Hd; [|multiset_solver].
  destruct (i_lookups d <=? count); simpl.
  - rewrite delete_insert_eq, (fds_of_delete i_fd _ _ _ Hd). multiset_solver.
  - erewrite fds_of_update by done. multiset_solver.
Qed.

Lemma note_rename_owned i op on np nn :
  fds_of i_fd (by_id (InodeStore_note_rename op on np nn i)) = fds_of i_fd (by_id i).
Proof.
  unfold InodeStore_note_rename. destruct (List.find _ _) as [id|]; [|done]. simpl.
  rewrite alter_alt. destruct (by_id i !! id) as [d|] eqn:Hd; [|done].
  by erewrite fds_of_update.
Qed.
End Tables.

Section Rules.
Context `{Libc, HashOrder, HL : HostLaws}.
Implicit Types X : InodeStore → HandleStore → Prop.

Lemma inv_weaken b X (Y : InodeStore → HandleStore → Prop) fs :
  inv b X fs → (∀ i h, X i h → Y i h) → inv b Y fs.
Proof. intros [? ?] HXY. split; auto. Qed.

Lemma rule_keeps {A} b X (call : World → (A + Z) * World) :
  keeps_fds open_fds call →
  ⟪ inv b X ⟫ syscall call ⤳ (λ _, inv b X) ⊘ (λ _, inv b X).
Proof.
  intros Hk fs [[Hi Hh Hf] HX]. unfold syscall. specialize (Hk (world fs)).
  destruct (call (world fs)) as [[a|e] w]; (split; [split|]); simpl in *; try done; congruence.
Qed.

Lemma rule_opens b X (call : World → (Z + Z) * World) :
  opens_fd open_fds call →
  ⟪ inv b X ⟫ syscall call ⤳ (λ fd, inv ({[+ fd +]} ⊎ b) X) ⊘ (λ _, inv b X).
Proof.
  intros Hk fs [[Hi Hh Hf] HX]. unfold syscall. specialize (Hk (world fs)).
  destruct (call (world fs)) as [[fd|e] w]; (split; [split|]); simpl in *; try done.
  - destruct Hk as [-> _]. rewrite Hf. multiset_solver.
  - congruence.
Qed.

Lemma rule_inode b X id :
  ⟪ inv b X ⟫ PassthroughFs_inode id ⤳ (λ _, inv b X) ⊘ (λ _, inv b X).
Proof.
  intros fs Hfs. unfold PassthroughFs_inode, with_inodes, zoom, InodeStore_get. simpl.
  destruct (by_id _ !! _); simpl; by destruct fs.
Qed.

Lemma rule_cstring b X name :
  ⟪ inv b X ⟫ lift (to_cstring name) ⤳ (λ _, inv b X) ⊘ (λ _, inv b X).
Proof. apply triple_lift. intros fs Hfs. unfold to_cstring. by case_bool_decide. Qed.

Lemma rule_closes b X fds (R : FsError → PassthroughFs → Prop) :
  ⟪ inv (list_to_set_disj fds ⊎ b) X ⟫ close_fds fds ⤳ (λ _, inv b X) ⊘ R.
Proof.
  apply triple_modify. intros [w i h] [[Hi Hh Hf] HX]. split; [split|]; try done. simpl in *.
  clear Hi Hh HX. revert w Hf. induction fds as [|fd fds IH]; simpl; intros w Hf.
  - rewrite Hf. multiset_solver.
  - apply IH. rewrite law_close, Hf. multiset_solver.
Qed.

Lemma rule_close b X fd (R : FsError → PassthroughFs → Prop) :
  ⟪ inv ({[+ fd +]} ⊎ b) X ⟫ close_fds [fd] ⤳ (λ _, inv b X) ⊘ R.
Proof.
  eapply triple_weaken; [apply (rule_closes b X [fd] R)| |done|done]. simpl. intros fs.
  by rewrite (right_id_L ∅ (⊎)).
Qed.
End Rules.

(** Composite rules, from here on used instead of the definitions. *)

Section Composites.
Context `{Libc, HashOrder, HL : HostLaws}.
Implicit Types X : InodeStore → HandleStore → Prop.
Implicit Types Y : HandleStore → Prop.

Lemma rule_register b Y parent name fd st (R : FsError → PassthroughFs → Prop) :
  ⟪ inv ({[+ fd +]} ⊎ b) (λ i h, roomy i ∧ Y h) ⟫ register_inode parent name fd st
  ⤳ (λ _, inv b (λ _ h, Y h)) ⊘ R.
Proof.
  unfold register_inode. eapply (triple_bind _ _ _ (λ r, inv (list_to_set_disj r.2 ⊎ b) (λ _ h, Y h))).
  - intros [w i h] [[Hi Hh Hf] [Hr HY]]. simpl in *. unfold with_inodes, zoom. simpl.
    destruct (register_owned i parent name fd st Hi Hr) as (d & dr & i' & -> & Hi' & Ho).
    split; [split|]; simpl; try done. rewrite Hf. unfold owned_fds. simpl.
    transitivity (b ⊎ ({[+ fd +]} ⊎ fds_of i_fd (by_id i)) ⊎ fds_of HandleData_fd (handles h));
      [multiset_solver|]. rewrite Ho. multiset_solver.
  - intros r. eapply triple_bind; [apply (rule_closes b (λ _ h, Y h))|].
    intros []. by apply triple_ret.
Qed.

Lemma rule_forget b ino count :
  ⟪ λ fs, fs_inv b fs ∧ 0 ≤ count ⟫ PassthroughFs_forget ino count
  ⤳ (λ _, fs_inv b) ⊘ (λ _ _, False).
Proof.
  unfold PassthroughFs_forget.
  eapply (triple_bind _ _ _ (λ r, inv (list_to_set_disj r ⊎ b) (λ _ _, True))).
  - intros [w i h] [[Hi Hh Hf] Hc]. simpl in *. unfold with_inodes, zoom. simpl.
    pose proof (forget_owned i ino count) as Ho. pose proof (forget_ok i ino count Hi Hc) as Hi'.
    destruct (InodeStore_forget ino count i) as [dr i']. simpl in *.
    split; [split|]; simpl; try done. rewrite Hf. unfold owned_fds. simpl. rewrite Ho.
    multiset_solver.
  - intros r. eapply triple_weaken; [apply (rule_closes b (λ _ _, True) r (λ _ _, False))|done| |done].
    by intros ? ? [? _].
Qed.

Lemma rule_insert_handle b data :
  ⟪ inv ({[+ HandleData_fd data +]} ⊎ b) (λ _ h, next_handle h < 2 ^ 64 - 1) ⟫ insert_handle data
  ⤳ (λ _, fs_inv b) ⊘ (λ _ _, False).
Proof.
  intros [w i h] [[Hi Hh Hf] Hr]. simpl in *. pose proof (insert_handles_ok h data Hh Hr) as Hh'.
  pose proof (next_handle_fresh h Hh) as Hfr. rewrite Hfr. simpl.
  split; simpl; try done. rewrite Hf. unfold owned_fds. simpl. rewrite fds_of_insert by done.
  multiset_solver.
Qed.

Lemma rule_drop_handle b handle :
  ⟪ fs_inv b ⟫ drop_handle handle ⤳ (λ _, fs_inv b) ⊘ (λ _, fs_inv b).
Proof.
  intros [w i h] [Hi Hh Hf]. simpl in *.
  unfold drop_handle, with_handles, zoom, mbind, M_bind. simpl. pose proof (remove_handles_ok h handle Hh) as Hh'.
  unfold HandleStore_remove in *. destruct (handles h !! handle) as [d|] eqn:Hd; simpl; [|done].
  simpl in Hh'. split; simpl; try done. rewrite law_close, Hf. unfold owned_fds. simpl.
  rewrite (fds_of_delete HandleData_fd _ _ _ Hd). multiset_solver.
Qed.

Lemma rule_with_file b X handle :
  ⟪ inv b X ⟫ with_file handle ⤳ (λ _, inv b X) ⊘ (λ _, inv b X).
Proof.
  intros fs Hfs. unfold with_file, HandleStore_with_file. by destruct (handles _ !! _) as [[]|].
Qed.

Lemma rule_with_dir b X handle :
  ⟪ inv b X ⟫ with_dir handle ⤳ (λ _, inv b X) ⊘ (λ _, inv b X).
Proof.
  intros fs Hfs. unfold with_dir, HandleStore_with_dir. by destruct (handles _ !! _) as [[]|].
Qed.
End Composites.

Create HintDb fs discriminated.
#[export] Hint Resolve rule_keeps rule_opens rule_inode rule_cstring rule_with_file rule_with_dir : fs.
#[export] Hint Resolve law_open law_openat law_dupfd law_fstat law_fstatat law_fstatvfs law_mkdirat
  law_unlinkat law_renameat law_symlinkat law_readlinkat law_linkat law_fchmodat law_fchownat
  law_utimensat law_ftruncate law_pread law_pwrite law_preadv law_pwritev law_fsync : fs.

Section Bind.
Context `{Libc, HashOrder, HL : HostLaws}.
Implicit Types X : InodeStore → HandleStore → Prop.

Lemma bind_rule_to {A B} b X X' (m : M PassthroughFs FsError A)
    (k : A → M PassthroughFs FsError B) Q1 Q :
  ⟪ inv b X ⟫ m ⤳ Q1 ⊘ (λ _, inv b X) → (∀ i h, X i h → X' i h) →
  (∀ a, ⟪ Q1 a ⟫ k a ⤳ Q ⊘ (λ _, inv b X')) →
  ⟪ inv b X ⟫ m ≫= k ⤳ Q ⊘ (λ _, inv b X').
Proof.
  intros Hm HX Hk. eapply triple_bind; [|exact Hk]. eapply triple_weaken; [exact Hm|done..|].
  intros e fs Hfs. exact (inv_weaken _ _ _ _ Hfs HX).
Qed.

Lemma bind_rule {A B} b X (m : M PassthroughFs FsError A) (k : A → M PassthroughFs FsError B) Q1 Q :
  ⟪ inv b X ⟫ m ⤳ Q1 ⊘ (λ _, inv b X) → (∀ a, ⟪ Q1 a ⟫ k a ⤳ Q ⊘ (λ _, fs_inv b)) →
  ⟪ inv b X ⟫ m ≫= k ⤳ Q ⊘ (λ _, fs_inv b).
Proof.
  intros Hm Hk. eapply triple_bind; [|exact Hk]. eapply triple_weaken; [exact Hm|done..|].
  by intros e fs [? _].
Qed.

Lemma last_rule {A} b X (m : M PassthroughFs FsError A) :
  ⟪ inv b X ⟫ m ⤳ (λ _, inv b X) ⊘ (λ _, inv b X) →
  ⟪ inv b X ⟫ m ⤳ (λ _, fs_inv b) ⊘ (λ _, fs_inv b).
Proof. intros Hm. eapply triple_weaken; [exact Hm|done|by intros ? ? [? _]..]. Qed.

Lemma ret_rule {A} b X (a : A) (R : FsError → PassthroughFs → Prop) : ⟪ inv b X ⟫ mret a ⤳ (λ _, fs_inv b) ⊘ R.
Proof. apply triple_ret. by intros fs [? _]. Qed.
End Bind.

(** Run a computation through the rules, one bind at a time. *)
Ltac fs_bind := eapply bind_rule; [by eauto with fs|intros ?; cbn beta].
Ltac fs_run := repeat fs_bind; first [apply ret_rule | apply last_rule; by eauto with fs | idtac].

Section Ops.
Context `{Libc, HashOrder, HL : HostLaws}.
Implicit Types X : InodeStore → HandleStore → Prop.

Lemma rule_open_child b X fd name :
  ⟪ inv b X ⟫ open_child fd name ⤳ (λ c, inv ({[+ c.1 +]} ⊎ b) X) ⊘ (λ _, inv b X).
Proof.
  unfold open_child. eapply triple_bind; [by eauto with fs|]. intros st. cbn beta.
  eapply triple_bind; [apply rule_opens, law_openat|]. intros fd'. by apply triple_ret.
Qed.

Lemma rule_lookup b (Y : HandleStore → Prop) parent name :
  ⟪ inv b (λ i h, roomy i ∧ Y h) ⟫ PassthroughFs_lookup parent name
  ⤳ (λ _, inv b (λ _ h, Y h)) ⊘ (λ _, inv b (λ _ h, Y h)).
Proof.
  unfold PassthroughFs_lookup.
  eapply bind_rule_to; [apply rule_inode|by intros ? ? [_ ?]|]. intros d. cbn beta.
  eapply bind_rule_to; [apply rule_cstring|by intros ? ? [_ ?]|]. intros cname. cbn beta.
  eapply bind_rule_to; [apply rule_open_child|by intros ? ? [_ ?]|]. intros c. cbn beta.
  eapply triple_bind; [apply rule_register|]. intros d'. by apply triple_ret.
Qed.

Lemma rule_lookup_last b X parent name :
  (∀ i h, X i h → roomy i) →
  ⟪ inv b X ⟫ PassthroughFs_lookup parent name ⤳ (λ _, fs_inv b) ⊘ (λ _, fs_inv b).
Proof.
  intros HX. eapply triple_weaken; [apply (rule_lookup b (λ _, True))| | |].
  - intros fs Hfs. eapply inv_weaken; [exact Hfs|eauto].
  - by intros ? ? [? _].
  - by intros ? ? [? _].
Qed.

Lemma rule_parent_fd_name b X d :
  ⟪ inv b X ⟫ parent_fd_name d ⤳ (λ _, inv b X) ⊘ (λ _, inv b X).
Proof.
  unfold parent_fd_name. eapply triple_bind; [by eauto with fs|]. intros p. cbn beta.
  eapply triple_bind; [by eauto with fs|]. intros n. by apply triple_ret.
Qed.

Lemma rule_reopen b X ino flags :
  ⟪ inv b X ⟫ reopen_via_parent ino flags ⤳ (λ fd, inv ({[+ fd +]} ⊎ b) X) ⊘ (λ _, inv b X).
Proof.
  unfold reopen_via_parent. eapply triple_bind; [by eauto with fs|]. intros d. cbn beta.
  destruct (ino =? ROOT_ID); [apply rule_opens, law_dupfd|].
  eapply triple_bind; [apply rule_parent_fd_name|]. intros pn. apply rule_opens, law_openat.
Qed.

Lemma rule_setattr_size b X ino size :
  ⟪ inv b X ⟫ setattr_size ino size ⤳ (λ _, inv b X) ⊘ (λ _, inv b X).
Proof.
  unfold setattr_size. eapply triple_bind; [apply rule_reopen|]. intros fd. cbn beta.
  eapply (triple_bind _ _ _ (λ rc fs, inv ({[+ fd +]} ⊎ b) X fs ∧ rc ≠ Panic)).
  - intros fs Hfs. unfold attempt.
    pose proof (rule_keeps ({[+ fd +]} ⊎ b) X _ (law_ftruncate fd (as_i64 size)) fs Hfs) as Hk.
    unfold syscall in *. by destruct (sys_ftruncate _ _ _) as [[]].
  - intros rc fs [Hfs Hrc]. pose proof (rule_close b X fd (λ _ _, False) fs Hfs) as Hc.
    unfold mbind, M_bind. destruct (close_fds [fd] fs) as [[[]|e|] fs']; try done.
    unfold lift. by destruct rc.
Qed.
End Ops.
#[export] Hint Resolve rule_parent_fd_name rule_setattr_size : fs.

Section RunOp.
Context `{Libc, HashOrder, HL : HostLaws}.

(** [count] is unsigned. *)
Definition wf_op (op : FsOp) : Prop :=
  match op with
  | FForget _ count => 0 ≤ count
  | _ => True
  end.

Definition is_create (op : FsOp) : bool :=
  match op with
  | FCreate _ _ _ _ => true
  | _ => false
  end.

Definition counters_roomy (i : InodeStore) (h : HandleStore) : Prop :=
  roomy i ∧ next_handle h < 2 ^ 64 - 1.

Abbreviation safe b m := (⟪ inv b counters_roomy ⟫ m ⤳ (λ _, fs_inv b) ⊘ (λ _, fs_inv b)).

Lemma rule_discard {A} P (m : M PassthroughFs FsError A) (Q : PassthroughFs → Prop) R :
  ⟪ P ⟫ m ⤳ (λ _, Q) ⊘ R → ⟪ P ⟫ discard m ⤳ (λ _, Q) ⊘ R.
Proof. intros Hm. eapply triple_bind; [exact Hm|]. intros a. by apply triple_ret. Qed.

Lemma safe_getattr b X ino :
  ⟪ inv b X ⟫ PassthroughFs_getattr ino ⤳ (λ _, fs_inv b) ⊘ (λ _, fs_inv b).
Proof. unfold PassthroughFs_getattr. fs_run. Qed.

Lemma safe_lookup b parent name : safe b (PassthroughFs_lookup parent name).
Proof. apply rule_lookup_last. by intros i h [? _]. Qed.

Lemma safe_setattr b ino attr : safe b (PassthroughFs_setattr ino attr).
Proof.
  unfold PassthroughFs_setattr. fs_bind. eapply (bind_rule _ _ _ _ (λ _, inv b counters_roomy)).
  { destruct (sa_size attr); [by eauto with fs|]. by apply triple_ret. }
  intros []. eapply (bind_rule _ _ _ _ (λ _, inv b counters_roomy)); [|intros []; apply safe_getattr].
  destruct (setattr_by_name attr); [|by apply triple_ret].
  eapply triple_bind; [by eauto with fs|]. intros pn. cbn beta.
  eapply (triple_bind _ _ _ (λ _, inv b counters_roomy)).
  { unfold setattr_mode. destruct (sa_mode attr); [by eauto with fs|by apply triple_ret]. }
  intros []. eapply (triple_bind _ _ _ (λ _, inv b counters_roomy)).
  { unfold setattr_owner. case_match; [by eauto with fs|by apply triple_ret]. }
  intros []. unfold setattr_times. case_match; [by eauto with fs|by apply triple_ret].
Qed.

Lemma safe_link b ino parent name : safe b (PassthroughFs_link ino parent name).
Proof.
  unfold PassthroughFs_link. do 3 fs_bind.
  eapply (bind_rule _ _ _ _ (λ _, inv b counters_roomy)); [|intros []; apply safe_getattr].
  destruct (decide _); [by eauto with fs|]. eapply triple_bind; [by eauto with fs|].
  intros pn. cbn beta. by eauto with fs.
Qed.

Lemma safe_rename b p n p' n' : safe b (PassthroughFs_rename p n p' n').
Proof.
  unfold PassthroughFs_rename. do 5 fs_bind. intros [w i h] [[Hi Hh Hf] _]. simpl in *.
  split; simpl; [by apply note_rename_ok|done|]. rewrite Hf. unfold owned_fds. simpl.
  by rewrite note_rename_owned.
Qed.

Lemma safe_open b ino flags : safe b (PassthroughFs_open ino flags).
Proof.
  unfold PassthroughFs_open. eapply bind_rule; [apply rule_reopen|]. intros fd. cbn beta.
  eapply triple_weaken; [apply (rule_insert_handle b (HFile fd))| |done|done].
  intros fs Hfs. eapply inv_weaken; [exact Hfs|by intros ? ? [_ ?]].
Qed.

Lemma safe_opendir b ino : safe b (PassthroughFs_opendir ino).
Proof.
  unfold PassthroughFs_opendir. eapply bind_rule; [apply rule_reopen|]. intros fd. cbn beta.
  eapply (triple_bind _ _ _ (λ _, inv ({[+ fd +]} ⊎ b) counters_roomy)).
  - intros [w i h] [[Hi Hh Hf] HX]. simpl in *. pose proof (law_from_fd fd w) as Hl.
    destruct (nix_dir_from_fd fd w) as [[|e] w']; (first [split; [split|]|split]); simpl in *; try done.
    + congruence.
    + rewrite Hl, Hf. multiset_solver.
  - intros []. eapply triple_weaken; [apply (rule_insert_handle b (HDir fd))| |done|done].
    intros fs Hfs. eapply inv_weaken; [exact Hfs|by intros ? ? [_ ?]].
Qed.

Lemma readdir_entries_total items : ∀ out, readdir_entries items out ≠ Panic.
Proof. induction items as [|[e|e] items IH]; intros out; simpl; [done| |done]. case_match; apply IH. Qed.

Lemma safe_readdir b handle : safe b (PassthroughFs_readdir handle).
Proof.
  unfold PassthroughFs_readdir. fs_bind.
  eapply (triple_bind _ _ _ (λ _, inv b counters_roomy)).
  - intros [w i h] [[Hi Hh Hf] HX]. simpl in *. pose proof (law_iter a w) as Hl.
    destruct (nix_dir_iter a w) as [items w']. split; [split|]; simpl in *; try done. congruence.
  - intros items fs [Hfs _]. unfold lift. pose proof (readdir_entries_total items []) as Ht.
    by destruct (readdir_entries items []).
Qed.

(** The descriptor [create] opened is owned by nobody while the lookup runs: a failing lookup
    leaves it open. *)
Lemma create_triple b parent name flags mode :
  ⟪ inv b counters_roomy ⟫ PassthroughFs_create parent name flags mode ⤳ (λ _, fs_inv b)
  ⊘ (λ _ fs, fs_inv b fs ∨ ∃ fd, fs_inv ({[+ fd +]} ⊎ b) fs).
Proof.
  unfold PassthroughFs_create.
  eapply triple_bind; [eapply triple_weaken; [apply (rule_inode b counters_roomy)|done|done|]|].
  { intros ? ? [? _]. by left. }
  intros d. eapply triple_bind; [eapply triple_weaken; [apply (rule_cstring b counters_roomy)|done|done|]|].
  { intros ? ? [? _]. by left. }
  intros cname. cbn beta. eapply triple_bind;
    [eapply triple_weaken; [apply (rule_opens b counters_roomy), law_openat|done|done|]|].
  { intros ? ? [? _]. by left. }
  intros fd. cbn beta. eapply triple_bind; [eapply triple_weaken; [apply
    (rule_lookup ({[+ fd +]} ⊎ b) (λ h, next_handle h < 2 ^ 64 - 1))|done|done|]|].
  { intros ? ? [? _]. right. eauto. }
  intros r. cbn beta. eapply triple_bind; [eapply triple_weaken;
    [apply (rule_insert_handle b (HFile fd))|done|done|done]|]. intros h. by apply triple_ret.
Qed.
End RunOp.

(** ** Histories and the small host *)

Section FsHistories.
Context `{Libc, HashOrder, HL : HostLaws}.

(** One operation of a client that ends normally, or with an error and is not [create]. *)
Inductive fs_step : PassthroughFs → PassthroughFs → Prop :=
| fs_step_ok op fs fs' :
    wf_op op → fs_roomy fs → run_op op fs = (Ok tt, fs') → fs_step fs fs'
| fs_step_err op fs e fs' :
    wf_op op → fs_roomy fs → is_create op = false → run_op op fs = (Err e, fs') → fs_step fs fs'.

Lemma run_op_triple op b :
  wf_op op →
  ⟪ inv b counters_roomy ⟫ run_op op ⤳ (λ _, fs_inv b)
  ⊘ (λ _ fs, fs_inv b fs ∨ is_create op = true ∧ ∃ fd, fs_inv ({[+ fd +]} ⊎ b) fs).
Proof.
  intros Hwf. destruct (is_create op) eqn:Hc.
  { destruct op; try done. simpl. apply rule_discard.
    eapply triple_weaken; [apply create_triple|done..|]. naive_solver. }
  apply (triple_weaken _ (inv b counters_roomy) _ _ (λ _, fs_inv b) _ (λ _, fs_inv b));
    [|done|done|by left].
  destruct op; try done; simpl; try apply rule_discard.
  - apply safe_lookup.
  - eapply triple_weaken; [apply (rule_forget b)| |done|done]. by intros fs [? _].
  - apply safe_getattr.
  - apply safe_setattr.
  - unfold PassthroughFs_mkdir. do 3 fs_bind. apply safe_lookup.
  - unfold PassthroughFs_unlink. fs_run.
  - unfold PassthroughFs_rmdir. fs_run.
  - apply safe_rename.
  - unfold PassthroughFs_symlink. do 4 fs_bind. apply safe_lookup.
  - unfold PassthroughFs_readlink. fs_run.
  - apply safe_link.
  - apply safe_open.
  - unfold PassthroughFs_read. fs_run.
  - unfold PassthroughFs_write. fs_run.
  - unfold PassthroughFs_read_vectored. fs_run.
  - unfold PassthroughFs_write_vectored. fs_run.
  - unfold PassthroughFs_fsync. fs_run.
  - eapply triple_weaken; [apply (rule_drop_handle b)| |done|done]. by intros fs [? _].
  - apply safe_opendir.
  - apply safe_readdir.
  - eapply triple_weaken; [apply (rule_drop_handle b)| |done|done]. by intros fs [? _].
  - unfold PassthroughFs_statfs. fs_run.
Qed.

Lemma new_inv path w fs w' :
  PassthroughFs_new path w = (Ok fs, w') → fs_inv (open_fds w) fs.
Proof.
  unfold PassthroughFs_new. case_bool_decide; [done|].
  pose proof (law_open path (Z.lor (Z.lor O_DIRECTORY O_RDONLY) O_CLOEXEC) w) as Ho.
  destruct (sys_open _ _ w) as [[fd|e] w1]; [|done].
  pose proof (law_fstat fd w1) as Hs. destruct (sys_fstat fd w1) as [[st|e] w2]; [|done].
  intros [= <- <-]. simpl in *. split; simpl; [apply store_ok_new|apply handles_ok_new|].
  rewrite Hs. destruct Ho as [-> _]. unfold owned_fds, InodeStore_new. simpl.
  rewrite <- insert_empty, fds_of_insert, !fds_of_empty by apply lookup_empty. simpl. multiset_solver.
Qed.
End FsHistories.

(** A host with the directory 9 that holds the shared directory 10 and a file [s] outside it;
    the shared directory holds the file [a]. *)
Definition name_s : bytes := [Byte.x73].
Definition name_share : bytes := [Byte.x68].
Definition toy0 (limit : nat) : toy_world :=
  mkToy (<[9 := TDir 9 [(name_share, 10); (name_s, 11)]]>
        (<[10 := TDir 9 [(name_a, 12)]]>
        (<[11 := TFile [Byte.x01; Byte.x02]]> (<[12 := TFile [Byte.x03]]> ∅)))) ∅ 13 limit extra0.

(** The file system shared from directory 10, with its root on descriptor 3. *)
Definition toy_fs (limit : nat) : PassthroughFs :=
  mkFs _ (toy_alloc 10 (toy0 limit)).2 (InodeStore_new 3 (sample_stat 10 0x41ed))
       HandleStore_new.

#[local] Existing Instance linux_libc.
#[local] Existing Instance key_order.

Lemma toy_fs_new limit :
  (1 ≤ limit)%nat → PassthroughFs_new [Byte.x2f] (toy0 limit) = (Ok (toy_fs limit), world (toy_fs limit)).
Proof. intros Hl. destruct limit; [lia|]. reflexivity. Qed.

Lemma toy_fs_inv limit : (1 ≤ limit)%nat → fs_inv ∅ (toy_fs limit).
Proof.
  intros Hl. change (fs_inv (open_fds (H := toy_host) (toy0 limit)) (toy_fs limit)).
  by eapply new_inv, toy_fs_new.
Qed.

Lemma toy_fs_roomy limit : fs_roomy (toy_fs limit).
Proof.
  split; [|simpl; lia]. apply roomy_dec. vm_compute. reflexivity.
Qed.

(** * Properties *)

(** C9: every operation of the file system, from any well-formed state, ends without a panic in a
    well-formed state in which the process has open exactly the descriptors it had, one for each
    tracked inode and one for each open handle, whether the operation succeeds or fails; the only
    exception is a [create] that fails, which may leave one more descriptor open. *)
Theorem fs_op_safe `{Libc, HashOrder, HL : HostLaws} (op : FsOp) b fs :
  wf_op op → fs_inv b fs → fs_roomy fs →
  match run_op op fs with
  | (Ok _, fs') => fs_inv b fs'
  | (Err _, fs') => fs_inv b fs' ∨ is_create op = true ∧ ∃ fd, fs_inv ({[+ fd +]} ⊎ b) fs'
  | (Panic, _) => False
  end.
Proof.
  intros Hwf Hi Hr. pose proof (run_op_triple op b Hwf fs (conj Hi Hr)) as Ht.
  destruct (run_op op fs) as [[]]; done.
Qed.

Lemma fs_op_safe_witness :
  fs_inv ∅ (run_op (FLookup ROOT_ID name_a) (toy_fs 8)).2.
Proof.
  pose proof (fs_op_safe (FLookup ROOT_ID name_a) ∅ (toy_fs 8) I (toy_fs_inv 8 ltac:(lia))
    (toy_fs_roomy 8)) as Hs.
  assert ((run_op (FLookup ROOT_ID name_a) (toy_fs 8)).1 = Ok tt) as Hok by (vm_compute; reflexivity).
  destruct (run_op (FLookup ROOT_ID name_a) (toy_fs 8)) as [[]]; try done.
Defined.

(** C16: no descriptor is leaked over a whole history: from a fresh file system, after any number
    of operations none of which is a failing [create], the open descriptors of the process are
    those it had before, plus one per tracked inode and one per open handle. *)
Theorem fs_no_fd_leak `{Libc, HashOrder, HL : HostLaws} path w fs0 w0 fs :
  PassthroughFs_new path w = (Ok fs0, w0) → rtc fs_step fs0 fs →
  open_fds (world fs) = open_fds w ⊎ owned_fds (inodes fs) (fhandles fs) ∧
  store_ok (inodes fs) ∧ handles_ok (fhandles fs).
Proof.
  intros Hnew Hr. apply new_inv in Hnew.
  assert (fs_inv (open_fds w) fs) as []; [|done]. induction Hr as [|fs1 fs2 fs3 Hstep _ IH]; [done|].
  apply IH. destruct Hstep as [op ? ? Hwf Hroom Hrun|op ? ? ? Hwf Hroom Hc Hrun];
    pose proof (run_op_triple op _ Hwf _ (conj Hnew Hroom)) as Ht; rewrite Hrun in Ht; [done|].
  rewrite Hc in Ht. naive_solver.
Qed.

Lemma fs_no_fd_leak_witness :
  let fs := (run_op (FForget 2 1) (run_op (FLookup ROOT_ID name_a) (toy_fs 8)).2).2 in
  open_fds (world fs) = owned_fds (inodes fs) (fhandles fs).
Proof.
  intros fs.
  destruct (fs_no_fd_leak (HL := toy_laws) [Byte.x2f] (toy0 8) (toy_fs 8) (world (toy_fs 8)) fs) as [Hf _].
  - apply toy_fs_new. lia.
  - eapply rtc_l; [|eapply rtc_once].
    + eapply (fs_step_ok (FLookup ROOT_ID name_a)); [done|apply toy_fs_roomy|].
      apply pair_fst. vm_compute. reflexivity.
    + eapply (fs_step_ok (FForget 2 1)); [simpl; lia| |apply pair_fst; vm_compute; reflexivity].
      split; [apply roomy_dec; vm_compute; reflexivity|vm_compute; reflexivity].
  - rewrite Hf. change (open_fds (H := toy_host) (toy0 8)) with (∅ : gmultiset Z). multiset_solver.
Defined.

(** A failing [create] does leak.  On a host that allows two open descriptors, the file is
    created, the lookup that follows runs out of descriptors, and the client gets an error; the
    descriptor of the new file belongs to no table and stays open. *)
Theorem create_leaks_fd :
  let r := PassthroughFs_create ROOT_ID name_b 2 0x1a4 (toy_fs 2) in
  r.1 = Err (Io 24 (Os 24)) ∧ fs_inv ∅ (toy_fs 2) ∧
  open_fds (world r.2) = {[+ 4 +]} ⊎ owned_fds (inodes r.2) (fhandles r.2).
Proof.
  split; [vm_compute; reflexivity|]. split; [apply toy_fs_inv; lia|].
  vm_compute. reflexivity.
Qed.

(** What an operation names first: an inode (several for some operations), a handle, names. *)
Definition op_inodes (op : FsOp) : list Z :=
  match op with
  | FLookup p _ | FMkdir p _ _ | FCreate p _ _ _ | FUnlink p _ | FRmdir p _ | FSymlink p _ _ => [p]
  | FGetattr i | FSetattr i _ | FReadlink i | FOpen i _ | FOpendir i | FStatfs i => [i]
  | FRename p _ p' _ => [p; p']
  | FLink i p _ => [i; p]
  | _ => []
  end.

Definition op_names (op : FsOp) : list bytes :=
  match op with
  | FLookup _ n | FMkdir _ n _ | FCreate _ n _ _ | FUnlink _ n | FRmdir _ n | FLink _ _ n => [n]
  | FRename _ n _ n' => [n; n']
  | FSymlink _ n t => [n; t]
  | _ => []
  end.

Definition op_handles (op : FsOp) : list Z :=
  match op with
  | FRead h _ _ | FWrite h _ _ | FReadVectored h _ _ | FWriteVectored h _ _ | FFsync h
  | FRelease h | FReaddir h | FReleasedir h => [h]
  | _ => []
  end.

(** The first of the named inodes that is not tracked. *)
Definition unknown_inode (fs : PassthroughFs) (op : FsOp) : option Z :=
  List.find (λ id, bool_decide (by_id (inodes fs) !! id = None)) (op_inodes op).

Ltac inert :=
  unfold run_op, discard, PassthroughFs_lookup, PassthroughFs_getattr, PassthroughFs_setattr,
    PassthroughFs_mkdir, PassthroughFs_create, PassthroughFs_unlink, PassthroughFs_rmdir,
    PassthroughFs_rename, PassthroughFs_symlink, PassthroughFs_readlink, PassthroughFs_link,
    PassthroughFs_open, PassthroughFs_read, PassthroughFs_write, PassthroughFs_read_vectored,
    PassthroughFs_write_vectored, PassthroughFs_fsync, PassthroughFs_release, PassthroughFs_opendir,
    PassthroughFs_readdir, PassthroughFs_releasedir, PassthroughFs_statfs, reopen_via_parent,
    drop_handle, with_file, with_dir, HandleStore_with_file, HandleStore_with_dir, to_cstring,
    PassthroughFs_inode, with_inodes, with_handles, zoom, lift, InodeStore_get, HandleStore_remove,
    mbind, M_bind; simpl;
  repeat match goal with
  | H : _ !! ?x = None |- _ => rewrite H; simpl
  | H : _ !! ?x ≠ None |- context [_ !! ?x] => destruct (_ !! x); [simpl|done]
  | |- context [bool_decide (NUL ∈ ?n)] => case_bool_decide; simpl
  end.

(** C33: an operation that names an inode or a handle the server does not track, or a name that
    contains a NUL, fails with the matching error before any system call: the kernel, the inode
    table and the handle table are unchanged. *)
Theorem bad_requests_inert `{Libc, HashOrder, Host} (op : FsOp) fs :
  (∀ id, unknown_inode fs op = Some id → run_op op fs = (Err (UnknownInode id), fs)) ∧
  (unknown_inode fs op = None → Exists (λ n, NUL ∈ n) (op_names op) →
   run_op op fs = (Err (InvalidArgument "name contains NUL"), fs)) ∧
  (∀ h, op_handles op = [h] → handles (fhandles fs) !! h = None →
   run_op op fs = (Err (UnknownHandle h), fs)).
Proof.
  destruct fs as [w i h]. unfold unknown_inode. split_and!.
  - intros id. destruct op; simpl; try done; repeat case_bool_decide; intros [= <-];
      inert; done.
  - intros Hu Hn. destruct op; simpl in *; try (by inversion Hn);
      rewrite ?Exists_cons, ?Exists_nil in Hn;
      repeat case_bool_decide; try done; inert; naive_solver.
  - intros h0. destruct op; simpl; try done; intros [= ->] Hh; inert; done.
Qed.

(** Looking up a name with a NUL in the root of the small host. *)
Lemma bad_requests_inert_witness :
  run_op (FLookup ROOT_ID [NUL]) (toy_fs 8) = (Err (InvalidArgument "name contains NUL"), toy_fs 8).
Proof.
  apply (bad_requests_inert (FLookup ROOT_ID [NUL]) (toy_fs 8)).
  - vm_compute. reflexivity.
  - apply Exists_cons. left. by apply list_elem_of_singleton.
Defined.

(** Names are passed to the host as they are, so the parent of the shared directory can be
    looked up from its root, and a file outside the shared directory can be opened and read. *)
Theorem lookup_escapes_root :
  let r1 := PassthroughFs_lookup ROOT_ID dotdot (toy_fs 8) in
  let r2 := PassthroughFs_lookup 2 name_s r1.2 in
  let r3 := PassthroughFs_open 3 0 r2.2 in
  (∃ a, r1.1 = Ok (2, a) ∧ a_ino a = 9) ∧ (∃ a, r2.1 = Ok (3, a) ∧ a_ino a = 11) ∧
  r3.1 = Ok 1 ∧ (PassthroughFs_read 1 0 16 r3.2).1 = Ok [Byte.x01; Byte.x02].
Proof.
  vm_compute. split_and!; [eexists; split; reflexivity..|reflexivity|reflexivity].
Qed.

(** C38: what a lookup does on each path.  The host is asked twice, for the status and for a
    descriptor, both times with the name exactly as it came (a name with a slash, [..] included,
    is not refused).  An error of [fstatat] or of [openat] is returned as it
    is and leaves the tables alone; when both succeed the file gets the id it already has or the
    next one, its attributes are those [fstatat] reported, its count goes up by one, its location
    is the one looked up, and the descriptor just opened is kept only for a file that is new. *)
Theorem lookup_spec `{Libc, HashOrder, Host} parent name fs d :
  store_ok (inodes fs) → roomy (inodes fs) → by_id (inodes fs) !! parent = Some d → NUL ∉ name →
  let r := PassthroughFs_lookup parent name fs in
  match sys_fstatat (i_fd d) name AT_SYMLINK_NOFOLLOW (world fs) with
  | (inr e, w) => r = (Err (FsError_from_io (Os e)), mkFs _ w (inodes fs) (fhandles fs))
  | (inl st, w) =>
      let kind := FileKind_from_mode (as_u32 (st_mode st)) in
      match sys_openat (i_fd d) name (reference_open_flags (bool_decide (kind = Dir))
              (bool_decide (kind = Symlink))) None w with
      | (inr e, w) => r = (Err (FsError_from_io (Os e)), mkFs _ w (inodes fs) (fhandles fs))
      | (inl fd, w) =>
          ∃ id c i', by_id i' !! id = Some c ∧ i_parent c = Some parent ∧ i_name c = name ∧
            refs i' = spec_lookup id (refs (inodes fs)) ∧
            match by_key (inodes fs) !! stat_key st with
            | Some id' => id = id' ∧
                r = (Ok (id, Attr_from_stat st), mkFs _ (sys_close fd w) i' (fhandles fs))
            | None => id = next_id (inodes fs) ∧ i_fd c = fd ∧
                r = (Ok (id, Attr_from_stat st), mkFs _ w i' (fhandles fs))
            end
      end
  end.
Proof.
  intros Hs Hr Hd Hn. destruct fs as [w i h]. simpl in *.
  unfold PassthroughFs_lookup, PassthroughFs_inode, with_inodes, zoom, InodeStore_get, lift,
    to_cstring, open_child, syscall, mbind, M_bind. simpl. rewrite Hd. simpl.
  rewrite bool_decide_false by done. simpl.
  destruct (sys_fstatat _ _ _ w) as [[st|e] w1]; simpl; [|done].
  destruct (sys_openat _ _ _ _ w1) as [[fd|e] w2]; simpl; [|done].
  destruct (register_ok i parent name fd st Hs Hr)
    as (c & dr & i' & Hreg & _ & Hc & _ & Hp & Hnm & Hrefs & Hcase).
  exists (i_id c), c, i'. split_and!; [done..|].
  unfold register_inode, with_inodes, zoom, mbind, M_bind. simpl. rewrite Hreg. simpl.
  destruct (by_key i !! stat_key st) as [id|].
  - destruct Hcase as (<- & -> & _). done.
  - destruct Hcase as (-> & Hfd & -> & _). done.
Qed.

Lemma lookup_spec_witness :
  ∃ a, (PassthroughFs_lookup ROOT_ID name_a (toy_fs 8)).1 = Ok (2, a).
Proof.
  destruct (lookup_spec ROOT_ID name_a (toy_fs 8)
    (mkInodeData ROOT_ID 3 Dir (mkFileKey 1 10) None [] 1)) as (id & c & i' & _ & _ & _ & _ & Hid & _ & ->).
  - apply (fi_inodes _ _ (toy_fs_inv 8 ltac:(lia))).
  - apply (toy_fs_roomy 8).
  - vm_compute. reflexivity.
  - by intros [=]%list_elem_of_singleton.
  - rewrite Hid. eexists. reflexivity.
Defined.

(** A rename through the server keeps the renamed inode usable: when [renameat] succeeds and
    the inode was the only one at the old location, the next open of it goes to the new parent's
    descriptor and the new name. *)
Theorem rename_then_open `{Libc, HashOrder, !HashOrderLaws, Host} fs p n p' n' pd pd' id d flags w :
  store_ok (inodes fs) → by_id (inodes fs) !! p = Some pd → by_id (inodes fs) !! p' = Some pd' →
  NUL ∉ n → NUL ∉ n' → id ≠ ROOT_ID →
  by_id (inodes fs) !! id = Some d → i_parent d = Some p → i_name d = n →
  (∀ id' d', by_id (inodes fs) !! id' = Some d' → i_parent d' = Some p → i_name d' = n → id' = id) →
  sys_renameat (i_fd pd) n (i_fd pd') n' (world fs) = (inl tt, w) →
  ∃ fs', PassthroughFs_rename p n p' n' fs = (Ok tt, fs') ∧ world fs' = w ∧
    reopen_via_parent id flags fs' = syscall (sys_openat (i_fd pd') n' flags None) fs'.
Proof.
  intros Hs Hp Hp' Hn Hn' Hid Hd Hdp Hdn Huniq Hsys. destruct fs as [w0 i h]. simpl in *.
  unfold PassthroughFs_rename, PassthroughFs_inode, with_inodes, zoom, InodeStore_get, lift,
    to_cstring, syscall, mbind, M_bind. simpl. rewrite Hp. simpl. rewrite Hp'. simpl.
  rewrite !bool_decide_false by done. simpl. rewrite Hsys. simpl. eexists. split; [done|].
  split; [done|]. rewrite (note_rename_unique i p n p' n' id d) by done.
  unfold reopen_via_parent, parent_fd_name, PassthroughFs_inode, with_inodes, zoom,
    InodeStore_get, lift, to_cstring, mbind, M_bind. simpl.
  rewrite lookup_insert_eq. simpl. rewrite (proj2 (Z.eqb_neq id ROOT_ID) Hid).
  set (fd' := i_fd pd'). assert (∃ pd2, <[id:=InodeData_set_location p' n' d]> (by_id i) !! p' = Some pd2
                          ∧ i_fd pd2 = fd') as (pd2 & Hpd2 & Hfd2).
  { destruct (decide (id = p')) as [->|].
    - rewrite lookup_insert_eq. eexists. split; [done|]. unfold fd'. simpl. congruence.
    - rewrite lookup_insert_ne by done. eauto. }
  simpl. rewrite Hpd2. simpl. rewrite bool_decide_false by done. simpl. by rewrite Hfd2.
Qed.

(** [a] is looked up, renamed to [b], and then opened as [b] in the shared directory. *)
Lemma rename_then_open_witness :
  let fs := (run_op (FLookup ROOT_ID name_a) (toy_fs 8)).2 in
  let fs' := (PassthroughFs_rename ROOT_ID name_a ROOT_ID name_b fs).2 in
  reopen_via_parent 2 0 fs' = syscall (sys_openat 3 name_b 0 None) fs'.
Proof.
  intros fs fs'.
  assert (fs_inv ∅ fs) as Hi.
  { pose proof (run_op_triple (FLookup ROOT_ID name_a) ∅ I (toy_fs 8)
      (conj (toy_fs_inv 8 ltac:(lia)) (toy_fs_roomy 8))) as Ht.
    rewrite (pair_fst (run_op (FLookup ROOT_ID name_a) (toy_fs 8)) (Ok tt)) in Ht
      by (vm_compute; reflexivity). exact Ht. }
  destruct (rename_then_open fs ROOT_ID name_a ROOT_ID name_b
    (mkInodeData ROOT_ID 3 Dir (mkFileKey 1 10) None [] 1)
    (mkInodeData ROOT_ID 3 Dir (mkFileKey 1 10) None [] 1) 2
    (mkInodeData 2 4 Regular (mkFileKey 1 12) (Some ROOT_ID) name_a 1) 0
    (toy_rename 3 name_a 3 name_b (world fs)).2) as (fs2 & Hr & _ & Ho);
    [apply (fi_inodes _ _ Hi)|vm_compute; reflexivity..| | | |vm_compute; reflexivity|done|done| | |].
  1-2: by intros [=]%list_elem_of_singleton.
  - done.
  - intros id' d' Hl%elem_of_map_to_list%list_elem_of_In. vm_compute in Hl.
    by destruct Hl as [[= <- <-]|[[= <- <-]|[]]].
  - apply pair_fst. vm_compute. reflexivity.
  - unfold fs'. rewrite Hr. exact Ho.
Defined.

(** The entries of a directory stream, and its first error. *)
Definition stream_entries (items : list (NixEntry + Z)) : list NixEntry :=
  omap (λ x, match x with inl e => Some e | inr _ => None end) items.
Definition stream_error (items : list (NixEntry + Z)) : option Z :=
  head (omap (λ x, match x with inl _ => None | inr e => Some e end) items).

Lemma readdir_entries_spec items : ∀ out,
  readdir_entries items out =
    match stream_error items with
    | Some e => Err (FsError_from_nix e)
    | None => Ok (out ++ ((λ e, mkDirEntry (ne_name e) (ne_ino e) (nix_kind (ne_type e)) 0) <$>
                           filter (λ e, ne_name e ≠ dot ∧ ne_name e ≠ dotdot) (stream_entries items)))
    end.
Proof.
  induction items as [|[e|e] items IH]; intros out; simpl.
  - by rewrite app_nil_r.
  - rewrite filter_cons. repeat case_bool_decide; simpl.
    + rewrite decide_False by tauto. apply IH.
    + rewrite decide_False by tauto. apply IH.
    + rewrite decide_False by tauto. apply IH.
    + rewrite decide_True by tauto. rewrite IH. change (stream_error (inl e :: items)) with (stream_error items).
      destruct (stream_error items); [done|]. simpl. by rewrite <- app_assoc.
  - done.
Qed.

(** A directory listing is the stream's entries in order without [.] and [..], or the first
    error of the stream. *)
Theorem readdir_spec `{Libc, HashOrder, Host} handle fs fd items w :
  handles (fhandles fs) !! handle = Some (HDir fd) → nix_dir_iter fd (world fs) = (items, w) →
  PassthroughFs_readdir handle fs =
    (match stream_error items with
     | Some e => Err (FsError_from_nix e)
     | None => Ok ((λ e, mkDirEntry (ne_name e) (ne_ino e) (nix_kind (ne_type e)) 0) <$>
                    filter (λ e, ne_name e ≠ dot ∧ ne_name e ≠ dotdot) (stream_entries items))
     end, mkFs _ w (inodes fs) (fhandles fs)).
Proof.
  intros Hh Hit. unfold PassthroughFs_readdir, with_dir, HandleStore_with_dir, lift, mbind, M_bind.
  rewrite Hh. simpl. rewrite Hit. simpl. by rewrite readdir_entries_spec.
Qed.

Lemma readdir_spec_witness :
  (PassthroughFs_readdir 1 (run_op (FOpendir ROOT_ID) (toy_fs 8)).2).1
  = Ok [mkDirEntry name_a 12 Regular 0].
Proof.
  set (fs := (run_op (FOpendir ROOT_ID) (toy_fs 8)).2).
  rewrite (readdir_spec 1 fs 4 (toy_iter 4 (world fs)).1 (toy_iter 4 (world fs)).2);
    [vm_compute; reflexivity|vm_compute; reflexivity|].
  apply (surjective_pairing (toy_iter 4 (world fs))).
Defined.
