(* ===== verification/GuestView.v ===== *)
(** * What a client sees

    The contract of [PassthroughFs]: a client names files by inode id and open files by handle, and
    the operations act on the files behind them.  [View] is the abstract state (which file each id
    and each handle stands for, where the engine believes a file to be, how many references the
    client holds, and the files themselves), [gstep] the operations on it.  An operation may fail
    at any time; what it may have done by then is part of the contract.

    [sane] is the invariant of the concrete state: the descriptor kept for an inode is open on the
    very file the id was given for, and no descriptor has two owners. *)

From S2P Require Import Prelude Libc Errors Bytes Attr Wire Inode Handle Host Posix Passthrough FsProps.
Local Open Scope Z_scope.

(** ** The operations with their results *)

Inductive FsRet :=
| RUnit
| REntry (id : Z) (attr : Attr)
| RAttr (attr : Attr)
| RCreated (id handle : Z) (attr : Attr)
| RHandle (handle : Z)
| RBytes (b : bytes)
| RCount (n : nat)
| RDir (l : list DirEntry)
| RStatvfs (st : statvfs).

Section Exec.
Context `{Libc, HashOrder, Host}.

Definition returns {A} (f : A → FsRet) (m : M PassthroughFs FsError A) : M PassthroughFs FsError FsRet :=
  a ← m; mret (f a).

Definition exec_op (op : FsOp) : M PassthroughFs FsError FsRet :=
  let unit_ (m : M PassthroughFs FsError unit) := returns (λ _, RUnit) m in
  let entry := returns (λ r : Z * Attr, REntry r.1 r.2) in
  match op with
  | FLookup p n => entry (PassthroughFs_lookup p n)
  | FForget i c => unit_ (PassthroughFs_forget i c)
  | FGetattr i => returns RAttr (PassthroughFs_getattr i)
  | FSetattr i a => returns RAttr (PassthroughFs_setattr i a)
  | FMkdir p n m => entry (PassthroughFs_mkdir p n m)
  | FCreate p n f m => returns (λ r, RCreated r.1.1 r.1.2 r.2) (PassthroughFs_create p n f m)
  | FUnlink p n => unit_ (PassthroughFs_unlink p n)
  | FRmdir p n => unit_ (PassthroughFs_rmdir p n)
  | FRename p n p' n' => unit_ (PassthroughFs_rename p n p' n')
  | FSymlink p n t => entry (PassthroughFs_symlink p n t)
  | FReadlink i => returns RBytes (PassthroughFs_readlink i)
  | FLink i p n => returns RAttr (PassthroughFs_link i p n)
  | FOpen i f => returns RHandle (PassthroughFs_open i f)
  | FRead h o n => returns RBytes (PassthroughFs_read h o n)
  | FWrite h o b => returns RCount (PassthroughFs_write h o b)
  | FReadVectored h o v => returns RBytes (PassthroughFs_read_vectored h o v)
  | FWriteVectored h o v => returns RCount (PassthroughFs_write_vectored h o v)
  | FFsync h => unit_ (PassthroughFs_fsync h)
  | FRelease h => unit_ (PassthroughFs_release h)
  | FOpendir i => returns RHandle (PassthroughFs_opendir i)
  | FReaddir h => returns RDir (PassthroughFs_readdir h)
  | FReleasedir h => unit_ (PassthroughFs_releasedir h)
  | FStatfs i => returns RStatvfs (PassthroughFs_statfs i)
  end.
End Exec.

(** ** The abstract state *)

Record Tracked := mkTracked { k_file : FileKey; k_parent : option Z; k_name : bytes; k_refs : Z }.

(** A handle is a directory stream or not, and open on a file; the ids given so far are below
    [v_next]. *)
Record View := mkView {
  v_inodes : gmap Z Tracked;
  v_handles : gmap Z (bool * OpenFile);
  v_files : tree;
  v_next : Z;
}.

Definition set_inodes (m : gmap Z Tracked) (v : View) : View := mkView m (v_handles v) (v_files v) (v_next v).
Definition set_handles (m : gmap Z (bool * OpenFile)) (v : View) : View :=
  mkView (v_inodes v) m (v_files v) (v_next v).
Definition set_files (t : tree) (v : View) : View := mkView (v_inodes v) (v_handles v) t (v_next v).
Definition set_next (next : Z) (v : View) : View := mkView (v_inodes v) (v_handles v) (v_files v) next.

Definition file_of (v : View) (id : Z) : option FileKey := k_file <$> v_inodes v !! id.

(** What a name in the directory of an id denotes. *)
Definition resolves (v : View) (p : Z) (name : bytes) (d k : FileKey) : Prop :=
  file_of v p = Some d ∧ child (v_files v) d name = Some k.

(** What the place where the engine believes a file to be denotes. *)
Definition located_at (v : View) (id : Z) (d k : FileKey) : Prop :=
  ∃ t, v_inodes v !! id = Some t ∧ resolves v (default ROOT_ID (k_parent t)) (k_name t) d k.

Section Spec.
Context `{Libc}.

Definition attr_of (k : FileKey) (n : node) (a : Attr) : Prop := ∃ st, describes k n st ∧ a = Attr_from_stat st.

(** A lookup: the id of a file the client knows, or one never given before; one more reference
    either way. *)
Definition looked_up (v : View) (p : Z) (name : bytes) (id : Z) (attr : Attr) (v' : View) : Prop :=
  ∃ d k n, resolves v p name d k ∧ v_files v !! k = Some n ∧ attr_of k n attr ∧
    match v_inodes v !! id with
    | Some t => k_file t = k
    | None => id = v_next v ∧ ∀ id', file_of v id' ≠ Some k
    end ∧
    v' = set_next (from_option (λ _, v_next v) (v_next v + 1) (v_inodes v !! id))
           (set_inodes (<[id := mkTracked k (Some p) name (from_option k_refs 0 (v_inodes v !! id) + 1)]>
                          (v_inodes v)) v).

(** A new file under a new name. *)
Definition made (v : View) (p : Z) (name : bytes) (b : body) (mode : Z) (k : FileKey) (v' : View) : Prop :=
  ∃ d m, file_of v p = Some d ∧ is_Some (entries_of (v_files v) d) ∧ child (v_files v) d name = None ∧
    v_files v !! k = None ∧ n_body m = b ∧ n_perm m = Z.land (n_perm m) (Z.land mode PERM_BITS) ∧
    v' = set_files (add_node d name k m (v_files v)) v.

Definition forgotten (id count : Z) (m : gmap Z Tracked) : gmap Z Tracked :=
  if decide (id = ROOT_ID) then m
  else match m !! id with
       | None => m
       | Some t => if decide (k_refs t ≤ count) then delete id m
                   else <[id := mkTracked (k_file t) (k_parent t) (k_name t) (k_refs t - count)]> m
       end.

(** A rename moves the place of one file believed to be there, if there is one. *)
Definition relocated (p : Z) (n : bytes) (p' : Z) (n' : bytes) (m m' : gmap Z Tracked) : Prop :=
  (m' = m ∧ ∀ id t, m !! id = Some t → ¬ (k_parent t = Some p ∧ k_name t = n)) ∨
  ∃ id t, m !! id = Some t ∧ k_parent t = Some p ∧ k_name t = n ∧
    m' = <[id := mkTracked (k_file t) (Some p') n' (k_refs t)]> m.

Definition renamed (v : View) (p : Z) (n : bytes) (p' : Z) (n' : bytes) (v' : View) : Prop :=
  ∃ d d' k m', resolves v p n d k ∧ file_of v p' = Some d' ∧ is_Some (entries_of (v_files v) d') ∧
    relocated p n p' n' (v_inodes v) m' ∧
    v' = set_inodes m' (set_files (if decide (child (v_files v) d' n' = Some k) then v_files v
                                   else move_entry d n d' n' k (v_files v)) v).

(** The changes of a [SetAttr] in the order in which they are made. *)
Definition size_edits (sa : SetAttr) : list (node → node) :=
  match sa_size sa with
  | Some size => [edit_data (resize (Z.to_nat (as_i64 size)) NUL)]
  | None => []
  end.

Definition mode_edits (sa : SetAttr) : list (node → node) :=
  match sa_mode sa with
  | Some mode => [set_perm (Z.land (wrap MODE_T_BITS mode) PERM_BITS)]
  | None => []
  end.

(** [-1] leaves the user or the group as it is. *)
Definition owner_edit (u g : option Z) (n : node) : node :=
  let keep (x : option Z) (old : Z) := if default U32_MAX x =? 2 ^ 32 - 1 then old else default U32_MAX x in
  set_owner (keep u (n_uid n)) (keep g (n_gid n)) n.

Definition owner_edits (sa : SetAttr) : list (node → node) :=
  match sa_uid sa, sa_gid sa with
  | None, None => []
  | u, g => [owner_edit u g]
  end.

Definition edits (sa : SetAttr) : list (node → node) := size_edits sa ++ mode_edits sa ++ owner_edits sa.

Definition apply_edits (l : list (node → node)) (n : node) : node := foldl (λ n f, f n) n l.

Definition changed (v : View) (id : Z) (l : list (node → node)) (v' : View) : Prop :=
  (l = [] ∧ v' = v) ∨
  ∃ d k, located_at v id d k ∧ v' = set_files (alter (apply_edits l) k (v_files v)) v.

(** A second name for a file: the one behind the id, or where there is no [AT_EMPTY_PATH] the one
    at its place. *)
Definition linked_to (v : View) (id p : Z) (name : bytes) (v' : View) : Prop :=
  ∃ d k, file_of v p = Some d ∧ is_Some (entries_of (v_files v) d) ∧ child (v_files v) d name = None ∧
    (if decide (target_os = Linux) then file_of v id = Some k else ∃ d', located_at v id d' k) ∧
    v' = set_files (put_entry d name k (v_files v)) v.

(** What a new handle of an id is open on. *)
Definition opens (v : View) (id flags : Z) (o : OpenFile) : Prop :=
  if decide (id = ROOT_ID) then file_of v id = Some (of_file o)
  else ∃ d k, located_at v id d k ∧ o = mkOpenFile k (has O_APPEND flags).

Definition new_handle (v : View) (dir : bool) (o : OpenFile) (h : Z) (v' : View) : Prop :=
  v_handles v !! h = None ∧ v' = set_handles (<[h := (dir, o)]> (v_handles v)) v.

Definition has_attr (v : View) (id : Z) (attr : Attr) : Prop :=
  ∃ k n, file_of v id = Some k ∧ v_files v !! k = Some n ∧ attr_of k n attr.

Definition read_by (v : View) (h off : Z) (n : nat) (b : bytes) : Prop :=
  ∃ o nd, v_handles v !! h = Some (false, o) ∧ v_files v !! of_file o = Some nd ∧
    ∀ data, n_body nd = BFile data → read_from data (as_i64 off) n b.

Definition written_by (v : View) (h off : Z) (b : bytes) (n : nat) (v' : View) : Prop :=
  ∃ o, v_handles v !! h = Some (false, o) ∧ (n ≤ length b)%nat ∧ 0 ≤ as_i64 off ∧
    v' = set_files (alter (edit_data (λ data, write_at (write_offset o (as_i64 off) data) (take n b) data))
                          (of_file o) (v_files v)) v.

(** The operations.  A constructor without a result changes nothing else; those with [_half] are
    operations that fail after part of the work. *)
Inductive gstep (v : View) : FsOp → outcome FsError FsRet → View → Prop :=
| g_fail op e : gstep v op (Err e) v
| g_lookup p name id attr v' :
    looked_up v p name id attr v' → gstep v (FLookup p name) (Ok (REntry id attr)) v'
| g_forget id count :
    gstep v (FForget id count) (Ok RUnit) (set_inodes (forgotten id count (v_inodes v)) v)
| g_getattr id attr : has_attr v id attr → gstep v (FGetattr id) (Ok (RAttr attr)) v
| g_setattr id sa attr v' :
    changed v id (edits sa) v' → has_attr v' id attr → gstep v (FSetattr id sa) (Ok (RAttr attr)) v'
| g_setattr_half id sa j e v' :
    changed v id (take j (edits sa)) v' → gstep v (FSetattr id sa) (Err e) v'
| g_mkdir p name mode k id attr v1 v2 :
    made v p name (BDir ∅) (wrap MODE_T_BITS mode) k v1 → looked_up v1 p name id attr v2 →
    gstep v (FMkdir p name mode) (Ok (REntry id attr)) v2
| g_mkdir_half p name mode k e v1 :
    made v p name (BDir ∅) (wrap MODE_T_BITS mode) k v1 → gstep v (FMkdir p name mode) (Err e) v1
| g_symlink p name target k id attr v1 v2 :
    made v p name (BLink target) PERM_BITS k v1 → looked_up v1 p name id attr v2 →
    gstep v (FSymlink p name target) (Ok (REntry id attr)) v2
| g_symlink_half p name target k e v1 :
    made v p name (BLink target) PERM_BITS k v1 → gstep v (FSymlink p name target) (Err e) v1
| g_create p name flags mode k id h attr v1 v2 v3 :
    made v p name (BFile []) mode k v1 → looked_up v1 p name id attr v2 →
    new_handle v2 false (mkOpenFile k (has O_APPEND flags)) h v3 →
    gstep v (FCreate p name flags mode) (Ok (RCreated id h attr)) v3
| g_create_half p name flags mode k e v1 :
    made v p name (BFile []) mode k v1 → gstep v (FCreate p name flags mode) (Err e) v1
| g_unlink p name d k n :
    resolves v p name d k → v_files v !! k = Some n → body_kind (n_body n) ≠ Dir →
    gstep v (FUnlink p name) (Ok RUnit) (set_files (drop_entry d name (v_files v)) v)
| g_rmdir p name d k :
    resolves v p name d k → entries_of (v_files v) k = Some ∅ →
    gstep v (FRmdir p name) (Ok RUnit) (set_files (drop_entry d name (v_files v)) v)
| g_rename p n p' n' v' : renamed v p n p' n' v' → gstep v (FRename p n p' n') (Ok RUnit) v'
| g_readlink id d k n target :
    located_at v id d k → v_files v !! k = Some n → n_body n = BLink target →
    gstep v (FReadlink id) (Ok (RBytes (take 4096 target))) v
| g_link id p name attr v' :
    linked_to v id p name v' → has_attr v' id attr → gstep v (FLink id p name) (Ok (RAttr attr)) v'
| g_link_half id p name e v' : linked_to v id p name v' → gstep v (FLink id p name) (Err e) v'
| g_open id flags o h v' :
    opens v id flags o → new_handle v false o h v' → gstep v (FOpen id flags) (Ok (RHandle h)) v'
| g_read h off n b : read_by v h off n b → gstep v (FRead h off n) (Ok (RBytes b)) v
| g_write h off b n v' : written_by v h off b n v' → gstep v (FWrite h off b) (Ok (RCount n)) v'
| g_readv h off ns b : read_by v h off (sum_list ns) b → gstep v (FReadVectored h off ns) (Ok (RBytes b)) v
| g_writev h off bs n v' :
    written_by v h off (concat bs) n v' → gstep v (FWriteVectored h off bs) (Ok (RCount n)) v'
| g_fsync h : is_Some (v_handles v !! h) → gstep v (FFsync h) (Ok RUnit) v
| g_release h :
    is_Some (v_handles v !! h) → gstep v (FRelease h) (Ok RUnit) (set_handles (delete h (v_handles v)) v)
| g_opendir id o h v' :
    opens v id (Z.lor O_RDONLY O_DIRECTORY) o → new_handle v true o h v' →
    gstep v (FOpendir id) (Ok (RHandle h)) v'
| g_readdir h o es l :
    v_handles v !! h = Some (true, o) → entries_of (v_files v) (of_file o) = Some es → NoDup (de_name <$> l) →
    (∀ name, plain name → (name ∈ (de_name <$> l) ↔ is_Some (es !! name))) →
    gstep v (FReaddir h) (Ok (RDir l)) v
| g_releasedir h :
    is_Some (v_handles v !! h) → gstep v (FReleasedir h) (Ok RUnit) (set_handles (delete h (v_handles v)) v)
| g_statfs id st : is_Some (v_inodes v !! id) → gstep v (FStatfs id) (Ok (RStatvfs st)) v.

(** Files nobody names any more may go at any time. *)
Definition in_use (v : View) (k : FileKey) : Prop :=
  (∃ id, file_of v id = Some k) ∨ (∃ h b o, v_handles v !! h = Some (b, o) ∧ of_file o = k) ∨
  (∃ d name, child (v_files v) d name = Some k).

Definition reaped_to (v v' : View) : Prop :=
  v_inodes v' = v_inodes v ∧ v_handles v' = v_handles v ∧ v_next v' = v_next v ∧ v_files v' ⊆ v_files v ∧
  ∀ k, is_Some (v_files v !! k) → v_files v' !! k = None → ¬ in_use v' k.

(** ** The requests of a guest kernel

    One path component per name; the flags of an [open] neither create nor empty; what a guest
    does to a symbolic link or to the root of the share through the place it is at is excluded. *)
Definition no_link (v : View) (id : Z) : Prop :=
  ∀ d k n, located_at v id d k → v_files v !! k = Some n → body_kind (n_body n) ≠ Symlink.

Definition proper (v : View) (op : FsOp) : Prop :=
  match op with
  | FLookup _ n | FMkdir _ n _ | FUnlink _ n | FRmdir _ n | FSymlink _ n _ => plain n
  | FCreate _ n flags _ => plain n ∧ creates_file flags
  | FRename _ n _ n' => plain n ∧ plain n'
  | FForget _ count => 0 ≤ count
  | FSetattr id sa => id ≠ ROOT_ID ∧ (is_Some (sa_size sa) → no_link v id)
  | FReadlink id => id ≠ ROOT_ID
  | FLink id _ n => id ≠ ROOT_ID ∧ plain n
  | FOpen id flags => opens_existing flags ∧ no_link v id
  | FOpendir id => no_link v id
  | _ => True
  end.
End Spec.

(** ** The concrete state *)

Definition tracked_of (d : InodeData) : Tracked := mkTracked (i_key d) (i_parent d) (i_name d) (i_lookups d).

Definition handle_view (fds : gmap Z OpenFile) (hd : HandleData) : option (bool * OpenFile) :=
  (λ o, (match hd with HDir _ => true | HFile _ => false end, o)) <$> fds !! HandleData_fd hd.

Definition view_of (t : tree) (fds : gmap Z OpenFile) (i : InodeStore) (h : HandleStore) : View :=
  mkView (tracked_of <$> by_id i) (omap (handle_view fds) (handles h)) t (next_id i).

Definition view `{PosixView} (fs : PassthroughFs) : View :=
  view_of (files (world fs)) (fd_files (world fs)) (inodes fs) (fhandles fs).

(** Who closes a descriptor. *)
Inductive owner := OInode (id : Z) | OHandle (h : Z).

Inductive owns (i : InodeStore) (h : HandleStore) : owner → Z → Prop :=
| owns_inode id d : by_id i !! id = Some d → owns i h (OInode id) (i_fd d)
| owns_handle id d : handles h !! id = Some d → owns i h (OHandle id) (HandleData_fd d).

Definition unowned (i : InodeStore) (h : HandleStore) (fd : Z) : Prop := ∀ o, ¬ owns i h o fd.

Record sane_parts (fds : gmap Z OpenFile) (i : InodeStore) (h : HandleStore) : Prop := {
  sn_store : store_ok i;
  sn_handles : handles_ok h;
  sn_ids id d : by_id i !! id = Some d → ∃ o, fds !! i_fd d = Some o ∧ of_file o = i_key d;
  sn_open o fd : owns i h o fd → is_Some (fds !! fd);
  sn_inj o1 o2 fd : owns i h o1 fd → owns i h o2 fd → o1 = o2;
  sn_names id d : by_id i !! id = Some d → id ≠ ROOT_ID → plain (i_name d);
}.

Definition sane `{PosixView} (fs : PassthroughFs) : Prop :=
  sane_parts (fd_files (world fs)) (inodes fs) (fhandles fs).
