(* ===== verification/GuestRefine.v ===== *)
(** * The file system implements what a client sees

    On a host that follows [PosixLaws], every operation of [PassthroughFs] is a step of [gstep]
    between the views of the state before and after, and keeps the state [sane]. *)

From S2P Require Import Prelude Libc Errors Bytes Attr Wire Inode Handle Host Posix Passthrough FsProps GuestView.
Local Open Scope Z_scope.

(** ** Trees *)

Definition keeps_entries (f : node → node) : Prop :=
  ∀ n, match n_body n with BDir es => n_body (f n) = BDir es | _ => ∀ es, n_body (f n) ≠ BDir es end.

Lemma entries_alter f k t d : keeps_entries f → entries_of (alter f k t) d = entries_of t d.
Proof.
  intros Hf. unfold entries_of. rewrite lookup_alter. case_decide as Hk; [|done]. subst.
  destruct (t !! d) as [n|]; [|done]. simpl. specialize (Hf n). destruct (n_body n); try by rewrite Hf.
  all: destruct (n_body (f n)) as [es| | |] eqn:E; try done; by destruct (Hf es).
Qed.

Lemma child_alter f k t d name : keeps_entries f → child (alter f k t) d name = child t d name.
Proof. intros Hf. unfold child. by rewrite entries_alter. Qed.

Lemma keeps_edit_data g : keeps_entries (edit_data g).
Proof. intros n. unfold edit_data. by destruct (n_body n) eqn:E; rewrite ?E. Qed.

Lemma keeps_set_perm p : keeps_entries (set_perm p).
Proof. intros n. simpl. by destruct (n_body n). Qed.

Lemma keeps_set_owner (f : node → Z * Z) : keeps_entries (λ n, set_owner (f n).1 (f n).2 n).
Proof. intros n. simpl. by destruct (n_body n). Qed.

Lemma entries_mono t t' d es : t' ⊆ t → entries_of t' d = Some es → entries_of t d = Some es.
Proof.
  intros Hs. unfold entries_of. destruct (t' !! d) as [n|] eqn:Hd; [|done]. simpl.
  rewrite (lookup_weaken _ _ _ _ Hd Hs). done.
Qed.

Lemma child_mono t t' d name k : t' ⊆ t → child t' d name = Some k → child t d name = Some k.
Proof.
  intros Hs. unfold child. destruct (entries_of t' d) as [es|] eqn:He; [|done].
  by rewrite (entries_mono _ _ _ _ Hs He).
Qed.

Lemma alter_alter (f g : node → node) k (t : tree) : alter f k (alter g k t) = alter (λ n, f (g n)) k t.
Proof.
  apply map_eq. intros i. destruct (decide (k = i)) as [->|Hk].
  - rewrite !lookup_alter_eq. by destruct (t !! i).
  - by rewrite !lookup_alter_ne by done.
Qed.

Lemma reaped_alter f k fds t t' : keeps_entries f → reaped fds t t' → reaped fds (alter f k t) (alter f k t').
Proof.
  intros Hf [Hs Hr]. split.
  - apply map_subseteq_spec. intros i n. rewrite !lookup_alter_Some.
    intros [(-> & m & Hm & ->)|[Hne Hn]]; [left|right]; eauto using lookup_weaken.
  - intros i. rewrite lookup_alter_is_Some, lookup_alter_None. intros Hi Hn Href. apply (Hr i Hi Hn).
    destruct Href as [?|(d & name & Hc)]; [by left|right]. rewrite child_alter in Hc by done. eauto.
Qed.

(** ** Ownership *)

Section Owners.
Context (fds : gmap Z OpenFile).
Implicit Types (i : InodeStore) (h : HandleStore).

Lemma fresh_unowned i h fd : sane_parts fds i h → fds !! fd = None → unowned i h fd.
Proof. intros Hs Hn o Ho. destruct (sn_open _ _ _ Hs o fd Ho). congruence. Qed.

Lemma owned_key i h id d : sane_parts fds i h → by_id i !! id = Some d → ∃ o, fds !! i_fd d = Some o ∧ of_file o = i_key d.
Proof. intros Hs. apply (sn_ids _ _ _ Hs). Qed.
End Owners.

Section Parts.
Context `{Libc}.
Implicit Types (i : InodeStore) (h : HandleStore) (fds : gmap Z OpenFile).

Lemma sane_fds_mono fds fds' i h :
  sane_parts fds i h → (∀ o fd, owns i h o fd → fds' !! fd = fds !! fd) → sane_parts fds' i h.
Proof.
  intros [] Heq. split; try done.
  - intros id d Hd. rewrite (Heq (OInode id)) by by constructor. eauto.
  - intros o fd Ho. rewrite (Heq _ _ Ho). eauto.
Qed.

Lemma sane_insert_fd fds i h fd o : sane_parts fds i h → fds !! fd = None → sane_parts (<[fd := o]> fds) i h.
Proof.
  intros Hs Hn. apply (sane_fds_mono fds); [done|]. intros o' fd' Ho'.
  apply lookup_insert_ne. intros <-. by apply (fresh_unowned _ _ _ _ Hs Hn o').
Qed.

Lemma sane_delete_fd fds i h fd : sane_parts fds i h → unowned i h fd → sane_parts (delete fd fds) i h.
Proof.
  intros Hs Hn. apply (sane_fds_mono fds); [done|]. intros o' fd' Ho'.
  apply lookup_delete_ne. intros <-. by apply (Hn o').
Qed.

(** Other inodes, other mutable fields. *)
Lemma owns_update i h id d d' n m o fd :
  by_id i !! id = Some d → i_fd d' = i_fd d →
  owns (mkInodeStore (<[id := d']> (by_id i)) m n) h o fd ↔ owns i h o fd.
Proof.
  intros Hd Hf. split; intros Ho; inversion Ho as [id' e He|id' e He]; subst; try by constructor.
  - simpl in He. apply lookup_insert_Some in He as [[<- <-]|[? He]]; [|by constructor].
    rewrite Hf. by constructor.
  - destruct (decide (id = id')) as [<-|Hne].
    + assert (e = d) as -> by congruence. rewrite <- Hf. constructor. apply lookup_insert_eq.
    + constructor. simpl. by rewrite lookup_insert_ne.
Qed.

Lemma sane_update fds i h id d d' m :
  sane_parts fds i h → by_id i !! id = Some d → i_fd d' = i_fd d → i_key d' = i_key d →
  (id ≠ ROOT_ID → plain (i_name d')) →
  store_ok (mkInodeStore (<[id := d']> (by_id i)) m (next_id i)) →
  sane_parts fds (mkInodeStore (<[id := d']> (by_id i)) m (next_id i)) h.
Proof.
  intros [Hst Hh Hids Hop Hinj Hnm] Hd Hf Hk Hp Hst'. split; [done|done|..].
  - intros id' e He. simpl in He. apply lookup_insert_Some in He as [[<- <-]|[? He]]; [|by apply Hids in He].
    rewrite Hf, Hk. by apply Hids in Hd.
  - intros o fd. rewrite owns_update by done. apply Hop.
  - intros o1 o2 fd. rewrite !owns_update by done. apply Hinj.
  - intros id' e He Hne. simpl in He. apply lookup_insert_Some in He as [[<- <-]|[? He]]; [by apply Hp|].
    by eapply Hnm.
Qed.

Lemma tracked_lookup i id : (tracked_of <$> by_id i) !! id = tracked_of <$> by_id i !! id.
Proof. apply lookup_fmap. Qed.

(** The effect of [register] on what is tracked: [d] is the inode of the file. *)
Record registers (i : InodeStore) (parent : Z) (name : bytes) (k : FileKey) (id : Z) (i' : InodeStore) : Prop := {
  rg_id : match (tracked_of <$> by_id i) !! id with
          | Some t => k_file t = k
          | None => id = next_id i ∧ ∀ id', k_file <$> (tracked_of <$> by_id i) !! id' ≠ Some k
          end;
  rg_next : next_id i' = from_option (λ _, next_id i) (next_id i + 1) ((tracked_of <$> by_id i) !! id);
  rg_map : tracked_of <$> by_id i' =
    <[id := mkTracked k (Some parent) name (from_option k_refs 0 ((tracked_of <$> by_id i) !! id) + 1)]>
      (tracked_of <$> by_id i);
}.

Lemma sane_register_known fds i h parent name fd st id d :
  sane_parts fds i h → roomy i → unowned i h fd → plain name →
  by_key i !! stat_key st = Some id → by_id i !! id = Some d → i_key d = stat_key st →
  ∃ d' i', InodeStore_register parent name fd st i = (Ok (d', [fd]), i') ∧ sane_parts fds i' h ∧
    registers i parent name (stat_key st) (i_id d') i' ∧ ∀ fd', unowned i h fd' → unowned i' h fd'.
Proof.
  intros Hs Hr Hun Hp Hk Hd Hkey. pose proof (sn_store _ _ _ Hs) as Hst.
  destruct (register_ok i parent name fd st Hst Hr) as (d' & dr & i' & Hreg & Hst' & _).
  destruct (so_entry i Hst id d Hd) as [Hid _ _ Hlk]. destruct Hr as [_ Hr]. specialize (Hr id d Hd).
  rewrite (register_known i parent name fd st id d) in Hreg by done. cbv zeta in Hreg.
  injection Hreg as <- <- <-. rewrite (register_known i parent name fd st id d) by done. cbv zeta.
  eexists _, _. split; [done|]. split; [|split].
  - by eapply sane_update.
  - simpl. rewrite Hid. split.
    + by rewrite tracked_lookup, Hd.
    + by rewrite tracked_lookup, Hd.
    + cbn [by_id]. rewrite fmap_insert, tracked_lookup, Hd. simpl. rewrite wrap_id by uint. unfold tracked_of. simpl. by rewrite Hkey.
  - intros fd' Hfd' o. rewrite owns_update by done. apply Hfd'.
Qed.

Lemma owns_new i h id d n m o fd :
  by_id i !! id = None →
  owns (mkInodeStore (<[id := d]> (by_id i)) m n) h o fd ↔ owns i h o fd ∨ (o = OInode id ∧ fd = i_fd d).
Proof.
  intros Hn. split.
  - intros Ho; inversion Ho as [id' e He|id' e He]; subst; [|left; by constructor].
    simpl in He. apply lookup_insert_Some in He as [[<- <-]|[? He]]; [by right|left; by constructor].
  - intros [Ho|[-> ->]].
    + inversion Ho as [id' e He|id' e He]; subst; [|by constructor]. constructor. simpl.
      rewrite lookup_insert_ne by congruence. done.
    + constructor. apply lookup_insert_eq.
Qed.

Lemma sane_register_new fds i h parent name fd st o :
  sane_parts fds i h → roomy i → fds !! fd = Some o → of_file o = stat_key st → unowned i h fd → plain name →
  by_key i !! stat_key st = None →
  ∃ d i', InodeStore_register parent name fd st i = (Ok (d, []), i') ∧ sane_parts fds i' h ∧
    registers i parent name (stat_key st) (i_id d) i' ∧
    ∀ fd', fd' ≠ fd → unowned i h fd' → unowned i' h fd'.
Proof.
  intros Hs Hr Hfd Ho Hun Hp Hk. pose proof (sn_store _ _ _ Hs) as Hst.
  pose proof (next_id_fresh i Hst) as Hf.
  destruct (register_ok i parent name fd st Hst Hr) as (d & dr & i' & Hreg & Hst' & _).
  unfold InodeStore_register in *. rewrite Hk in *. cbv zeta in *. injection Hreg as <- <- <-.
  set (d := mkInodeData _ _ _ _ _ _ _) in *. eexists _, _. split; [done|]. destruct Hs as [_ Hh Hids Hop Hinj Hnm].
  split; [split; [done|done|..]|split].
  - intros id e He. simpl in He. apply lookup_insert_Some in He as [[<- <-]|[? He]]; [eauto|by apply Hids in He].
  - intros o' fd' [Ho'|[_ ->]]%owns_new; [by eapply Hop|by exists o|done].
  - intros o1 o2 fd'. rewrite !owns_new by done. intros [H1|[-> ->]] [H2|[-> Heq]]; try by eapply Hinj.
    + subst. by destruct (Hun o1).
    + by destruct (Hun o2).
    + done.
  - intros id e He Hne. simpl in He. apply lookup_insert_Some in He as [[<- <-]|[? He]]; [done|by eapply Hnm].
  - simpl. split.
    + rewrite tracked_lookup, Hf. split; [done|]. simpl. intros id'. rewrite tracked_lookup.
      destruct (by_id i !! id') as [e|] eqn:He; [|done]. simpl. intros [= Heq].
      destruct (so_entry i Hst id' e He) as [_ _ Hke _]. rewrite Heq, Hk in Hke. done.
    + rewrite tracked_lookup, Hf. simpl. destruct Hr. pose proof (so_next i Hst). apply wrap_id. uint.
    + cbn [by_id]. by rewrite fmap_insert, tracked_lookup, Hf.
  - intros fd' Hne Hfd' o'. rewrite owns_new by done. intros [Ho'|[_ ->]]; [by apply (Hfd' o')|done].
Qed.

Lemma owns_delete i h id n m o fd :
  owns (mkInodeStore (delete id (by_id i)) m n) h o fd ↔ owns i h o fd ∧ o ≠ OInode id.
Proof.
  split.
  - intros Ho; inversion Ho as [id' e He|id' e He]; subst; [|split; [by constructor|done]].
    simpl in He. apply lookup_delete_Some in He as [? He]. split; [by constructor|congruence].
  - intros [Ho Hne]. inversion Ho as [id' e He|id' e He]; subst; [|by constructor]. constructor. simpl.
    rewrite lookup_delete_ne by congruence. done.
Qed.

Lemma sane_forget fds i h id count :
  sane_parts fds i h → 0 ≤ count →
  let '(dropped, i') := InodeStore_forget id count i in
  sane_parts fds i' h ∧ tracked_of <$> by_id i' = forgotten id count (tracked_of <$> by_id i) ∧
  Forall (unowned i' h) dropped ∧ (length dropped ≤ 1)%nat ∧ next_id i' = next_id i.
Proof.
  intros Hs Hc. pose proof (sn_store _ _ _ Hs) as Hst. pose proof (forget_ok i id count Hst Hc) as Hst'.
  unfold InodeStore_forget, forgotten in *. rewrite tracked_lookup.
  destruct (Z.eqb_spec id ROOT_ID) as [->|Hne]; [rewrite decide_True by done; by split_and!; [..|simpl; lia|]|].
  rewrite decide_False by done. destruct (by_id i !! id) as [d|] eqn:Hd; [|by split_and!; [..|simpl; lia|]].
  change (tracked_of <$> Some d) with (Some (tracked_of d)). cbv iota.
  destruct (so_entry i Hst id d Hd) as [_ _ _ Hlk]. destruct (Z.leb_spec (i_lookups d) count); cbn [by_id by_key next_id snd] in *.
  - rewrite decide_True by done. rewrite delete_insert_eq in *. split_and!; [|by rewrite fmap_delete| |done|done].
    + destruct Hs as [_ Hh Hids Hop Hinj Hnm]. split; [done|done|..].
      * intros id' e He. simpl in He. apply lookup_delete_Some in He as [_ He]. eauto.
      * intros o fd [Ho _]%owns_delete. eauto.
      * intros o1 o2 fd [H1 _]%owns_delete [H2 _]%owns_delete. eauto.
      * intros id' e He. simpl in He. apply lookup_delete_Some in He as [_ He]. eauto.
    + apply Forall_singleton. intros o [Ho Hno]%owns_delete. simpl in Ho. apply Hno.
      apply (sn_inj _ _ _ Hs o (OInode id) _ Ho). by apply owns_inode.
  - rewrite decide_False by (simpl; lia). split_and!; [| |done|simpl; lia|done].
    + eapply sane_update; try done. intros Hid. by apply (sn_names _ _ _ Hs id d).
    + rewrite fmap_insert. unfold tracked_of at 1. simpl. rewrite wrap_id by uint. do 2 f_equal. lia.
Qed.

Lemma sane_note_rename `{!HashOrder, !HashOrderLaws} fds i h p n p' n' :
  sane_parts fds i h → plain n' →
  let i' := InodeStore_note_rename p n p' n' i in
  sane_parts fds i' h ∧ relocated p n p' n' (tracked_of <$> by_id i) (tracked_of <$> by_id i') ∧
  next_id i' = next_id i.
Proof.
  intros Hs Hp. cbv zeta. pose proof (note_rename_ok i p n p' n' (sn_store _ _ _ Hs)) as Hst.
  unfold InodeStore_note_rename in *. destruct (List.find _ _) as [id|] eqn:Hf.
  - apply List.find_some in Hf as [_ Hl]. destruct (by_id i !! id) as [d|] eqn:Hd; [|done]. simpl in Hl.
    unfold located in Hl. rewrite andb_true_iff, !bool_decide_eq_true in Hl. destruct Hl as [Hpar Hnm].
    rewrite alter_alt, Hd in *. split_and!; [by eapply sane_update| |done]. right. exists id, (tracked_of d).
    rewrite tracked_lookup, Hd. split_and!; try done. cbn [by_id]. by rewrite fmap_insert.
  - split_and!; [done| |done]. left. split; [done|]. intros id t. rewrite tracked_lookup.
    destruct (by_id i !! id) as [d|] eqn:Hd; [|done]. intros [= <-] [Hpar Hnm].
    assert (In id (hash_order (by_id i))) as Hin.
    { apply list_elem_of_In. rewrite hash_order_perm. apply elem_of_elements, elem_of_dom. eauto. }
    apply (List.find_none _ _ Hf) in Hin. rewrite Hd in Hin. simpl in Hin. unfold located in Hin.
    by rewrite !bool_decide_true in Hin.
Qed.

Lemma owns_insert_handle i h id d n o fd :
  handles h !! id = None →
  owns i (mkHandleStore (<[id := d]> (handles h)) n) o fd ↔ owns i h o fd ∨ (o = OHandle id ∧ fd = HandleData_fd d).
Proof.
  intros Hn. split.
  - intros Ho; inversion Ho as [id' e He|id' e He]; subst; [left; by constructor|].
    simpl in He. apply lookup_insert_Some in He as [[<- <-]|[? He]]; [by right|left; by constructor].
  - intros [Ho|[-> ->]].
    + inversion Ho as [id' e He|id' e He]; subst; [by constructor|]. constructor. simpl.
      rewrite lookup_insert_ne by congruence. done.
    + constructor. apply lookup_insert_eq.
Qed.

Lemma sane_insert_handle fds i h data :
  sane_parts fds i h → next_handle h < 2 ^ 64 - 1 → is_Some (fds !! HandleData_fd data) →
  unowned i h (HandleData_fd data) → sane_parts fds i (HandleStore_insert data h).2.
Proof.
  intros [Hst Hh Hids Hop Hinj Hnm] Hr Hfd Hun. pose proof (next_handle_fresh h Hh) as Hf.
  pose proof (insert_handles_ok h data Hh Hr) as Hh'. rewrite insert_fresh in * by done. cbn [snd] in *.
  split; try done.
  - intros o fd [Ho|[_ ->]]%owns_insert_handle; [by eapply Hop|done..].
  - intros o1 o2 fd. rewrite !owns_insert_handle by done. intros [H1|[-> ->]] [H2|[-> Heq]]; try by eapply Hinj.
    + subst. by destruct (Hun o1).
    + by destruct (Hun o2).
    + done.
Qed.

Lemma sane_remove_handle fds i h id d :
  sane_parts fds i h → handles h !! id = Some d →
  let h' := mkHandleStore (delete id (handles h)) (next_handle h) in
  sane_parts fds i h' ∧ unowned i h' (HandleData_fd d).
Proof.
  intros Hs Hd h'. assert (∀ o fd, owns i h' o fd ↔ owns i h o fd ∧ o ≠ OHandle id) as Ho.
  { intros o fd. split.
    - intros Ho; inversion Ho as [id' e He|id' e He]; subst; [split; [by constructor|done]|].
      simpl in He. apply lookup_delete_Some in He as [? He]. split; [by constructor|congruence].
    - intros [Ho Hne]. inversion Ho as [id' e He|id' e He]; subst; [by constructor|]. constructor. simpl.
      rewrite lookup_delete_ne by congruence. done. }
  pose proof (remove_handles_ok h id (sn_handles _ _ _ Hs)) as Hh'. unfold HandleStore_remove in Hh'. rewrite Hd in Hh'.
  split.
  - destruct Hs as [Hst Hh Hids Hop Hinj Hnm]. split; try done.
    + intros o fd [Ho' _]%Ho. eauto.
    + intros o1 o2 fd [H1 _]%Ho [H2 _]%Ho. eauto.
  - intros o [Ho' Hno]%Ho. apply Hno, (sn_inj _ _ _ Hs o (OHandle id) _ Ho'). by apply owns_handle.
Qed.
End Parts.

(** ** Running an operation *)

Definition put_world `{Host} (w : World) (fs : PassthroughFs) : PassthroughFs := mkFs _ w (inodes fs) (fhandles fs).

(** Every outcome of a computation from a state satisfies [Q]. *)
Definition wp `{Host} {A} (m : M PassthroughFs FsError A) (Q : outcome FsError A → PassthroughFs → Prop)
    (fs : PassthroughFs) : Prop := Q (m fs).1 (m fs).2.

Section Wp.
Context `{Libc, HashOrder, PosixView}.
Implicit Types fs : PassthroughFs.

Lemma wp_ret {A} (a : A) Q fs : Q (Ok a) fs → wp (mret a) Q fs.
Proof. done. Qed.

Lemma wp_bind {A B} (m : M PassthroughFs FsError A) (k : A → M PassthroughFs FsError B) Q fs :
  wp m (λ r fs', match r with
                 | Ok a => wp (k a) Q fs'
                 | Err e => Q (Err e) fs'
                 | Panic => Q Panic fs'
                 end) fs → wp (m ≫= k) Q fs.
Proof. unfold wp, mbind, M_bind. by destruct (m fs) as [[a|e|] fs']. Qed.

Lemma wp_mono {A} (m : M PassthroughFs FsError A) (Q Q' : outcome FsError A → PassthroughFs → Prop) fs :
  wp m Q fs → (∀ r fs', Q r fs' → Q' r fs') → wp m Q' fs.
Proof. unfold wp. auto. Qed.

Lemma wp_returns {A} (f : A → FsRet) m Q fs :
  wp m (λ r fs', Q (match r with Ok a => Ok (f a) | Err e => Err e | Panic => Panic end) fs') fs →
  wp (returns f m) Q fs.
Proof. intros Hm. apply wp_bind. eapply wp_mono; [exact Hm|]. by intros [a|e|] fs'. Qed.

Lemma wp_syscall {A} (call : World → (A + Z) * World) post Q fs :
  effect call post →
  (∀ a w', post a (world fs) w' → Q (Ok a) (put_world w' fs)) →
  (∀ e w', same (world fs) w' → Q (Err e) (put_world w' fs)) → wp (syscall call) Q fs.
Proof.
  intros Hc Hok Herr. specialize (Hc (world fs)). unfold wp, syscall.
  destruct (call (world fs)) as [[a|e] w']; [by apply Hok|by apply Herr].
Qed.

Lemma put_world_id fs : put_world (world fs) fs = fs.
Proof. by destruct fs. Qed.

Lemma wp_inode id Q fs :
  (∀ d, by_id (inodes fs) !! id = Some d → Q (Ok d) fs) → (∀ e, Q (Err e) fs) → wp (PassthroughFs_inode id) Q fs.
Proof.
  intros Hok Herr. unfold wp, PassthroughFs_inode, with_inodes, zoom, InodeStore_get. simpl.
  destruct fs as [w i h]. simpl in *. destruct (by_id i !! id); simpl; auto.
Qed.

Lemma wp_cstring name Q fs : plain name → Q (Ok name) fs → wp (lift (to_cstring name)) Q fs.
Proof. intros (_ & Hn & _). unfold wp, lift, to_cstring. by rewrite bool_decide_false. Qed.

(** ** Views *)

Lemma same_refl w : same w w.
Proof. done. Qed.

Lemma same_trans w1 w2 w3 : same w1 w2 → same w2 w3 → same w1 w3.
Proof. intros [Hf1 Hd1] [Hf2 Hd2]. split; congruence. Qed.

Lemma sane_put w fs : sane fs → fd_files w = fd_files (world fs) → sane (put_world w fs).
Proof. intros Hs Hf. unfold sane. simpl. by rewrite Hf. Qed.

Lemma view_put w fs : fd_files w = fd_files (world fs) → view (put_world w fs) = set_files (files w) (view fs).
Proof. intros Hf. unfold view, view_of. simpl. by rewrite Hf. Qed.

Lemma view_same w fs : same (world fs) w → view (put_world w fs) = view fs.
Proof. intros [Hf Hd]. rewrite view_put by done. by rewrite Hf. Qed.

Lemma handle_views fds fds' i h :
  (∀ o fd, owns i h o fd → fds' !! fd = fds !! fd) → omap (handle_view fds') (handles h) = omap (handle_view fds) (handles h).
Proof.
  intros Heq. apply map_eq. intros id. rewrite !lookup_omap. destruct (handles h !! id) as [d|] eqn:Hd; [|done].
  simpl. unfold handle_view. by rewrite (Heq (OHandle id)) by by constructor.
Qed.

(** A descriptor nobody owns does not show. *)
Lemma view_new_fd w fs fd o :
  sane fs → opened fd o (world fs) w →
  sane (put_world w fs) ∧ view (put_world w fs) = set_files (files w) (view fs) ∧ unowned (inodes fs) (fhandles fs) fd.
Proof.
  intros Hs [Hn Hf]. pose proof (fresh_unowned _ _ _ _ Hs Hn) as Hun. split_and!; [|unfold view, view_of|done].
  - unfold sane. simpl. rewrite Hf. by apply sane_insert_fd.
  - simpl. rewrite Hf. unfold set_files. simpl. f_equal. apply (handle_views _ _ (inodes fs)). intros o' fd' Ho'.
    apply lookup_insert_ne. intros <-. by apply (Hun o').
Qed.

Lemma view_insert_fd w fs fd o :
  sane fs → opened fd o (world fs) w → files w = files (world fs) →
  sane (put_world w fs) ∧ view (put_world w fs) = view fs ∧ unowned (inodes fs) (fhandles fs) fd.
Proof. intros Hs Ho Ht. destruct (view_new_fd w fs fd o Hs Ho) as (? & Hv & ?). by rewrite Hv, Ht. Qed.

Lemma view_delete_fd w fs fd :
  sane fs → unowned (inodes fs) (fhandles fs) fd → fd_files w = delete fd (fd_files (world fs)) →
  sane (put_world w fs) ∧ view (put_world w fs) = set_files (files w) (view fs).
Proof.
  intros Hs Hun Hf. split; [unfold sane; simpl; rewrite Hf; by apply sane_delete_fd|].
  unfold view, view_of. simpl. rewrite Hf. unfold set_files. simpl. f_equal.
  apply (handle_views _ _ (inodes fs)). intros o' fd' Ho'. apply lookup_delete_ne. intros <-. by apply (Hun o').
Qed.

Lemma view_inode fs id d : by_id (inodes fs) !! id = Some d → v_inodes (view fs) !! id = Some (tracked_of d).
Proof. intros Hd. simpl. by rewrite lookup_fmap, Hd. Qed.

Lemma view_file fs id d : by_id (inodes fs) !! id = Some d → file_of (view fs) id = Some (i_key d).
Proof. intros Hd. unfold file_of. by rewrite (view_inode _ _ _ Hd). Qed.

Lemma view_handle fs h d o :
  handles (fhandles fs) !! h = Some d → fd_files (world fs) !! HandleData_fd d = Some o →
  v_handles (view fs) !! h = Some (match d with HDir _ => true | HFile _ => false end, o).
Proof. intros Hd Ho. simpl. rewrite lookup_omap, Hd. simpl. unfold handle_view. by rewrite Ho. Qed.

(** ** What an operation achieves *)

Definition achieves (v : View) (op : FsOp) (r : outcome FsError FsRet) (fs' : PassthroughFs) : Prop :=
  sane fs' ∧ ∃ v', gstep v op r v' ∧ reaped_to v' (view fs').

Lemma reaped_view fs t :
  sane fs → reaped (fd_files (world fs)) t (files (world fs)) → reaped_to (set_files t (view fs)) (view fs).
Proof.
  intros Hs [Hsub Hr]. split_and!; [done..|]. intros k Hk Hn Hu. apply (Hr k Hk Hn).
  destruct Hu as [[id Hid]|[(h & b & o & Hh & Ho)|Hc]]; [left|left|by right].
  - unfold file_of in Hid. simpl in Hid. rewrite lookup_fmap in Hid.
    destruct (by_id (inodes fs) !! id) as [d|] eqn:Hd; simplify_eq/=.
    destruct (sn_ids _ _ _ Hs id d Hd) as (o & Ho & Hok). eauto.
  - simpl in Hh. rewrite lookup_omap in Hh. destruct (handles (fhandles fs) !! h) as [d|]; simplify_eq/=.
    unfold handle_view in Hh. destruct (fd_files (world fs) !! HandleData_fd d) as [o'|] eqn:Ho'; simplify_eq/=. eauto.
Qed.

Lemma achieves_reaped v op r fs t :
  sane fs → reaped (fd_files (world fs)) t (files (world fs)) → gstep v op r (set_files t (view fs)) →
  achieves v op r fs.
Proof. intros Hs Hr Hg. split; [done|]. eexists. split; [exact Hg|by apply reaped_view]. Qed.

Lemma reaped_to_refl v : reaped_to v v.
Proof. split_and!; [done..|]. intros k [n Hn]. congruence. Qed.

Lemma achieves_now v op r fs : sane fs → gstep v op r (view fs) → achieves v op r fs.
Proof. intros Hs Hg. split; [done|]. eexists. split; [exact Hg|apply reaped_to_refl]. Qed.

Lemma achieves_fail op e fs : sane fs → achieves (view fs) op (Err e) fs.
Proof. intros Hs. apply achieves_now; [done|]. constructor. Qed.

Lemma achieves_fail_same op e w fs : sane fs → same (world fs) w → achieves (view fs) op (Err e) (put_world w fs).
Proof.
  intros Hs Hw. apply achieves_now; [apply sane_put, Hw; done|]. rewrite view_same by done. constructor.
Qed.
End Wp.

(** ** The steps the operations share *)

Section Steps.
Context `{Libc, HashOrder, Host, !PosixView, !PosixLaws, !FlagLaws}.
Context (Hos : target_os ≠ OtherUnix).
Implicit Types fs : PassthroughFs.

Lemma existing_lor a b : opens_existing a → opens_existing b → opens_existing (Z.lor a b).
Proof. unfold opens_existing. intros Ha Hb. by rewrite Z.land_lor_distr_l, Ha, Hb. Qed.

Lemma existing_flag f :
  f ∈ [O_RDONLY; O_WRONLY; O_DIRECTORY; O_CLOEXEC; O_NOFOLLOW; O_PATH; O_EVTONLY; O_SYMLINK] → opens_existing f.
Proof. apply fl_bits. Qed.

Lemma reference_existing is_dir is_link : opens_existing (reference_open_flags is_dir is_link).
Proof.
  assert (opens_existing 0) as Hz by done.
  unfold reference_open_flags, symlink_open_flags, reference_open_flags_impl, linux_symlink_open_flags,
    macos_symlink_open_flags, generic_symlink_open_flags, linux_reference_open_flags, macos_reference_open_flags,
    generic_reference_open_flags.
  destruct is_link, is_dir, target_os; repeat apply existing_lor; try done; apply existing_flag; set_solver.
Qed.

Lemma has_lor_l b f g : has b f = true → has b (Z.lor f g) = true.
Proof.
  unfold has. rewrite !negb_true_iff, !Z.eqb_neq, Z.land_lor_distr_l. intros Hf [Hx _]%Z.lor_eq_0_iff. done.
Qed.

Lemma has_lor_r b f g : has b g = true → has b (Z.lor f g) = true.
Proof. rewrite Z.lor_comm. apply has_lor_l. Qed.

Lemma has_self b : b ≠ 0 → has b b = true.
Proof. intros Hb. unfold has. rewrite Z.land_diag. by apply negb_true_iff, Z.eqb_neq. Qed.

Lemma symlink_nofollow is_dir : nofollow (reference_open_flags is_dir true) = true.
Proof.
  unfold nofollow, reference_open_flags, symlink_open_flags, linux_symlink_open_flags, macos_symlink_open_flags.
  pose proof fl_linux as Hl. pose proof fl_macos as Hm. destruct target_os; [| |done].
  - destruct (Hl eq_refl) as [Hp Hn].
    by rewrite (has_lor_l O_PATH), (has_lor_l O_NOFOLLOW) by auto using has_lor_l, has_lor_r, has_self.
  - specialize (Hm eq_refl). auto using has_lor_l, has_self.
Qed.

(** The descriptor a lookup opens is open on the file it describes. *)
Lemma wp_open_child dirfd name Q fs d :
  sane fs → plain name → (∃ o, fd_files (world fs) !! dirfd = Some o ∧ of_file o = d) →
  (∀ fd st k n w o, child (files (world fs)) d name = Some k → files (world fs) !! k = Some n → describes k n st →
     of_file o = k → files w = files (world fs) → opened fd o (world fs) w → Q (Ok (fd, st)) (put_world w fs)) →
  (∀ e w', same (world fs) w' → Q (Err e) (put_world w' fs)) →
  wp (open_child dirfd name) Q fs.
Proof.
  intros Hs Hp (od & Hod & Hd) Hok Herr. unfold open_child. apply wp_bind.
  eapply wp_syscall; [by apply pl_fstatat| |exact Herr].
  intros st w1 (Hw1 & d' & k & n & ((o' & Ho' & Hd') & Hc) & Hn & Hst). assert (d' = d) as -> by congruence.
  apply wp_bind. eapply wp_syscall; [apply pl_openat; [done|apply reference_existing]| |].
  - intros fd w2 (d2 & k2 & n2 & ((o2 & Ho2 & Hd2) & Hc2) & Hn2 & Hcase). simpl in Ho2, Hc2, Hn2.
    destruct Hw1 as [Hf1 Hfd1]. rewrite Hfd1, Hod in Ho2. assert (d2 = d) as -> by congruence.
    rewrite Hf1, Hc in Hc2. injection Hc2 as <-. rewrite Hf1, Hn in Hn2. injection Hn2 as <-.
    apply wp_ret. destruct Hcase as [Hf2 Hop].
    + rewrite (ds_kind _ _ _ Hst). destruct (decide (body_kind (n_body n) = Symlink)) as [->|Hk]; [right|by left].
      apply symlink_nofollow.
    + eapply (Hok fd st k n w2 (mkOpenFile k _)); [done..| |].
      * simpl in Hf2. congruence.
      * unfold opened in *. simpl in Hop. by rewrite Hfd1 in Hop.
  - intros e w2 Hw2. apply Herr. by eapply same_trans.
Qed.

(** Closing a descriptor nobody owns. *)
Lemma wp_close fd Q fs :
  sane fs → unowned (inodes fs) (fhandles fs) fd →
  (∀ w, sane (put_world w fs) → reaped (fd_files w) (files (world fs)) (files w) →
     fd_files w = delete fd (fd_files (world fs)) →
     view (put_world w fs) = set_files (files w) (view fs) → Q (Ok tt) (put_world w fs)) →
  wp (close_fds [fd]) Q fs.
Proof.
  intros Hs Hun HQ. destruct (pl_close fd (world fs)) as [Hf Hr].
  destruct (view_delete_fd (sys_close fd (world fs)) fs fd Hs Hun Hf) as [Hs' Hv]. by apply HQ.
Qed.

Lemma wp_register parent name fd st o Q fs :
  sane fs → roomy (inodes fs) → fd_files (world fs) !! fd = Some o → of_file o = stat_key st →
  unowned (inodes fs) (fhandles fs) fd → plain name →
  (∀ d fs', sane fs' → reaped (fd_files (world fs')) (files (world fs)) (files (world fs')) →
     registers (inodes fs) parent name (stat_key st) (i_id d) (inodes fs') → fhandles fs' = fhandles fs →
     v_handles (view fs') = v_handles (view fs) →
     (∀ fd', fd' ≠ fd → fd_files (world fs') !! fd' = fd_files (world fs) !! fd' ∧
        (unowned (inodes fs) (fhandles fs) fd' → unowned (inodes fs') (fhandles fs') fd')) →
     Q (Ok d) fs') →
  wp (register_inode parent name fd st) Q fs.
Proof.
  intros Hs Hr Hfd Ho Hun Hp HQ. unfold register_inode. apply wp_bind.
  destruct (by_key (inodes fs) !! stat_key st) as [id|] eqn:Hk.
  - destruct (so_key _ (sn_store _ _ _ Hs) _ _ Hk) as (d & Hd & Hkey).
    destruct (sane_register_known _ _ _ parent name fd st id d Hs Hr Hun Hp Hk Hd Hkey)
      as (d' & i' & Hreg & Hs' & Hrg & Hun'). unfold wp at 1, with_inodes, zoom. rewrite Hreg. cbn [fst snd].
    apply wp_bind. set (fs1 := mkFs _ (world fs) i' (fhandles fs)). apply (wp_close fd); [done|by apply Hun'|].
    intros w Hsw Hrp Hfds Hv. apply wp_ret. apply HQ; try done.
    + by rewrite Hv.
    + intros fd' Hne. simpl. rewrite Hfds. split; [by apply lookup_delete_ne|apply Hun'].
  - destruct (sane_register_new _ _ _ parent name fd st o Hs Hr Hfd Ho Hun Hp Hk) as (d & i' & Hreg & Hs' & Hrg & Hun').
    unfold wp at 1, with_inodes, zoom. rewrite Hreg. cbn [fst snd]. apply HQ; try done.
    + apply reaped_refl.
    + intros fd' Hne. split; [done|]. by apply Hun'.
Qed.

Lemma wp_lookup p name Q fs :
  sane fs → roomy (inodes fs) → plain name →
  (∀ id attr fs' t, sane fs' → reaped (fd_files (world fs')) t (files (world fs')) →
     looked_up (view fs) p name id attr (set_files t (view fs')) → fhandles fs' = fhandles fs →
     (∀ fd o, fd_files (world fs) !! fd = Some o → unowned (inodes fs) (fhandles fs) fd →
        fd_files (world fs') !! fd = Some o ∧ unowned (inodes fs') (fhandles fs') fd) →
     Q (Ok (id, attr)) fs') →
  (∀ e w', same (world fs) w' → Q (Err e) (put_world w' fs)) →
  wp (PassthroughFs_lookup p name) Q fs.
Proof.
  intros Hs Hr Hp Hok Herr. unfold PassthroughFs_lookup. apply wp_bind, wp_inode.
  2:{ intros e. rewrite <- (put_world_id fs). by apply Herr. }
  intros pd Hpd. apply wp_bind, wp_cstring; [done|]. apply wp_bind.
  eapply (wp_open_child _ _ _ _ (i_key pd)); [done|done|by eapply sn_ids| |exact Herr].
  intros fd st k n w o Hc Hn Hst Ho Hfw Hop. destruct (view_insert_fd w fs fd o Hs Hop Hfw) as (Hs1 & Hv1 & Hun).
  destruct Hop as [Hnone Hfds]. apply wp_bind. apply (wp_register _ _ _ _ o); try done.
  - simpl. rewrite Hfds. apply lookup_insert_eq.
  - cbn [snd]. by rewrite (ds_key _ _ _ Hst).
  - cbn [snd]. intros d fs' Hs' Hrp Hrg Hfh Hvh Hfd'. apply wp_ret.
    eapply Hok; [done|exact Hrp| |done|].
    + cbn [snd]. rewrite <- Hv1. exists (i_key pd), k, n. split_and!.
      * split; [by apply (view_file (put_world w fs))|]. simpl. by rewrite Hfw.
      * simpl. by rewrite Hfw.
      * by exists st.
      * destruct Hrg as [Hid _]. simpl. rewrite (ds_key _ _ _ Hst) in Hid. exact Hid.
      * destruct Hrg as [_ Hnx Hm]. unfold set_files, set_inodes, set_next. f_equal; [|done|exact Hnx].
        rewrite <- (ds_key _ _ _ Hst). exact Hm.
    + intros fd' o' Hfd1 Hun1. assert (fd' ≠ fd) as Hne by congruence. destruct (Hfd' fd' Hne) as [Hl Hu].
      split; [|by apply Hu]. rewrite Hl. simpl. by rewrite Hfds, lookup_insert_ne.
Qed.

Lemma wp_parent_fd_name id d Q fs :
  sane fs → by_id (inodes fs) !! id = Some d → id ≠ ROOT_ID →
  (∀ pd, by_id (inodes fs) !! default ROOT_ID (i_parent d) = Some pd → Q (Ok (i_fd pd, i_name d)) fs) →
  (∀ e, Q (Err e) fs) → wp (parent_fd_name d) Q fs.
Proof.
  intros Hs Hd Hne Hok Herr. unfold parent_fd_name. apply wp_bind, wp_inode; [|done]. intros pd Hpd.
  apply wp_bind, wp_cstring; [by eapply sn_names|]. by apply wp_ret, Hok.
Qed.

Lemma dirfd_key dirfd name d k fs pd :
  sane fs → by_id (inodes fs) !! dirfd = Some pd → denotes (world fs) (i_fd pd) name d k → d = i_key pd ∧
  resolves (view fs) dirfd name d k.
Proof.
  intros Hs Hpd [(o & Ho & <-) Hc]. destruct (sn_ids _ _ _ Hs _ _ Hpd) as (o' & Ho' & Hk).
  assert (of_file o = i_key pd) as He by congruence. rewrite He in *. split; [done|].
  split; [by apply view_file|done].
Qed.

Lemma located_intro fs id d pd k kd :
  sane fs → by_id (inodes fs) !! id = Some d → by_id (inodes fs) !! default ROOT_ID (i_parent d) = Some pd →
  denotes (world fs) (i_fd pd) (i_name d) kd k → located_at (view fs) id kd k.
Proof.
  intros Hs Hd Hpd Hden. destruct (dirfd_key _ _ _ _ _ _ Hs Hpd Hden) as [-> Hr].
  exists (tracked_of d). split; [by apply view_inode|done].
Qed.

Lemma wp_reopen ino flags Q fs :
  sane fs → opens_existing flags → no_link (view fs) ino →
  (∀ fd w o, sane (put_world w fs) → view (put_world w fs) = view fs → unowned (inodes fs) (fhandles fs) fd →
     fd_files w !! fd = Some o → opens (view fs) ino flags o → Q (Ok fd) (put_world w fs)) →
  (∀ e w', same (world fs) w' → Q (Err e) (put_world w' fs)) → wp (reopen_via_parent ino flags) Q fs.
Proof.
  intros Hs Hfl Hnl Hok Herr. assert (∀ e, Q (Err e) fs) as Herr0.
  { intros e. rewrite <- (put_world_id fs). by apply Herr. }
  unfold reopen_via_parent. apply wp_bind, wp_inode; [|done]. intros d Hd. unfold opens in Hok.
  destruct (Z.eqb_spec ino ROOT_ID) as [->|Hne].
  - eapply wp_syscall; [apply pl_dupfd| |done]. intros fd w (Hf & o & Ho & Hop).
    destruct (view_insert_fd w fs fd o Hs Hop Hf) as (Hs' & Hv & Hun). apply (Hok fd w o); try done.
    + destruct Hop as [_ ->]. apply lookup_insert_eq.
    + rewrite decide_True by done. destruct (sn_ids _ _ _ Hs _ _ Hd) as (o' & Ho' & Hk).
      rewrite (view_file _ _ _ Hd). congruence.
  - apply wp_bind. eapply wp_parent_fd_name; [done..| |done]. intros pd Hpd.
    eapply wp_syscall; [apply pl_openat; [by eapply sn_names|done]| |done].
    intros fd w (kd & k & n & Hden & Hn & Hcase). pose proof (located_intro _ _ _ _ _ _ Hs Hd Hpd Hden) as Hloc.
    destruct Hcase as [Hf Hop]; [left; by eapply Hnl|].
    destruct (view_insert_fd w fs fd _ Hs Hop Hf) as (Hs' & Hv & Hun). eapply (Hok fd w); try done.
    + destruct Hop as [_ ->]. apply lookup_insert_eq.
    + rewrite decide_False by done. eauto.
Qed.

Lemma wp_insert_handle data o Q fs :
  sane fs → next_handle (fhandles fs) < 2 ^ 64 - 1 → fd_files (world fs) !! HandleData_fd data = Some o →
  unowned (inodes fs) (fhandles fs) (HandleData_fd data) →
  (∀ h fs', sane fs' → world fs' = world fs →
     new_handle (view fs) (match data with HDir _ => true | HFile _ => false end) o h (view fs') →
     Q (Ok h) fs') → wp (insert_handle data) Q fs.
Proof.
  intros Hs Hr Ho Hun HQ. unfold insert_handle. apply wp_bind.
  pose proof (sane_insert_handle _ _ _ data Hs Hr (mk_is_Some _ _ Ho) Hun) as Hs'.
  pose proof (next_handle_fresh _ (sn_handles _ _ _ Hs)) as Hf. unfold wp at 1, with_handles, zoom.
  rewrite (insert_fresh _ data (sn_handles _ _ _ Hs)) in *. cbn [fst snd] in *. apply wp_bind.
  change (wp (close_fds []) ?R ?x) with (R (Ok tt) x). cbv beta. apply wp_ret. apply HQ; [done|done|]. split.
  - simpl. by rewrite lookup_omap, Hf.
  - unfold view, view_of, set_handles. simpl. f_equal. erewrite omap_insert_Some; [done|].
    unfold handle_view. by rewrite Ho.
Qed.

Lemma wp_with_file h Q fs :
  sane fs →
  (∀ fd o, v_handles (view fs) !! h = Some (false, o) → fd_files (world fs) !! fd = Some o → Q (Ok fd) fs) →
  (∀ e, Q (Err e) fs) → wp (with_file h) Q fs.
Proof.
  intros Hs Hok Herr. unfold wp, with_file, HandleStore_with_file. simpl.
  destruct (handles (fhandles fs) !! h) as [[fd|fd]|] eqn:Hh; try apply Herr.
  destruct (sn_open _ _ _ Hs (OHandle h) fd) as [o Ho]; [by apply (owns_handle _ _ _ (HFile fd))|].
  apply (Hok fd o); [|done]. by apply (view_handle fs h (HFile fd)).
Qed.

Lemma wp_with_dir h Q fs :
  sane fs →
  (∀ fd o, v_handles (view fs) !! h = Some (true, o) → fd_files (world fs) !! fd = Some o → Q (Ok fd) fs) →
  (∀ e, Q (Err e) fs) → wp (with_dir h) Q fs.
Proof.
  intros Hs Hok Herr. unfold wp, with_dir, HandleStore_with_dir. simpl.
  destruct (handles (fhandles fs) !! h) as [[fd|fd]|] eqn:Hh; try apply Herr.
  destruct (sn_open _ _ _ Hs (OHandle h) fd) as [o Ho]; [by apply (owns_handle _ _ _ (HDir fd))|].
  apply (Hok fd o); [|done]. by apply (view_handle fs h (HDir fd)).
Qed.

Lemma wp_getattr id Q fs :
  sane fs →
  (∀ attr w, same (world fs) w → has_attr (view fs) id attr → Q (Ok attr) (put_world w fs)) →
  (∀ e w, same (world fs) w → Q (Err e) (put_world w fs)) → wp (PassthroughFs_getattr id) Q fs.
Proof.
  intros Hs Hok Herr. unfold PassthroughFs_getattr. apply wp_bind, wp_inode.
  2:{ intros e. rewrite <- (put_world_id fs). by apply Herr. }
  intros d Hd. apply wp_bind. eapply wp_syscall; [apply pl_fstat| |done].
  intros st w (Hw & o & n & Ho & Hn & Hst). apply wp_ret, Hok; [done|].
  destruct (sn_ids _ _ _ Hs _ _ Hd) as (o' & Ho' & Hk). assert (of_file o = i_key d) as He by congruence.
  exists (i_key d), n. rewrite <- He. split_and!; [rewrite He; by apply view_file|done|by exists st].
Qed.
End Steps.

(** ** The operations *)

Section Refines.
Context `{Libc, HashOrder, Host, !PosixView, !PosixLaws, !FlagLaws, !HashOrderLaws}.
Context (Hos : target_os ≠ OtherUnix).
Context (fs : PassthroughFs) (Hs : sane fs) (Hr : fs_roomy fs).

Abbreviation refines op := (wp (exec_op op) (achieves (view fs) op) fs).

(** Early failures. *)
Ltac fails := intros; first [by apply achieves_fail | by apply achieves_fail_same].

Lemma refines_lookup p name : plain name → refines (FLookup p name).
Proof.
  intros Hp. apply wp_returns, wp_lookup; [done|done|by apply Hr|done| |fails].
  intros id attr fs' t Hs' Hrp Hl _ _. eapply achieves_reaped; [done|exact Hrp|]. by constructor.
Qed.

Lemma refines_forget id count : 0 ≤ count → refines (FForget id count).
Proof.
  intros Hc. apply wp_returns. unfold PassthroughFs_forget. apply wp_bind.
  pose proof (sane_forget _ _ _ id count Hs Hc) as Hf. unfold wp at 1, with_inodes, zoom.
  destruct (InodeStore_forget id count (inodes fs)) as [dropped i'] eqn:E. cbn [fst snd].
  destruct Hf as (Hs' & Hm & Hun & Hlen & Hnx). set (fs1 := mkFs _ (world fs) i' (fhandles fs)).
  assert (set_inodes (forgotten id count (v_inodes (view fs))) (view fs) = view fs1) as Hv.
  { unfold view at 1 2, view_of, set_inodes. simpl. unfold view, view_of. simpl. by rewrite Hm, Hnx. }
  destruct dropped as [|fd [|]]; simpl in Hlen; [| |lia].
  - change (achieves (view fs) (FForget id count) (Ok RUnit) fs1). apply achieves_now; [done|].
    rewrite <- Hv. constructor.
  - apply (wp_close fd); [done|by inversion Hun|]. intros w Hsw Hrp _ Hvw.
    eapply achieves_reaped; [done|exact Hrp|]. rewrite Hvw.
    replace (set_files _ _) with (view fs1) by (by unfold set_files). rewrite <- Hv. constructor.
Qed.

Lemma refines_getattr id : refines (FGetattr id).
Proof.
  apply wp_returns, wp_getattr; [done| |fails]. intros attr w Hw Ha.
  apply achieves_now; [by apply sane_put, Hw|]. rewrite view_same by done. by constructor.
Qed.

(** An operation that creates a file and looks it up. *)
Lemma made_intro p pd name b mode k d w :
  by_id (inodes fs) !! p = Some pd → free_in (world fs) (i_fd pd) name d → created d name b mode k (world fs) w →
  made (view fs) p name b mode k (set_files (files w) (view fs)).
Proof.
  intros Hpd ((o & Ho & <-) & He & Hc) (Hk & m & Hb & Hpm & Hf).
  destruct (sn_ids _ _ _ Hs _ _ Hpd) as (o' & Ho' & Hkey). assert (of_file o = i_key pd) as Heq by congruence.
  rewrite Heq in *. exists (i_key pd), m. split_and!; try done; [by apply view_file|]. by rewrite Hf.
Qed.

Lemma refines_made p name b mode k w op :
  plain name → fd_files w = fd_files (world fs) → made (view fs) p name b mode k (set_files (files w) (view fs)) →
  (∀ e v1, made (view fs) p name b mode k v1 → gstep (view fs) op (Err e) v1) →
  (∀ id attr v1 v2, made (view fs) p name b mode k v1 → looked_up v1 p name id attr v2 →
     gstep (view fs) op (Ok (REntry id attr)) v2) →
  wp (PassthroughFs_lookup p name)
    (λ r fs', achieves (view fs) op (match r with Ok a => Ok (REntry a.1 a.2) | Err e => Err e | Panic => Panic end) fs')
    (put_world w fs).
Proof.
  intros Hp Hfd Hm Herr Hok. rewrite <- view_put in Hm by done.
  apply wp_lookup; [done|by apply sane_put|by apply Hr|done|..].
  - intros id attr fs' t Hs' Hrp Hl _ _. eapply achieves_reaped; [done|exact Hrp|]. by eapply Hok.
  - intros e w' Hw. change (put_world w' (put_world w fs)) with (put_world w' fs).
    apply achieves_now.
    + apply sane_put; [done|]. by rewrite (proj2 Hw).
    + apply Herr. change (put_world w' fs) with (put_world w' (put_world w fs)). by rewrite view_same.
Qed.

Lemma refines_mkdir p name mode : plain name → refines (FMkdir p name mode).
Proof.
  intros Hp. apply wp_returns. unfold PassthroughFs_mkdir. apply wp_bind, wp_inode; [|fails].
  intros pd Hpd. apply wp_bind, wp_cstring; [done|]. apply wp_bind.
  eapply wp_syscall; [by apply pl_mkdirat| |fails]. intros _ w (Hfd & d & k & Hfree & Hcr).
  eapply refines_made; [done|done|by eapply made_intro|..]; intros; by econstructor.
Qed.

Lemma refines_symlink p name target : plain name → refines (FSymlink p name target).
Proof.
  intros Hp. apply wp_returns. unfold PassthroughFs_symlink. apply wp_bind, wp_inode; [|fails].
  intros pd Hpd. apply wp_bind, wp_cstring; [done|]. apply wp_bind.
  unfold wp at 1, lift, to_cstring. simpl. case_bool_decide; [by apply achieves_fail|]. apply wp_bind.
  eapply wp_syscall; [by apply pl_symlinkat| |fails]. intros _ w (Hfd & d & k & Hfree & Hcr).
  eapply refines_made; [done|done|by eapply made_intro|..]; intros; by econstructor.
Qed.

Lemma refines_create p name flags mode : plain name → creates_file flags → refines (FCreate p name flags mode).
Proof.
  intros Hp Hfl. apply wp_returns. unfold PassthroughFs_create. apply wp_bind, wp_inode; [|fails].
  intros pd Hpd. apply wp_bind, wp_cstring; [done|]. apply wp_bind.
  eapply wp_syscall; [by apply pl_create| |fails]. intros fd w (d & k & Hfree & Hcr & Hop).
  pose proof (made_intro _ _ _ _ _ _ _ _ Hpd Hfree Hcr) as Hm.
  destruct (view_new_fd w fs fd _ Hs Hop) as (Hs1 & Hv1 & Hun). rewrite <- Hv1 in Hm.
  assert (fd_files w !! fd = Some (mkOpenFile k (has O_APPEND flags))) as Hfd
    by (destruct Hop as [_ ->]; apply lookup_insert_eq).
  apply wp_bind, wp_lookup; [done|done|by apply Hr|done|..].
  - intros id attr fs' t Hs' Hrp Hl Hfh Hkeep. destruct (Hkeep fd _ Hfd Hun) as [Hfd' Hun'].
    apply wp_bind. eapply (wp_insert_handle (HFile fd)); [done|rewrite Hfh; apply Hr|exact Hfd'|done|].
    intros h fs2 Hs2 Hw2 Hnew. apply wp_ret. eapply achieves_reaped; [done|rewrite Hw2; exact Hrp|].
    eapply g_create; [exact Hm|exact Hl|]. destruct Hnew as [Hn ->]. done.
  - intros e w' Hw. apply achieves_now; [apply sane_put, Hw; done|]. rewrite view_same by done. by eapply g_create_half.
Qed.

(** An operation on a name that ends with a system call. *)
Lemma refines_unlink p name : plain name → refines (FUnlink p name).
Proof.
  intros Hp. apply wp_returns. unfold PassthroughFs_unlink. apply wp_bind, wp_inode; [|fails].
  intros pd Hpd. apply wp_bind, wp_cstring; [done|]. eapply wp_syscall; [by apply pl_unlinkat| |fails].
  intros _ w (Hfd & d & k & n & Hden & Hn & Hk & Hrp). destruct (dirfd_key _ _ _ _ _ _ Hs Hpd Hden) as [_ Hres].
  eapply achieves_reaped; [by apply sane_put|exact Hrp|]. rewrite view_put by done. by apply (g_unlink (view fs) p name d k n).
Qed.

Lemma refines_rmdir p name : plain name → refines (FRmdir p name).
Proof.
  intros Hp. apply wp_returns. unfold PassthroughFs_rmdir. apply wp_bind, wp_inode; [|fails].
  intros pd Hpd. apply wp_bind, wp_cstring; [done|]. eapply wp_syscall; [by apply pl_rmdir| |fails].
  intros _ w (Hfd & d & k & Hden & He & Hrp). destruct (dirfd_key _ _ _ _ _ _ Hs Hpd Hden) as [_ Hres].
  eapply achieves_reaped; [by apply sane_put|exact Hrp|]. rewrite view_put by done. by apply (g_rmdir (view fs) p name d k).
Qed.

Lemma refines_rename p n p' n' : plain n → plain n' → refines (FRename p n p' n').
Proof.
  intros Hp Hp'. apply wp_returns. unfold PassthroughFs_rename. apply wp_bind, wp_inode; [|fails]. intros pd Hpd.
  apply wp_bind, wp_inode; [|fails]. intros pd' Hpd'. apply wp_bind, wp_cstring; [done|].
  apply wp_bind, wp_cstring; [done|]. apply wp_bind. eapply wp_syscall; [by apply pl_renameat| |fails].
  intros _ w (Hfd & k1 & k2 & k & o2 & Hden & Ho2 & <- & He & Hif).
  destruct (dirfd_key _ _ _ _ _ _ Hs Hpd Hden) as [_ Hres].
  destruct (sn_ids _ _ _ Hs _ _ Hpd') as (o' & Ho' & Hk'). assert (of_file o2 = i_key pd') as Heq by congruence.
  destruct (sane_note_rename _ _ _ p n p' n' Hs Hp') as (Hs' & Hrel & Hnx).
  set (t := if decide (child (files (world fs)) (of_file o2) n' = Some k) then files (world fs)
            else move_entry k1 n (of_file o2) n' k (files (world fs))).
  assert (reaped (fd_files w) t (files w)) as Hrp.
  { unfold t. destruct (decide _); [rewrite Hif; apply reaped_refl|done]. }
  unfold wp, with_inodes, zoom, modify. cbn [fst snd].
  eapply achieves_reaped; [|exact Hrp|].
  - unfold sane. simpl. by rewrite Hfd.
  - constructor. exists k1, (of_file o2), k, (tracked_of <$> by_id (InodeStore_note_rename p n p' n' (inodes fs))).
    split_and!; try done.
    + rewrite Heq. by apply view_file.
    + unfold view, view_of, set_inodes, set_files. simpl. by rewrite Hfd, Hnx.
Qed.

Lemma refines_readlink id : id ≠ ROOT_ID → refines (FReadlink id).
Proof.
  intros Hne. apply wp_returns. unfold PassthroughFs_readlink. apply wp_bind, wp_inode; [|fails]. intros d Hd.
  apply wp_bind. eapply wp_parent_fd_name; [done..| |fails]. intros pd Hpd.
  eapply wp_syscall; [by apply pl_readlinkat, (sn_names _ _ _ Hs id)| |fails].
  intros b w (Hw & kd & k & n & target & Hden & Hn & Hb & ->).
  apply achieves_now; [by apply sane_put, Hw|]. rewrite view_same by done.
  eapply g_readlink; [by eapply located_intro|done|done].
Qed.

Lemma refines_linked id p name w :
  fd_files w = fd_files (world fs) → linked_to (view fs) id p name (set_files (files w) (view fs)) →
  wp (PassthroughFs_getattr id)
    (λ r fs', achieves (view fs) (FLink id p name)
                (match r with Ok a => Ok (RAttr a) | Err e => Err e | Panic => Panic end) fs') (put_world w fs).
Proof.
  intros Hfd Hl. rewrite <- view_put in Hl by done. apply wp_getattr; [by apply sane_put|..].
  - intros attr w' Hw Ha. apply achieves_now; [apply sane_put, Hw; by apply sane_put|].
    rewrite view_same by done. by eapply g_link.
  - intros e w' Hw. apply achieves_now; [apply sane_put, Hw; by apply sane_put|].
    rewrite view_same by done. by eapply g_link_half.
Qed.

Lemma free_key p pd name d :
  by_id (inodes fs) !! p = Some pd → free_in (world fs) (i_fd pd) name d →
  file_of (view fs) p = Some d ∧ is_Some (entries_of (v_files (view fs)) d) ∧ child (v_files (view fs)) d name = None.
Proof.
  intros Hpd ((o & Ho & <-) & He & Hc). destruct (sn_ids _ _ _ Hs _ _ Hpd) as (o' & Ho' & Hk).
  assert (of_file o = i_key pd) as Heq by congruence. split_and!; [rewrite Heq; by apply view_file|done|done].
Qed.

Lemma refines_link id p name : id ≠ ROOT_ID → plain name → refines (FLink id p name).
Proof.
  intros Hne Hp. apply wp_returns. unfold PassthroughFs_link. apply wp_bind, wp_inode; [|fails]. intros d Hd.
  apply wp_bind, wp_inode; [|fails]. intros pd Hpd. apply wp_bind, wp_cstring; [done|]. apply wp_bind.
  destruct (decide (target_os = Linux)) as [Hlx|Hlx].
  - eapply wp_syscall; [by apply pl_linkat| |fails]. intros _ w (Hfd & o & kd & Ho & Hfree & Hf).
    apply refines_linked; [done|]. destruct (free_key _ _ _ _ Hpd Hfree) as (? & ? & ?).
    destruct (sn_ids _ _ _ Hs _ _ Hd) as (o' & Ho' & Hk). assert (of_file o = i_key d) as Heq by congruence.
    exists kd, (of_file o). rewrite decide_True by done. split_and!; try done; [rewrite Heq; by apply view_file|].
    by rewrite Hf.
  - apply wp_bind. eapply wp_parent_fd_name; [done..| |fails]. intros qd Hqd.
    eapply wp_syscall; [apply pl_linkat_name; [by eapply (sn_names _ _ _ Hs)|done]| |fails].
    intros _ w (Hfd & k1 & k & kd & Hden & Hfree & Hf). apply refines_linked; [done|].
    destruct (free_key _ _ _ _ Hpd Hfree) as (? & ? & ?). exists kd, k. rewrite decide_False by done.
    split_and!; try done; [eexists; by eapply located_intro|]. by rewrite Hf.
Qed.

Lemma refines_open id flags : opens_existing flags → no_link (view fs) id → refines (FOpen id flags).
Proof.
  intros Hfl Hnl. apply wp_returns. unfold PassthroughFs_open. apply wp_bind, wp_reopen; [done..| |fails].
  intros fd w o Hs1 Hv1 Hun Ho Hop. eapply (wp_insert_handle (HFile fd)); [done|apply Hr|exact Ho|done|].
  intros h fs' Hs' _ Hnew. apply achieves_now; [done|]. rewrite Hv1 in Hnew. by eapply g_open.
Qed.

Lemma refines_opendir id : no_link (view fs) id → refines (FOpendir id).
Proof.
  intros Hnl. apply wp_returns. unfold PassthroughFs_opendir. apply wp_bind, wp_reopen; [done| |done| |fails].
  { apply existing_lor; apply existing_flag; set_solver. }
  intros fd w o Hs1 Hv1 Hun Ho Hop. apply wp_bind. unfold wp at 1.
  pose proof (pl_from_fd fd w) as Hl. simpl. destruct (nix_dir_from_fd fd w) as [[|e] w']; cbn [fst snd].
  - destruct Hl as [Hf Hfd]. eapply (wp_insert_handle (HDir fd) o).
    + unfold sane in *. simpl in *. by rewrite Hfd.
    + apply Hr.
    + simpl. by rewrite Hfd.
    + done.
    + intros h fs' Hs' _ Hnew. apply achieves_now; [done|]. eapply g_opendir; [exact Hop|].
      rewrite <- Hv1. by rewrite <- (view_same w' (put_world w fs)).
  - destruct Hl as [Hfd Hrp]. destruct (view_delete_fd w' (put_world w fs) fd Hs1 Hun Hfd) as [Hs2 Hv2].
    eapply achieves_reaped; [exact Hs2|exact Hrp|]. change (mkFs _ _ _ _) with (put_world w' (put_world w fs)).
    rewrite Hv2, Hv1. change (set_files _ _) with (set_files (files w) (view fs)).
    assert (files w = files (world fs)) as -> by (by apply (f_equal v_files) in Hv1). constructor.
Qed.

Lemma refines_read h off n : refines (FRead h off n).
Proof.
  apply wp_returns. unfold PassthroughFs_read. apply wp_bind, wp_with_file; [done| |fails]. intros fd o Hh Ho.
  eapply wp_syscall; [apply pl_pread| |fails]. intros b w (Hw & o' & nd & Ho' & Hn & Hrd).
  apply achieves_now; [by apply sane_put, Hw|]. rewrite view_same by done. constructor.
  exists o, nd. assert (o' = o) as -> by congruence. done.
Qed.

Lemma refines_readv h off ns : refines (FReadVectored h off ns).
Proof.
  apply wp_returns. unfold PassthroughFs_read_vectored. apply wp_bind, wp_with_file; [done| |fails]. intros fd o Hh Ho.
  eapply wp_syscall; [apply pl_preadv| |fails]. intros b w (Hw & o' & nd & Ho' & Hn & Hrd).
  apply achieves_now; [by apply sane_put, Hw|]. rewrite view_same by done. constructor.
  exists o, nd. assert (o' = o) as -> by congruence. done.
Qed.

Lemma written_intro h fd o b off n w :
  v_handles (view fs) !! h = Some (false, o) → fd_files (world fs) !! fd = Some o →
  writes_at fd b (as_i64 off) n (world fs) w →
  sane (put_world w fs) ∧ written_by (view fs) h off b n (view (put_world w fs)).
Proof.
  intros Hh Ho (Hfd & Hn & Hoff & o' & Ho' & Hf). split; [by apply sane_put|]. exists o.
  assert (o' = o) as -> by congruence. split_and!; try done. rewrite view_put by done. by rewrite Hf.
Qed.

Lemma refines_write h off b : refines (FWrite h off b).
Proof.
  apply wp_returns. unfold PassthroughFs_write. apply wp_bind, wp_with_file; [done| |fails]. intros fd o Hh Ho.
  eapply wp_syscall; [apply pl_pwrite| |fails]. intros n w Hw.
  destruct (written_intro h fd o b off n w Hh Ho Hw) as [Hs' Hv]. apply achieves_now; [done|]. by constructor.
Qed.

Lemma refines_writev h off bs : refines (FWriteVectored h off bs).
Proof.
  apply wp_returns. unfold PassthroughFs_write_vectored. apply wp_bind, wp_with_file; [done| |fails]. intros fd o Hh Ho.
  eapply wp_syscall; [apply pl_pwritev| |fails]. intros n w Hw.
  destruct (written_intro h fd o (concat bs) off n w Hh Ho Hw) as [Hs' Hv]. apply achieves_now; [done|]. by constructor.
Qed.

Lemma refines_fsync h : refines (FFsync h).
Proof.
  apply wp_returns. unfold PassthroughFs_fsync. apply wp_bind, wp_with_file; [done| |fails]. intros fd o Hh Ho.
  eapply wp_syscall; [apply pl_fsync| |fails]. intros ? w Hw.
  apply achieves_now; [by apply sane_put, Hw|]. rewrite view_same by done. constructor. by rewrite Hh.
Qed.

Lemma refines_statfs id : refines (FStatfs id).
Proof.
  apply wp_returns. unfold PassthroughFs_statfs. apply wp_bind, wp_inode; [|fails]. intros d Hd.
  eapply wp_syscall; [apply pl_fstatvfs| |fails]. intros st w Hw.
  apply achieves_now; [by apply sane_put, Hw|]. rewrite view_same by done. constructor.
  by rewrite (view_inode _ _ _ Hd).
Qed.

Lemma refines_drop h op :
  (is_Some (v_handles (view fs) !! h) →
   gstep (view fs) op (Ok RUnit) (set_handles (delete h (v_handles (view fs))) (view fs))) →
  wp (returns (λ _, RUnit) (drop_handle h)) (achieves (view fs) op) fs.
Proof.
  intros Hg. apply wp_returns. unfold drop_handle. apply wp_bind. unfold wp at 1, with_handles, zoom, HandleStore_remove.
  destruct (handles (fhandles fs) !! h) as [d|] eqn:Hd; cbn [fst snd].
  - destruct (sane_remove_handle _ _ _ h d Hs Hd) as [Hs1 Hun1].
    destruct (sn_open _ _ _ Hs (OHandle h) (HandleData_fd d)) as [o Ho]; [by constructor|].
    apply (wp_close (HandleData_fd d)); [done|done|]. intros w Hsw Hrp _ Hv. eapply achieves_reaped; [done|exact Hrp|].
    rewrite Hv. replace (set_files _ _) with (set_handles (delete h (v_handles (view fs))) (view fs)).
    + apply Hg. rewrite (view_handle fs h d o) by done. done.
    + unfold set_files, set_handles, view, view_of. simpl. f_equal. by rewrite omap_delete.
  - destruct fs. by apply achieves_fail.
Qed.

Lemma stream_all items : stream_error items = None → items = inl <$> stream_entries items.
Proof.
  induction items as [|[e|e] items IH]; intros He; [done| |done]. change (stream_error items = None) in He.
  simpl. f_equal. by apply IH.
Qed.

Lemma plain_not_dots name : plain name → name ≠ dot ∧ name ≠ dotdot.
Proof. intros (_ & _ & _ & Hd1 & Hd2). done. Qed.

Lemma refines_readdir h : refines (FReaddir h).
Proof.
  apply wp_returns. unfold PassthroughFs_readdir. apply wp_bind, wp_with_dir; [done| |fails]. intros fd o Hh Ho.
  destruct (pl_iter fd (world fs)) as [Hw Hl]. apply wp_bind. unfold wp at 1. simpl in *.
  destruct (nix_dir_iter fd (world fs)) as [items w]. cbn [fst snd] in *.
  change (mkFs _ w (inodes fs) (fhandles fs)) with (put_world w fs). unfold wp, lift. cbn [fst snd].
  rewrite readdir_entries_spec. destruct (stream_error items) eqn:He; [by apply achieves_fail_same|].
  destruct (Hl _ (stream_all items He)) as (o' & es & Ho' & Hes & Hnd & Hin). assert (o' = o) as -> by congruence.
  apply achieves_now; [by apply sane_put, Hw|]. rewrite view_same by done.
  eapply g_readdir; [done|exact Hes|..].
  - rewrite app_nil_l, <- list_fmap_compose. eapply sublist_NoDup; [exact Hnd|].
    change (de_name ∘ _) with ne_name. apply fmap_sublist, sublist_filter.
  - intros name Hp. rewrite <- Hin by done. rewrite app_nil_l, <- list_fmap_compose. change (de_name ∘ _) with ne_name.
    rewrite !list_elem_of_fmap. pose proof (plain_not_dots name Hp). split.
    + intros (e & -> & [_ He']%list_elem_of_filter). eauto.
    + intros (e & -> & He'). exists e. rewrite list_elem_of_filter. done.
Qed.

(** *** The parts of [setattr]

    [progress l]: the changes [l] have been made to the file at the place of the id. *)
Definition progress (id : Z) (l : list (node → node)) (fs' : PassthroughFs) : Prop :=
  sane fs' ∧ inodes fs' = inodes fs ∧ v_handles (view fs') = v_handles (view fs) ∧ Forall keeps_entries l ∧
  ∃ t, changed (view fs) id l (set_files t (view fs)) ∧ reaped (fd_files (world fs')) t (files (world fs')).

Lemma keeps_edits l : Forall keeps_entries l → keeps_entries (apply_edits l).
Proof.
  induction l as [|f l IH] using rev_ind; intros Hl; [intros n; unfold apply_edits; simpl; by destruct (n_body n)|].
  apply Forall_app in Hl as [Hl Hf]. rewrite Forall_singleton in Hf. specialize (IH Hl).
  intros n. unfold apply_edits. rewrite foldl_app. simpl. specialize (IH n). specialize (Hf (apply_edits l n)).
  destruct (n_body n); [by rewrite IH in Hf|..]; destruct (n_body (apply_edits l n)); try done; by edestruct IH.
Qed.

Lemma located_unique v id d k d' k' : located_at v id d k → located_at v id d' k' → k = k'.
Proof. intros (t & Ht & Hd & Hc) (t' & Ht' & Hd' & Hc'). congruence. Qed.

Lemma progress_files id l fs' d pd kd k :
  progress id l fs' → by_id (inodes fs) !! id = Some d → by_id (inodes fs) !! default ROOT_ID (i_parent d) = Some pd →
  denotes (world fs') (i_fd pd) (i_name d) kd k → located_at (view fs) id kd k.
Proof.
  intros (Hs' & Hi & _ & Hl & t & Hch & [Hsub _]) Hd Hpd Hden. rewrite <- Hi in Hd, Hpd.
  destruct (located_intro _ _ _ _ _ _ Hs' Hd Hpd Hden) as (tr & Htr & Hf & Hc). exists tr.
  assert (v_inodes (view fs') = v_inodes (view fs)) as Hv by (unfold view, view_of; simpl; by rewrite Hi).
  unfold resolves, file_of in *. rewrite Hv in *. split_and!; [done|done|].
  apply (child_mono t) in Hc; [|exact Hsub]. destruct Hch as [[_ Ht]|(d0 & k0 & _ & Ht)];
    apply (f_equal v_files) in Ht; simpl in Ht; subst t; [done|]. by rewrite child_alter in Hc by by apply keeps_edits.
Qed.

Lemma progress_edit id l f fs' w d pd kd k :
  progress id l fs' → by_id (inodes fs) !! id = Some d → by_id (inodes fs) !! default ROOT_ID (i_parent d) = Some pd →
  denotes (world fs') (i_fd pd) (i_name d) kd k → keeps_entries f →
  fd_files w = fd_files (world fs') → files w = alter f k (files (world fs')) →
  progress id (l ++ [f]) (put_world w fs').
Proof.
  intros Hp Hd Hpd Hden Hf Hfd Hw. pose proof (progress_files _ _ _ _ _ _ _ Hp Hd Hpd Hden) as Hloc.
  destruct Hp as (Hs' & Hi & Hh & Hl & t & Hch & Hrp). split_and!; [by apply sane_put|done|..].
  - by rewrite view_put.
  - apply Forall_app. by rewrite Forall_singleton.
  - exists (alter f k t). split; [|simpl; rewrite Hfd, Hw; by apply reaped_alter]. right. exists kd, k. split; [done|].
    unfold apply_edits. f_equal. destruct Hch as [[-> Ht]|(d0 & k0 & Hloc0 & Ht)]; apply (f_equal v_files) in Ht; simpl in Ht; subst t.
    + done.
    + rewrite (located_unique _ _ _ _ _ _ Hloc0 Hloc), alter_alter. apply alter_ext. intros n _. by rewrite foldl_app.
Qed.

Lemma progress_same id l fs' w : progress id l fs' → same (world fs') w → progress id l (put_world w fs').
Proof.
  intros (Hs' & Hi & Hh & Hl & t & Hch & Hrp) Hw. pose proof Hw as [Hf Hfd]. split_and!; [by apply sane_put|done|..|done|].
  - by rewrite view_same.
  - exists t. simpl. by rewrite Hf, Hfd.
Qed.

Lemma progress_view id l fs' t : progress id l fs' → set_files t (view fs') = set_files t (view fs).
Proof. intros (_ & Hi & Hh & _). unfold set_files. f_equal; [|done|]; simpl; by rewrite Hi. Qed.

Lemma progress_fail id sa l e fs' :
  progress id l fs' → l `prefix_of` edits sa → achieves (view fs) (FSetattr id sa) (Err e) fs'.
Proof.
  intros Hp [l' Hl']. pose proof Hp as (Hs' & _ & _ & _ & t & Hch & Hrp). eapply achieves_reaped; [done|exact Hrp|].
  rewrite (progress_view _ _ _ _ Hp). apply (g_setattr_half _ _ _ (length l)). by rewrite Hl', take_app_length.
Qed.

Lemma wp_setattr_size id sa Q :
  id ≠ ROOT_ID → (is_Some (sa_size sa) → no_link (view fs) id) →
  (∀ fs', progress id (size_edits sa) fs' → Q (Ok tt) fs') → (∀ e fs', progress id [] fs' → Q (Err e) fs') →
  wp (match sa_size sa with Some size => setattr_size id size | None => mret tt end) Q fs.
Proof.
  intros Hne Hnl Hok Herr. assert (progress id [] fs) as Hp0.
  { split_and!; try done. exists (files (world fs)). split; [by left|apply reaped_refl]. }
  unfold size_edits in Hok. destruct (sa_size sa) as [size|]; [|by apply Hok].
  unfold setattr_size. apply wp_bind, wp_reopen; [done| |by apply Hnl| |].
  { apply existing_flag. set_solver. }
  2:{ intros. by apply Herr, progress_same. }
  intros fd w o Hs1 Hv1 Hun Ho Hop. unfold opens in Hop. rewrite decide_False in Hop by done.
  destruct Hop as (d & k & Hloc & ->). assert (files w = files (world fs)) as Hf by (by apply (f_equal v_files) in Hv1).
  apply wp_bind. unfold wp at 1, attempt, syscall. pose proof (pl_ftruncate fd (as_i64 size) w) as Hl. simpl.
  destruct (sys_ftruncate fd (as_i64 size) w) as [[[]|e] w1]; cbn [fst snd]; apply wp_bind;
    change (mkFs _ w1 (inodes fs) (fhandles fs)) with (put_world w1 (put_world w fs)).
  - destruct Hl as (Hfd1 & _ & o' & Ho' & Hf1). assert (o' = mkOpenFile k (has O_APPEND O_WRONLY)) as -> by congruence.
    apply wp_close; [by apply sane_put|done|]. intros w2 Hs2 Hrp Hfd2 Hv2. apply wp_ret, Hok. split_and!; [done|done|..].
    + etransitivity; [apply (f_equal v_handles Hv2)|]. rewrite view_put by done. by rewrite Hv1.
    + apply Forall_singleton, keeps_edit_data.
    + exists (files w1). split; [|done]. right. exists d, k. split; [done|]. by rewrite Hf1, Hf.
  - apply wp_close; [apply sane_put, Hl; done|done|]. intros w2 Hs2 Hrp Hfd2 Hv2. apply Herr. split_and!; [done|done|..].
    + etransitivity; [apply (f_equal v_handles Hv2)|]. rewrite view_same by done. by rewrite Hv1.
    + constructor.
    + exists (files w1). split; [|done]. left. split; [done|]. destruct Hl as [-> _]. by rewrite Hf.
Qed.

Section ByName.
Context (id : Z) (sa : SetAttr) (d pd : InodeData) (l : list (node → node)) (fs' : PassthroughFs).
Context (Hd : by_id (inodes fs) !! id = Some d) (Hpd : by_id (inodes fs) !! default ROOT_ID (i_parent d) = Some pd).
Context (Hp : progress id l fs') (Hpl : plain (i_name d)).

Lemma wp_setattr_mode (Q : outcome FsError unit → PassthroughFs → Prop) :
  (∀ fs2, progress id (l ++ mode_edits sa) fs2 → Q (Ok tt) fs2) → (∀ e fs2, progress id l fs2 → Q (Err e) fs2) →
  wp (setattr_mode (i_fd pd) (i_name d) sa) Q fs'.
Proof.
  intros Hok Herr. unfold setattr_mode, mode_edits in *. destruct (sa_mode sa) as [mode|].
  - eapply wp_syscall; [by apply pl_fchmodat| |].
    + intros [] w (Hfd & kd & k & Hden & Hf). apply Hok. eapply progress_edit; try done. apply keeps_set_perm.
    + intros e w Hw. by apply Herr, progress_same.
  - apply wp_ret, Hok. by rewrite app_nil_r.
Qed.

Lemma wp_setattr_owner (Q : outcome FsError unit → PassthroughFs → Prop) :
  (∀ fs2, progress id (l ++ owner_edits sa) fs2 → Q (Ok tt) fs2) → (∀ e fs2, progress id l fs2 → Q (Err e) fs2) →
  wp (setattr_owner (i_fd pd) (i_name d) sa) Q fs'.
Proof.
  intros Hok Herr. unfold setattr_owner, owner_edits in *.
  assert (∀ u g, (∀ fs2, progress id (l ++ [owner_edit u g]) fs2 → Q (Ok tt) fs2) →
    wp (syscall (sys_fchownat (i_fd pd) (i_name d) (default U32_MAX u) (default U32_MAX g) AT_SYMLINK_NOFOLLOW)) Q fs') as Hgo.
  { intros u g Hok'. eapply wp_syscall; [by apply pl_fchownat| |].
    - intros [] w (Hfd & kd & k & Hden & Hf). apply Hok'. eapply progress_edit; try done.
      apply (keeps_set_owner (λ n, (_, _))).
    - intros e w Hw. by apply Herr, progress_same. }
  destruct (sa_uid sa) as [u|], (sa_gid sa) as [g|]; cbn -[U32_MAX]; [apply (Hgo (Some u) (Some g))|apply (Hgo (Some u) None)|apply (Hgo None (Some g))|]; try done.
  apply wp_ret, Hok. by rewrite app_nil_r.
Qed.

Lemma wp_setattr_times (Q : outcome FsError unit → PassthroughFs → Prop) :
  (∀ r fs2, r ≠ Panic → progress id l fs2 → Q r fs2) → wp (setattr_times (i_fd pd) (i_name d) sa) Q fs'.
Proof.
  intros HQ. unfold setattr_times. destruct (_ || _); [|by apply wp_ret, HQ].
  eapply wp_syscall; [apply pl_utimensat|..]; intros; by apply HQ, progress_same.
Qed.
End ByName.

Lemma setattr_finishes id sa fs' :
  progress id (edits sa) fs' →
  wp (PassthroughFs_getattr id) (λ r fs2, achieves (view fs) (FSetattr id sa)
    (match r with Ok a => Ok (RAttr a) | Err e => Err e | Panic => Panic end) fs2) fs'.
Proof.
  intros Hp. pose proof Hp as (Hs2 & _ & _ & _ & t & Hch & Hrp). apply wp_getattr; [done|..].
  - intros attr w Hw (k & n & Hf & Hn & Ha). eapply achieves_reaped; [by apply sane_put, Hw| |].
    + simpl. destruct Hw as [-> ->]. exact Hrp.
    + rewrite view_same by done. rewrite (progress_view _ _ _ _ Hp). constructor; [done|].
      exists k, n. split_and!; [|by eapply lookup_weaken, Hrp|done].
      rewrite <- Hf. change (file_of (view fs') id) with (file_of (set_files t (view fs')) id).
      by rewrite (progress_view _ _ _ _ Hp).
  - intros e w Hw. by eapply progress_fail; [apply progress_same|].
Qed.

Lemma no_edits_by_name sa : setattr_by_name sa = false → edits sa = size_edits sa.
Proof.
  unfold setattr_by_name, edits, mode_edits, owner_edits. rewrite !orb_false_iff, !bool_decide_eq_false, <- !eq_None_not_Some.
  intros [[[[-> ->] ->] _] _]. by rewrite !app_nil_r.
Qed.

Lemma refines_setattr id sa :
  id ≠ ROOT_ID → (is_Some (sa_size sa) → no_link (view fs) id) → refines (FSetattr id sa).
Proof.
  intros Hne Hnl. apply wp_returns. unfold PassthroughFs_setattr. apply wp_bind, wp_inode; [|fails]. intros d Hd.
  assert (∀ l e fs', progress id l fs' → l `prefix_of` edits sa → achieves (view fs) (FSetattr id sa) (Err e) fs') as Hfail.
  { intros. by eapply progress_fail. }
  assert (size_edits sa `prefix_of` edits sa) as Hpre1 by by eexists.
  assert (size_edits sa ++ mode_edits sa `prefix_of` edits sa) as Hpre2.
  { exists (owner_edits sa). by rewrite <- app_assoc. }
  apply wp_bind, wp_setattr_size; [done|done| |by eauto using prefix_nil].
  intros fs1 Hp1. apply wp_bind. destruct (setattr_by_name sa) eqn:Hby.
  2:{ apply wp_ret, setattr_finishes. by rewrite no_edits_by_name. }
  pose proof Hp1 as (Hs1 & Hi1 & _). apply wp_bind.
  eapply (wp_parent_fd_name id d); [done|by rewrite Hi1|done| |by eauto]. intros pd Hpd. rewrite Hi1 in Hpd. cbn [fst snd].
  assert (plain (i_name d)) as Hpl by by eapply (sn_names _ _ _ Hs).
  apply wp_bind. eapply wp_setattr_mode; [done..| |by eauto]. intros fs2 Hp2.
  apply wp_bind. eapply wp_setattr_owner; [done..| |by eauto]. intros fs3 Hp3. rewrite <- app_assoc in Hp3.
  eapply wp_setattr_times; [done|]. intros [[]|e|] fs4 Hnp Hp4; [by apply setattr_finishes|by eauto|done].
Qed.

(** ** Every operation *)

Theorem exec_op_refines op : proper (view fs) op → refines op.
Proof.
  destruct op; simpl proper; intros Hp.
  - by apply refines_lookup.
  - by apply refines_forget.
  - apply refines_getattr.
  - by apply refines_setattr; [apply Hp|apply Hp].
  - by apply refines_mkdir.
  - by apply refines_create; apply Hp.
  - by apply refines_unlink.
  - by apply refines_rmdir.
  - by apply refines_rename; apply Hp.
  - by apply refines_symlink.
  - by apply refines_readlink.
  - by apply refines_link; apply Hp.
  - by apply refines_open; apply Hp.
  - apply refines_read.
  - apply refines_write.
  - apply refines_readv.
  - apply refines_writev.
  - apply refines_fsync.
  - apply refines_drop. by constructor.
  - by apply refines_opendir.
  - apply refines_readdir.
  - apply refines_drop. by constructor.
  - apply refines_statfs.
Qed.
End Refines.
