(* ===== verification/FsErrors.v ===== *)
(** * Where errors come from

    [calls] is the table of the host calls each operation makes.  An operation fails because one of
    its calls did, with the number the host reported, because it names or goes to an inode or a
    handle that is not there, or because a name has a NUL in it.  Nothing is assumed of the
    host. *)

From S2P Require Import Prelude Libc Errors Bytes Attr Wire Inode Handle Host ToyHost Passthrough FsProps Posix GuestView.
Local Open Scope Z_scope.

(** ** The calls of an operation *)

Inductive HostCall :=
| COpenat (d : Z) (name : bytes) (flags : Z) (mode : option Z)
| CDupfd (fd : Z)
| CFstat (fd : Z)
| CFstatat (d : Z) (name : bytes) (flags : Z)
| CFstatvfs (fd : Z)
| CMkdirat (d : Z) (name : bytes) (mode : Z)
| CUnlinkat (d : Z) (name : bytes) (flags : Z)
| CRenameat (d : Z) (name : bytes) (d' : Z) (name' : bytes)
| CSymlinkat (target : bytes) (d : Z) (name : bytes)
| CReadlinkat (d : Z) (name : bytes) (size : nat)
| CLinkat (d : Z) (name : bytes) (d' : Z) (name' : bytes) (flags : Z)
| CFchmodat (d : Z) (name : bytes) (mode flags : Z)
| CFchownat (d : Z) (name : bytes) (uid gid flags : Z)
| CUtimensat (d : Z) (name : bytes) (times : (Z * Z) * (Z * Z)) (flags : Z)
| CFtruncate (fd size : Z)
| CPread (fd : Z) (size : nat) (offset : Z)
| CPwrite (fd : Z) (data : bytes) (offset : Z)
| CPreadv (fd : Z) (iov : list nat) (offset : Z)
| CPwritev (fd : Z) (iov : list bytes) (offset : Z)
| CFsync (fd : Z)
| CDirFromFd (fd : Z)
| CDirIter (fd : Z).

Section Reasons.
Context `{Libc, HashOrder, Host}.

(** A call made in [w] fails with the number [n] and leaves [w']. *)
Definition failed (c : HostCall) (n : Z) (w w' : World) : Prop :=
  match c with
  | COpenat d nm f m => sys_openat d nm f m w = (inr n, w')
  | CDupfd fd => sys_dupfd_cloexec fd w = (inr n, w')
  | CFstat fd => sys_fstat fd w = (inr n, w')
  | CFstatat d nm f => sys_fstatat d nm f w = (inr n, w')
  | CFstatvfs fd => sys_fstatvfs fd w = (inr n, w')
  | CMkdirat d nm m => sys_mkdirat d nm m w = (inr n, w')
  | CUnlinkat d nm f => sys_unlinkat d nm f w = (inr n, w')
  | CRenameat d nm d' nm' => sys_renameat d nm d' nm' w = (inr n, w')
  | CSymlinkat t d nm => sys_symlinkat t d nm w = (inr n, w')
  | CReadlinkat d nm l => sys_readlinkat d nm l w = (inr n, w')
  | CLinkat d nm d' nm' f => sys_linkat d nm d' nm' f w = (inr n, w')
  | CFchmodat d nm m f => sys_fchmodat d nm m f w = (inr n, w')
  | CFchownat d nm u g f => sys_fchownat d nm u g f w = (inr n, w')
  | CUtimensat d nm t f => sys_utimensat d nm t f w = (inr n, w')
  | CFtruncate fd l => sys_ftruncate fd l w = (inr n, w')
  | CPread fd l o => sys_pread fd l o w = (inr n, w')
  | CPwrite fd b o => sys_pwrite fd b o w = (inr n, w')
  | CPreadv fd l o => sys_preadv fd l o w = (inr n, w')
  | CPwritev fd b o => sys_pwritev fd b o w = (inr n, w')
  | CFsync fd => sys_fsync fd w = (inr n, w')
  | CDirFromFd fd => nix_dir_from_fd fd w = (inr n, w')
  | CDirIter fd => ∃ l, nix_dir_iter fd w = (l, w') ∧ inr n ∈ l
  end.

(** The descriptor of a tracked inode, the place a tracked inode is believed to be at, the
    descriptor of an open file. *)
Definition of_inode (i : InodeStore) (id : Z) (P : Z → Prop) : Prop :=
  ∃ d, by_id i !! id = Some d ∧ P (i_fd d).
Definition at_place (i : InodeStore) (id : Z) (P : Z → bytes → Prop) : Prop :=
  ∃ d pd, by_id i !! id = Some d ∧ by_id i !! default ROOT_ID (i_parent d) = Some pd ∧ P (i_fd pd) (i_name d).
Definition of_handle (h : HandleStore) (id : Z) (P : Z → Prop) : Prop :=
  ∃ fd, handles h !! id = Some (HFile fd) ∧ P fd.

(** Looking up a name; opening an inode again. *)
Definition looks (fd : Z) (name : bytes) (c : HostCall) : Prop :=
  c = CFstatat fd name AT_SYMLINK_NOFOLLOW ∨ ∃ dir link, c = COpenat fd name (reference_open_flags dir link) None.
Definition reopens (i : InodeStore) (id flags : Z) (c : HostCall) : Prop :=
  if decide (id = ROOT_ID) then of_inode i id (λ fd, c = CDupfd fd)
  else at_place i id (λ fd n, c = COpenat fd n flags None).

(** The calls an operation makes. *)
Definition calls (i : InodeStore) (h : HandleStore) (op : FsOp) (c : HostCall) : Prop :=
  match op with
  | FLookup p n => of_inode i p (λ fd, looks fd n c)
  | FForget _ _ | FRelease _ | FReleasedir _ => False
  | FGetattr id => of_inode i id (λ fd, c = CFstat fd)
  | FSetattr id sa =>
      (∃ size, sa_size sa = Some size ∧ (reopens i id O_WRONLY c ∨ ∃ fd, c = CFtruncate fd (as_i64 size))) ∨
      at_place i id (λ fd n,
        (∃ mode, sa_mode sa = Some mode ∧ c = CFchmodat fd n (wrap MODE_T_BITS mode) AT_SYMLINK_NOFOLLOW) ∨
        (is_Some (sa_uid sa) ∨ is_Some (sa_gid sa)) ∧
          c = CFchownat fd n (default U32_MAX (sa_uid sa)) (default U32_MAX (sa_gid sa)) AT_SYMLINK_NOFOLLOW ∨
        (is_Some (sa_atime sa) ∨ is_Some (sa_mtime sa)) ∧
          c = CUtimensat fd n (to_ts (sa_atime sa), to_ts (sa_mtime sa)) AT_SYMLINK_NOFOLLOW) ∨
      of_inode i id (λ fd, c = CFstat fd)
  | FMkdir p n m => of_inode i p (λ fd, c = CMkdirat fd n (wrap MODE_T_BITS m) ∨ looks fd n c)
  | FCreate p n f m =>
      of_inode i p (λ fd, c = COpenat fd n (Z.lor (Z.lor f O_CREAT) O_EXCL) (Some m) ∨ looks fd n c)
  | FUnlink p n => of_inode i p (λ fd, c = CUnlinkat fd n 0)
  | FRmdir p n => of_inode i p (λ fd, c = CUnlinkat fd n AT_REMOVEDIR)
  | FRename p n p' n' => of_inode i p (λ fd, of_inode i p' (λ fd', c = CRenameat fd n fd' n'))
  | FSymlink p n t => of_inode i p (λ fd, c = CSymlinkat t fd n ∨ looks fd n c)
  | FReadlink id => at_place i id (λ fd n, c = CReadlinkat fd n 4096)
  | FLink id p n =>
      of_inode i p (λ fd', if decide (target_os = Linux)
                           then of_inode i id (λ fd, c = CLinkat fd [] fd' n AT_EMPTY_PATH)
                           else at_place i id (λ fd nm, c = CLinkat fd nm fd' n 0)) ∨
      of_inode i id (λ fd, c = CFstat fd)
  | FOpen id f => reopens i id f c
  | FRead hd o n => of_handle h hd (λ fd, c = CPread fd n (as_i64 o))
  | FWrite hd o b => of_handle h hd (λ fd, c = CPwrite fd b (as_i64 o))
  | FReadVectored hd o v => of_handle h hd (λ fd, c = CPreadv fd v (as_i64 o))
  | FWriteVectored hd o v => of_handle h hd (λ fd, c = CPwritev fd v (as_i64 o))
  | FFsync hd => of_handle h hd (λ fd, c = CFsync fd)
  | FOpendir id => reopens i id (Z.lor O_RDONLY O_DIRECTORY) c ∨ ∃ fd, c = CDirFromFd fd
  | FReaddir hd => ∃ fd, handles h !! hd = Some (HDir fd) ∧ c = CDirIter fd
  | FStatfs id => of_inode i id (λ fd, c = CFstatvfs fd)
  end.

(** ** Reasons *)

(** The inodes an operation reaches through the place they are believed to be at. *)
Definition op_places (op : FsOp) : list Z :=
  match op with
  | FSetattr i _ | FReadlink i | FOpen i _ | FOpendir i => [i]
  | FLink i _ _ => if decide (target_os = Linux) then [] else [i]
  | _ => []
  end.

(** Why an operation failed with [e], the kernel left as [wf]: a call of its own failed and was the
    last, but for closing a temporary descriptor; an inode it names, or the parent of one it goes
    to by place, is not tracked; its handle is not open or of the other kind; a name it was given,
    or the name of an inode it goes to by place, has a NUL in it. *)
Inductive explained (i : InodeStore) (h : HandleStore) (op : FsOp) (wf : World) : FsError → Prop :=
| why_host c n w w' :
    calls i h op c → failed c n w w' → wf = w' ∨ (∃ fd, wf = sys_close fd w') →
    explained i h op wf (Io n (Os n))
| why_inode id :
    by_id i !! id = None →
    id ∈ op_inodes op ∨ (∃ id' d, id' ∈ op_places op ∧ by_id i !! id' = Some d ∧ id = default ROOT_ID (i_parent d)) →
    explained i h op wf (UnknownInode id)
| why_handle id : id ∈ op_handles op → handles h !! id = None → explained i h op wf (UnknownHandle id)
| why_kind id d what :
    id ∈ op_handles op → handles h !! id = Some d →
    (match op with FReaddir _ => ∃ fd, d = HFile fd | _ => ∃ fd, d = HDir fd end) →
    explained i h op wf (InvalidArgument what)
| why_name n what :
    n ∈ op_names op ∨ (∃ id d, id ∈ op_places op ∧ by_id i !! id = Some d ∧ i_name d = n) → NUL ∈ n →
    explained i h op wf (InvalidArgument what).
End Reasons.

(** * Lemmas *)

Section Blame.
Context `{Libc, HashOrder, Host}.
Context (i0 : InodeStore) (h0 : HandleStore) (op : FsOp).

(** A part of the operation that leaves the tables alone, and whose errors have a reason. *)
Definition blames {A} (m : M PassthroughFs FsError A) (P : A → Prop) : Prop :=
  ∀ fs, inodes fs = i0 → fhandles fs = h0 →
  match m fs with
  | (Ok a, fs') => inodes fs' = i0 ∧ fhandles fs' = h0 ∧ P a
  | (Err e, fs') => explained i0 h0 op (world fs') e
  | (Panic, _) => True
  end.

(** The last part of the operation. *)
Definition ends {A} (m : M PassthroughFs FsError A) : Prop :=
  ∀ fs, inodes fs = i0 → fhandles fs = h0 → ∀ e, (m fs).1 = Err e → explained i0 h0 op (world (m fs).2) e.

Lemma blames_ends {A} (m : M PassthroughFs FsError A) P : blames m P → ends m.
Proof. intros Hm fs Hi Hh e. specialize (Hm fs Hi Hh). destruct (m fs) as [[a|e'|] fs']; simpl; by intros [= <-]. Qed.

Lemma ends_bind {A B} (m : M PassthroughFs FsError A) (k : A → M PassthroughFs FsError B) P :
  blames m P → (∀ a, P a → ends (k a)) → ends (m ≫= k).
Proof.
  intros Hm Hk fs Hi Hh e. specialize (Hm fs Hi Hh). rewrite M_bind_run. destruct (m fs) as [[a|e'|] fs']; [|by intros [= <-]|done].
  destruct Hm as (Hi' & Hh' & HP). by apply (Hk a HP).
Qed.

Lemma blames_bind {A B} (m : M PassthroughFs FsError A) (k : A → M PassthroughFs FsError B) P Q :
  blames m P → (∀ a, P a → blames (k a) Q) → blames (m ≫= k) Q.
Proof.
  intros Hm Hk fs Hi Hh. specialize (Hm fs Hi Hh). rewrite M_bind_run. destruct (m fs) as [[a|e'|] fs']; [|done|done].
  destruct Hm as (Hi' & Hh' & HP). by apply (Hk a HP).
Qed.

Lemma blames_ret {A} (a : A) (P : A → Prop) : P a → blames (mret a) P.
Proof. by intros HP fs Hi Hh. Qed.

Lemma blames_syscall {A} c (call : World → (A + Z) * World) :
  calls i0 h0 op c → (∀ n w w', call w = (inr n, w') → failed c n w w') → blames (syscall call) any.
Proof.
  intros Hc Hf fs Hi Hh. unfold syscall. destruct (call (world fs)) as [[a|n] w] eqn:E; [done|].
  apply (why_host _ _ _ _ c n (world fs) w); [done|by apply Hf|by left].
Qed.

Lemma blames_inode id :
  id ∈ op_inodes op ∨ (∃ id' d, id' ∈ op_places op ∧ by_id i0 !! id' = Some d ∧ id = default ROOT_ID (i_parent d)) →
  blames (PassthroughFs_inode id) (λ d, by_id i0 !! id = Some d).
Proof.
  intros Hop [w i h] Hi Hh. simpl in *. subst. unfold PassthroughFs_inode, with_inodes, zoom, InodeStore_get. simpl.
  destruct (by_id i0 !! id) as [d|] eqn:Hd; [done|]. by constructor.
Qed.

Lemma blames_name n :
  n ∈ op_names op ∨ (∃ id d, id ∈ op_places op ∧ by_id i0 !! id = Some d ∧ i_name d = n) →
  blames (lift (to_cstring n)) (λ cn, cn = n).
Proof.
  intros Hn fs Hi Hh. unfold lift, to_cstring. case_bool_decide; [|done]. by eapply why_name.
Qed.

Lemma blames_file h :
  h ∈ op_handles op → (∀ h', op ≠ FReaddir h') → blames (with_file h) (λ fd, handles h0 !! h = Some (HFile fd)).
Proof.
  intros Hop Hne fs Hi Hh. unfold with_file, HandleStore_with_file. rewrite Hh.
  destruct (handles h0 !! h) as [[fd|fd]|] eqn:E; [done| |by constructor].
  eapply why_kind; [done|done|]. destruct op; try by eexists. by destruct (Hne handle).
Qed.

Lemma blames_dir h : op = FReaddir h → blames (with_dir h) (λ fd, handles h0 !! h = Some (HDir fd)).
Proof.
  intros Hop fs Hi Hh. unfold with_dir, HandleStore_with_dir. rewrite Hh, Hop.
  destruct (handles h0 !! h) as [[fd|fd]|] eqn:E; [|done|].
  - eapply why_kind; [by apply list_elem_of_singleton|done|]. by eexists.
  - constructor; [by apply list_elem_of_singleton|done].
Qed.

Lemma blames_parent d id :
  id ∈ op_places op → by_id i0 !! id = Some d →
  blames (parent_fd_name d) (λ pn, ∀ P : Z → bytes → Prop, P pn.1 pn.2 → at_place i0 id P).
Proof.
  intros Hop Hd. unfold parent_fd_name. eapply blames_bind; [apply blames_inode; right; eauto|]. intros pd Hpd.
  eapply blames_bind; [apply blames_name; right; eauto|]. intros n ->. apply blames_ret. intros P HP. by exists d, pd.
Qed.

(** ** Parts of operations *)

Lemma blames_reopen id flags :
  id ∈ op_inodes op → id ∈ op_places op → (∀ c, reopens i0 id flags c → calls i0 h0 op c) →
  blames (reopen_via_parent id flags) any.
Proof.
  intros Hop Hpl Hc. unfold reopen_via_parent. eapply blames_bind; [apply blames_inode; by left|]. intros d Hd.
  destruct (Z.eqb_spec id ROOT_ID) as [Hr|Hr].
  - apply (blames_syscall (CDupfd (i_fd d))); [|done]. apply Hc. unfold reopens. rewrite decide_True by done. by exists d.
  - eapply blames_bind; [by eapply blames_parent|]. intros pn Hpn.
    apply (blames_syscall (COpenat pn.1 pn.2 flags None)); [|done]. apply Hc. unfold reopens.
    rewrite decide_False by done. by apply Hpn.
Qed.

Lemma blames_open_child fd n :
  (∀ c, looks fd n c → calls i0 h0 op c) → blames (open_child fd n) any.
Proof.
  intros Hc. unfold open_child.
  eapply blames_bind; [apply (blames_syscall (CFstatat fd n AT_SYMLINK_NOFOLLOW)); [by apply Hc; left|done]|]. intros st _.
  eapply blames_bind; [|intros fd' _; by apply blames_ret].
  eapply (blames_syscall (COpenat fd n (reference_open_flags _ _) None)); [|done]. apply Hc. right. by eexists _, _.
Qed.

Lemma ends_lookup p n :
  store_ok i0 → roomy i0 → p ∈ op_inodes op → n ∈ op_names op →
  (∀ d, by_id i0 !! p = Some d → ∀ c, looks (i_fd d) n c → calls i0 h0 op c) → ends (PassthroughFs_lookup p n).
Proof.
  intros Hs Hr Hp Hn Hc. unfold PassthroughFs_lookup. eapply ends_bind; [apply blames_inode; by left|]. intros d Hd.
  eapply ends_bind; [by apply blames_name; left|]. intros cn ->.
  eapply ends_bind; [by apply blames_open_child, Hc|]. intros [fd st] _.
  intros [w1 i1 h1] Hi1 Hh1 e'. simpl in *. subst. rewrite M_bind_run. unfold register_inode, with_inodes, zoom. rewrite M_bind_run.
  simpl. by destruct (register_ok i0 p n fd st Hs Hr) as (d' & dr & s' & -> & _).
Qed.

Lemma ends_getattr id :
  id ∈ op_inodes op → (∀ d, by_id i0 !! id = Some d → calls i0 h0 op (CFstat (i_fd d))) → ends (PassthroughFs_getattr id).
Proof.
  intros Hop Hc. unfold PassthroughFs_getattr. eapply ends_bind; [apply blames_inode; by left|]. intros d Hd.
  eapply ends_bind; [by apply (blames_syscall (CFstat (i_fd d))); [apply Hc|]|]. intros st _.
  eapply blames_ends. by apply (blames_ret _ any).
Qed.

Lemma ends_insert data : ends (insert_handle data).
Proof.
  intros fs Hi Hh e. unfold insert_handle, with_handles, zoom. rewrite M_bind_run.
  by destruct (HandleStore_insert data (fhandles fs)) as [[id dr] s].
Qed.

Lemma ends_drop id : id ∈ op_handles op → ends (drop_handle id).
Proof.
  intros Hid fs Hi Hh e. unfold drop_handle, with_handles, zoom, HandleStore_remove. rewrite M_bind_run, Hh.
  destruct (handles h0 !! id) eqn:E; simpl; [done|]. intros [= <-]. by constructor.
Qed.

Lemma ends_file {A} id c (k : Z → World → (A + Z) * World) :
  id ∈ op_handles op → (∀ hd, op ≠ FReaddir hd) →
  (∀ fd, handles h0 !! id = Some (HFile fd) → calls i0 h0 op (c fd)) →
  (∀ fd n w w', k fd w = (inr n, w') → failed (c fd) n w w') → ends (fd ← with_file id; syscall (k fd)).
Proof.
  intros Hid Hne Hc Hk. eapply ends_bind; [by apply blames_file|]. intros fd Hfd.
  eapply blames_ends, (blames_syscall (c fd)); [by apply Hc|apply Hk].
Qed.

Lemma blames_setattr_size id size :
  id ∈ op_inodes op → id ∈ op_places op → (∀ c, reopens i0 id O_WRONLY c → calls i0 h0 op c) →
  (∀ fd, calls i0 h0 op (CFtruncate fd (as_i64 size))) → blames (setattr_size id size) any.
Proof.
  intros Hop Hpl Hr Ht. unfold setattr_size. eapply blames_bind; [by apply blames_reopen|]. intros fd _ fs Hi Hh.
  rewrite M_bind_run. unfold attempt, syscall. destruct (sys_ftruncate fd _ (world fs)) as [[[]|n] w] eqn:E; [done|].
  simpl. apply (why_host _ _ _ _ (CFtruncate fd (as_i64 size)) n (world fs) w); [done|done|]. right. by exists fd.
Qed.

(** An operation on a name in a directory: a call, then the rest. *)
Lemma ends_named {A B} p n c (call : Z → bytes → World → (A + Z) * World) (k : InodeData → A → M PassthroughFs FsError B) :
  p ∈ op_inodes op → n ∈ op_names op → (∀ d, by_id i0 !! p = Some d → calls i0 h0 op (c (i_fd d))) →
  (∀ fd x w w', call fd n w = (inr x, w') → failed (c fd) x w w') → (∀ d a, ends (k d a)) →
  ends (d ← PassthroughFs_inode p; cn ← lift (to_cstring n); a ← syscall (call (i_fd d) cn); k d a).
Proof.
  intros Hp Hn Hc Hf Hk. eapply ends_bind; [apply blames_inode; by left|]. intros d Hd.
  eapply ends_bind; [by apply blames_name; left|]. intros cn ->.
  eapply ends_bind; [apply (blames_syscall (c (i_fd d))); [by apply Hc|apply Hf]|]. intros a _. apply Hk.
Qed.

Lemma ends_named' {A} p n c (call : Z → bytes → World → (A + Z) * World) :
  p ∈ op_inodes op → n ∈ op_names op → (∀ d, by_id i0 !! p = Some d → calls i0 h0 op (c (i_fd d))) →
  (∀ fd x w w', call fd n w = (inr x, w') → failed (c fd) x w w') →
  ends (d ← PassthroughFs_inode p; cn ← lift (to_cstring n); syscall (call (i_fd d) cn)).
Proof.
  intros Hp Hn Hc Hf. eapply ends_bind; [apply blames_inode; by left|]. intros d Hd.
  eapply ends_bind; [by apply blames_name; left|]. intros cn ->.
  eapply blames_ends, (blames_syscall (c (i_fd d))); [by apply Hc|apply Hf].
Qed.

Lemma ends_returns {A} (f : A → FsRet) m : ends m → ends (returns f m).
Proof.
  intros Hm fs Hi Hh e. unfold returns. rewrite M_bind_run. specialize (Hm fs Hi Hh).
  destruct (m fs) as [[a|e'|] fs']; simpl in *; [done| |done]. intros [= <-]. by apply Hm.
Qed.
End Blame.

Section Ops.
Context `{Libc, HashOrder, Host}.
Context (i : InodeStore) (h : HandleStore) (Hs : store_ok i) (Hr : roomy i).

Ltac here := cbv beta in *; eexists; split; [eassumption|cbv beta; eauto].
Ltac mine := intros; unfold calls, of_inode, of_handle; solve [here | left; here | right; here | right; right; here].

Lemma ends_setattr id sa : ends i h (FSetattr id sa) (PassthroughFs_setattr id sa).
Proof.
  unfold PassthroughFs_setattr. eapply ends_bind; [apply blames_inode; left; set_solver|]. intros d Hd.
  eapply (ends_bind _ _ _ _ _ any).
  { destruct (sa_size sa) as [size|] eqn:Hsz; [|by apply blames_ret].
    apply blames_setattr_size; [set_solver..| |]; intros; left; eauto. }
  intros _ _. eapply (ends_bind _ _ _ _ _ any); [|intros _ _; apply ends_getattr; [set_solver|]; intros d' Hd'; mine].
  destruct (setattr_by_name sa); [|by apply blames_ret].
  eapply blames_bind; [eapply (blames_parent _ _ _ d id); [set_solver|done]|]. intros [fd n] Hat. simpl.
  eapply (blames_bind _ _ _ _ _ any).
  { unfold setattr_mode. destruct (sa_mode sa) as [m|] eqn:Hm; [|by apply blames_ret].
    eapply (blames_syscall _ _ _ (CFchmodat _ _ _ _)); [|done]. right; left. apply Hat. eauto. }
  intros _ _. eapply (blames_bind _ _ _ _ _ any).
  { unfold setattr_owner. destruct (_ || _) eqn:Ho; [|by apply blames_ret].
    eapply (blames_syscall _ _ _ (CFchownat _ _ _ _ _)); [|done]. right; left. apply Hat. right; left.
    apply orb_prop in Ho as [Ho%bool_decide_eq_true|Ho%bool_decide_eq_true]; eauto. }
  intros _ _. unfold setattr_times. destruct (_ || _) eqn:Ho; [|by apply blames_ret].
  eapply (blames_syscall _ _ _ (CUtimensat _ _ _ _)); [|done]. right; left. apply Hat. right; right.
  apply orb_prop in Ho as [Ho%bool_decide_eq_true|Ho%bool_decide_eq_true]; eauto.
Qed.

Lemma ends_link id p n : ends i h (FLink id p n) (PassthroughFs_link id p n).
Proof.
  unfold PassthroughFs_link. eapply ends_bind; [apply blames_inode; left; set_solver|]. intros d Hd.
  eapply ends_bind; [apply blames_inode; left; set_solver|]. intros pd Hpd.
  eapply ends_bind; [apply blames_name; left; set_solver|]. intros cn ->.
  eapply (ends_bind _ _ _ _ _ any); [|intros _ _; apply ends_getattr; [set_solver|intros d' Hd'; mine]].
  destruct (decide (target_os = Linux)) as [Hos|Hos].
  - eapply (blames_syscall _ _ _ (CLinkat _ _ _ _ _)); [|done]. left. exists pd. split; [done|].
    rewrite decide_True by done. by exists d.
  - eapply blames_bind; [eapply (blames_parent _ _ _ d id); [|done]|].
    { simpl. rewrite decide_False by done. set_solver. }
    intros pn Hat. eapply (blames_syscall _ _ _ (CLinkat _ _ _ _ _)); [|done]. left. exists pd. split; [done|].
    rewrite decide_False by done. by apply Hat.
Qed.

Lemma ends_readdir id : ends i h (FReaddir id) (PassthroughFs_readdir id).
Proof.
  unfold PassthroughFs_readdir. eapply ends_bind; [by apply blames_dir|]. intros fd Hfd fs Hi Hh e. rewrite M_bind_run.
  destruct (nix_dir_iter fd (world fs)) as [items w] eqn:E. unfold lift. simpl. rewrite readdir_entries_spec.
  destruct (stream_error items) as [n|] eqn:He; [|done]. intros [= <-].
  apply (why_host _ _ _ _ (CDirIter fd) n (world fs) w); [by exists fd| |by left]. exists items. split; [done|].
  unfold stream_error in He. apply head_Some_elem_of, list_elem_of_omap in He as ([x|x] & Hx & [= <-]). done.
Qed.

Lemma ends_opendir id : ends i h (FOpendir id) (PassthroughFs_opendir id).
Proof.
  unfold PassthroughFs_opendir. eapply ends_bind; [apply blames_reopen; [set_solver..|by left]|]. intros fd _.
  eapply (ends_bind _ _ _ _ _ any); [|intros _ _; apply ends_insert].
  intros fs Hi Hh. destruct (nix_dir_from_fd fd (world fs)) as [[[]|n] w] eqn:E; [done|].
  apply (why_host _ _ _ _ (CDirFromFd fd) n (world fs) w); [right; eauto|done|by left].
Qed.

Lemma ends_create p n flags mode : ends i h (FCreate p n flags mode) (PassthroughFs_create p n flags mode).
Proof.
  unfold PassthroughFs_create.
  apply (ends_named _ _ _ _ _ (λ d, COpenat d n (Z.lor (Z.lor flags O_CREAT) O_EXCL) (Some mode))
    (λ d cn, sys_openat d cn (Z.lor (Z.lor flags O_CREAT) O_EXCL) (Some mode))); [set_solver..|mine|done|].
  intros _ fd fs Hi Hh e. rewrite M_bind_run.
  assert (ends i h (FCreate p n flags mode) (PassthroughFs_lookup p n)) as Hl
    by (apply ends_lookup; [done..|set_solver|set_solver|intros d Hd c Hc; mine]).
  specialize (Hl fs Hi Hh). destruct (PassthroughFs_lookup p n fs) as [[[id a]|e'|] fs1]; simpl in Hl;
    [|intros [= <-]; by apply Hl|done].
  rewrite M_bind_run. unfold insert_handle, with_handles, zoom. rewrite M_bind_run.
  by destruct (HandleStore_insert (HFile fd) (fhandles fs1)) as [[hid dr] s].
Qed.

Lemma ends_rename p n p' n' : ends i h (FRename p n p' n') (PassthroughFs_rename p n p' n').
Proof.
  unfold PassthroughFs_rename. eapply ends_bind; [apply blames_inode; left; set_solver|]. intros d Hd.
  eapply ends_bind; [apply blames_inode; left; set_solver|]. intros d' Hd'.
  eapply ends_bind; [apply blames_name; left; set_solver|]. intros cn ->.
  eapply ends_bind; [apply blames_name; left; set_solver|]. intros cn' ->.
  eapply ends_bind; [eapply (blames_syscall _ _ _ (CRenameat (i_fd d) n (i_fd d') n')); [exists d; split; [done|by exists d']|done]|]. by intros _ _ fs Hi Hh e.
Qed.

Lemma ends_symlink p n t : ends i h (FSymlink p n t) (PassthroughFs_symlink p n t).
Proof.
  unfold PassthroughFs_symlink. eapply ends_bind; [apply blames_inode; left; set_solver|]. intros d Hd.
  eapply ends_bind; [apply blames_name; left; set_solver|]. intros cn ->.
  eapply ends_bind; [apply blames_name; left; set_solver|]. intros ct ->.
  eapply ends_bind; [eapply (blames_syscall _ _ _ (CSymlinkat t (i_fd d) n)); [mine|done]|]. intros _ _.
  apply ends_lookup; [done..|set_solver|set_solver|intros d' Hd' c Hc; mine].
Qed.

Lemma ends_readlink id : ends i h (FReadlink id) (PassthroughFs_readlink id).
Proof.
  unfold PassthroughFs_readlink. eapply ends_bind; [apply blames_inode; left; set_solver|]. intros d Hd.
  eapply ends_bind; [eapply (blames_parent _ _ _ d id); [set_solver|done]|]. intros pn Hat.
  eapply blames_ends, (blames_syscall _ _ _ (CReadlinkat _ _ _)); [|done]. by apply Hat.
Qed.

Lemma ends_exec op : ends i h op (exec_op op).
Proof.
  destruct op; apply ends_returns.
  - apply ends_lookup; [done..|set_solver|set_solver|intros d Hd c Hc; mine].
  - intros fs Hi Hh e. unfold PassthroughFs_forget, with_inodes, zoom. rewrite M_bind_run.
    by destruct (InodeStore_forget ino count (inodes fs)).
  - apply ends_getattr; [set_solver|intros d Hd; mine].
  - apply ends_setattr.
  - apply (ends_named _ _ _ _ _ (λ d, CMkdirat d name (wrap MODE_T_BITS mode)) (λ d cn, sys_mkdirat d cn (wrap MODE_T_BITS mode)));
      [set_solver..|mine|done|].
    intros _ _. apply ends_lookup; [done..|set_solver|set_solver|intros d Hd c Hc; mine].
  - apply ends_create.
  - apply (ends_named' _ _ _ _ _ (λ d, CUnlinkat d name 0) (λ d cn, sys_unlinkat d cn 0)); [set_solver..|mine|done].
  - apply (ends_named' _ _ _ _ _ (λ d, CUnlinkat d name AT_REMOVEDIR) (λ d cn, sys_unlinkat d cn AT_REMOVEDIR)); [set_solver..|mine|done].
  - apply ends_rename.
  - apply ends_symlink.
  - apply ends_readlink.
  - apply ends_link.
  - eapply ends_bind; [apply blames_reopen; [set_solver..|done]|]. intros fd _. apply ends_insert.
  - apply (ends_file _ _ _ _ (λ fd, CPread fd size (as_i64 offset))); [set_solver|done|mine|done].
  - apply (ends_file _ _ _ _ (λ fd, CPwrite fd data (as_i64 offset))); [set_solver|done|mine|done].
  - apply (ends_file _ _ _ _ (λ fd, CPreadv fd iov (as_i64 offset))); [set_solver|done|mine|done].
  - apply (ends_file _ _ _ _ (λ fd, CPwritev fd iov (as_i64 offset))); [set_solver|done|mine|done].
  - apply (ends_file _ _ _ _ (λ fd, CFsync fd)); [set_solver|done|mine|done].
  - apply ends_drop. set_solver.
  - apply ends_opendir.
  - apply ends_readdir.
  - apply ends_drop. set_solver.
  - eapply ends_bind; [apply blames_inode; left; set_solver|]. intros d Hd.
    eapply blames_ends, (blames_syscall _ _ _ (CFstatvfs (i_fd d))); [mine|done].
Qed.
End Ops.

(** * Properties *)

(** C32: an operation that fails has a reason of its own.  Either a call that this operation makes,
    on the descriptors and names it stands for, failed, was the last one but for closing a
    temporary descriptor, and its number is the error's, unchanged; or an inode the operation
    names, or the parent of one it goes to by its place, is not tracked; or its handle is not open
    or of the other kind; or a NUL in a name it was given, or in the name of the place it goes to,
    kept a call from being made.  Nothing is assumed of the host. *)
Theorem errors_explained `{Libc, HashOrder, Host} op fs e fs' :
  store_ok (inodes fs) → roomy (inodes fs) → exec_op op fs = (Err e, fs') →
  explained (inodes fs) (fhandles fs) op (world fs') e.
Proof.
  intros Hs Hr He. pose proof (ends_exec _ (fhandles fs) Hs Hr op fs eq_refl eq_refl e) as Hx.
  rewrite He in Hx. by apply Hx.
Qed.

#[local] Existing Instance linux_libc.
#[local] Existing Instance key_order.

(** Looking up a name that is not there. *)
Lemma errors_explained_witness :
  explained (inodes (toy_fs 8)) (fhandles (toy_fs 8)) (FLookup ROOT_ID name_b)
    (world (exec_op (FLookup ROOT_ID name_b) (toy_fs 8)).2) (Io 2 (Os 2)).
Proof.
  apply (errors_explained (FLookup ROOT_ID name_b) (toy_fs 8) (Io 2 (Os 2)) (exec_op (FLookup ROOT_ID name_b) (toy_fs 8)).2).
  - apply store_ok_new.
  - apply (toy_fs_roomy 8).
  - apply pair_fst. vm_compute. reflexivity.
Defined.
