(* ===== verification/Dispatch.v ===== *)
(** * Requests

    [fuse/dispatch.rs]: one definition per arm of [Session::handle].  A computation of an arm
    returns its reply, or leaves early with one ([try_fs!] and [try_parse!] return from the
    function), which is the error of the monad. *)

From S2P Require Import Prelude Libc Errors Bytes Attr Wire Inode Handle Host Passthrough.
Local Open Scope Z_scope.

Inductive Reply :=
| ReplyBytes (b : bytes)
| ReplyNone.

Record Session `{Host} := mkSession {
  s_fs : PassthroughFs;
  readdir_cache : gmap Z (list DirEntry);
}.

Definition dt_type (kind : FileKind) : Z :=
  match kind with
  | Dir => DT_DIR
  | Regular => DT_REG
  | Symlink => DT_LNK
  | Other => DT_UNKNOWN
  end.

Definition trim_nul (buf : bytes) : bytes :=
  match position NUL buf with
  | Some i => take i buf
  | None => buf
  end.

(** One call of the closure under [from_fn]: its captured state is what is left of the buffer and
    how often it was called. *)
Definition cstrs_next (st : bytes * nat) : option bytes * (bytes * nat) :=
  let '(rest, n) := st in
  if (2 <=? n)%nat then (None, (rest, n))
  else match position NUL rest with
       | None => (None, (rest, S n))
       | Some e => (Some (take e rest), (drop (S e) rest, S n))
       end.

(** The first two items of [split_two_cstrs]. *)
Definition split_two_cstrs (buf : bytes) : option bytes * option bytes :=
  let '(a, st) := cstrs_next (buf, O) in
  let '(b, _) := cstrs_next st in
  (a, b).

(** [iter().enumerate().skip(n)], for an [n] that may exceed the length. *)
Definition skip_z {A} (n : Z) (l : list A) : list A :=
  if n <? Z.of_nat (length l) then drop (Z.to_nat n) l else [].

Section Handle.
Context `{Libc, Build, HashOrder, Host}.

Abbreviation Arm := (M Session Reply).

Definition errno_reply (unique : Z) (e : FsError) : Reply :=
  ReplyBytes (OutHeader_error_for unique (FsError_errno e)).

Definition ok_reply (unique : Z) (body : bytes) : Reply :=
  ReplyBytes (OutHeader_reply unique 0 body).

Definition Session_new (fs : PassthroughFs) : Session := mkSession _ fs ∅.

(** The two macros of [handle]. *)
Definition try_fs {A} (unique : Z) (m : M PassthroughFs FsError A) : Arm A :=
  zoom s_fs (λ fs s, mkSession _ fs (readdir_cache s)) (map_errM (errno_reply unique) m).

Definition try_parse {A} (unique : Z) (r : outcome ProtoError A) : Arm A :=
  lift (map_err (λ _, ReplyBytes (OutHeader_error_for unique (errno_val EINVAL))) r).

(** [self.fs.forget(..)] has no result to look at. *)
Definition fs_forget (ino count : Z) : Arm unit :=
  zoom s_fs (λ fs s, mkSession _ fs (readdir_cache s))
       (λ fs, let '(r, fs) := PassthroughFs_forget ino count fs in
              (match r with Panic => Panic | _ => Ok tt end, fs)).

Definition handle_init (unique : Z) (body : bytes) : Arm Reply :=
  init ← try_parse unique (InitIn_from_bytes body);
  mret (ok_reply unique (init_out (ii_max_readahead init))).

Definition handle_forget (unique nodeid : Z) (body : bytes) : Arm Reply :=
  nlookup ← try_parse unique (ForgetIn_from_bytes body);
  _ ← fs_forget nodeid nlookup;
  mret ReplyNone.

Fixpoint forget_all (entries : list ForgetOne) : Arm unit :=
  match entries with
  | [] => mret tt
  | e :: entries => _ ← fs_forget (fo_nodeid e) (fo_nlookup e); forget_all entries
  end.

Definition handle_batch_forget (unique : Z) (body : bytes) : Arm Reply :=
  entries ← try_parse unique (parse_batch_forget body);
  _ ← forget_all entries;
  mret ReplyNone.

Definition handle_lookup (unique nodeid : Z) (body : bytes) : Arm Reply :=
  let name := trim_nul body in
  r ← try_fs unique (PassthroughFs_lookup nodeid name);
  mret (ok_reply unique (entry_out r.1 r.2)).

Definition handle_getattr (unique nodeid : Z) (body : bytes) : Arm Reply :=
  _ ← try_parse unique (GetattrIn_from_bytes body);
  attr ← try_fs unique (PassthroughFs_getattr nodeid);
  mret (ok_reply unique (attr_out attr)).

(** [SystemTime::now().duration_since(UNIX_EPOCH).unwrap_or_default()]. *)
Definition now : Arm (Z * Z) := λ s,
  let '(t, w) := sys_now (world (s_fs s)) in
  let '(secs, nanos) := default (0, 0) t in
  (Ok (as_i64 secs, nanos),
   mkSession _ (mkFs _ w (inodes (s_fs s)) (fhandles (s_fs s))) (readdir_cache s)).

(** A time of the request: now, the given one, or none. *)
Definition set_time (valid now_bit bit t nsec : Z) : Arm (option (Z * Z)) :=
  if negb (Z.land valid now_bit =? 0) then t ← now; mret (Some t)
  else if negb (Z.land valid bit =? 0) then mret (Some (as_i64 t, nsec))
  else mret None.

Definition handle_setattr (unique nodeid : Z) (body : bytes) : Arm Reply :=
  s ← try_parse unique (SetattrIn_from_bytes body);
  let field_of (bit v : Z) := if negb (Z.land (si_valid s) bit =? 0) then Some v else None in
  atime ← set_time (si_valid s) FATTR_ATIME_NOW FATTR_ATIME (si_atime s) (si_atimensec s);
  mtime ← set_time (si_valid s) FATTR_MTIME_NOW FATTR_MTIME (si_mtime s) (si_mtimensec s);
  let set := mkSetAttr (field_of FATTR_SIZE (si_size s)) (field_of FATTR_MODE (si_mode s))
                       (field_of FATTR_UID (si_uid s)) (field_of FATTR_GID (si_gid s))
                       atime mtime in
  attr ← try_fs unique (PassthroughFs_setattr nodeid set);
  mret (ok_reply unique (attr_out attr)).

Definition handle_readlink (unique nodeid : Z) : Arm Reply :=
  target ← try_fs unique (PassthroughFs_readlink nodeid);
  mret (ok_reply unique target).

Definition handle_symlink (unique nodeid : Z) (body : bytes) : Arm Reply :=
  match split_two_cstrs body with
  | (Some name, Some target) =>
      r ← try_fs unique (PassthroughFs_symlink nodeid name target);
      mret (ok_reply unique (entry_out r.1 r.2))
  | _ => throw (ReplyBytes (OutHeader_error_for unique (errno_val EINVAL)))
  end.

Definition handle_mkdir (unique nodeid : Z) (body : bytes) : Arm Reply :=
  m ← try_parse unique (MkdirIn_from_bytes body);
  r ← try_fs unique (PassthroughFs_mkdir nodeid m.2 m.1);
  mret (ok_reply unique (entry_out r.1 r.2)).

Definition handle_unlink (unique nodeid : Z) (body : bytes) : Arm Reply :=
  _ ← try_fs unique (PassthroughFs_unlink nodeid (trim_nul body));
  mret (ok_reply unique []).

Definition handle_rmdir (unique nodeid : Z) (body : bytes) : Arm Reply :=
  _ ← try_fs unique (PassthroughFs_rmdir nodeid (trim_nul body));
  mret (ok_reply unique []).

Definition handle_rename (unique nodeid : Z) (body : bytes) : Arm Reply :=
  r ← try_parse unique (RenameIn_from_bytes body);
  let '(newdir, old, new) := r in
  _ ← try_fs unique (PassthroughFs_rename nodeid old newdir new);
  mret (ok_reply unique []).

Definition handle_rename2 (unique nodeid : Z) (body : bytes) : Arm Reply :=
  r ← try_parse unique (RenameIn_from_bytes_v2 body);
  let '(newdir, old, new) := r in
  _ ← try_fs unique (PassthroughFs_rename nodeid old newdir new);
  mret (ok_reply unique []).

Definition handle_link (unique nodeid : Z) (body : bytes) : Arm Reply :=
  l ← try_parse unique (LinkIn_from_bytes body);
  attr ← try_fs unique (PassthroughFs_link l.1 nodeid l.2);
  mret (ok_reply unique (entry_out l.1 attr)).

Definition handle_open (unique nodeid : Z) (body : bytes) : Arm Reply :=
  flags ← try_parse unique (OpenIn_from_bytes body);
  handle ← try_fs unique (PassthroughFs_open nodeid (as_i32 flags));
  mret (ok_reply unique (open_out handle)).

Definition handle_create (unique nodeid : Z) (body : bytes) : Arm Reply :=
  c ← try_parse unique (CreateIn_from_bytes body);
  r ← try_fs unique (PassthroughFs_create nodeid c.2 (as_i32 (ci_flags c.1)) (ci_mode c.1));
  let '(ino, handle, attr) := r in
  mret (ok_reply unique (entry_out ino attr ++ open_out handle)).

Definition handle_read (unique : Z) (body : bytes) : Arm Reply :=
  r ← try_parse unique (ReadIn_from_bytes body);
  data ← try_fs unique (PassthroughFs_read (ri_fh r) (ri_offset r) (Z.to_nat (ri_size r)));
  mret (ok_reply unique data).

Definition handle_write (unique : Z) (body : bytes) : Arm Reply :=
  r ← try_parse unique (WriteIn_from_bytes body);
  let '(w, data) := r in
  let n := Z.min (wi_size w) (Z.of_nat (length data)) in
  written ← try_fs unique (PassthroughFs_write (wi_fh w) (wi_offset w) (take (Z.to_nat n) data));
  mret (ok_reply unique (write_out (as_u32 (Z.of_nat written)))).

Definition handle_flush (unique : Z) (body : bytes) : Arm Reply :=
  _ ← try_parse unique (FlushIn_from_bytes body);
  mret (ok_reply unique []).

Definition handle_fsync (unique : Z) (body : bytes) : Arm Reply :=
  fh ← try_parse unique (parse Reader_u64 body);
  _ ← try_fs unique (PassthroughFs_fsync fh);
  mret (ok_reply unique []).

Definition handle_release (unique : Z) (body : bytes) : Arm Reply :=
  fh ← try_parse unique (ReleaseIn_from_bytes body);
  _ ← try_fs unique (PassthroughFs_release fh);
  mret (ok_reply unique []).

Definition handle_opendir (unique nodeid : Z) (body : bytes) : Arm Reply :=
  _ ← try_parse unique (OpenIn_from_bytes body);
  handle ← try_fs unique (PassthroughFs_opendir nodeid);
  mret (ok_reply unique (open_out handle)).

(** The entries a READDIR serves: a fresh listing at offset 0 or when there is none, else the
    listing of the handle's first READDIR. *)
Definition readdir_listing (unique : Z) (r : ReadIn) : Arm (list DirEntry) :=
  cached ← gets (λ s, readdir_cache s !! ri_fh r);
  _ ← if (ri_offset r =? 0) || bool_decide (cached = None) then
        listing ← try_fs unique (PassthroughFs_readdir (ri_fh r));
        modify (λ s, mkSession _ (s_fs s) (<[ri_fh r := listing]> (readdir_cache s)))
      else mret tt;
  gets (λ s, default [] (readdir_cache s !! ri_fh r)).

(** The [for] loop: [i] is the index of the next entry. *)
Fixpoint fill_dirents {E} (size : Z) (i : Z) (entries : list DirEntry) (out : bytes)
    : outcome E bytes :=
  match entries with
  | [] => Ok out
  | entry :: entries =>
      off ← uadd 64 i 1;
      remaining ← usub 64 size (Z.of_nat (length out));
      let '(fit, out) := push_dirent out (Z.to_nat remaining) (de_ino entry) off
                                     (dt_type (de_kind entry)) (de_name entry) in
      if fit then fill_dirents size (i + 1) entries out else Ok out
  end.

Definition handle_readdir (unique : Z) (body : bytes) : Arm Reply :=
  r ← try_parse unique (ReadIn_from_bytes body);
  entries ← readdir_listing unique r;
  out ← lift (fill_dirents (ri_size r) (ri_offset r) (skip_z (ri_offset r) entries) []);
  mret (ok_reply unique out).

Definition handle_releasedir (unique : Z) (body : bytes) : Arm Reply :=
  fh ← try_parse unique (ReleaseIn_from_bytes body);
  _ ← modify (λ s, mkSession _ (s_fs s) (delete fh (readdir_cache s)));
  _ ← try_fs unique (PassthroughFs_releasedir fh);
  mret (ok_reply unique []).

Definition handle_statfs (unique nodeid : Z) : Arm Reply :=
  stat ← try_fs unique (PassthroughFs_statfs nodeid);
  mret (ok_reply unique (statfs_out stat)).

Definition handle_access (unique : Z) (body : bytes) : Arm Reply :=
  _ ← try_parse unique (AccessIn_from_bytes body);
  mret (ok_reply unique []).

(** The [match] on the opcode. *)
Definition handle_opcode (op : Opcode) (unique nodeid : Z) (body : bytes) : Arm Reply :=
  match op with
  | OpInit => handle_init unique body
  | OpDestroy => mret (ok_reply unique [])
  | OpForget => handle_forget unique nodeid body
  | OpBatchForget => handle_batch_forget unique body
  | OpLookup => handle_lookup unique nodeid body
  | OpGetattr => handle_getattr unique nodeid body
  | OpSetattr => handle_setattr unique nodeid body
  | OpReadlink => handle_readlink unique nodeid
  | OpSymlink => handle_symlink unique nodeid body
  | OpMkdir => handle_mkdir unique nodeid body
  | OpUnlink => handle_unlink unique nodeid body
  | OpRmdir => handle_rmdir unique nodeid body
  | OpRename => handle_rename unique nodeid body
  | OpRename2 => handle_rename2 unique nodeid body
  | OpLink => handle_link unique nodeid body
  | OpOpen => handle_open unique nodeid body
  | OpCreate => handle_create unique nodeid body
  | OpRead => handle_read unique body
  | OpWrite => handle_write unique body
  | OpFlush => handle_flush unique body
  | OpFsync => handle_fsync unique body
  | OpRelease => handle_release unique body
  | OpOpendir => handle_opendir unique nodeid body
  | OpReaddir => handle_readdir unique body
  | OpReleasedir => handle_releasedir unique body
  | OpFsyncdir => mret (ok_reply unique [])
  | OpStatfs => handle_statfs unique nodeid
  | OpAccess => handle_access unique body
  | OpGetxattr | OpListxattr | OpSetxattr | OpRemovexattr =>
      mret (ReplyBytes (OutHeader_error_for unique (errno_val ENOSYS)))
  | OpUnknown _ => mret (ReplyBytes (OutHeader_error_for unique (errno_val ENOSYS)))
  end.

(** The value of the function: the arm's reply or the one it left early with. *)
Definition returned {E} (m : Arm Reply) : M Session E Reply := λ s,
  match m s with
  | (Ok r, s) | (Err r, s) => (Ok r, s)
  | (Panic, s) => (Panic, s)
  end.

Definition Session_handle {E} (request : bytes) : M Session E Reply :=
  match InHeader_from_bytes request with
  | Ok header =>
      returned (handle_opcode (Opcode_from (ih_opcode header)) (ih_unique header) (ih_nodeid header)
                              (InHeader_body request))
  | Err _ => mret ReplyNone
  | Panic => panic
  end.
End Handle.
