(* ===== verification/DispatchProps.v ===== *)
(** * Properties of the request handler

    Theorems about [Dispatch]: every request gets the reply the protocol prescribes and never
    stops the server, malformed requests change nothing, and paging through a directory with
    READDIR lists it completely. *)

From S2P Require Import Prelude Libc Errors Bytes Attr Wire Inode Handle Host ToyHost Passthrough.
From S2P Require Import FsProps Dispatch.
From stdpp Require Import gmultiset list.
Local Open Scope Z_scope.

(** ** Specifications *)

(** A reply as the guest reads it: its length, its error (0 or a negated Linux error number, and
    then nothing else) and the number of the request it answers. *)
Definition reply_ok (unique : Z) (b : bytes) : Prop :=
  field 4 0 b = as_u32 (Z.of_nat (length b)) ∧ field 8 8 b = unique ∧
  (16 ≤ length b)%nat ∧
  let e := as_i32 (field 4 4 b) in
  e = 0 ∨ (-125 ≤ e ≤ -1 ∧ length b = OUT_HEADER_LEN).

(** The bytes of the smallest body each kind of request can have. *)
Definition min_body (op : Opcode) : nat :=
  match op with
  | OpInit => 12
  | OpForget | OpBatchForget => 8
  | OpGetattr => 16
  | OpSetattr => 84
  | OpMkdir => 9
  | OpRename => 10
  | OpRename2 => 18
  | OpLink => 9
  | OpOpen | OpOpendir | OpAccess => 4
  | OpCreate => 17
  | OpRead | OpReaddir => 20
  | OpWrite => 40
  | OpFlush | OpFsync | OpRelease | OpReleasedir => 8
  | _ => 0
  end.

(** The file system is well formed with some set of foreign descriptors, and every cached listing
    is as long as a [Vec] can be. *)
Definition session_ok `{HL : HostLaws} (s : Session) : Prop :=
  (∃ b, fs_inv b (s_fs s)) ∧
  map_Forall (λ _ l, Z.of_nat (length l) < 2 ^ 63) (readdir_cache s).

(** * Lemmas *)

Section Replies.
Context `{Libc}.

Lemma reply_ok_success unique body :
  is_uint 64 unique → reply_ok unique (OutHeader_reply unique 0 body).
Proof.
  intros Hu. unfold reply_ok. rewrite length_OutHeader_reply, OutHeader_reply_unfold. simpl.
  split_and!; fields.
  - unfold as_u32. by rewrite wrap_wrap.
  - unfold as_u64. by rewrite wrap_id.
  - lia.
  - left. unfold as_i32, as_u32. by rewrite sign_wrap, sign_id by lia.
Qed.

Lemma reply_ok_error unique host_errno :
  is_uint 64 unique → reply_ok unique (OutHeader_error_for unique host_errno).
Proof.
  intros Hu. unfold reply_ok, OutHeader_error_for.
  pose proof (to_linux_errno_range host_errno) as Hr. set (e := to_linux_errno host_errno) in *.
  rewrite length_OutHeader_reply, OutHeader_reply_unfold.
  rewrite (proj2 (Z.eqb_neq (- e) 0)) by lia. simpl.
  split_and!; fields.
  - unfold as_u32. by rewrite wrap_wrap.
  - unfold as_u64. by rewrite wrap_id.
  - lia.
  - right. unfold as_i32, as_u32. rewrite sign_wrap, sign_id by lia. split; [lia|done].
Qed.
End Replies.

Section Arms.
Context `{Libc, Build, HashOrder, HL : HostLaws}.

(** What an arm is to do: reply well, on both exits, in a well-formed session. *)
Definition replies (unique : Z) (none : bool) (r : Reply) (s : Session) : Prop :=
  session_ok s ∧
  match r with
  | ReplyBytes b => reply_ok unique b
  | ReplyNone => none = true
  end.

Definition session_roomy (s : Session) : Prop := session_ok s ∧ fs_roomy (s_fs s).

Abbreviation arm_ok unique none m :=
  (⟪ session_roomy ⟫ m ⤳ replies unique none ⊘ replies unique none).

Lemma run_op_good op unique none :
  wf_op op → is_uint 64 unique →
  ⟪ session_roomy ⟫ try_fs unique (run_op op) ⤳ (λ _, session_ok) ⊘ replies unique none.
Proof.
  intros Hwf Hu [fs c] [[[b Hb] Hc] Hr]. simpl in *. unfold try_fs, zoom, map_errM. simpl.
  pose proof (run_op_triple op b Hwf fs (conj Hb Hr)) as Ht.
  destruct (run_op op fs) as [[[]|e|] fs']; simpl; [by split; [eexists|]| |done].
  split; [|by apply reply_ok_error]. split; [|done]. destruct Ht as [?|[_ [fd ?]]]; by eexists.
Qed.

(** The same for an operation whose result is used. *)
Lemma fs_good {A} op (m : M PassthroughFs FsError A) unique none :
  run_op op = discard m → wf_op op → is_uint 64 unique →
  ⟪ session_roomy ⟫ try_fs unique m ⤳ (λ _, session_ok) ⊘ replies unique none.
Proof.
  intros Hm Hwf Hu s Hs. pose proof (run_op_good op unique none Hwf Hu s Hs) as Ht.
  rewrite Hm in Ht. unfold try_fs, zoom, map_errM, discard, mbind, M_bind in *.
  by destruct (m (s_fs s)) as [[]].
Qed.

Lemma parse_good {A} unique none (r : outcome ProtoError A) :
  r ≠ Panic → is_uint 64 unique →
  ⟪ session_roomy ⟫ try_parse unique r ⤳ (λ a s, session_roomy s ∧ r = Ok a) ⊘ replies unique none.
Proof.
  intros Hr Hu. apply triple_lift. intros s Hs. destruct r; simpl; [done| |done].
  split; [apply Hs|by apply reply_ok_error].
Qed.

Lemma ret_good unique none body (P : Session → Prop) :
  (∀ s, P s → session_ok s) → is_uint 64 unique →
  ⟪ P ⟫ mret (ok_reply unique body) ⤳ replies unique none ⊘ replies unique none.
Proof. intros HP Hu. apply triple_ret. intros s Hs. split; [auto|by apply reply_ok_success]. Qed.

(** The two shapes most arms have: parse, operate, reply. *)
Lemma parse_bind {A} unique none (r : outcome ProtoError A) (k : A → M Session Reply Reply) :
  r ≠ Panic → is_uint 64 unique → (∀ a, r = Ok a → arm_ok unique none (k a)) →
  arm_ok unique none (try_parse unique r ≫= k).
Proof.
  intros Hr Hu Hk. eapply triple_bind; [by apply parse_good|].
  intros a s [Hs Ha]. by apply Hk.
Qed.

Lemma fs_bind {A} op unique none (m : M PassthroughFs FsError A) (f : A → bytes) :
  run_op op = discard m → wf_op op → is_uint 64 unique →
  arm_ok unique none (a ← try_fs unique m; mret (ok_reply unique (f a))).
Proof.
  intros Hm Hwf Hu. eapply triple_bind; [by eapply fs_good|]. intros a. by apply ret_good.
Qed.

Lemma fs_bind_unit op unique none body :
  wf_op op → is_uint 64 unique →
  arm_ok unique none (_ ← try_fs unique (run_op op); mret (ok_reply unique body)).
Proof.
  intros Hwf Hu. eapply triple_bind; [by apply run_op_good|]. intros a. by apply ret_good.
Qed.
End Arms.

(** ** Parsers *)

Section Parsers.
Context (buf : bytes) (Hbuf : slice_ok buf).

(** A parser neither panics nor succeeds on fewer than [k] bytes. *)
Definition parses {A} (r : outcome ProtoError A) (k : nat) (V : A → Prop) : Prop :=
  r ≠ Panic ∧ ∀ a, r = Ok a → (k ≤ length buf)%nat ∧ V a.

Lemma parses_u32 : parses (parse Reader_u32 buf) 4 (λ _, True).
Proof.
  apply parse_total. eapply triple_weaken; [apply (total_u32 _ Hbuf)|done| |done]. by intros ? ? [? _].
Qed.

Lemma parses_u64 : parses (parse Reader_u64 buf) 8 (λ v, is_uint 64 v).
Proof. apply parse_total, total_u64, Hbuf. Qed.

Lemma parses_init : parses (InitIn_from_bytes buf) 12 (λ _, True).
Proof.
  apply parse_total. do 3 rd_total_step Hbuf.
  eapply (triple_bind _ _ _ (λ _, at_least buf 12)).
  - intros r Hr. unfold attempt. pose proof (total_u32 _ Hbuf _ r Hr) as Ht.
    destruct Hr as [Hb Hp]. destruct r as [b p]. simpl in Hb, Hp. subst b.
    rewrite Reader_u32_at in * by (done || lia). case_decide; split; simpl; done || lia.
  - intros f. apply triple_ret. by intros r Hr.
Qed.

Lemma parses_getattr : parses (GetattrIn_from_bytes buf) 16 (λ _, True).
Proof. apply parse_total. rd_total Hbuf. done. Qed.
Lemma parses_setattr : parses (SetattrIn_from_bytes buf) 84 (λ _, True).
Proof. apply parse_total. rd_total Hbuf. done. Qed.
Lemma parses_mkdir : parses (MkdirIn_from_bytes buf) 9 (λ _, True).
Proof. apply parse_total. rd_total Hbuf. done. Qed.
Lemma parses_rename : parses (RenameIn_from_bytes buf) 10 (λ _, True).
Proof. apply parse_total. rd_total Hbuf. done. Qed.
Lemma parses_rename2 : parses (RenameIn_from_bytes_v2 buf) 18 (λ _, True).
Proof. apply parse_total. rd_total Hbuf. done. Qed.
Lemma parses_link : parses (LinkIn_from_bytes buf) 9 (λ _, True).
Proof. apply parse_total. rd_total Hbuf. done. Qed.
Lemma parses_create : parses (CreateIn_from_bytes buf) 17 (λ _, True).
Proof. apply parse_total. rd_total Hbuf. done. Qed.
Lemma parses_read :
  parses (ReadIn_from_bytes buf) 20 (λ r, is_uint 64 (ri_offset r) ∧ is_uint 32 (ri_size r)).
Proof. apply parse_total. rd_total Hbuf. done. Qed.
Lemma parses_write : parses (WriteIn_from_bytes buf) 40 (λ _, True).
Proof. apply parse_total. rd_total Hbuf. done. Qed.

Lemma total_forgets n : ∀ k out,
  Forall (λ f, 0 ≤ fo_nlookup f) out →
  ⟪ at_least buf k ⟫ batch_forget_entries n out
  ⤳ (λ l r, at_least buf k r ∧ Forall (λ f, 0 ≤ fo_nlookup f) l) ⊘ (λ _ _, True).
Proof.
  induction n as [|n IH]; intros k out Hout; simpl.
  - by apply triple_ret.
  - do 2 rd_total_step Hbuf.
    eapply triple_weaken; [apply (IH (k + 8 + 8)%nat)|done| |done].
    + apply Forall_app. split; [done|]. apply Forall_singleton. simpl.
      match goal with Hv : is_uint 64 ?v |- 0 ≤ ?v => apply Hv end.
    + intros l r [[? ?] ?]. split; [split; [done|lia]|done].
Qed.

Lemma parses_batch_forget :
  parses (parse_batch_forget buf) 8 (Forall (λ f, 0 ≤ fo_nlookup f)).
Proof. apply parse_total. do 2 rd_total_step Hbuf. apply (total_forgets _ 8 []), Forall_nil_2. Qed.
End Parsers.

(** ** READDIR *)

(** The longest prefix of a listing whose encoding fits. *)
Definition entry_size (e : DirEntry) : nat := dirent_padded (24 + length (de_name e)).

Fixpoint page (room : nat) (entries : list DirEntry) : list DirEntry :=
  match entries with
  | [] => []
  | e :: es => if decide (entry_size e ≤ room)%nat then e :: page (room - entry_size e) es else []
  end.

(** Their encodings, with the cookie after each entry's index. *)
Fixpoint dirents (i : Z) (entries : list DirEntry) : bytes :=
  match entries with
  | [] => []
  | e :: es => dirent (de_ino e) (i + 1) (dt_type (de_kind e)) (de_name e) ++ dirents (i + 1) es
  end.

Lemma fill_dirents_eq `{Build} {E} size entries : ∀ i out,
  is_uint 64 size → Z.of_nat (length out) ≤ size → 0 ≤ i → i + Z.of_nat (length entries) < 2 ^ 64 →
  fill_dirents (E := E) size i entries out =
    Ok (out ++ dirents i (page (Z.to_nat size - length out) entries)).
Proof.
  induction entries as [|e es IH]; intros i out Hsize Hout Hi Hn; cbn [fill_dirents page dirents].
  { by rewrite app_nil_r. }
  rewrite length_cons in Hn. rewrite uadd_in by uint. simpl. rewrite usub_in by uint. simpl.
  rewrite push_dirent_eq. replace (Z.to_nat (size - Z.of_nat (length out))) with
    (Z.to_nat size - length out)%nat by lia. fold (entry_size e). case_decide as Hfit.
  - rewrite IH by (rewrite ?length_app, ?length_dirent; fold (entry_size e); uint).
    rewrite length_app, length_dirent. fold (entry_size e). simpl.
    by rewrite Nat.sub_add_distr, <- app_assoc.
  - by rewrite app_nil_r.
Qed.

Lemma skip_z_le {A} n (l : list A) :
  0 ≤ n → n + Z.of_nat (length (skip_z n l)) ≤ Z.max n (Z.of_nat (length l)).
Proof.
  intros Hn. unfold skip_z. destruct (Z.ltb_spec n (Z.of_nat (length l))).
  - rewrite length_drop. lia.
  - simpl. lia.
Qed.

Section Readdir.
Context `{Libc, Build, HashOrder, HL : HostLaws}.

Lemma length_readdir_entries items l :
  readdir_entries items [] = Ok l → (length l ≤ length items)%nat.
Proof.
  rewrite readdir_entries_spec. destruct (stream_error items); [done|]. intros [= <-]. simpl.
  rewrite length_fmap. etrans; [apply length_filter|]. unfold stream_entries, omap.
  induction items as [|[]]; simpl; lia.
Qed.

Lemma readdir_length h fs l fs' : PassthroughFs_readdir h fs = (Ok l, fs') → Z.of_nat (length l) < 2 ^ 63.
Proof.
  unfold PassthroughFs_readdir, with_dir, lift, mbind, M_bind.
  destruct (HandleStore_with_dir h _) as [fd|e|]; [|done..].
  pose proof (law_iter_length fd (world fs)). destruct (nix_dir_iter fd _) as [items w].
  intros [= Hl _]. apply length_readdir_entries in Hl. simpl in *. lia.
Qed.

Lemma readdir_good unique none h :
  is_uint 64 unique →
  ⟪ session_roomy ⟫ try_fs unique (PassthroughFs_readdir h)
  ⤳ (λ l s, session_ok s ∧ Z.of_nat (length l) < 2 ^ 63) ⊘ replies unique none.
Proof.
  intros Hu s Hs. pose proof (fs_good (FReaddir h) _ unique none eq_refl I Hu s Hs) as Ht.
  pose proof (readdir_length h (s_fs s)) as Hl.
  unfold try_fs, zoom, map_errM in *. destruct (PassthroughFs_readdir h (s_fs s)) as [[l|e|] fs'];
    simpl in *; [|done..]. split; [done|]. by eapply Hl.
Qed.

Lemma listing_good unique none r :
  is_uint 64 unique →
  ⟪ session_roomy ⟫ readdir_listing unique r
  ⤳ (λ l s, session_ok s ∧ Z.of_nat (length l) < 2 ^ 63) ⊘ replies unique none.
Proof.
  intros Hu. unfold readdir_listing. eapply (triple_bind _ _ _ (λ _, session_roomy)).
  { by apply triple_gets. }
  intros cached. eapply (triple_bind _ _ _ (λ _, session_ok)).
  - destruct (_ || _); [|apply triple_ret; by intros s [? _]].
    eapply triple_bind; [by apply (readdir_good unique none)|]. intros l. apply triple_modify.
    intros s [[Hb Hc] Hl]. split; [done|]. by apply map_Forall_insert_2.
  - intros _. apply triple_gets. intros s Hs. split; [done|].
    destruct (readdir_cache s !! ri_fh r) as [l|] eqn:Hl; simpl; [|lia].
    by apply (proj2 Hs) in Hl.
Qed.

Lemma arm_readdir unique body :
  slice_ok body → is_uint 64 unique →
  ⟪ session_roomy ⟫ handle_readdir unique body ⤳ replies unique false ⊘ replies unique false.
Proof.
  intros Hb Hu. destruct (parses_read body Hb) as [Hp HV]. unfold handle_readdir.
  apply parse_bind; [done..|]. intros r Hr. destruct (HV r Hr) as [_ [Ho Hs]].
  eapply triple_bind; [by apply (listing_good unique false)|]. intros l. cbn beta.
  eapply (triple_bind _ _ _ (λ _, session_ok)); [|intros out; by apply ret_good].
  apply triple_lift. intros s [Hok Hl]. pose proof (skip_z_le (ri_offset r) l).
  rewrite fill_dirents_eq; simpl; [done|uint..].
Qed.
End Readdir.

(** ** Every arm *)

Section AllArms.
Context `{Libc, Build, HashOrder, HL : HostLaws}.

Lemma forget_good b ino count (R : Reply → Session → Prop) :
  0 ≤ count →
  ⟪ λ s, fs_inv b (s_fs s) ∧ map_Forall (λ _ l, Z.of_nat (length l) < 2 ^ 63) (readdir_cache s) ⟫
    fs_forget ino count
  ⤳ (λ _ s, fs_inv b (s_fs s) ∧ map_Forall (λ _ l, Z.of_nat (length l) < 2 ^ 63) (readdir_cache s))
  ⊘ R.
Proof.
  intros Hc [fs c] [Hb Hl]. simpl in *. unfold fs_forget, zoom. simpl.
  pose proof (rule_forget b ino count fs (conj Hb Hc)) as Ht.
  by destruct (PassthroughFs_forget ino count fs) as [[[]|e|] fs'].
Qed.

Lemma forget_all_good b l (R : Reply → Session → Prop) :
  Forall (λ f, 0 ≤ fo_nlookup f) l →
  ⟪ λ s, fs_inv b (s_fs s) ∧ map_Forall (λ _ l, Z.of_nat (length l) < 2 ^ 63) (readdir_cache s) ⟫
    forget_all l
  ⤳ (λ _ s, fs_inv b (s_fs s) ∧ map_Forall (λ _ l, Z.of_nat (length l) < 2 ^ 63) (readdir_cache s))
  ⊘ R.
Proof.
  intros Hl. induction Hl as [|f l Hf Hl IH]; simpl; [by apply triple_ret|].
  eapply triple_bind; [by apply forget_good|]. intros ?. apply IH.
Qed.

Lemma arm_forget unique nodeid body :
  slice_ok body → is_uint 64 unique →
  ⟪ session_roomy ⟫ handle_forget unique nodeid body ⤳ replies unique true ⊘ replies unique true.
Proof.
  intros Hb Hu. destruct (parses_u64 body Hb) as [Hp HV]. unfold handle_forget.
  apply parse_bind; [done..|]. intros n Hn. destruct (HV n Hn) as [_ [Hpos _]].
  intros s [[[b Hfs] Hc] _].
  pose proof (forget_good b nodeid n (λ _ _, False) Hpos s (conj Hfs Hc)) as Ht.
  unfold mbind, M_bind. destruct (fs_forget nodeid n s) as [[[]|e|] s']; try done.
  split; [|done]. destruct Ht. split; [by eexists|done].
Qed.

Lemma arm_batch_forget unique body :
  slice_ok body → is_uint 64 unique →
  ⟪ session_roomy ⟫ handle_batch_forget unique body ⤳ replies unique true ⊘ replies unique true.
Proof.
  intros Hb Hu. destruct (parses_batch_forget body Hb) as [Hp HV]. unfold handle_batch_forget.
  apply parse_bind; [done..|]. intros l Hl. destruct (HV l Hl) as [_ Hpos].
  intros s [[[b Hfs] Hc] _].
  pose proof (forget_all_good b l (λ _ _, False) Hpos s (conj Hfs Hc)) as Ht.
  unfold mbind, M_bind. destruct (forget_all l s) as [[[]|e|] s']; try done.
  split; [|done]. destruct Ht. split; [by eexists|done].
Qed.

Lemma now_good (R : Reply → Session → Prop) :
  ⟪ session_roomy ⟫ now ⤳ (λ _, session_roomy) ⊘ R.
Proof.
  intros [[w i h] c] [[[b [Hi Hh Hf]] Hc] Hr]. simpl in *. unfold now. simpl.
  pose proof (law_now w) as Hn. destruct (sys_now w) as [t w']. destruct (default (0, 0) t).
  simpl in *. split; [split; [|done]|done]. exists b. split; simpl; [done..|congruence].
Qed.

Lemma set_time_good valid nb b t ns (R : Reply → Session → Prop) :
  ⟪ session_roomy ⟫ set_time valid nb b t ns ⤳ (λ _, session_roomy) ⊘ R.
Proof.
  unfold set_time. destruct (negb _).
  - eapply triple_bind; [apply now_good|]. intros a. by apply triple_ret.
  - destruct (negb _); by apply triple_ret.
Qed.

Lemma arm_setattr unique nodeid body :
  slice_ok body → is_uint 64 unique →
  ⟪ session_roomy ⟫ handle_setattr unique nodeid body ⤳ replies unique false ⊘ replies unique false.
Proof.
  intros Hb Hu. destruct (parses_setattr body Hb) as [Hp _]. unfold handle_setattr.
  apply parse_bind; [done..|]. intros s _.
  eapply triple_bind; [apply set_time_good|]. intros at_. cbn beta.
  eapply triple_bind; [apply set_time_good|]. intros mt. cbn beta.
  by eapply (fs_bind (FSetattr nodeid _)).
Qed.

Lemma arm_releasedir unique body :
  slice_ok body → is_uint 64 unique →
  ⟪ session_roomy ⟫ handle_releasedir unique body ⤳ replies unique false ⊘ replies unique false.
Proof.
  intros Hb Hu. destruct (parses_u64 body Hb) as [Hp _]. unfold handle_releasedir.
  apply parse_bind; [done..|]. intros fh _.
  eapply (triple_bind _ _ _ (λ _, session_roomy)).
  - apply triple_modify. intros s [[Hfs Hc] Hr]. split; [split; [done|]|done].
    by apply map_Forall_delete.
  - intros ?. by apply (fs_bind_unit (FReleasedir fh)).
Qed.

Lemma enosys_good unique none :
  is_uint 64 unique →
  ⟪ session_roomy ⟫ mret (ReplyBytes (OutHeader_error_for unique (errno_val ENOSYS)))
  ⤳ replies unique none ⊘ replies unique none.
Proof. intros Hu. apply triple_ret. intros s [Hs _]. split; [done|by apply reply_ok_error]. Qed.

Lemma roomy_ok s : session_roomy s → session_ok s.
Proof. by intros [? _]. Qed.

Lemma arm_symlink unique nodeid body :
  is_uint 64 unique →
  ⟪ session_roomy ⟫ handle_symlink unique nodeid body ⤳ replies unique false ⊘ replies unique false.
Proof.
  intros Hu. unfold handle_symlink. destruct (split_two_cstrs body) as [[name|] [target|]];
    [by eapply (fs_bind (FSymlink nodeid name target))|..];
    apply triple_throw; intros s [Hs _]; (split; [done|by apply reply_ok_error]).
Qed.

(** The requests the protocol leaves without a reply. *)
Definition is_forget (op : Opcode) : bool :=
  match op with
  | OpForget | OpBatchForget => true
  | _ => false
  end.

Lemma arm_good op unique nodeid body :
  slice_ok body → is_uint 64 unique →
  ⟪ session_roomy ⟫ handle_opcode op unique nodeid body
  ⤳ replies unique (is_forget op) ⊘ replies unique (is_forget op).
Proof.
  intros Hb Hu. destruct op; cbn [handle_opcode is_forget];
    try (by apply enosys_good); try (by apply ret_good; [apply roomy_ok|]).
  - by eapply (fs_bind (FLookup nodeid (trim_nul body))).
  - by apply arm_forget.
  - apply parse_bind; [apply parses_getattr, Hb|done|]. intros g _. by eapply (fs_bind (FGetattr nodeid)).
  - by apply arm_setattr.
  - by eapply (fs_bind (FReadlink nodeid)).
  - by apply arm_symlink.
  - apply parse_bind; [apply parses_mkdir, Hb|done|]. intros m _. by eapply (fs_bind (FMkdir nodeid m.2 m.1)).
  - by apply (fs_bind_unit (FUnlink nodeid (trim_nul body))).
  - by apply (fs_bind_unit (FRmdir nodeid (trim_nul body))).
  - apply parse_bind; [apply parses_rename, Hb|done|]. intros [[p n] n'] _.
    by apply (fs_bind_unit (FRename nodeid n p n')).
  - apply parse_bind; [apply parses_link, Hb|done|]. intros l _. by eapply (fs_bind (FLink l.1 nodeid l.2)).
  - apply parse_bind; [apply parses_u32, Hb|done|]. intros f _. by eapply (fs_bind (FOpen nodeid _)).
  - apply parse_bind; [apply parses_read, Hb|done|]. intros r _. by eapply (fs_bind (FRead _ _ _)).
  - apply parse_bind; [apply parses_write, Hb|done|]. intros [w d] _. by eapply (fs_bind (FWrite _ _ _)).
  - by eapply (fs_bind (FStatfs nodeid)).
  - apply parse_bind; [apply parses_u64, Hb|done|]. intros fh _. by apply (fs_bind_unit (FRelease fh)).
  - apply parse_bind; [apply parses_u64, Hb|done|]. intros fh _. by apply (fs_bind_unit (FFsync fh)).
  - apply parse_bind; [apply parses_u64, Hb|done|]. intros fh _. by apply ret_good; [apply roomy_ok|].
  - apply parse_bind; [apply parses_init, Hb|done|]. intros i _. by apply ret_good; [apply roomy_ok|].
  - apply parse_bind; [apply parses_u32, Hb|done|]. intros f _. by eapply (fs_bind (FOpendir nodeid)).
  - by apply arm_readdir.
  - by apply arm_releasedir.
  - apply parse_bind; [apply parses_u32, Hb|done|]. intros m _. by apply ret_good; [apply roomy_ok|].
  - apply parse_bind; [apply parses_create, Hb|done|]. intros c _.
    eapply triple_bind; [by eapply (fs_good (FCreate nodeid c.2 _ _))|].
    intros [[ino h] attr]. by apply ret_good.
  - by apply arm_batch_forget.
  - apply parse_bind; [apply parses_rename2, Hb|done|]. intros [[p n] n'] _.
    by apply (fs_bind_unit (FRename nodeid n p n')).
Qed.
End AllArms.

(** ** A guest that lists a directory *)

(** Decode the entries of a READDIR reply's body. *)
Fixpoint guest_dirents (fuel : nat) (buf : bytes) : list (Z * Z * Z * bytes) :=
  match fuel, buf with
  | S fuel, _ :: _ =>
      let '(ino, off, kind, name, rest) := dirent_read buf in
      (ino, off, kind, name) :: guest_dirents fuel rest
  | _, _ => []
  end.

Definition readdir_body (fh offset size : Z) : bytes :=
  u64_le fh ++ u64_le offset ++ u32_le size ++ replicate 20 NUL.

Section GuestList.
Context `{Libc, Build, HashOrder, Host}.

(** Ask for the entries after the last cookie until a reply is empty. *)
Fixpoint guest_list (fuel : nat) (unique fh offset size : Z) (s : Session)
    : option (list (Z * Z * Z * bytes)) :=
  match fuel with
  | O => None
  | S fuel =>
      match handle_readdir unique (readdir_body fh offset size) s with
      | (Ok (ReplyBytes b), s') =>
          let es := guest_dirents (length b) (drop OUT_HEADER_LEN b) in
          match last es with
          | None => Some []
          | Some (_, cookie, _, _) => app es <$> guest_list fuel unique fh cookie size s'
          end
      | _ => None
      end
  end.

(** What the guest is to see of the listing from index [i]. *)
Fixpoint views (i : Z) (l : list DirEntry) : list (Z * Z * Z * bytes) :=
  match l with
  | [] => []
  | e :: l => (de_ino e, i + 1, dt_type (de_kind e), de_name e) :: views (i + 1) l
  end.

(** An entry a host directory can have, and a buffer of [size] bytes can hold. *)
Definition entry_ok (size : Z) (e : DirEntry) : Prop :=
  is_uint 64 (de_ino e) ∧ Z.of_nat (length (de_name e)) ≤ 255 ∧ Z.of_nat (entry_size e) ≤ size.

Lemma guest_dirents_dirents size l : ∀ i fuel,
  Forall (entry_ok size) l → (length l ≤ fuel)%nat → 0 ≤ i → i + Z.of_nat (length l) < 2 ^ 64 →
  guest_dirents fuel (dirents i l) = views i l.
Proof.
  induction l as [|e l IH]; intros i fuel Hl Hf Hi Hn; [by destruct fuel|].
  apply Forall_cons in Hl as [[Hino [Hname _]] Hl]. rewrite length_cons in *.
  destruct fuel as [|fuel]; [lia|]. cbn [dirents views].
  assert (is_uint 32 (dt_type (de_kind e))) as Hk by (by destruct (de_kind e)).
  pose proof (dirent_read_dirent (de_ino e) (i + 1) (dt_type (de_kind e)) (de_name e)
    (dirents (i + 1) l) Hino ltac:(uint) Hk ltac:(uint)) as Hd.
  pose proof (length_dirent (de_ino e) (i + 1) (dt_type (de_kind e)) (de_name e)) as Hlen.
  pose proof (dirent_padded_spec (24 + length (de_name e))) as [Hpad _].
  destruct (dirent _ _ _ _) as [|b bs] eqn:Hbs; [cbn [length] in Hlen; lia|].
  cbn [guest_dirents app]. change (b :: bs ++ dirents (i + 1) l) with ((b :: bs) ++ dirents (i + 1) l).
  rewrite Hd. f_equal. apply IH; done || lia.
Qed.

Lemma page_prefix room l : ∃ rest, l = page room l ++ rest.
Proof.
  revert room. induction l as [|e l IH]; intros room; simpl; [by exists []|].
  case_decide; [|by eexists]. destruct (IH (room - entry_size e)%nat) as [rest Hr].
  exists rest. simpl. by rewrite <- Hr.
Qed.

Lemma views_app i l1 l2 : views i (l1 ++ l2) = views i l1 ++ views (i + Z.of_nat (length l1)) l2.
Proof.
  revert i. induction l1 as [|e l1 IH]; intros i; simpl; [by rewrite Z.add_0_r|].
  rewrite IH. do 3 f_equal. lia.
Qed.

Lemma last_views i l :
  l ≠ [] → ∃ a k n, last (views i l) = Some (a, i + Z.of_nat (length l), k, n).
Proof.
  intros Hl. destruct l as [|e l _] using rev_ind; [done|]. rewrite views_app, last_app. simpl.
  rewrite length_app. simpl.
  replace (i + Z.of_nat (length l + 1)) with (i + Z.of_nat (length l) + 1) by lia. by do 3 eexists.
Qed.

Lemma length_dirents i l : (length l ≤ length (dirents i l))%nat.
Proof.
  revert i. induction l as [|e l IH]; intros i; simpl; [lia|]. rewrite length_app, length_dirent.
  pose proof (dirent_padded_spec (24 + length (de_name e))). specialize (IH (i + 1)). lia.
Qed.

Lemma ReadIn_readdir_body fh offset size :
  is_uint 64 fh → is_uint 64 offset → is_uint 32 size →
  ReadIn_from_bytes (readdir_body fh offset size) = Ok (mkReadIn fh offset size).
Proof.
  intros. assert (slice_ok (readdir_body fh offset size)) as Hb.
  { unfold slice_ok, readdir_body. autorewrite with len. lia. }
  rewrite ReadIn_from_bytes_eq by done. rewrite decide_True by (unfold readdir_body; len).
  unfold readdir_body. fields. unfold as_u64, as_u32. by rewrite !wrap_id.
Qed.

(** One READDIR against a listing that is in the cache after the call. *)
Lemma handle_readdir_eq unique fh offset size l s s' :
  is_uint 64 fh → is_uint 64 offset → is_uint 32 size → Z.of_nat (length l) < 2 ^ 63 →
  readdir_listing unique (mkReadIn fh offset size) s = (Ok l, s') →
  handle_readdir unique (readdir_body fh offset size) s =
    (Ok (ok_reply unique (dirents offset (page (Z.to_nat size) (skip_z offset l)))), s').
Proof.
  intros Hf Ho Hs Hl Hlist. unfold handle_readdir.
  rewrite ReadIn_readdir_body by done. unfold try_parse, lift, mbind, M_bind. simpl.
  rewrite Hlist. simpl. pose proof (skip_z_le offset l ltac:(uint)).
  rewrite fill_dirents_eq by (simpl; uint). simpl. by rewrite Nat.sub_0_r.
Qed.

Lemma listing_cached unique fh offset size l s :
  offset ≠ 0 → readdir_cache s !! fh = Some l →
  readdir_listing unique (mkReadIn fh offset size) s = (Ok l, s).
Proof.
  intros Ho Hl. unfold readdir_listing, gets, mbind, M_bind. simpl.
  rewrite (proj2 (Z.eqb_neq offset 0) Ho), Hl. simpl. by rewrite Hl.
Qed.

Lemma needs_listing fh offset s :
  offset = 0 ∨ readdir_cache s !! fh = None →
  (offset =? 0) || bool_decide (readdir_cache s !! fh = None) = true.
Proof. by rewrite orb_true_iff, Z.eqb_eq, bool_decide_eq_true. Qed.

Lemma listing_fresh unique fh offset size l s fs' :
  offset = 0 ∨ readdir_cache s !! fh = None → PassthroughFs_readdir fh (s_fs s) = (Ok l, fs') →
  readdir_listing unique (mkReadIn fh offset size) s =
    (Ok l, mkSession _ fs' (<[fh := l]> (readdir_cache s))).
Proof.
  intros Ho Hr. unfold readdir_listing, gets, modify, try_fs, zoom, map_errM, mbind, M_bind. simpl.
  rewrite (needs_listing _ _ _ Ho), Hr. simpl. by rewrite lookup_insert_eq.
Qed.

Lemma handle_readdir_fails unique fh offset size e s fs' :
  is_uint 64 fh → is_uint 64 offset → is_uint 32 size →
  offset = 0 ∨ readdir_cache s !! fh = None → PassthroughFs_readdir fh (s_fs s) = (Err e, fs') →
  handle_readdir unique (readdir_body fh offset size) s =
    (Err (errno_reply unique e), mkSession _ fs' (readdir_cache s)).
Proof.
  intros Hf Ho Hs Hc Hr. unfold handle_readdir. rewrite ReadIn_readdir_body by done.
  unfold readdir_listing, try_parse, lift, gets, modify, try_fs, zoom, map_errM, mbind, M_bind. simpl.
  rewrite (needs_listing _ _ _ Hc), Hr. done.
Qed.

Lemma drop_OutHeader_reply unique body :
  drop OUT_HEADER_LEN (OutHeader_reply unique 0 body) = body.
Proof. rewrite OutHeader_reply_unfold. simpl. rewrite !app_assoc. by rewrite drop_app_length' by len. Qed.

(** The guest's loop from index [n] on, when the READDIR there serves the listing [l]. *)
Lemma guest_list_from unique fh size l fuel : ∀ s s' n,
  is_uint 64 fh → is_uint 32 size → Z.of_nat (length l) < 2 ^ 63 → Forall (entry_ok size) l →
  (n ≤ length l)%nat → (length l - n < fuel)%nat →
  readdir_listing unique (mkReadIn fh (Z.of_nat n) size) s = (Ok l, s') →
  readdir_cache s' !! fh = Some l →
  guest_list fuel unique fh (Z.of_nat n) size s = Some (views (Z.of_nat n) (drop n l)).
Proof.
  induction fuel as [|fuel IH]; intros s s' n Hfh Hsz Hlen Hok Hn Hf Hlist Hc; [lia|].
  cbn [guest_list]. rewrite (handle_readdir_eq unique fh (Z.of_nat n) size l s s') by (done || uint).
  cbn [ok_reply]. rewrite drop_OutHeader_reply, length_OutHeader_reply.
  set (sk := skip_z (Z.of_nat n) l). assert (sk = drop n l) as Hsk.
  { unfold sk, skip_z. destruct (Z.ltb_spec (Z.of_nat n) (Z.of_nat (length l))).
    - by rewrite Nat2Z.id.
    - by rewrite drop_ge by lia. }
  rewrite Hsk. clear Hsk sk. set (pg := page (Z.to_nat size) (drop n l)).
  destruct (page_prefix (Z.to_nat size) (drop n l)) as [rest Hrest]. fold pg in Hrest.
  assert (length (drop n l) = (length l - n)%nat) as Hd by apply length_drop.
  assert (length pg + length rest = length l - n)%nat as Hlr
    by (rewrite <- Hd, Hrest, length_app; done).
  rewrite (guest_dirents_dirents size);
    [|apply (Forall_drop _ n) in Hok; rewrite Hrest in Hok; by apply Forall_app in Hok as [? _]
     |pose proof (length_dirents (Z.of_nat n) pg); simpl; lia|lia|lia].
  destruct (decide (pg = [])) as [Hpg|Hpg].
  - rewrite Hpg. simpl. destruct (drop n l) as [|e l'] eqn:Hdl; [done|].
    exfalso. unfold pg in Hpg. cbn [page] in Hpg. rewrite decide_True in Hpg; [done|].
    apply (Forall_drop _ n) in Hok. rewrite Hdl in Hok.
    apply Forall_cons in Hok as [[_ [_ ?]] _]. uint.
  - destruct (last_views (Z.of_nat n) pg Hpg) as (a & k & nm & ->).
    assert (length pg ≠ O) by (by destruct pg).
    rewrite <- Nat2Z.inj_add, (IH s' s') by (done || lia || by apply listing_cached; [lia|]).
    simpl. f_equal.
    rewrite Hrest at 1. rewrite views_app, Nat2Z.inj_add. do 2 f_equal.
    rewrite <- drop_drop, Hrest. by rewrite drop_app_length.
Qed.
End GuestList.

(** ** Concrete sessions *)

#[local] Existing Instance linux_libc.
#[local] Existing Instance key_order.

Definition debug_build : Build := {| overflow_checks := true |}.
Definition release_build : Build := {| overflow_checks := false |}.
#[local] Existing Instance debug_build.

Definition toy_session : Session := Session_new (toy_fs 8).

(** A request as the guest's kernel lays it out. *)
Definition request (opcode unique nodeid : Z) (body : bytes) : bytes :=
  u32_le (Z.of_nat (40 + length body)) ++ u32_le opcode ++ u64_le unique ++ u64_le nodeid
    ++ replicate 16 NUL ++ body.

Lemma toy_session_roomy : session_roomy toy_session.
Proof.
  split; [|apply toy_fs_roomy]. split; [|apply map_Forall_empty].
  exists ∅. apply toy_fs_inv. lia.
Qed.

(** The session after a request, and its reply. *)
Definition serve (req : bytes) (s : Session) : outcome ProtoError Reply * Session :=
  Session_handle req s.

(** What the protocol lets a request be answered with. *)
Definition answered (req : bytes) (r : Reply) : Prop :=
  match r with
  | ReplyNone => (length req < 40)%nat ∨ is_forget (Opcode_from (field 4 4 req)) = true
  | ReplyBytes b => (40 ≤ length req)%nat ∧ reply_ok (field 8 8 req) b
  end.

Lemma slice_body req : slice_ok req → slice_ok (InHeader_body req).
Proof. unfold slice_ok, InHeader_body. rewrite length_drop. lia. Qed.

Lemma handle_answers `{Libc, Build, HashOrder, HL : HostLaws} {E} (req : bytes) s :
  slice_ok req → session_roomy s →
  ∃ r s', Session_handle (E := E) req s = (Ok r, s') ∧ session_ok s' ∧ answered req r.
Proof.
  intros Hreq Hs. unfold Session_handle. rewrite InHeader_from_bytes_eq by done.
  case_decide as Hlen; simpl; [|eexists _, _; split_and!; [done|apply Hs|left; lia]].
  assert (is_uint 64 (field 8 8 req)) as Hu by (apply field_range; [done|lia]).
  pose proof (arm_good (Opcode_from (field 4 4 req)) (field 8 8 req) (field 8 16 req)
    (InHeader_body req) (slice_body _ Hreq) Hu s Hs) as Ht.
  unfold returned. destruct (handle_opcode _ _ _ _ s) as [[r|r|] s']; [| |done];
    destruct Ht as [Hok Hr]; eexists _, _; (split_and!; [done..|]); destruct r; simpl; auto.
Qed.

(** * Properties *)

(** C12: every request is answered as the protocol prescribes, whatever its bytes.  The handler
    does not panic; it stays silent only for a request too short to have a header and for FORGET
    and BATCH_FORGET; every other reply carries its own length, the request's [unique], and error
    0 or a negated Linux error number, and an error reply is a bare header.  The session stays
    well formed.  (Running out of memory is outside the model.) *)
Theorem handle_replies `{Libc, Build, HashOrder, HL : HostLaws} (req : bytes) s :
  slice_ok req → session_roomy s →
  match Session_handle (E := ProtoError) req s with
  | (Ok ReplyNone, s') =>
      session_ok s' ∧ ((length req < 40)%nat ∨ is_forget (Opcode_from (field 4 4 req)) = true)
  | (Ok (ReplyBytes b), s') => session_ok s' ∧ (40 ≤ length req)%nat ∧ reply_ok (field 8 8 req) b
  | _ => False
  end.
Proof.
  intros Hreq Hs. destruct (handle_answers (E := ProtoError) req s Hreq Hs) as (r & s' & -> & Hok & Hr).
  by destruct r.
Qed.

Lemma handle_replies_witness :
  match serve (request 1 7 ROOT_ID (name_a ++ [NUL])) toy_session with
  | (Ok (ReplyBytes b), _) => reply_ok 7 b
  | _ => False
  end.
Proof.
  pose proof (handle_replies (request 1 7 ROOT_ID (name_a ++ [NUL])) toy_session
    ltac:(vm_compute; reflexivity) toy_session_roomy) as Hh.
  change (Session_handle (request 1 7 ROOT_ID (name_a ++ [NUL])) toy_session)
    with (serve (request 1 7 ROOT_ID (name_a ++ [NUL])) toy_session) in Hh.
  assert (field 8 8 (request 1 7 ROOT_ID (name_a ++ [NUL])) = 7) as Hu by (vm_compute; reflexivity).
  assert (is_forget (Opcode_from (field 4 4 (request 1 7 ROOT_ID (name_a ++ [NUL])))) = false) as Hf
    by (vm_compute; reflexivity).
  rewrite Hu, Hf in Hh. destruct (serve _ toy_session) as [[[b|]|e|] s']; try done.
  - apply Hh.
  - destruct Hh as [_ [Hl|Hl]]; [vm_compute in Hl; lia|done].
Defined.

(** C34: a request whose body is too short for its opcode is answered with EINVAL and changes
    nothing at all: not the tables, not the listing cache, not the kernel.  This includes FORGET
    and BATCH_FORGET, to which the protocol expects no reply. *)
Theorem short_requests_inert `{Libc, Build, HashOrder, Host} (req : bytes) s :
  slice_ok req → (40 ≤ length req)%nat →
  (length req - 40 < min_body (Opcode_from (field 4 4 req)))%nat →
  Session_handle (E := ProtoError) req s =
    (Ok (ReplyBytes (OutHeader_error_for (field 8 8 req) (errno_val EINVAL))), s).
Proof.
  intros Hreq Hlen Hmin. unfold Session_handle. rewrite InHeader_from_bytes_eq by done.
  rewrite decide_True by done. simpl.
  pose proof (slice_body _ Hreq) as Hb.
  assert (length (InHeader_body req) = length req - 40)%nat as Hl.
  { unfold InHeader_body. rewrite length_drop. unfold IN_HEADER_LEN. lia. }
  rewrite <- Hl in Hmin. revert Hmin. generalize (InHeader_body req) Hb.
  generalize (field 8 8 req) (field 8 16 req) (Opcode_from (field 4 4 req)).
  clear. intros unique nodeid op body Hb Hmin.
  assert (∀ {A B} (r : outcome ProtoError A) k V (f : A → M Session Reply B),
    parses body r k V → (length body < k)%nat →
    (try_parse unique r ≫= f) s =
      (Err (ReplyBytes (OutHeader_error_for unique (errno_val EINVAL))), s)) as Hshort.
  { intros A B r k V f [Hp HV] Hk. unfold try_parse, lift, mbind, M_bind.
    destruct r as [a|e|]; [|done..]. destruct (HV a eq_refl). lia. }
  destruct op; simpl in Hmin; try lia; unfold returned; cbn [handle_opcode];
    unfold handle_init, handle_forget, handle_batch_forget, handle_getattr, handle_setattr,
      handle_mkdir, handle_rename, handle_rename2, handle_link, handle_open, handle_create,
      handle_read, handle_write, handle_flush, handle_fsync, handle_release, handle_opendir,
      handle_readdir, handle_releasedir, handle_access;
    (erewrite Hshort; [reflexivity| |exact Hmin]);
    eauto using parses_u32, parses_u64, parses_init, parses_getattr, parses_setattr, parses_mkdir,
      parses_rename, parses_rename2, parses_link, parses_create, parses_read, parses_write,
      parses_batch_forget.
Qed.

(** A FORGET with a 4-byte body gets an EINVAL reply. *)
Lemma short_requests_inert_witness :
  serve (request 2 5 2 (u32_le 1)) toy_session =
    (Ok (ReplyBytes (OutHeader_error_for 5 22)), toy_session).
Proof.
  assert (slice_ok (request 2 5 2 (u32_le 1))) as Hb by (vm_compute; reflexivity).
  assert (field 8 8 (request 2 5 2 (u32_le 1)) = 5) as Hu by (vm_compute; reflexivity).
  unfold serve. rewrite (short_requests_inert (request 2 5 2 (u32_le 1)) toy_session Hb), Hu;
    [reflexivity|vm_compute; lia|vm_compute; lia].
Defined.

(** C17: a guest that lists a directory by asking for the entries after the last cookie it got,
    with a buffer that holds at least one entry, sees every entry of the listing taken at the
    first request, once and in order, and its loop ends. *)
Theorem readdir_lists_all `{Libc, Build, HashOrder, Host} unique fh size l s fs' :
  is_uint 64 fh → is_uint 32 size → Z.of_nat (length l) < 2 ^ 63 → Forall (entry_ok size) l →
  PassthroughFs_readdir fh (s_fs s) = (Ok l, fs') →
  guest_list (S (length l)) unique fh 0 size s = Some (views 0 l).
Proof.
  intros Hfh Hsz Hlen Hok Hr.
  rewrite (guest_list_from unique fh size l (S (length l)) s
    (mkSession _ fs' (<[fh := l]> (readdir_cache s))) 0); try done; try lia.
  - apply listing_fresh; [by left|done].
  - apply lookup_insert_eq.
Qed.

(** A directory of three entries, read with room for one entry at a time. *)
Definition toy_dir3 : Session :=
  Session_new (foldl (λ fs op, (run_op op fs).2) (toy_fs 8)
    [FMkdir ROOT_ID name_b 0x1ed; FMkdir ROOT_ID name_s 0x1ed; FOpendir ROOT_ID]).

Lemma readdir_lists_all_witness :
  guest_list 4 1 1 0 32 toy_dir3 =
    Some [(14, 1, 4, name_s); (13, 2, 4, name_b); (12, 3, 8, name_a)].
Proof.
  rewrite (readdir_lists_all 1 1 32
    [mkDirEntry name_s 14 Dir 0; mkDirEntry name_b 13 Dir 0; mkDirEntry name_a 12 Regular 0]
    toy_dir3 (PassthroughFs_readdir 1 (s_fs toy_dir3)).2).
  - reflexivity.
  - uint.
  - uint.
  - simpl. lia.
  - repeat (apply Forall_cons; split; [split_and!; vm_compute; (split || idtac); congruence|]).
    by apply Forall_nil.
  - apply pair_fst. vm_compute. reflexivity.
Defined.
