(* ===== verification/Capacity.v ===== *)
(** * How long a session can run

    The counters of a session (inode ids, lookup counts, handles) are 64-bit integers that are
    never reset.  A request uses at most two values of each, so a session can serve any history
    of fewer than 2^63 requests without a counter wrapping. *)

From S2P Require Import Prelude Libc Errors Bytes Attr Wire Inode Handle Host ToyHost Passthrough.
From S2P Require Import FsProps Dispatch DispatchProps.
From stdpp Require Import gmultiset list.
Local Open Scope Z_scope.

(** Every counter has [n] values left. *)
Record fs_room `{Host} (n : Z) (fs : PassthroughFs) : Prop := {
  fr_id : 0 ≤ next_id (inodes fs) ∧ next_id (inodes fs) + n < 2 ^ 64;
  fr_lookups : map_Forall (λ _ d, 0 ≤ i_lookups d ∧ i_lookups d + n < 2 ^ 64) (by_id (inodes fs));
  fr_handle : 0 ≤ next_handle (fhandles fs) ∧ next_handle (fhandles fs) + n < 2 ^ 64;
}.

(** * Lemmas *)

Section FileSystem.
Context `{Libc, HashOrder, Host}.

Lemma fs_room_weaken m n fs : n ≤ m → fs_room m fs → fs_room n fs.
Proof.
  intros Hn [Hi Hl Hh]. split; [lia| |lia]. eapply map_Forall_impl; [exact Hl|]. simpl. intros. lia.
Qed.

Lemma fs_room_roomy n fs : 1 ≤ n → fs_room n fs → fs_roomy fs.
Proof.
  intros Hn [Hi Hl Hh]. split; [split|]; [lia| |lia]. intros id d Hd. specialize (Hl id d Hd). simpl in Hl. lia.
Qed.

Lemma room_syscall {A} n (call : World → (A + Z) * World) : keeps (fs_room n) (syscall call).
Proof. intros fs []. unfold syscall. by destruct (call (world fs)). Qed.

(** A computation that changes only the kernel. *)
Lemma room_world {A} n (m : M PassthroughFs FsError A) :
  (∀ fs, inodes (m fs).2 = inodes fs ∧ fhandles (m fs).2 = fhandles fs) → keeps (fs_room n) m.
Proof. intros Hm fs []. destruct (Hm fs) as [Hi Hh]. split; by rewrite ?Hi, ?Hh. Qed.

Lemma room_close n fds : keeps (fs_room n) (close_fds fds).
Proof. apply keeps_modify. by intros fs []. Qed.

Lemma room_inode n id : keeps (fs_room n) (PassthroughFs_inode id).
Proof.
  intros [w i h] Hr. unfold PassthroughFs_inode, with_inodes, zoom, InodeStore_get. simpl.
  by destruct (by_id i !! id).
Qed.

Lemma room_with_file n fh : keeps (fs_room n) (with_file fh).
Proof. by intros fs. Qed.
Lemma room_with_dir n fh : keeps (fs_room n) (with_dir fh).
Proof. by intros fs. Qed.

Lemma room_register n parent name fd st :
  0 ≤ n → moves (fs_room (n + 1)) (fs_room n) (with_inodes (InodeStore_register parent name fd st)).
Proof.
  intros Hn [w i h] Hr. unfold with_inodes, zoom, InodeStore_register. simpl.
  pose proof (fs_room_weaken (n + 1) n _ ltac:(lia) Hr) as Hr'. destruct Hr as [Hi Hl Hh]. simpl in *.
  destruct (by_key i !! stat_key st) as [id|]; simpl.
  - destruct (by_id i !! id) as [d|] eqn:Hd; simpl; [|done].
    destruct Hr' as [Hi' Hl' Hh']. split; simpl in *; [lia| |lia].
    apply map_Forall_insert_2; [|done]. specialize (Hl id d Hd). simpl in *.
    rewrite wrap_id by uint. lia.
  - destruct Hr' as [Hi' Hl' Hh']. split; simpl in *; [rewrite wrap_id by uint; lia| |lia].
    apply map_Forall_insert_2; [simpl; lia|done].
Qed.

Lemma room_register_inode n parent name fd st :
  0 ≤ n → moves (fs_room (n + 1)) (fs_room n) (register_inode parent name fd st).
Proof.
  intros Hn. unfold register_inode. eapply moves_bind; [by apply room_register| |done].
  intros [d fds]. eapply moves_bind; [apply room_close| |done]. intros []. apply keeps_ret.
Qed.

Lemma room_insert_handle n data :
  0 ≤ n → moves (fs_room (n + 1)) (fs_room n) (insert_handle data).
Proof.
  intros Hn. unfold insert_handle. eapply (moves_bind (fs_room n)); [| |done].
  - intros [w i h] Hr. unfold with_handles, zoom. simpl.
    pose proof (fs_room_weaken (n + 1) n _ ltac:(lia) Hr) as [Hi' Hl' Hh']. destruct Hr as [_ _ Hh].
    split; simpl in *; [done..|]. rewrite wrap_id by uint. lia.
  - intros [d fds]. eapply moves_bind; [apply room_close| |done]. intros []. apply keeps_ret.
Qed.

Lemma room_drop_handle n fh : keeps (fs_room n) (drop_handle fh).
Proof.
  unfold drop_handle. eapply keeps_bind.
  - intros [w i h] [Hi Hl Hh]. unfold with_handles, zoom, HandleStore_remove. simpl in *.
    by destruct (handles h !! fh).
  - intros ?. apply room_close.
Qed.

Lemma room_forget n ino count : 0 ≤ n → 0 ≤ count → keeps (fs_room n) (PassthroughFs_forget ino count).
Proof.
  intros Hn Hcount. unfold PassthroughFs_forget. eapply keeps_bind; [|intros ?; apply room_close].
  intros [w i h] [Hi Hl Hh]. unfold with_inodes, zoom, InodeStore_forget. simpl in *.
  destruct (ino =? ROOT_ID); [done|]. destruct (by_id i !! ino) as [d|] eqn:Hd; [|done].
  pose proof (Hl ino d Hd) as Hd'. simpl in Hd'.
  assert (map_Forall (λ _ d, 0 ≤ i_lookups d ∧ i_lookups d + n < 2 ^ 64)
    (<[ino := InodeData_set_lookups (wrap 64 (i_lookups d - Z.min count (i_lookups d))) d]> (by_id i))) as Hins.
  { apply map_Forall_insert_2; [|done]. simpl. rewrite wrap_id by uint. lia. }
  destruct (i_lookups d <=? count); simpl; split; simpl; try done. by apply map_Forall_delete.
Qed.

Lemma room_rename n a b c d : keeps (fs_room n) (with_inodes (modify (InodeStore_note_rename a b c d))).
Proof.
  intros [w i h] [Hi Hl Hh]. unfold with_inodes, zoom, modify, InodeStore_note_rename. simpl in *.
  case_match; [|done]. split; simpl; try done. intros id x Hx. simpl in *.
  rewrite lookup_alter in Hx. case_decide; [subst|by apply (Hl id)].
  destruct (by_id i !! id) as [x'|] eqn:Hx'; [|done]. simpl in Hx. injection Hx as <-.
  by apply (Hl id x').
Qed.

Lemma room_before {A B} n (m : M PassthroughFs FsError A) (k : A → M PassthroughFs FsError B) :
  keeps (fs_room (n + 1)) m → (∀ a, moves (fs_room (n + 1)) (fs_room n) (k a)) →
  moves (fs_room (n + 1)) (fs_room n) (m ≫= k).
Proof.
  intros Hm Hk. eapply moves_bind; [exact Hm|done|]. intros fs. apply fs_room_weaken. lia.
Qed.

Lemma room_after {A B} n (m : M PassthroughFs FsError A) (k : A → M PassthroughFs FsError B) :
  moves (fs_room (n + 1)) (fs_room n) m → (∀ a, keeps (fs_room n) (k a)) →
  moves (fs_room (n + 1)) (fs_room n) (m ≫= k).
Proof. intros Hm Hk. by eapply moves_bind. Qed.

Ltac room_keeps :=
  repeat first
    [ apply room_syscall | apply room_close | apply room_inode | apply room_with_file
    | apply room_with_dir | apply room_drop_handle | apply room_rename
    | apply keeps_bind; [|intros ?] | apply keeps_attempt | apply keeps_ret | apply keeps_lift
    | apply keeps_throw | case_match ].

Lemma room_open_child n pfd name : keeps (fs_room n) (open_child pfd name).
Proof. unfold open_child. room_keeps. Qed.
Lemma room_parent n d : keeps (fs_room n) (parent_fd_name d).
Proof. unfold parent_fd_name. room_keeps. Qed.
Lemma room_reopen n ino flags : keeps (fs_room n) (reopen_via_parent ino flags).
Proof. unfold reopen_via_parent. repeat first [apply room_parent | progress room_keeps]. Qed.
Lemma room_getattr n ino : keeps (fs_room n) (PassthroughFs_getattr ino).
Proof. unfold PassthroughFs_getattr. room_keeps. Qed.

Lemma room_setattr n ino attr : keeps (fs_room n) (PassthroughFs_setattr ino attr).
Proof.
  unfold PassthroughFs_setattr, setattr_size, setattr_mode, setattr_owner, setattr_times.
  repeat first [apply room_getattr | apply room_parent | apply room_reopen | progress room_keeps].
Qed.

Lemma room_link n ino parent name : keeps (fs_room n) (PassthroughFs_link ino parent name).
Proof.
  unfold PassthroughFs_link. repeat first [apply room_getattr | apply room_parent | progress room_keeps].
Qed.

Lemma room_readlink n ino : keeps (fs_room n) (PassthroughFs_readlink ino).
Proof. unfold PassthroughFs_readlink. repeat first [apply room_parent | progress room_keeps]. Qed.

Lemma room_lookup n parent name :
  0 ≤ n → moves (fs_room (n + 1)) (fs_room n) (PassthroughFs_lookup parent name).
Proof.
  intros Hn. unfold PassthroughFs_lookup.
  do 2 (apply room_before; [room_keeps|intros ?]). apply room_before; [apply room_open_child|intros ?].
  apply room_after; [by apply room_register_inode|intros ?]. apply keeps_ret.
Qed.

Lemma room_mkdir n parent name mode :
  0 ≤ n → moves (fs_room (n + 1)) (fs_room n) (PassthroughFs_mkdir parent name mode).
Proof.
  intros Hn. unfold PassthroughFs_mkdir.
  do 3 (apply room_before; [room_keeps|intros ?]). by apply room_lookup.
Qed.

Lemma room_symlink n parent name target :
  0 ≤ n → moves (fs_room (n + 1)) (fs_room n) (PassthroughFs_symlink parent name target).
Proof.
  intros Hn. unfold PassthroughFs_symlink.
  do 4 (apply room_before; [room_keeps|intros ?]). by apply room_lookup.
Qed.

Lemma room_open n ino flags :
  0 ≤ n → moves (fs_room (n + 1)) (fs_room n) (PassthroughFs_open ino flags).
Proof.
  intros Hn. unfold PassthroughFs_open. apply room_before; [apply room_reopen|intros ?].
  by apply room_insert_handle.
Qed.

Lemma room_opendir n ino :
  0 ≤ n → moves (fs_room (n + 1)) (fs_room n) (PassthroughFs_opendir ino).
Proof.
  intros Hn. unfold PassthroughFs_opendir. apply room_before; [apply room_reopen|intros ?].
  apply room_before; [|intros ?; by apply room_insert_handle].
  apply room_world. intros fs. by destruct (nix_dir_from_fd _ _).
Qed.

Lemma room_readdir n fh : keeps (fs_room n) (PassthroughFs_readdir fh).
Proof.
  unfold PassthroughFs_readdir. room_keeps. apply room_world. intros fs. by destruct (nix_dir_iter _ _).
Qed.

Lemma room_create n parent name flags mode :
  0 ≤ n → moves (fs_room (n + 1 + 1)) (fs_room n) (PassthroughFs_create parent name flags mode).
Proof.
  intros Hn. unfold PassthroughFs_create.
  do 3 (eapply (moves_bind (fs_room (n + 1 + 1)));
        [room_keeps|intros ?|intros fs; apply fs_room_weaken; lia]).
  eapply (moves_bind (fs_room (n + 1))); [apply room_lookup; lia|intros ?|intros fs; apply fs_room_weaken; lia].
  apply room_after; [by apply room_insert_handle|intros ?]. apply keeps_ret.
Qed.
End FileSystem.

Section Sessions.
Context `{Libc, Build, HashOrder, Host}.

Definition s_room (n : Z) (s : Session) : Prop := fs_room n (s_fs s).

(** A step of a request: it uses at most two values of each counter. *)
Abbreviation uses_two n m := (moves (s_room (n + 2)) (s_room n) m).

Lemma s_room_weaken m n s : n ≤ m → s_room m s → s_room n s.
Proof. apply fs_room_weaken. Qed.

Lemma s_before {A B} n (m : M Session Reply A) (k : A → M Session Reply B) :
  keeps (s_room (n + 2)) m → (∀ a, uses_two n (k a)) → uses_two n (m ≫= k).
Proof. intros Hm Hk. eapply moves_bind; [exact Hm|done|]. intros s. apply s_room_weaken. lia. Qed.

Lemma s_after {A B} n (m : M Session Reply A) (k : A → M Session Reply B) :
  uses_two n m → (∀ a, keeps (s_room n) (k a)) → uses_two n (m ≫= k).
Proof. intros Hm Hk. by eapply moves_bind. Qed.

Lemma s_keeps {A} n (m : M Session Reply A) : keeps (s_room n) m → uses_two n m.
Proof. intros Hm s Hs. apply Hm. eapply s_room_weaken; [|exact Hs]. lia. Qed.

Lemma s_parse {A} n unique (r : outcome ProtoError A) : keeps (s_room n) (try_parse unique r).
Proof. apply keeps_lift. Qed.

(** Parsing, with what is known of the value parsed. *)
Lemma s_parsed {A B} n unique (r : outcome ProtoError A) (k : A → M Session Reply B) :
  (∀ a, r = Ok a → uses_two n (k a)) → uses_two n (try_parse unique r ≫= k).
Proof.
  intros Hk s Hs. unfold try_parse, lift, mbind, M_bind. destruct r as [a|e|]; simpl.
  - by apply Hk.
  - eapply s_room_weaken; [|exact Hs]. lia.
  - eapply s_room_weaken; [|exact Hs]. lia.
Qed.

Lemma s_fs_keeps {A} n unique (m : M PassthroughFs FsError A) :
  keeps (fs_room n) m → keeps (s_room n) (try_fs unique m).
Proof.
  intros Hm s Hs. specialize (Hm (s_fs s) Hs). unfold try_fs, zoom, map_errM.
  by destruct (m (s_fs s)) as [r fs'].
Qed.

Lemma s_fs_one {A} n unique (m : M PassthroughFs FsError A) :
  moves (fs_room (n + 1)) (fs_room n) m → uses_two n (try_fs unique m).
Proof.
  intros Hm s Hs. specialize (Hm (s_fs s)). unfold try_fs, zoom, map_errM.
  destruct (m (s_fs s)) as [r fs'] eqn:E. apply Hm. eapply fs_room_weaken; [|exact Hs]. lia.
Qed.

Lemma s_fs_two {A} n unique (m : M PassthroughFs FsError A) :
  moves (fs_room (n + 1 + 1)) (fs_room n) m → uses_two n (try_fs unique m).
Proof.
  intros Hm s Hs. specialize (Hm (s_fs s)). unfold try_fs, zoom, map_errM.
  destruct (m (s_fs s)) as [r fs'] eqn:E. apply Hm. eapply fs_room_weaken; [|exact Hs]. lia.
Qed.

Lemma s_forget n ino count : 0 ≤ n → 0 ≤ count → keeps (s_room n) (fs_forget ino count).
Proof.
  intros Hn Hc s Hs. pose proof (room_forget n ino count Hn Hc (s_fs s) Hs) as Hr. unfold fs_forget, zoom.
  by destruct (PassthroughFs_forget ino count (s_fs s)) as [[]].
Qed.

Lemma s_forget_all n l : 0 ≤ n → Forall (λ f, 0 ≤ fo_nlookup f) l → keeps (s_room n) (forget_all l).
Proof.
  intros Hn Hl. induction Hl as [|f l Hf Hl IH]; cbn [forget_all]; [apply keeps_ret|].
  apply keeps_bind; [by apply s_forget|]. intros []. apply IH.
Qed.

Lemma s_now n : keeps (s_room n) now.
Proof. intros s []. unfold now. destruct (sys_now _) as [t w]. by destruct (default (0, 0) t). Qed.

Lemma s_set_time n v a b t ns : keeps (s_room n) (set_time v a b t ns).
Proof. unfold set_time. repeat case_match; [apply keeps_bind; [apply s_now|]; intros ?|..]; apply keeps_ret. Qed.

Lemma s_listing n unique r : keeps (s_room n) (readdir_listing unique r).
Proof.
  unfold readdir_listing. apply keeps_bind; [apply keeps_gets|intros c].
  apply keeps_bind; [|intros ?; apply keeps_gets]. case_match; [|apply keeps_ret].
  apply keeps_bind; [apply s_fs_keeps, room_readdir|intros l]. by apply keeps_modify.
Qed.

Ltac fs_keeps :=
  match goal with
  | |- keeps _ (PassthroughFs_getattr _) => apply room_getattr
  | |- keeps _ (PassthroughFs_setattr _ _) => apply room_setattr
  | |- keeps _ (PassthroughFs_readlink _) => apply room_readlink
  | |- keeps _ (PassthroughFs_link _ _ _) => apply room_link
  | |- keeps _ ?m => let h := constr:(m) in idtac; unfold PassthroughFs_unlink, PassthroughFs_rmdir,
      PassthroughFs_rename, PassthroughFs_read, PassthroughFs_write, PassthroughFs_fsync,
      PassthroughFs_release, PassthroughFs_releasedir, PassthroughFs_statfs;
      repeat first
        [ apply room_syscall | apply room_inode | apply room_with_file | apply room_drop_handle
        | apply room_rename | apply keeps_bind; [|intros ?] | apply keeps_ret | apply keeps_lift ]
  end.

Ltac fs_uses :=
  first
    [ apply s_fs_one; first [ by apply room_lookup | by apply room_mkdir | by apply room_symlink
                            | by apply room_open | by apply room_opendir ]
    | apply s_fs_two; by apply room_create
    | apply s_keeps, s_fs_keeps; by fs_keeps ].

Lemma opcode_uses n op unique nodeid body :
  0 ≤ n → slice_ok body → uses_two n (handle_opcode op unique nodeid body).
Proof.
  intros Hn Hb. destruct op; cbn [handle_opcode];
    unfold handle_init, handle_lookup, handle_getattr, handle_readlink, handle_symlink,
      handle_mkdir, handle_unlink, handle_rmdir, handle_rename, handle_rename2, handle_link, handle_open,
      handle_create, handle_read, handle_write, handle_flush, handle_fsync, handle_release, handle_opendir,
      handle_statfs, handle_access;
    try (apply s_keeps, keeps_ret);
    try solve [ repeat first
      [ apply s_before; [apply s_parse|intros ?] | case_match
      | apply s_after; [fs_uses|intros ?; apply keeps_ret]
      | apply s_keeps; apply keeps_ret | apply s_keeps; apply keeps_throw ] ].
  - unfold handle_forget. apply s_parsed. intros c Hc. destruct (parses_u64 body Hb) as [_ HV].
    destruct (HV c Hc) as [_ [? _]]. apply s_keeps. apply keeps_bind; [by apply s_forget|]. intros ?. apply keeps_ret.
  - unfold handle_setattr. apply s_before; [apply s_parse|intros ?].
    do 2 (apply s_before; [apply s_set_time|intros ?]). apply s_after; [fs_uses|intros ?; apply keeps_ret].
  - unfold handle_readdir. apply s_keeps. apply keeps_bind; [apply s_parse|intros r].
    apply keeps_bind; [apply s_listing|intros l]. apply keeps_bind; [apply keeps_lift|intros out; apply keeps_ret].
  - unfold handle_releasedir. apply s_before; [apply s_parse|intros ?].
    apply s_before; [by apply keeps_modify|intros ?]. apply s_after; [fs_uses|intros ?; apply keeps_ret].
  - apply s_before; [apply s_parse|intros ?]. apply s_after; [fs_uses|intros [[]]; apply keeps_ret].
  - unfold handle_batch_forget. apply s_parsed. intros l Hl. destruct (parses_batch_forget body Hb) as [_ HV].
    destruct (HV l Hl) as [_ ?]. apply s_keeps. apply keeps_bind; [by apply s_forget_all|]. intros ?. apply keeps_ret.
Qed.

Lemma handle_uses {E} n req :
  0 ≤ n → slice_ok req → moves (s_room (n + 2)) (s_room n) (Session_handle (E := E) req).
Proof.
  intros Hn Hreq s Hs. unfold Session_handle. destruct (InHeader_from_bytes req) as [h|e|]; simpl;
    [|eapply s_room_weaken; [|exact Hs]; lia..].
  pose proof (opcode_uses n (Opcode_from (ih_opcode h)) (ih_unique h) (ih_nodeid h) _ Hn (slice_body _ Hreq) s Hs).
  unfold returned. by destruct (handle_opcode _ _ _ _ s) as [[] ?].
Qed.
End Sessions.

(** A guest's requests, served one after the other. *)
Fixpoint serve_all `{Libc, Build, HashOrder, Host} (reqs : list bytes) : M Session ProtoError (list Reply) :=
  match reqs with
  | [] => mret []
  | req :: reqs => r ← Session_handle req; rs ← serve_all reqs; mret (r :: rs)
  end.

Section Histories.
Context `{Libc, Build, HashOrder, HL : HostLaws}.

(** A session that can serve [n] more requests. *)
Definition session_lasts (n : nat) (s : Session) : Prop :=
  session_ok s ∧ s_room (2 * Z.of_nat n) s.

Lemma lasts_roomy n s : session_lasts (S n) s → session_roomy s.
Proof. intros [Hok Hr]. split; [done|]. eapply fs_room_roomy; [|exact Hr]. lia. Qed.

Lemma session_lasts_step {E} n req s :
  slice_ok req → session_lasts (S n) s →
  ∃ r s', Session_handle (E := E) req s = (Ok r, s') ∧ session_lasts n s' ∧ answered req r.
Proof.
  intros Hreq Hs. destruct (handle_answers (E := E) req s Hreq) as (r & s' & Hh & Hok & Ha);
    [by eapply lasts_roomy|].
  exists r, s'. split; [done|]. split; [split; [done|]|done].
  pose proof (handle_uses (E := E) (2 * Z.of_nat n) req ltac:(lia) Hreq s) as Hu. rewrite Hh in Hu.
  apply Hu. destruct Hs as [_ Hs]. by replace (2 * Z.of_nat n + 2) with (2 * Z.of_nat (S n)) by lia.
Qed.

Lemma serve_all_answers reqs : ∀ s,
  Forall slice_ok reqs → session_lasts (length reqs) s →
  ∃ rs s', serve_all reqs s = (Ok rs, s') ∧ session_ok s' ∧ Forall2 answered reqs rs.
Proof.
  induction reqs as [|req reqs IH]; intros s Hreqs Hs; cbn [serve_all].
  - exists [], s. split_and!; [done|apply Hs|constructor].
  - inversion_clear Hreqs as [|? ? Hreq Hreqs']. cbn [length] in Hs.
    destruct (session_lasts_step (E := ProtoError) _ _ _ Hreq Hs) as (r & s1 & Hh & Hs1 & Hr).
    destruct (IH s1 Hreqs' Hs1) as (rs & s' & Hall & Hok & Hrs).
    exists (r :: rs), s'. split_and!; [|done|by constructor].
    unfold mbind, M_bind. by rewrite Hh, Hall.
Qed.

Lemma lasts_new path w fs w' n :
  2 * Z.of_nat n < 2 ^ 64 - 2 → PassthroughFs_new path w = (Ok fs, w') → session_lasts n (Session_new fs).
Proof.
  intros Hn Hnew. pose proof (new_inv _ _ _ _ Hnew) as Hinv. split.
  - split; [by eexists|apply map_Forall_empty].
  - revert Hnew. unfold PassthroughFs_new. case_bool_decide; [done|].
    destruct (sys_open _ _ w) as [[fd|e] w1]; [|done]. destruct (sys_fstat fd w1) as [[st|e] w2]; [|done].
    intros [= <- <-]. unfold s_room. split; simpl; unfold ROOT_ID;
      [lia|intros id d [<- <-]%lookup_singleton_Some; simpl; lia|lia].
Qed.
End Histories.

(** * Properties *)

(** C13: the server is never worn out: from a freshly opened export, any history of fewer than
    2^63 - 1 requests, whatever their bytes and whatever the kernel answers, is served to its
    end; no request panics, each one is answered as the protocol prescribes, and the session
    stays well formed.  (Running out of memory is outside the model.) *)
Theorem serves_any_history `{Libc, Build, HashOrder, HL : HostLaws} path w fs w' (reqs : list bytes) :
  PassthroughFs_new path w = (Ok fs, w') →
  Z.of_nat (length reqs) < 2 ^ 63 - 1 → Forall slice_ok reqs →
  ∃ rs s', serve_all reqs (Session_new fs) = (Ok rs, s') ∧ session_ok s' ∧ Forall2 answered reqs rs.
Proof.
  intros Hnew Hlen Hreqs. apply serve_all_answers; [done|]. eapply lasts_new; [|exact Hnew]. lia.
Qed.

#[local] Existing Instance linux_libc.
#[local] Existing Instance key_order.
#[local] Existing Instance debug_build.

(** A lookup, a request cut short, the forget that undoes the lookup, and an unknown opcode. *)
Definition toy_history : list bytes :=
  [request 1 7 ROOT_ID (name_a ++ [NUL]); [NUL]; request 2 8 2 (u64_le 1); request 999 9 ROOT_ID []].

Lemma serves_any_history_witness :
  ∃ rs s', serve_all toy_history toy_session = (Ok rs, s') ∧ session_ok s' ∧
    Forall2 answered toy_history rs.
Proof.
  apply (serves_any_history (HL := toy_laws) [Byte.x2f] (toy0 8) (toy_fs 8) (world (toy_fs 8))).
  - apply toy_fs_new. lia.
  - simpl. lia.
  - repeat (apply Forall_cons; split; [vm_compute; reflexivity|]). apply Forall_nil_2.
Defined.
