(* ===== verification/VhostMsg.v ===== *)
(** * vhost-user messages

    [vhost_user/header.rs] and [vhost_user/payload.rs]: the 12-byte header, the request codes and
    the fixed-layout payloads. *)

From S2P Require Import Prelude Libc Errors Bytes.
Local Open Scope Z_scope.

Definition HEADER_LEN : nat := 12.
Definition FLAG_VERSION_1 : Z := 0x1.
Definition FLAG_REPLY : Z := 0x4.
Definition FLAG_NEED_REPLY : Z := 0x8.

Inductive Request :=
| GetFeatures | SetFeatures | SetOwner | ResetOwner | SetMemTable | SetLogBase | SetLogFd
| SetVringNum | SetVringAddr | SetVringBase | GetVringBase | SetVringKick | SetVringCall
| SetVringErr | GetProtocolFeatures | SetProtocolFeatures | GetQueueNum | SetVringEnable.

#[export] Instance Request_eq_dec : EqDecision Request.
Proof. solve_decision. Defined.

(** [request as u32]. *)
Definition Request_code (r : Request) : Z :=
  match r with
  | GetFeatures => 1 | SetFeatures => 2 | SetOwner => 3 | ResetOwner => 4 | SetMemTable => 5
  | SetLogBase => 6 | SetLogFd => 7 | SetVringNum => 8 | SetVringAddr => 9 | SetVringBase => 10
  | GetVringBase => 11 | SetVringKick => 12 | SetVringCall => 13 | SetVringErr => 14
  | GetProtocolFeatures => 15 | SetProtocolFeatures => 16 | GetQueueNum => 17
  | SetVringEnable => 18
  end.

Definition Request_try_from (v : Z) : outcome ProtoError Request :=
  match v with
  | 1 => Ok GetFeatures | 2 => Ok SetFeatures | 3 => Ok SetOwner | 4 => Ok ResetOwner
  | 5 => Ok SetMemTable | 6 => Ok SetLogBase | 7 => Ok SetLogFd | 8 => Ok SetVringNum
  | 9 => Ok SetVringAddr | 10 => Ok SetVringBase | 11 => Ok GetVringBase | 12 => Ok SetVringKick
  | 13 => Ok SetVringCall | 14 => Ok SetVringErr | 15 => Ok GetProtocolFeatures
  | 16 => Ok SetProtocolFeatures | 17 => Ok GetQueueNum | 18 => Ok SetVringEnable
  | other => Err (UnknownRequest other)
  end.

Record MsgHeader := mkMsgHeader { mh_request : Z; mh_flags : Z; mh_size : Z }.

Definition MsgHeader_new (request : Request) (flags size : Z) : MsgHeader :=
  mkMsgHeader (Request_code request) (Z.lor flags FLAG_VERSION_1) size.
Definition MsgHeader_reply (request : Request) (size : Z) : MsgHeader :=
  MsgHeader_new request FLAG_REPLY size.
Definition MsgHeader_request (h : MsgHeader) : outcome ProtoError Request :=
  Request_try_from (mh_request h).
Definition MsgHeader_is_reply (h : MsgHeader) : bool := negb (Z.land (mh_flags h) FLAG_REPLY =? 0).
Definition MsgHeader_needs_reply (h : MsgHeader) : bool :=
  negb (Z.land (mh_flags h) FLAG_NEED_REPLY =? 0).
Definition MsgHeader_to_bytes (h : MsgHeader) : bytes :=
  u32_le (mh_request h) ++ u32_le (mh_flags h) ++ u32_le (mh_size h).
(** The argument is an array of 12 bytes. *)
Definition MsgHeader_from_bytes (buf : bytes) : MsgHeader :=
  mkMsgHeader (field 4 0 buf) (field 4 4 buf) (field 4 8 buf).

(** ** Payloads *)

Definition U64Payload_to_bytes (v : Z) : bytes := u64_le v.
Definition U64Payload_from_bytes (buf : bytes) : outcome ProtoError Z :=
  arr ← ok_or (get_range buf 0 8) Truncated;
  mret (le_combine arr).

Record VringState := mkVringState { vs_index : Z; vs_num : Z }.

Definition VringState_to_bytes (s : VringState) : bytes := u32_le (vs_index s) ++ u32_le (vs_num s).
Definition VringState_from_bytes (buf : bytes) : outcome ProtoError VringState :=
  if (length buf <? 8)%nat then Err Truncated
  else Ok (mkVringState (field 4 0 buf) (field 4 4 buf)).

Record VringAddr := mkVringAddr {
  va_index : Z; va_flags : Z; va_descriptor : Z; va_used : Z; va_avail : Z; va_log : Z;
}.

Definition VringAddr_from_bytes (buf : bytes) : outcome ProtoError VringAddr :=
  if (length buf <? 40)%nat then Err Truncated
  else Ok (mkVringAddr (field 4 0 buf) (field 4 4 buf) (field 8 8 buf) (field 8 16 buf)
                       (field 8 24 buf) (field 8 32 buf)).
Definition VringAddr_to_bytes (a : VringAddr) : bytes :=
  u32_le (va_index a) ++ u32_le (va_flags a) ++ u64_le (va_descriptor a) ++ u64_le (va_used a)
    ++ u64_le (va_avail a) ++ u64_le (va_log a).

Definition VRING_NOFD_MASK : Z := 0x100.

Record VringFdPayload := mkVringFdPayload { vf_index : Z; vf_no_fd : bool }.

Definition VringFdPayload_from_bytes (buf : bytes) : outcome ProtoError VringFdPayload :=
  u ← U64Payload_from_bytes buf;
  mret (mkVringFdPayload (as_u8 (Z.land u 0xff)) (negb (Z.land u VRING_NOFD_MASK =? 0))).
Definition VringFdPayload_to_bytes (p : VringFdPayload) : bytes :=
  U64Payload_to_bytes (if vf_no_fd p then Z.lor (vf_index p) VRING_NOFD_MASK else vf_index p).

Record MemoryRegion := mkMemoryRegion {
  mr_guest_phys_addr : Z; mr_memory_size : Z; mr_userspace_addr : Z; mr_mmap_offset : Z;
}.

Definition REGION_LEN : nat := 32.

Definition MemoryRegion_from_bytes (buf : bytes) : outcome ProtoError MemoryRegion :=
  if (length buf <? REGION_LEN)%nat then Err Truncated
  else Ok (mkMemoryRegion (field 8 0 buf) (field 8 8 buf) (field 8 16 buf) (field 8 24 buf)).
Definition MemoryRegion_to_bytes (r : MemoryRegion) : bytes :=
  u64_le (mr_guest_phys_addr r) ++ u64_le (mr_memory_size r) ++ u64_le (mr_userspace_addr r)
    ++ u64_le (mr_mmap_offset r).

(** The [for] loop, [count] iterations from [offset]. *)
Fixpoint regions_from (buf : bytes) (offset count : nat) (regions : list MemoryRegion)
    : outcome ProtoError (list MemoryRegion) :=
  match count with
  | O => Ok regions
  | S count =>
      let end_ := (offset + REGION_LEN)%nat in
      bytes ← ok_or (get_range buf offset end_) Truncated;
      region ← MemoryRegion_from_bytes bytes;
      regions_from buf end_ count (regions ++ [region])
  end.

(** The source reserves room for [count] regions before it reads them ([Vec::with_capacity]); the
    reservation is not modelled. *)
Definition MemoryRegions_from_bytes (buf : bytes) : outcome ProtoError (list MemoryRegion) :=
  if (length buf <? 8)%nat then Err Truncated
  else regions_from buf 8 (Z.to_nat (field 4 0 buf)) [].

Definition MemoryRegions_to_bytes (regions : list MemoryRegion) : bytes :=
  u32_le (as_u32 (Z.of_nat (length regions))) ++ u32_le 0
    ++ concat (MemoryRegion_to_bytes <$> regions).

(** ** Specifications *)

Record MsgHeader_ok (h : MsgHeader) : Prop := {
  mho_request : is_uint 32 (mh_request h);
  mho_flags : is_uint 32 (mh_flags h);
  mho_size : is_uint 32 (mh_size h);
}.
Record VringAddr_ok (a : VringAddr) : Prop := {
  vao_index : is_uint 32 (va_index a);
  vao_flags : is_uint 32 (va_flags a);
  vao_descriptor : is_uint 64 (va_descriptor a);
  vao_used : is_uint 64 (va_used a);
  vao_avail : is_uint 64 (va_avail a);
  vao_log : is_uint 64 (va_log a);
}.
Record MemoryRegion_ok (r : MemoryRegion) : Prop := {
  mro_gpa : is_uint 64 (mr_guest_phys_addr r);
  mro_size : is_uint 64 (mr_memory_size r);
  mro_user : is_uint 64 (mr_userspace_addr r);
  mro_offset : is_uint 64 (mr_mmap_offset r);
}.

(** * Lemmas *)

Lemma length_MsgHeader_to_bytes h : length (MsgHeader_to_bytes h) = HEADER_LEN.
Proof. unfold MsgHeader_to_bytes. len. Qed.
Lemma length_MemoryRegion_to_bytes r : length (MemoryRegion_to_bytes r) = REGION_LEN.
Proof. unfold MemoryRegion_to_bytes. len. Qed.

Lemma MsgHeader_roundtrip h rest :
  MsgHeader_ok h → MsgHeader_from_bytes (MsgHeader_to_bytes h ++ rest) = h.
Proof.
  intros []. destruct h as [r f s]; simpl in *. unfold MsgHeader_from_bytes, MsgHeader_to_bytes.
  rewrite <- !app_assoc. simpl. fields. unfold as_u32. by rewrite !wrap_id.
Qed.

Lemma VringState_roundtrip s rest :
  is_uint 32 (vs_index s) → is_uint 32 (vs_num s) →
  VringState_from_bytes (VringState_to_bytes s ++ rest) = Ok s.
Proof.
  intros Hi Hn. destruct s as [i n]; simpl in *. unfold VringState_from_bytes, VringState_to_bytes. simpl.
  autorewrite with len. simpl. rewrite <- app_assoc. fields. unfold as_u32. by rewrite !wrap_id.
Qed.

Lemma VringAddr_roundtrip a rest :
  VringAddr_ok a → VringAddr_from_bytes (VringAddr_to_bytes a ++ rest) = Ok a.
Proof.
  intros []. destruct a; simpl in *. unfold VringAddr_from_bytes, VringAddr_to_bytes. simpl.
  autorewrite with len. simpl. rewrite <- !app_assoc. fields. unfold as_u32, as_u64.
  by rewrite !wrap_id.
Qed.

Lemma MemoryRegion_roundtrip r rest :
  MemoryRegion_ok r → MemoryRegion_from_bytes (MemoryRegion_to_bytes r ++ rest) = Ok r.
Proof.
  intros []. destruct r as [g m u o]; simpl in *. unfold MemoryRegion_from_bytes.
  rewrite length_app, length_MemoryRegion_to_bytes.
  rewrite (proj2 (Nat.ltb_ge _ _)) by lia. unfold MemoryRegion_to_bytes. rewrite <- !app_assoc.
  simpl. fields. unfold as_u64. by rewrite !wrap_id.
Qed.

Lemma regions_from_roundtrip l : ∀ pre out rest,
  Forall MemoryRegion_ok l →
  regions_from (pre ++ concat (MemoryRegion_to_bytes <$> l) ++ rest) (length pre) (length l) out
  = Ok (out ++ l).
Proof.
  induction l as [|r l IH]; intros pre out rest Hl; simpl; [by rewrite app_nil_r|].
  apply Forall_cons in Hl as [Hr Hl]. rewrite <- app_assoc.
  rewrite (get_range_app pre (MemoryRegion_to_bytes r)) by (by rewrite ?length_MemoryRegion_to_bytes).
  simpl. rewrite <- (app_nil_r (MemoryRegion_to_bytes r)) at 1.
  rewrite MemoryRegion_roundtrip by done. simpl.
  replace (length pre + REGION_LEN)%nat with (length (pre ++ MemoryRegion_to_bytes r))
    by (by rewrite length_app, length_MemoryRegion_to_bytes).
  rewrite (app_assoc pre), IH by done. by rewrite <- app_assoc.
Qed.

(** A list of [count] regions is accepted exactly when the buffer holds them. *)
Lemma regions_from_total buf count : ∀ offset out,
  (offset ≤ length buf)%nat →
  match regions_from buf offset count out with
  | Ok l => length l = (length out + count)%nat ∧ (offset + count * 32 ≤ length buf)%nat
  | Err e => e = Truncated ∧ (length buf < offset + count * 32)%nat
  | Panic => False
  end.
Proof.
  induction count as [|count IH]; intros offset out Ho; simpl; [lia|].
  destruct (get_range buf offset (offset + REGION_LEN)) as [b|] eqn:Hb; simpl.
  - pose proof (length_get_range _ _ _ _ Hb) as Hlb. apply get_range_Some in Hb as [Hr _].
    unfold MemoryRegion_from_bytes. rewrite (proj2 (Nat.ltb_ge _ _)) by (unfold REGION_LEN in *; lia).
    simpl. specialize (IH (offset + REGION_LEN)%nat
      (out ++ [mkMemoryRegion (field 8 0 b) (field 8 8 b) (field 8 16 b) (field 8 24 b)]) ltac:(lia)).
    unfold REGION_LEN in *. case_match; [|by split; [apply IH|lia]|done].
    rewrite length_app in IH. simpl in IH. lia.
  - split; [done|]. unfold get_range in Hb. case_match eqn:E; [done|].
    apply andb_false_iff in E as [E|E]; [apply Nat.leb_gt in E|apply Nat.leb_gt in E];
      unfold REGION_LEN in *; lia.
Qed.

Lemma fd_payload_bits i b :
  is_uint 8 i →
  let u := if (b : bool) then Z.lor i VRING_NOFD_MASK else i in
  is_uint 64 u ∧ Z.land u 0xff = i ∧ (Z.land u VRING_NOFD_MASK =? 0) = negb b.
Proof.
  intros Hi u. assert (0 ≤ i < 256) as Hr by uint.
  assert (forallb (λ j, let i := Z.of_nat j in
    let u := if b then Z.lor i VRING_NOFD_MASK else i in
    (u <? 2 ^ 64) && (0 <=? u) && (Z.land u 0xff =? i) && eqb (Z.land u VRING_NOFD_MASK =? 0) (negb b))
    (seq 0 256) = true) as Hall by (destruct b; vm_compute; reflexivity).
  rewrite forallb_forall in Hall. specialize (Hall (Z.to_nat i)).
  rewrite Z2Nat.id in Hall by lia. fold u in Hall.
  specialize (Hall ltac:(apply in_seq; lia)). apply andb_prop in Hall as [Hall He]. to_prop.
  split_and!; [uint|done|by apply eqb_prop].
Qed.

(** * Properties *)

(** Every request code is understood as the request it encodes, and every other number is
    reported as unknown, never a panic. *)
Theorem Request_codes (r : Request) (v : Z) :
  Request_try_from (Request_code r) = Ok r ∧
  match Request_try_from v with
  | Ok r' => Request_code r' = v
  | Err e => e = UnknownRequest v ∧ ¬ 1 ≤ v ≤ 18
  | Panic => False
  end.
Proof.
  split; [by destruct r|]. destruct (Request_try_from v) as [r'|e|] eqn:E;
    unfold Request_try_from in E; repeat case_match; simplify_eq; try done; (split; [done|lia]).
Qed.

(** The fixed-layout payloads survive encoding: what a front-end encodes with [to_bytes] is
    what [from_bytes] yields, even with bytes after it. *)
Theorem payload_roundtrips h v s a p rest :
  MsgHeader_ok h → is_uint 64 v → is_uint 32 (vs_index s) → is_uint 32 (vs_num s) →
  VringAddr_ok a → is_uint 8 (vf_index p) →
  MsgHeader_from_bytes (MsgHeader_to_bytes h ++ rest) = h ∧
  U64Payload_from_bytes (U64Payload_to_bytes v ++ rest) = Ok v ∧
  VringState_from_bytes (VringState_to_bytes s ++ rest) = Ok s ∧
  VringAddr_from_bytes (VringAddr_to_bytes a ++ rest) = Ok a ∧
  VringFdPayload_from_bytes (VringFdPayload_to_bytes p ++ rest) = Ok p.
Proof.
  intros Hh Hv Hi Hn Ha Hp.
  assert (∀ x, is_uint 64 x → U64Payload_from_bytes (U64Payload_to_bytes x ++ rest) = Ok x) as Hu.
  { intros x Hx. unfold U64Payload_from_bytes, U64Payload_to_bytes.
    rewrite (get_range_app [] (u64_le x) rest) by (by rewrite ?u64_le_length). simpl.
    rewrite u64_le_split. f_equal. by apply le_roundtrip. }
  split_and!; [by apply MsgHeader_roundtrip|by apply Hu|..].
  - by apply VringState_roundtrip.
  - by apply VringAddr_roundtrip.
  - destruct p as [i b]; simpl in *. destruct (fd_payload_bits i b Hp) as (H64 & Hlow & Hmask).
    unfold VringFdPayload_from_bytes, VringFdPayload_to_bytes. simpl. rewrite Hu by done. simpl.
    rewrite Hlow, Hmask, negb_involutive. unfold as_u8. by rewrite wrap_id.
Qed.

Lemma payload_roundtrips_witness :
  VringFdPayload_from_bytes (VringFdPayload_to_bytes (mkVringFdPayload 2 true) ++ [NUL])
  = Ok (mkVringFdPayload 2 true).
Proof.
  apply (payload_roundtrips (mkMsgHeader 1 1 0) 3 (mkVringState 0 256) (mkVringAddr 0 0 1 2 3 4)
    (mkVringFdPayload 2 true) [NUL]); try split; simpl; uint.
Defined.

(** A memory table is accepted exactly when the buffer holds as many regions as its count
    says, and then they are the ones the front-end sent; a short one is [Truncated], never a
    panic. *)
Theorem mem_table_roundtrip l rest buf :
  Forall MemoryRegion_ok l → Z.of_nat (length l) < 2 ^ 32 →
  MemoryRegions_from_bytes (MemoryRegions_to_bytes l ++ rest) = Ok l ∧
  match MemoryRegions_from_bytes buf with
  | Ok l' => Z.of_nat (length l') = field 4 0 buf ∧ (8 + 32 * length l' ≤ length buf)%nat
  | Err e => e = Truncated ∧
      ((length buf < 8)%nat ∨ (length buf < 8 + 32 * Z.to_nat (field 4 0 buf))%nat)
  | Panic => False
  end.
Proof.
  intros Hl Hn. split.
  - unfold MemoryRegions_from_bytes, MemoryRegions_to_bytes.
    set (pre := u32_le (as_u32 (Z.of_nat (length l))) ++ u32_le 0).
    assert (length pre = 8%nat) as Hpre by (subst pre; len).
    replace ((u32_le (as_u32 (Z.of_nat (length l))) ++ u32_le 0 ++
      concat (MemoryRegion_to_bytes <$> l)) ++ rest)
      with (pre ++ concat (MemoryRegion_to_bytes <$> l) ++ rest)
      by (subst pre; by rewrite <- !app_assoc).
    rewrite length_app, Hpre. simpl.
    assert (field 4 0 (pre ++ concat (MemoryRegion_to_bytes <$> l) ++ rest) = Z.of_nat (length l)) as ->.
    { subst pre. rewrite <- !app_assoc. fields. unfold as_u32. rewrite wrap_wrap by lia.
      rewrite wrap_id by uint. done. }
    rewrite Nat2Z.id, <- Hpre. by apply (regions_from_roundtrip l pre []).
  - unfold MemoryRegions_from_bytes. destruct (Nat.ltb_spec (length buf) 8); [by split; [|left]|].
    pose proof (regions_from_total buf (Z.to_nat (field 4 0 buf)) 8 [] ltac:(lia)) as Ht.
    assert (0 ≤ field 4 0 buf) by (apply (field_range 4 0 buf 32); [done|lia]).
    destruct (regions_from _ _ _ _) as [l'|e|]; [|naive_solver lia|done]. simpl in Ht. lia.
Qed.

Lemma mem_table_roundtrip_witness :
  let r := mkMemoryRegion 0x40000000 0x1000 0x7f0000000000 0 in
  MemoryRegions_from_bytes (MemoryRegions_to_bytes [r]) = Ok [r].
Proof.
  intros r. rewrite <- (app_nil_r (MemoryRegions_to_bytes [r])).
  apply (mem_table_roundtrip [r] [] []); [|done].
  apply Forall_cons. split; [|by apply Forall_nil]. split; simpl; uint.
Defined.
