(* ===== verification/Memory.v ===== *)
(** * Guest memory

    [vhost_user/memory.rs].  A region maps part of a shared memory object (the file behind a
    descriptor of SET_MEM_TABLE) with [MAP_SHARED], so a host pointer is modelled as an object
    and an offset in it: two regions that map the same bytes of the same object alias, as they do
    in the process.  The heap gives the bytes of the objects; an access to a byte that does not
    exist (the object is shorter than the mapping) stops the process, like a panic. *)

From S2P Require Import Prelude Libc Errors Bytes Attr Wire Host ToyHost VhostMsg.
Local Open Scope Z_scope.

Abbreviation ptr := (Z * Z)%type.
Abbreviation Heap :=
  (@gmap (Z * Z) (@prod_eq_dec Z Z.eq_dec Z Z.eq_dec)
     (@prod_countable Z Z.eq_dec Z_countable Z Z.eq_dec Z_countable) byte).

(** [p.add(n)]. *)
Definition ptr_add (p : ptr) (n : Z) : ptr := (p.1, p.2 + n).

(** The [n] addresses from [p] on. *)
Definition cells (p : ptr) (n : nat) : list ptr := (λ i, ptr_add p (Z.of_nat i)) <$> seq 0 n.

(** The bytes at some addresses, and the heap with them overwritten. *)
Definition load_cells (cs : list ptr) (h : Heap) : option bytes := mapM (λ c, h !! c) cs.

Fixpoint store_cells (cs : list ptr) (bs : bytes) (h : Heap) : Heap :=
  match cs, bs with
  | c :: cs, b :: bs => store_cells cs bs (<[c := b]> h)
  | _, _ => h
  end.

(** A [&[u8]] or [&mut [u8]] into guest memory. *)
Record slice := mkSlice { sl_ptr : ptr; sl_len : Z }.

Definition slice_cells (s : slice) : list ptr := cells (sl_ptr s) (Z.to_nat (sl_len s)).

(** The accesses to shared memory, as a class: the operations of the device are written against it,
    so that they run on a memory nobody else touches ([heap_ram]) and on one the guest writes to
    at the same time.  A store writes as many bytes as there are. *)
Class Ram (Hp : Type) := {
  load_at {E} : list ptr → M Hp E bytes;
  store_at {E} : list ptr → bytes → M Hp E unit;
}.

#[global] Instance heap_ram : Ram Heap := {|
  load_at E cs h := match load_cells cs h with Some b => (Ok b, h) | None => (Panic, h) end;
  store_at E cs b h := match load_cells cs h with Some _ => (Ok tt, store_cells cs b h) | None => (Panic, h) end;
|}.

Section Access.
Context `{Ram Hp}.

Definition load {E} (s : slice) : M Hp E bytes := load_at (slice_cells s).

(** [copy_from_slice]: the lengths must agree. *)
Definition store {E} (s : slice) (b : bytes) : M Hp E unit :=
  if (Z.to_nat (sl_len s) =? length b)%nat then store_at (slice_cells s) b else panic.
End Access.
#[global] Arguments load : simpl never.
#[global] Arguments store : simpl never.

Inductive AddrSpace := Gpa | User.

Record Region := mkRegion {
  r_gpa : Z;
  r_user_addr : Z;
  r_len : Z;
  r_ptr : ptr;
  r_mmap_base : ptr;
  r_mmap_len : Z;
}.

Definition Region_base_for (r : Region) (space : AddrSpace) : Z :=
  match space with
  | Gpa => r_gpa r
  | User => r_user_addr r
  end.

Record GuestMemory := mkGuestMemory { regions : list Region }.

Definition region_has (space : AddrSpace) (addr len : Z) (r : Region) : bool :=
  let base := Region_base_for r space in
  (base <=? addr) && (len <=? r_len r) && (addr - base <=? r_len r - len).

Definition GuestMemory_find (mem : GuestMemory) (space : AddrSpace) (addr len : Z) : option Region :=
  List.find (region_has space addr len) (regions mem).

Definition get_slice (mem : GuestMemory) (space : AddrSpace) (addr len : Z) : option slice :=
  r ← GuestMemory_find mem space addr len;
  let offset := addr - Region_base_for r space in
  Some (mkSlice (ptr_add (r_ptr r) offset) len).

(** The same lookup; the slice it gives is written through. *)
Definition get_slice_mut (mem : GuestMemory) (space : AddrSpace) (addr len : Z) : option slice :=
  r ← GuestMemory_find mem space addr len;
  let offset := addr - Region_base_for r space in
  Some (mkSlice (ptr_add (r_ptr r) offset) len).

Section Integers.
Context `{Ram Hp}.

(** [get_slice(..).map(|s| from_le_bytes(s.try_into().unwrap()))]. *)
Definition read_int {E} (n : nat) (mem : GuestMemory) (space : AddrSpace) (addr : Z)
    : M Hp E (option Z) :=
  match get_slice mem space addr (Z.of_nat n) with
  | None => mret None
  | Some s => b ← load s; a ← lift (to_array n b); mret (Some (le_combine a))
  end.

Definition read_u16 {E} := read_int (E := E) 2.
Definition read_u32 {E} := read_int (E := E) 4.
Definition read_u64 {E} := read_int (E := E) 8.

Definition write_u16 {E} (mem : GuestMemory) (space : AddrSpace) (addr val : Z)
    : M Hp E (option unit) :=
  match get_slice_mut mem space addr 2 with
  | None => mret None
  | Some s => _ ← store s (u16_le val); mret (Some tt)
  end.

Definition write_u32 {E} (mem : GuestMemory) (space : AddrSpace) (addr val : Z)
    : M Hp E (option unit) :=
  match get_slice_mut mem space addr 4 with
  | None => mret None
  | Some s => _ ← store s (u32_le val); mret (Some tt)
  end.
End Integers.

(** ** Mapping

    [mmap] and [munmap] are the host's: a successful [mmap] names the object the descriptor
    refers to, and the mapping's first byte is the object's byte at the given offset. *)

Class Mmap `{Host} := {
  PAGESIZE : Z;
  sys_mmap : Z → Z → Z → World → (Z + Z) * World;
  sys_munmap : ptr → Z → World → World;
}.

Section Mapping.
Context `{Build, Mmap}.

(** The arithmetic of [map_one]: the aligned offset, the distance to it and the length mapped. *)
Definition mmap_extent {E} (region : MemoryRegion) : outcome E (Z * Z * Z) :=
  let page_size := as_u64 PAGESIZE in
  rem ← urem (mr_mmap_offset region) page_size;
  aligned_offset ← usub 64 (mr_mmap_offset region) rem;
  extra ← usub 64 (mr_mmap_offset region) aligned_offset;
  mmap_len ← uadd 64 (mr_memory_size region) extra;
  mret (aligned_offset, extra, mmap_len).

(** The [mmap] call and the test for [MAP_FAILED]. *)
Definition mmap_call (len fd off : Z) : M World io_error Z := λ w,
  let '(r, w) := sys_mmap len fd off w in
  (match r with inl obj => Ok obj | inr e => Err (Os e) end, w).

Definition map_one (region : MemoryRegion) (fd : Z) : M World io_error Region :=
  x ← lift (mmap_extent region);
  let '(aligned_offset, extra, mmap_len) := x in
  obj ← mmap_call mmap_len fd (as_i64 aligned_offset);
  let base := (obj, as_i64 aligned_offset) in
  mret (mkRegion (mr_guest_phys_addr region) (mr_userspace_addr region) (mr_memory_size region)
                 (ptr_add base extra) base mmap_len).

(** [impl Drop for Region]. *)
Definition Region_drop (r : Region) (w : World) : World :=
  sys_munmap (r_mmap_base r) (r_mmap_len r) w.

Definition GuestMemory_drop (mem : GuestMemory) (w : World) : World :=
  foldl (λ w r, Region_drop r w) w (regions mem).

(** The [for] loop; an error drops what was mapped so far. *)
Fixpoint map_all (l : list (MemoryRegion * Z)) (mapped : list Region) : M World io_error (list Region) :=
  match l with
  | [] => mret mapped
  | (region, fd) :: l => λ w,
      match map_one region fd w with
      | (Ok r, w) => map_all l (mapped ++ [r]) w
      | (Err e, w) => (Err e, GuestMemory_drop (mkGuestMemory mapped) w)
      | (Panic, w) => (Panic, w)
      end
  end.

Definition map_regions (rs : list MemoryRegion) (fds : list Z) : M World io_error GuestMemory :=
  if (length rs =? length fds)%nat then
    mapped ← map_all (zip rs fds) [];
    mret (mkGuestMemory mapped)
  else throw (Custom "SET_MEM_TABLE region and fd counts differ").
End Mapping.

(** ** Specifications *)

(** The mapped part of an object covers the usable part of the region. *)
Definition region_in_mapping (r : Region) : Prop :=
  (r_ptr r).1 = (r_mmap_base r).1 ∧ (r_mmap_base r).2 ≤ (r_ptr r).2 ∧
  (r_ptr r).2 + r_len r ≤ (r_mmap_base r).2 + r_mmap_len r.

(** The bytes of a slice are bytes of the region's mapping. *)
Definition slice_in_mapping (r : Region) (s : slice) : Prop :=
  (sl_ptr s).1 = (r_mmap_base r).1 ∧ (r_mmap_base r).2 ≤ (sl_ptr s).2 ∧
  (sl_ptr s).2 + sl_len s ≤ (r_mmap_base r).2 + r_mmap_len r.

(** What a front-end that follows the vhost-user specification sends: regions that lie within the
    64-bit address spaces and do not overlap there, backed by objects as long as they say. *)
Record region_ok (h : Heap) (r : Region) : Prop := {
  ro_gpa : 0 ≤ r_gpa r ∧ r_gpa r + r_len r ≤ 2 ^ 64;
  ro_user : 0 ≤ r_user_addr r ∧ r_user_addr r + r_len r ≤ 2 ^ 64;
  ro_len : 0 ≤ r_len r;
  ro_backed : Forall (λ c, is_Some (h !! c)) (cells (r_ptr r) (Z.to_nat (r_len r)));
}.

Definition apart (space : AddrSpace) (r r' : Region) : Prop :=
  Region_base_for r space + r_len r ≤ Region_base_for r' space ∨
  Region_base_for r' space + r_len r' ≤ Region_base_for r space.

Record mem_ok (h : Heap) (mem : GuestMemory) : Prop := {
  mo_regions : Forall (region_ok h) (regions mem);
  mo_apart space : ForallOrdPairs (apart space) (regions mem);
}.

(** * Lemmas *)

(** ** Cells *)

Lemma ptr_add_add p m n : ptr_add (ptr_add p m) n = ptr_add p (m + n).
Proof. unfold ptr_add. simpl. f_equal. lia. Qed.

Lemma ptr_add_0 p : ptr_add p 0 = p.
Proof. destruct p. unfold ptr_add. simpl. f_equal. lia. Qed.

Lemma length_cells p n : length (cells p n) = n.
Proof. unfold cells. by rewrite length_fmap, length_seq. Qed.

Lemma cells_app p m n : cells p (m + n) = cells p m ++ cells (ptr_add p (Z.of_nat m)) n.
Proof.
  unfold cells. rewrite seq_app, fmap_app. f_equal. simpl.
  rewrite <- (Nat.add_0_r m) at 1. rewrite <- fmap_add_seq, <- list_fmap_compose.
  apply list_fmap_ext. intros i x _. simpl. rewrite ptr_add_add. f_equal. lia.
Qed.

Lemma take_cells p n k : (k ≤ n)%nat → take k (cells p n) = cells p k.
Proof.
  intros Hk. replace n with (k + (n - k))%nat by lia. rewrite cells_app.
  by rewrite take_app_length' by (by rewrite length_cells).
Qed.

Lemma drop_cells p n k : (k ≤ n)%nat → drop k (cells p n) = cells (ptr_add p (Z.of_nat k)) (n - k).
Proof.
  intros Hk. replace n with (k + (n - k))%nat at 1 by lia. rewrite cells_app.
  by rewrite drop_app_length' by (by rewrite length_cells).
Qed.

Lemma elem_of_cells c p n :
  c ∈ cells p n ↔ c.1 = p.1 ∧ p.2 ≤ c.2 < p.2 + Z.of_nat n.
Proof.
  unfold cells, ptr_add. rewrite list_elem_of_fmap. split.
  - intros (i & -> & Hi%elem_of_seq). simpl. lia.
  - intros [H1 H2]. exists (Z.to_nat (c.2 - p.2)). rewrite elem_of_seq. split; [|lia].
    destruct c; simpl in *. f_equal; [done|lia].
Qed.

Lemma NoDup_cells p n : NoDup (cells p n).
Proof.
  unfold cells. apply (NoDup_fmap_2_strong _); [|apply NoDup_seq].
  intros i j _ _ Hij. unfold ptr_add in Hij. simplify_eq/=. lia.
Qed.

(** ** Loads and stores *)

Lemma load_cells_Some cs h bs :
  load_cells cs h = Some bs ↔ Forall2 (λ c b, h !! c = Some b) cs bs.
Proof. apply mapM_Some. Qed.

Lemma load_cells_is_Some cs h :
  is_Some (load_cells cs h) ↔ Forall (λ c, is_Some (h !! c)) cs.
Proof. apply mapM_is_Some. Qed.

Lemma load_cells_length cs h bs : load_cells cs h = Some bs → length bs = length cs.
Proof. intros Hl%load_cells_Some. symmetry. by eapply Forall2_length. Qed.

Lemma load_cells_app cs1 cs2 h :
  load_cells (cs1 ++ cs2) h = b1 ← load_cells cs1 h; b2 ← load_cells cs2 h; Some (b1 ++ b2).
Proof.
  induction cs1 as [|c cs1 IH]; simpl; [by destruct (load_cells cs2 h)|].
  unfold load_cells in *. simpl. rewrite IH. destruct (h !! c); simpl; [|done].
  destruct (mapM _ cs1); simpl; [|done]. by destruct (mapM _ cs2).
Qed.

Lemma load_cells_take cs h bs k :
  load_cells cs h = Some bs → load_cells (take k cs) h = Some (take k bs).
Proof. rewrite !load_cells_Some. apply Forall2_take. Qed.

Lemma load_cells_drop cs h bs k :
  load_cells cs h = Some bs → load_cells (drop k cs) h = Some (drop k bs).
Proof. rewrite !load_cells_Some. apply Forall2_drop. Qed.

Lemma store_cells_app cs1 bs1 cs2 bs2 h :
  length cs1 = length bs1 →
  store_cells (cs1 ++ cs2) (bs1 ++ bs2) h = store_cells cs2 bs2 (store_cells cs1 bs1 h).
Proof.
  revert bs1 h. induction cs1 as [|c cs1 IH]; intros [|b bs1] h Hl; simpl in *; try done.
  apply IH. lia.
Qed.

Lemma store_cells_notin cs bs h c : c ∉ cs → store_cells cs bs h !! c = h !! c.
Proof.
  revert bs h. induction cs as [|c' cs IH]; intros [|b bs] h Hc; simpl; try done.
  apply not_elem_of_cons in Hc as [Hne Hc]. by rewrite IH, lookup_insert_ne.
Qed.

(** Stores to other places do not interfere. *)
Lemma load_store_apart cs cs' bs h :
  Forall (λ c, c ∉ cs') cs → load_cells cs (store_cells cs' bs h) = load_cells cs h.
Proof.
  intros Hc. unfold load_cells. induction Hc as [|c cs Hc _ IH]; simpl; [done|].
  by rewrite store_cells_notin, IH.
Qed.

(** Reading back what was stored. *)
Lemma load_store_same cs bs h :
  NoDup cs → length cs = length bs → load_cells cs (store_cells cs bs h) = Some bs.
Proof.
  intros Hnd Hl. apply load_cells_Some. revert bs h Hl.
  induction Hnd as [|c cs Hc Hnd IH]; intros [|b bs] h Hl; simpl in *; try done.
  constructor; [by rewrite store_cells_notin, lookup_insert_eq|]. apply IH. lia.
Qed.

(** Stores never unmap a byte. *)
Lemma store_cells_mono cs bs h c : is_Some (h !! c) → is_Some (store_cells cs bs h !! c).
Proof.
  revert bs h. induction cs as [|c' cs IH]; intros [|b bs] h Hc; simpl; try done.
  apply IH. rewrite lookup_insert_is_Some'. by right.
Qed.

Lemma store_cells_insert_comm cs bs h c b :
  c ∉ cs → store_cells cs bs (<[c := b]> h) = <[c := b]> (store_cells cs bs h).
Proof.
  revert bs h. induction cs as [|c' cs IH]; intros [|b' bs] h Hc; simpl; try done.
  apply not_elem_of_cons in Hc as [Hne Hc]. by rewrite insert_insert_ne, IH by done.
Qed.

(** Stores to disjoint places commute. *)
Lemma store_cells_comm cs1 bs1 cs2 bs2 h :
  (∀ c, c ∈ cs1 → c ∉ cs2) →
  store_cells cs1 bs1 (store_cells cs2 bs2 h) = store_cells cs2 bs2 (store_cells cs1 bs1 h).
Proof.
  revert bs1 h. induction cs1 as [|c cs1 IH]; intros [|b bs1] h Hd; simpl; try done.
  rewrite <- store_cells_insert_comm by (apply Hd; by left). apply IH.
  intros c' Hc'. apply Hd. by right.
Qed.

(** ** Address translation *)

Lemma region_has_spec space addr len r :
  region_has space addr len r = true ↔
  Region_base_for r space ≤ addr ∧ len ≤ r_len r ∧
  addr + len ≤ Region_base_for r space + r_len r.
Proof.
  unfold region_has. rewrite !andb_true_iff, !Z.leb_le. lia.
Qed.

Lemma get_slice_region mem space addr len s :
  get_slice mem space addr len = Some s →
  ∃ r, r ∈ regions mem ∧ GuestMemory_find mem space addr len = Some r ∧
    Region_base_for r space ≤ addr ∧ len ≤ r_len r ∧
    addr + len ≤ Region_base_for r space + r_len r ∧
    s = mkSlice (ptr_add (r_ptr r) (addr - Region_base_for r space)) len.
Proof.
  unfold get_slice. destruct (GuestMemory_find mem space addr len) as [r|] eqn:Hf; [|done].
  intros [= <-]. exists r. apply List.find_some in Hf as Hr. destruct Hr as [Hin Hhas].
  apply region_has_spec in Hhas. rewrite list_elem_of_In. naive_solver.
Qed.

Lemma apart_sym space r r' : apart space r r' → apart space r' r.
Proof. unfold apart. tauto. Qed.

(** Where regions do not overlap, a part of a slice is the part of the slice. *)
Lemma get_slice_sub h mem space addr len s k n :
  mem_ok h mem → get_slice mem space addr len = Some s → 0 ≤ k → 0 < n → k + n ≤ len →
  get_slice mem space (addr + k) n = Some (mkSlice (ptr_add (sl_ptr s) k) n).
Proof.
  intros Hm Hs Hk Hn Hkn. destruct (get_slice_region _ _ _ _ _ Hs) as (r & Hr & _ & Hb & Hlen & He & ->).
  simpl. unfold get_slice. destruct (GuestMemory_find mem space (addr + k) n) as [r'|] eqn:Hf.
  - assert (r' = r) as ->.
    { apply List.find_some in Hf as [Hin' Hhas']. apply region_has_spec in Hhas'.
      apply list_elem_of_In in Hr.
      destruct (ForallOrdPairs_In (mo_apart _ _ Hm space) _ _ Hin' Hr) as [->|[Ha|Ha]]; [done| |];
        [|apply apart_sym in Ha]; unfold apart in Ha; lia. }
    rewrite ptr_add_add. simpl. do 3 f_equal. lia.
  - exfalso. apply list_elem_of_In in Hr. unfold GuestMemory_find in Hf.
    pose proof (List.find_none _ _ Hf r Hr) as Hno.
    assert (region_has space (addr + k) n r = true) by (apply region_has_spec; lia). congruence.
Qed.

(** The bytes of a slice are among those of its region, so they are there. *)
Lemma get_slice_backed h mem space addr len s :
  mem_ok h mem → get_slice mem space addr len = Some s → is_Some (load_cells (slice_cells s) h).
Proof.
  intros Hm Hs. destruct (get_slice_region _ _ _ _ _ Hs) as (r & Hr & _ & Hb & Hlen & He & ->).
  apply load_cells_is_Some, Forall_forall. intros c Hc.
  pose proof (mo_regions _ _ Hm) as Hrs. rewrite Forall_forall in Hrs. specialize (Hrs r Hr).
  pose proof (ro_backed _ _ Hrs) as Hback. rewrite Forall_forall in Hback. apply Hback.
  unfold slice_cells in Hc. simpl in Hc. rewrite elem_of_cells in *. simpl in *.
  pose proof (ro_len _ _ Hrs). lia.
Qed.

Lemma get_slice_range h mem space addr len s :
  mem_ok h mem → get_slice mem space addr len = Some s → 0 ≤ addr ∧ addr + len ≤ 2 ^ 64.
Proof.
  intros Hm Hs. destruct (get_slice_region _ _ _ _ _ Hs) as (r & Hr & _ & Hb & Hlen & He & ->).
  pose proof (mo_regions _ _ Hm) as Hrs. rewrite Forall_forall in Hrs. specialize (Hrs r Hr).
  pose proof (ro_gpa _ _ Hrs). pose proof (ro_user _ _ Hrs). destruct space; simpl in *; lia.
Qed.

Lemma get_slice_len mem space addr len s :
  get_slice mem space addr len = Some s → sl_len s = len.
Proof. intros Hs. by destruct (get_slice_region _ _ _ _ _ Hs) as (r & _ & _ & _ & _ & _ & ->). Qed.

Lemma get_slice_mut_eq mem space addr len :
  get_slice_mut mem space addr len = get_slice mem space addr len.
Proof. done. Qed.

Lemma mem_ok_store h mem cs bs : mem_ok h mem → mem_ok (store_cells cs bs h) mem.
Proof.
  intros [Hr Ha]. split; [|done]. eapply Forall_impl; [exact Hr|]. intros r [? ? ? Hb]. split; try done.
  eapply Forall_impl; [exact Hb|]. intros c. apply store_cells_mono.
Qed.

Lemma load_run {E} s h b : load_cells (slice_cells s) h = Some b → load (E := E) s h = (Ok b, h).
Proof. intros Hl. unfold load. simpl. by rewrite Hl. Qed.

Lemma store_at_run {E} cs b (h : Heap) :
  is_Some (load_cells cs h) → store_at (E := E) cs b h = (Ok tt, store_cells cs b h).
Proof. intros [old Hl]. simpl. by rewrite Hl. Qed.

Lemma store_run {E} s b h :
  is_Some (load_cells (slice_cells s) h) → length b = Z.to_nat (sl_len s) →
  store (E := E) s b h = (Ok tt, store_cells (slice_cells s) b h).
Proof.
  intros Hl Hb. unfold store. rewrite (proj2 (Nat.eqb_eq _ _)) by lia. by apply store_at_run.
Qed.

(** A read of an integer, when its bytes can be translated. *)
Lemma read_int_run {E} n mem space addr h s b :
  get_slice mem space addr (Z.of_nat n) = Some s → load_cells (slice_cells s) h = Some b →
  read_int (E := E) n mem space addr h = (Ok (Some (le_combine b)), h).
Proof.
  intros Hs Hb. unfold read_int. rewrite Hs. unfold mbind, M_bind. rewrite (load_run _ _ _ Hb).
  apply load_cells_length in Hb. apply get_slice_len in Hs. unfold slice_cells in Hb.
  rewrite length_cells, Hs, Nat2Z.id in Hb. unfold lift, to_array. by rewrite (proj2 (Nat.eqb_eq _ _)).
Qed.

(** Whatever the address, a read of well-formed memory ends, and yields a value of its width. *)
Lemma read_int_total {E} n mem space addr h :
  mem_ok h mem →
  ∃ o, read_int (E := E) n mem space addr h = (Ok o, h) ∧
       ∀ v, o = Some v → is_uint (8 * Z.of_nat n) v ∧ 0 ≤ addr ∧ addr + Z.of_nat n ≤ 2 ^ 64.
Proof.
  intros Hm. destruct (get_slice mem space addr (Z.of_nat n)) as [s|] eqn:Hs.
  - destruct (get_slice_backed _ _ _ _ _ _ Hm Hs) as [b Hb]. eexists.
    split; [by apply (read_int_run n mem space addr h s b)|]. intros v [= <-].
    split; [|by eapply get_slice_range]. apply le_combine_uint.
    rewrite (load_cells_length _ _ _ Hb). unfold slice_cells. rewrite length_cells.
    rewrite (get_slice_len _ _ _ _ _ Hs). lia.
  - exists None. unfold read_int. rewrite Hs. done.
Qed.

(** ** Mapping *)

Section MapLemmas.
Context `{Build, Mmap}.

(** The length to map does not wrap: checked at run time, or true of the region. *)
Definition extent_ok (region : MemoryRegion) : Prop :=
  overflow_checks = true ∨
  mr_memory_size region + mr_mmap_offset region mod as_u64 PAGESIZE < 2 ^ 64.

Lemma mmap_extent_ok region aligned extra len :
  MemoryRegion_ok region → extent_ok region →
  mmap_extent (E := io_error) region = Ok (aligned, extra, len) →
  0 ≤ extra ∧ len = mr_memory_size region + extra ∧ aligned + extra = mr_mmap_offset region ∧ 0 ≤ aligned.
Proof.
  intros [_ Hsz _ Hoff] Hext. unfold mmap_extent, urem.
  destruct (as_u64 PAGESIZE =? 0) eqn:Hp; [done|]. to_prop. simpl.
  assert (0 < as_u64 PAGESIZE) as Hpos.
  { assert (is_uint 64 (as_u64 PAGESIZE)) by (by apply wrap_range). uint. }
  pose proof (Z.mod_pos_bound (mr_mmap_offset region) _ Hpos) as Hr.
  pose proof (Z.mod_le (mr_mmap_offset region) (as_u64 PAGESIZE) ltac:(uint) Hpos) as Hle.
  set (rem := mr_mmap_offset region mod as_u64 PAGESIZE) in *.
  rewrite usub_in by uint. simpl. rewrite usub_in by uint. simpl.
  replace (mr_mmap_offset region - (mr_mmap_offset region - rem)) with rem by lia.
  unfold uadd, arith. case_match eqn:Hc.
  - simpl. intros [= <- <- <-]. lia.
  - destruct overflow_checks eqn:Ho; [done|]. destruct Hext as [Hext|Hext]; [congruence|].
    exfalso. apply andb_false_iff in Hc as [Hc|Hc]; to_prop; uint.
Qed.

Lemma page_slack region :
  MemoryRegion_ok region → as_u64 PAGESIZE ≠ 0 →
  0 ≤ mr_mmap_offset region mod as_u64 PAGESIZE ≤ mr_mmap_offset region.
Proof.
  intros [_ _ _ Hoff] Hp. assert (is_uint 64 (as_u64 PAGESIZE)) by (by apply wrap_range).
  split; [apply Z.mod_pos_bound|apply Z.mod_le]; uint.
Qed.

Lemma mmap_extent_wraps {E} region :
  MemoryRegion_ok region → as_u64 PAGESIZE ≠ 0 →
  2 ^ 64 ≤ mr_memory_size region + mr_mmap_offset region mod as_u64 PAGESIZE →
  let rem := mr_mmap_offset region mod as_u64 PAGESIZE in
  mmap_extent (E := E) region =
    if overflow_checks then Panic else Ok (mr_mmap_offset region - rem, rem, mr_memory_size region + rem - 2 ^ 64).
Proof.
  intros Hr Hp Hw rem. pose proof (page_slack region Hr Hp) as Hs. fold rem in Hs, Hw.
  destruct Hr as [_ Hsz _ Hoff]. unfold mmap_extent, urem. rewrite (proj2 (Z.eqb_neq _ _) Hp). simpl. fold rem.
  rewrite usub_in by uint. simpl. rewrite usub_in by uint. simpl.
  replace (mr_mmap_offset region - (mr_mmap_offset region - rem)) with rem by lia.
  unfold uadd, arith. rewrite (proj2 (Z.ltb_ge _ _)), andb_false_r by lia. destruct overflow_checks; [done|]. simpl.
  do 2 f_equal. unfold wrap. rewrite <- (Z_mod_plus_full _ (-1)), Z.mod_small by uint. lia.
Qed.

Lemma map_one_ok region fd w r w' :
  MemoryRegion_ok region → extent_ok region → map_one region fd w = (Ok r, w') →
  region_in_mapping r.
Proof.
  intros Hr He. unfold map_one, lift, mbind, M_bind.
  destruct (mmap_extent region) as [[[aligned extra] len]|e|] eqn:Hx; [|done..].
  destruct (mmap_extent_ok _ _ _ _ Hr He Hx) as (Hextra & -> & _ & _).
  unfold mmap_call. destruct (sys_mmap _ _ _ w) as [[obj|e] w1]; [|done]. intros [= <- <-].
  unfold region_in_mapping. simpl. pose proof (mro_size _ Hr). uint.
Qed.

Lemma map_all_ok l : ∀ mapped w rs w',
  Forall (λ p, MemoryRegion_ok p.1 ∧ extent_ok p.1) l → Forall region_in_mapping mapped →
  map_all l mapped w = (Ok rs, w') → Forall region_in_mapping rs.
Proof.
  induction l as [|[region fd] l IH]; intros mapped w rs w' Hl Hm; cbn [map_all].
  - by intros [= <- <-].
  - apply Forall_cons in Hl as [[Hr He] Hl].
    destruct (map_one region fd w) as [[r|e|] w1] eqn:Hone; [|done..].
    apply IH; [done|]. apply Forall_app. split; [done|]. apply Forall_singleton.
    by eapply map_one_ok.
Qed.
End MapLemmas.

(** A host with pages of 4096 bytes on which every non-empty mapping succeeds. *)
Definition toy_mmap : Mmap (H := toy_host) := {|
  PAGESIZE := 4096;
  sys_mmap len fd off w := if len =? 0 then (inr 22, w) else (inl fd, w);
  sys_munmap p len w := w;
|}.

Definition checked_build : Build := {| overflow_checks := true |}.
Definition unchecked_build : Build := {| overflow_checks := false |}.

(** A page of guest memory: object 7, at guest address 0x1000 and user address 0x9000. *)
Definition page_memory : GuestMemory :=
  mkGuestMemory [mkRegion 0x1000 0x9000 64 (7, 0) (7, 0) 64].
Definition page_heap : Heap := store_cells (cells (7, 0) 64) (replicate 64 NUL) ∅.

Lemma page_memory_ok : mem_ok page_heap page_memory.
Proof.
  split.
  - apply Forall_singleton. split; [simpl; lia..|]. apply load_cells_is_Some.
    change (is_Some (load_cells (cells (7, 0) 64) page_heap)). unfold page_heap.
    rewrite load_store_same; [done|apply NoDup_cells|done].
  - intros space. repeat constructor.
Qed.

(** * Properties *)

(** C20: for a memory table whose lengths do not wrap when [map_one] adds the alignment slack (which
    a build with overflow checks enforces, and one without does not), no address, whatever the
    guest or the front-end puts into a ring or a descriptor, makes the server touch memory outside
    the mappings: every slice [get_slice] yields lies within the mapping of one region, at the
    distance from its start that the address has from the region's base in the requested address
    space. *)
Theorem guest_access_confined `{Build, Mmap} rs fds w mem w' space addr len s :
  Forall MemoryRegion_ok rs → Forall extent_ok rs →
  map_regions rs fds w = (Ok mem, w') → get_slice mem space addr len = Some s →
  ∃ r, r ∈ regions mem ∧ slice_in_mapping r s ∧ sl_len s = len ∧
    sl_ptr s = ptr_add (r_ptr r) (addr - Region_base_for r space) ∧
    Region_base_for r space ≤ addr ∧ addr + len ≤ Region_base_for r space + r_len r.
Proof.
  intros Hrs He Hmap Hs. destruct (get_slice_region _ _ _ _ _ Hs) as (r & Hr & _ & Hb & Hlen & Hend & ->).
  exists r. split_and!; try done.
  assert (Forall region_in_mapping (regions mem)) as Hin.
  { revert Hmap. unfold map_regions, mbind, M_bind. case_match; [|done].
    destruct (map_all _ _ w) as [[l|e|] w1] eqn:Hall; [|done..]. intros [= <- <-]. simpl.
    eapply (map_all_ok (zip rs fds) []); [|done|exact Hall].
    apply Forall_forall. intros [region fd] Hz. apply elem_of_zip_l in Hz.
    rewrite Forall_forall in Hrs, He. split; [by apply Hrs|by apply He]. }
  rewrite Forall_forall in Hin. destruct (Hin r Hr) as (Hm1 & Hm2 & Hm3).
  unfold slice_in_mapping. simpl. split_and!; [done|lia|lia].
Qed.

Lemma guest_access_confined_witness :
  ∃ r, r_mmap_len r = 0x2000 ∧ slice_in_mapping r (mkSlice (5, 0x1010) 8).
Proof.
  set (rs := [mkMemoryRegion 0x40000000 0x1000 0x7f0000000000 0x1000;
              mkMemoryRegion 0x80000000 0x2000 0x7f0000100000 0x1000]).
  destruct (guest_access_confined (H := checked_build) (H1 := toy_mmap) rs [4; 5] (mkToy ∅ ∅ 0 0 extra0)
    (mkGuestMemory
      [mkRegion 0x40000000 0x7f0000000000 0x1000 (4, 0x1000) (4, 0x1000) 0x1000;
       mkRegion 0x80000000 0x7f0000100000 0x2000 (5, 0x1000) (5, 0x1000) 0x2000])
    (mkToy ∅ ∅ 0 0 extra0) Gpa 0x80000010 8 (mkSlice (5, 0x1010) 8)) as (r & Hr & Hsl & _ & _ & Hb & _).
  - repeat (apply Forall_cons; split; [split; simpl; uint|]). by apply Forall_nil.
  - repeat (apply Forall_cons; split; [by left|]). by apply Forall_nil.
  - vm_compute. reflexivity.
  - vm_compute. reflexivity.
  - exists r. split; [|done].
    apply list_elem_of_In in Hr. destruct Hr as [<-|[<-|[]]]; [|done].
    exfalso. destruct Hsl as [[=] _].
Defined.

(** C40: what happens to a region whose length wraps when [map_one] adds the alignment slack.  With
    overflow checks [map_one] panics.  Without them (the release profile) a mapping that succeeds
    is shorter than the slack, the region is recorded with its full claimed length, and every
    non-empty slice [get_slice] then hands out for it reaches outside the mapping; the first byte
    of the region is one. *)
Theorem mmap_len_overflow `{Build, Mmap} region fd w :
  MemoryRegion_ok region → as_u64 PAGESIZE ≠ 0 →
  2 ^ 64 ≤ mr_memory_size region + mr_mmap_offset region mod as_u64 PAGESIZE →
  if overflow_checks then (map_one region fd w).1 = Panic
  else ∀ r w', map_one region fd w = (Ok r, w') →
    r_len r = mr_memory_size region ∧
    r_mmap_len r = mr_memory_size region + mr_mmap_offset region mod as_u64 PAGESIZE - 2 ^ 64 ∧
    is_Some (get_slice (mkGuestMemory [r]) Gpa (mr_guest_phys_addr region) 1) ∧
    ∀ space addr len s, 0 < len → get_slice (mkGuestMemory [r]) space addr len = Some s → ¬ slice_in_mapping r s.
Proof.
  intros Hr Hp Hw. pose proof (mmap_extent_wraps (E := io_error) region Hr Hp Hw) as Hx.
  destruct overflow_checks eqn:Ho; unfold map_one, lift, mbind, M_bind; rewrite Hx; [done|].
  intros r w'. unfold mmap_call. destruct (sys_mmap _ _ _ w) as [[obj|e] w1]; [|done]. intros [= <- <-].
  pose proof (page_slack region Hr Hp) as Hs. destruct Hr as [_ Hsz _ Hoff]. simpl. split_and!; [done..| |].
  - unfold get_slice, GuestMemory_find, region_has. simpl.
    rewrite (proj2 (Z.leb_le _ _)), (proj2 (Z.leb_le 1 _)), (proj2 (Z.leb_le (_ - _) _)) by uint. by eexists.
  - intros space addr len s Hlen Hg. destruct (get_slice_region _ _ _ _ _ Hg) as (r & Hin & _ & Hb & Hl & _ & ->).
    apply list_elem_of_singleton in Hin as ->. unfold slice_in_mapping. simpl in *. uint.
Qed.

Lemma mmap_len_overflow_witness :
  let region := mkMemoryRegion 0 (2 ^ 64 - 1) 0 4095 in
  let w := mkToy ∅ ∅ 0 0 extra0 in
  let r := mkRegion 0 0 (2 ^ 64 - 1) (5, 4095) (5, 0) 4094 in
  map_one (H := unchecked_build) (H1 := toy_mmap) region 5 w = (Ok r, w) ∧
  (∀ s, get_slice (mkGuestMemory [r]) Gpa 0x100000 8 = Some s → ¬ slice_in_mapping r s) ∧
  (map_one (H := checked_build) (H1 := toy_mmap) region 5 w).1 = Panic.
Proof.
  intros region w r. assert (map_one (H := unchecked_build) (H1 := toy_mmap) region 5 w = (Ok r, w)) as Hone
    by (vm_compute; reflexivity). split; [exact Hone|]. split.
  - intros s Hs. apply (mmap_len_overflow (H := unchecked_build) (H1 := toy_mmap) region 5 w) with (w' := w)
      (space := Gpa) (addr := 0x100000) (len := 8); [split; simpl; uint|done|vm_compute; congruence|exact Hone|lia|exact Hs].
  - apply (mmap_len_overflow (H := checked_build) (H1 := toy_mmap) region 5 w); [split; simpl; uint|done|vm_compute; congruence].
Defined.

(** In well-formed memory an access outside the regions is refused and changes nothing; an
    access inside stores exactly the bytes of the value, little-endian, is read back as the value
    through either address space, and leaves every other byte alone. *)
Theorem write_read_u32 {E} h mem space addr v :
  mem_ok h mem → is_uint 32 v →
  match get_slice mem space addr 4 with
  | None => write_u32 (E := E) mem space addr v h = (Ok None, h) ∧
            read_u32 (E := E) mem space addr h = (Ok None, h)
  | Some s =>
      ∃ h', write_u32 (E := E) mem space addr v h = (Ok (Some tt), h') ∧ mem_ok h' mem ∧
        read_u32 (E := E) mem space addr h' = (Ok (Some v), h') ∧
        (∀ space' addr', get_slice mem space' addr' 4 = Some s →
           read_u32 (E := E) mem space' addr' h' = (Ok (Some v), h')) ∧
        (∀ c, c ∉ slice_cells s → h' !! c = h !! c)
  end.
Proof.
  intros Hm Hv. destruct (get_slice mem space addr 4) as [s|] eqn:Hs.
  - pose proof (get_slice_backed _ _ _ _ _ _ Hm Hs) as Hb.
    pose proof (get_slice_len _ _ _ _ _ Hs) as Hl.
    exists (store_cells (slice_cells s) (u32_le v) h).
    assert (∀ space' addr', get_slice mem space' addr' 4 = Some s →
      read_u32 (E := E) mem space' addr' (store_cells (slice_cells s) (u32_le v) h)
      = (Ok (Some v), store_cells (slice_cells s) (u32_le v) h)) as Hread.
    { intros space' addr' Hs'. unfold read_u32. rewrite (read_int_run 4 mem space' addr' _ s (u32_le v)); [|exact Hs'|].
      - rewrite u32_le_split, le_roundtrip by done. done.
      - apply load_store_same; [apply NoDup_cells|]. unfold slice_cells.
        rewrite length_cells, u32_le_length, Hl. done. }
    split_and!; [|by apply mem_ok_store|by apply Hread|done|].
    + unfold write_u32. rewrite get_slice_mut_eq, Hs. unfold mbind, M_bind.
      rewrite store_run; [done|done|by rewrite u32_le_length, Hl].
    + intros c Hc. by apply store_cells_notin.
  - unfold write_u32, read_u32, read_int. rewrite get_slice_mut_eq.
    change (Z.of_nat 4) with 4. by rewrite Hs.
Qed.

Lemma write_read_u32_witness :
  read_u32 (E := unit) page_memory User 0x9004
    (write_u32 (E := unit) page_memory Gpa 0x1004 0xdeadbeef page_heap).2
  = (Ok (Some 0xdeadbeef), (write_u32 (E := unit) page_memory Gpa 0x1004 0xdeadbeef page_heap).2).
Proof.
  destruct (write_read_u32 (E := unit) page_heap page_memory Gpa 0x1004 0xdeadbeef page_memory_ok)
    as (h' & Hw & _ & _ & Hr & _); [uint|].
  rewrite Hw. apply (Hr User 0x9004). vm_compute. reflexivity.
Defined.
