(* ===== verification/Virtqueue.v ===== *)
(** * Split virtqueues

    [vhost_user/virtqueue.rs]: the available ring, descriptor chains, gathering and scattering
    their buffers, the [iovec]s of the vectored transfers, and the used ring.  The operations run
    on the heap of [Memory]; those that change the queue return it. *)

From S2P Require Import Prelude Libc Errors Bytes Attr Wire Host VhostMsg Memory.
From stdpp Require Import list.
Local Open Scope Z_scope.

Definition DESC_LEN : Z := 16.
Definition AVAIL_RING_OFFSET : Z := 4.
Definition USED_RING_OFFSET : Z := 4.
Definition USED_ELEM_LEN : Z := 8.
Definition VIRTQ_DESC_F_NEXT : Z := 1.
Definition VIRTQ_DESC_F_WRITE : Z := 2.
Definition VIRTQ_DESC_F_INDIRECT : Z := 4.
Definition MAX_CHAIN_LEN : nat := 512.

Record DescChain := mkDescChain {
  c_head : Z;
  c_readable : list (Z * Z);
  c_writable : list (Z * Z);
}.

Record Virtqueue := mkVirtqueue {
  desc_addr : Z;
  avail_addr : Z;
  used_addr : Z;
  queue_size : Z;
  last_avail_idx : Z;
}.

Definition Virtqueue_new (queue_size desc_addr avail_addr used_addr : Z) : Virtqueue :=
  mkVirtqueue desc_addr avail_addr used_addr queue_size 0.

Definition set_avail_base (idx : Z) (vq : Virtqueue) : Virtqueue :=
  mkVirtqueue (desc_addr vq) (avail_addr vq) (used_addr vq) (queue_size vq) idx.

Definition avail_base (vq : Virtqueue) : Z := last_avail_idx vq.

Section Operations.
Context `{Build, Ram Hp}.

Abbreviation Vq := (M Hp VirtqueueError).

(** [.ok_or(VirtqueueError::OutOfBounds)?]. *)
Definition in_bounds {A} (m : Vq (option A)) : Vq A :=
  o ← m; lift (ok_or o OutOfBounds).

Definition pop_avail (mem : GuestMemory) (vq : Virtqueue) : Vq (option Z * Virtqueue) :=
  idx_addr ← lift (uadd 64 (avail_addr vq) 2);
  avail_idx ← in_bounds (read_u16 mem User idx_addr);
  if avail_idx =? last_avail_idx vq then mret (None, vq)
  else
    slot ← lift (urem (last_avail_idx vq) (queue_size vq));
    let ring_offset := AVAIL_RING_OFFSET + slot * 2 in
    ring_addr ← lift (uadd 64 (avail_addr vq) ring_offset);
    head ← in_bounds (read_u16 mem User ring_addr);
    mret (Some head, set_avail_base (wrap 16 (last_avail_idx vq + 1)) vq).

(** One descriptor: its address, length, flags and [next]. *)
Definition read_desc (mem : GuestMemory) (vq : Virtqueue) (idx : Z) : Vq (Z * Z * Z * Z) :=
  desc_off ← lift (uadd 64 (desc_addr vq) (idx * DESC_LEN));
  addr ← in_bounds (read_u64 mem User desc_off);
  o8 ← lift (uadd 64 desc_off 8);
  len ← in_bounds (read_u32 mem User o8);
  o12 ← lift (uadd 64 desc_off 12);
  flags ← in_bounds (read_u16 mem User o12);
  o14 ← lift (uadd 64 desc_off 14);
  next ← in_bounds (read_u16 mem User o14);
  mret (addr, len, flags, next).

(** [chain.writable.push(..)] or [chain.readable.push(..)]. *)
Definition push_segment (addr len flags : Z) (chain : DescChain) : DescChain :=
  if negb (Z.land flags VIRTQ_DESC_F_WRITE =? 0)
  then mkDescChain (c_head chain) (c_readable chain) (c_writable chain ++ [(addr, len)])
  else mkDescChain (c_head chain) (c_readable chain ++ [(addr, len)]) (c_writable chain).

(** The [for] loop of [read_chain], with the iterations left. *)
Fixpoint walk_chain (fuel : nat) (mem : GuestMemory) (vq : Virtqueue) (idx : Z) (chain : DescChain)
    : Vq DescChain :=
  match fuel with
  | O => throw ChainTooLong
  | S fuel =>
      d ← read_desc mem vq idx;
      let '(addr, len, flags, next) := d in
      if negb (Z.land flags VIRTQ_DESC_F_INDIRECT =? 0) then throw IndirectUnsupported
      else
        let chain := push_segment addr len flags chain in
        if Z.land flags VIRTQ_DESC_F_NEXT =? 0 then mret chain
        else walk_chain fuel mem vq next chain
  end.

Definition read_chain (mem : GuestMemory) (vq : Virtqueue) (head : Z) : Vq DescChain :=
  walk_chain MAX_CHAIN_LEN mem vq head (mkDescChain head [] []).

(** The slice of a segment. *)
Definition segment (mem : GuestMemory) (addr len : Z) : Vq slice :=
  lift (ok_or (get_slice mem Gpa addr len) OutOfBounds).
Definition segment_mut (mem : GuestMemory) (addr len : Z) : Vq slice :=
  lift (ok_or (get_slice_mut mem Gpa addr len) OutOfBounds).

Fixpoint gather_segments (mem : GuestMemory) (segs : list (Z * Z)) (buf : bytes) : Vq bytes :=
  match segs with
  | [] => mret buf
  | (addr, len) :: segs =>
      s ← segment mem addr len;
      b ← load s;
      gather_segments mem segs (buf ++ b)
  end.

Definition gather_readable (mem : GuestMemory) (chain : DescChain) : Vq bytes :=
  gather_segments mem (c_readable chain) [].

Fixpoint scatter_segments (mem : GuestMemory) (segs : list (Z * Z)) (remaining : bytes) (written : Z)
    : Vq Z :=
  match segs with
  | [] => mret written
  | (addr, len) :: segs =>
      match remaining with
      | [] => mret written
      | _ =>
          let n := Z.min (Z.of_nat (length remaining)) len in
          s ← segment_mut mem addr n;
          _ ← store s (take (Z.to_nat n) remaining);
          written ← lift (uadd 32 written (as_u32 n));
          scatter_segments mem segs (drop (Z.to_nat n) remaining) written
      end
  end.

Definition scatter_writable (mem : GuestMemory) (chain : DescChain) (data : bytes) : Vq Z :=
  scatter_segments mem (c_writable chain) data 0.

Fixpoint gather_prefix_segments (mem : GuestMemory) (segs : list (Z * Z)) (max_len : nat) (buf : bytes)
    : Vq bytes :=
  match segs with
  | [] => mret buf
  | (addr, len) :: segs =>
      if (max_len <=? length buf)%nat then mret buf
      else
        let want := Z.min (Z.of_nat (max_len - length buf)) len in
        s ← segment mem addr want;
        b ← load s;
        gather_prefix_segments mem segs max_len (buf ++ b)
  end.

Definition gather_readable_prefix (mem : GuestMemory) (chain : DescChain) (max_len : nat) : Vq bytes :=
  gather_prefix_segments mem (c_readable chain) max_len [].

(** [libc::iovec]: a pointer and a length. *)
Abbreviation iovec := slice.

Fixpoint iovecs_loop (mem : GuestMemory) (segs : list (Z * Z)) (skip remaining : Z) (mutable : bool)
    (iovecs : list iovec) : Vq (list iovec) :=
  match segs with
  | [] => mret iovecs
  | (addr, len) :: segs =>
      if remaining =? 0 then mret iovecs
      else if len <=? skip then iovecs_loop mem segs (skip - len) remaining mutable iovecs
      else
        start ← lift (uadd 64 addr skip);
        let seg_len := Z.min (len - skip) remaining in
        s ← (if mutable then segment_mut mem start seg_len else segment mem start seg_len);
        iovecs_loop mem segs 0 (remaining - seg_len) mutable (iovecs ++ [mkSlice (sl_ptr s) seg_len])
  end.

Definition iovecs_from (mem : GuestMemory) (segments : list (Z * Z)) (skip max_total : Z)
    (mutable : bool) : Vq (list iovec) :=
  iovecs_loop mem segments skip max_total mutable [].

Definition push_used (mem : GuestMemory) (vq : Virtqueue) (head written_len : Z) : Vq unit :=
  idx_addr ← lift (uadd 64 (used_addr vq) 2);
  used_idx ← in_bounds (read_u16 mem User idx_addr);
  slot ← lift (urem used_idx (queue_size vq));
  ring ← lift (uadd 64 (used_addr vq) USED_RING_OFFSET);
  elem_off ← lift (uadd 64 ring (slot * USED_ELEM_LEN));
  _ ← in_bounds (write_u32 mem User elem_off head);
  len_off ← lift (uadd 64 elem_off 4);
  _ ← in_bounds (write_u32 mem User len_off written_len);
  in_bounds (write_u16 mem User idx_addr (wrap 16 (used_idx + 1))).
End Operations.

(** ** Specifications *)

(** The host addresses of the bytes of some segments, in order; [None] when one is not mapped. *)
Fixpoint segs_cells (mem : GuestMemory) (segs : list (Z * Z)) : option (list ptr) :=
  match segs with
  | [] => Some []
  | (addr, len) :: segs =>
      s ← get_slice mem Gpa addr len;
      cs ← segs_cells mem segs;
      Some (slice_cells s ++ cs)
  end.

(** Segments as [read_chain] produces them: lengths are of 32 bits. *)
Definition segs_ok (segs : list (Z * Z)) : Prop := Forall (λ p, is_uint 32 p.2) segs.

Definition segs_len (segs : list (Z * Z)) : Z := foldr (λ p n, p.2 + n) 0 segs.

(** The addresses a list of [iovec]s covers, and their lengths. *)
Definition iovs_cells (iovs : list slice) : list ptr := concat (slice_cells <$> iovs).

(** A chain of descriptors in the table [D], linked by [next] and ended by the first without the
    NEXT flag. *)
Abbreviation desc := (Z * Z * Z * Z)%type.
Definition desc_next (d : desc) : Z := d.2.
Definition desc_flags (d : desc) : Z := d.1.2.
Definition desc_seg (d : desc) : Z * Z := d.1.1.
Definition flag_set (flag : Z) (d : desc) : bool := negb (Z.land (desc_flags d) flag =? 0).

Inductive linked (D : Z → outcome VirtqueueError desc) : Z → list desc → Prop :=
| linked_last idx d :
    D idx = Ok d → flag_set VIRTQ_DESC_F_INDIRECT d = false →
    flag_set VIRTQ_DESC_F_NEXT d = false → linked D idx [d]
| linked_more idx d ds :
    D idx = Ok d → flag_set VIRTQ_DESC_F_INDIRECT d = false →
    flag_set VIRTQ_DESC_F_NEXT d = true → linked D (desc_next d) ds → linked D idx (d :: ds).

(** The readable and the writable segments of a chain. *)
Definition readable_of (ds : list desc) : list (Z * Z) :=
  desc_seg <$> filter (λ d, flag_set VIRTQ_DESC_F_WRITE d = false) ds.
Definition writable_of (ds : list desc) : list (Z * Z) :=
  desc_seg <$> filter (λ d, flag_set VIRTQ_DESC_F_WRITE d = true) ds.

(** * Lemmas *)

Section Segments.
Context `{Build} (h : Heap) (mem : GuestMemory) (Hm : mem_ok h mem).

Lemma segs_cells_cons addr len segs cs :
  segs_cells mem ((addr, len) :: segs) = Some cs →
  ∃ s cs', get_slice mem Gpa addr len = Some s ∧ segs_cells mem segs = Some cs' ∧
    cs = slice_cells s ++ cs'.
Proof.
  simpl. destruct (get_slice mem Gpa addr len) as [s|]; [|done]. simpl.
  destruct (segs_cells mem segs) as [cs'|]; [|done]. intros [= <-]. eauto.
Qed.

Lemma segs_cells_backed segs cs :
  segs_cells mem segs = Some cs → is_Some (load_cells cs h).
Proof.
  revert cs. induction segs as [|[addr len] segs IH]; intros cs.
  - intros [= <-]. by eexists.
  - intros (s & cs' & Hs & Hcs' & ->)%segs_cells_cons. rewrite load_cells_app.
    destruct (get_slice_backed _ _ _ _ _ _ Hm Hs) as [b ->]. simpl.
    destruct (IH cs' Hcs') as [b' ->]. by eexists.
Qed.

Lemma length_slice_cells addr len s :
  get_slice mem Gpa addr len = Some s → length (slice_cells s) = Z.to_nat len.
Proof. intros Hs. unfold slice_cells. by rewrite length_cells, (get_slice_len _ _ _ _ _ Hs). Qed.

Lemma length_segs_cells segs cs :
  segs_ok segs → segs_cells mem segs = Some cs → Z.of_nat (length cs) = segs_len segs.
Proof.
  intros Hok. revert cs. induction Hok as [|[addr len] segs Hp Hok IH]; intros cs.
  - by intros [= <-].
  - intros (s & cs' & Hs & Hcs' & ->)%segs_cells_cons. rewrite length_app.
    rewrite (length_slice_cells _ _ _ Hs). simpl. specialize (IH cs' Hcs'). simpl in Hp. uint.
Qed.

(** A leading part of a mapped segment is mapped to the leading part of its bytes. *)
Lemma get_slice_part addr len s n :
  get_slice mem Gpa addr len = Some s → 0 ≤ n ≤ len → (n = 0 → len = 0) →
  get_slice mem Gpa addr n = Some (mkSlice (sl_ptr s) n).
Proof.
  intros Hs Hn Hz. destruct (Z.eq_dec n 0) as [->|Hne].
  - rewrite Hz in Hs by done. rewrite Hs. f_equal. destruct s as [p l].
    apply get_slice_len in Hs. simpl in *. by subst.
  - rewrite <- (Z.add_0_r addr), (get_slice_sub h _ _ _ _ _ 0 n Hm Hs) by lia.
    by rewrite ptr_add_0.
Qed.

Lemma gather_eq segs : ∀ buf cs bs,
  segs_cells mem segs = Some cs → load_cells cs h = Some bs →
  gather_segments mem segs buf h = (Ok (buf ++ bs), h).
Proof.
  induction segs as [|[addr len] segs IH]; intros buf cs bs.
  - intros [= <-] [= <-]. by rewrite app_nil_r.
  - intros (s & cs' & Hs & Hcs' & ->)%segs_cells_cons. rewrite load_cells_app.
    destruct (load_cells (slice_cells s) h) as [b|] eqn:Hb; [|done]. simpl.
    destruct (load_cells cs' h) as [b'|] eqn:Hb'; [|done]. intros [= <-].
    cbn [gather_segments]. unfold segment, lift, mbind, M_bind. rewrite Hs. simpl.
    rewrite (load_run _ _ _ Hb). rewrite (IH _ cs' b') by done. by rewrite app_assoc.
Qed.

Lemma gather_prefix_eq segs max : ∀ buf cs bs,
  segs_ok segs → segs_cells mem segs = Some cs → load_cells cs h = Some bs →
  gather_prefix_segments mem segs max buf h = (Ok (buf ++ take (max - length buf) bs), h).
Proof.
  induction segs as [|[addr len] segs IH]; intros buf cs bs Hok.
  - intros [= <-] [= <-]. by rewrite take_nil, app_nil_r.
  - apply Forall_cons in Hok as [Hlen Hok]. simpl in Hlen.
    intros (s & cs' & Hs & Hcs' & ->)%segs_cells_cons. rewrite load_cells_app.
    destruct (load_cells (slice_cells s) h) as [b|] eqn:Hb; [|done]. simpl.
    destruct (load_cells cs' h) as [b'|] eqn:Hb'; [|done]. intros [= <-].
    cbn [gather_prefix_segments]. destruct (Nat.leb_spec max (length buf)).
    { replace (max - length buf)%nat with 0%nat by lia. by rewrite take_0, app_nil_r. }
    set (want := Z.min (Z.of_nat (max - length buf)) len).
    assert (length b = Z.to_nat len) as Hlb.
    { rewrite (load_cells_length _ _ _ Hb). by apply (length_slice_cells addr). }
    unfold segment, lift, mbind, M_bind.
    rewrite (get_slice_part addr len s want Hs) by (unfold want; uint). simpl.
    rewrite (load_run _ _ (take (Z.to_nat want) b)).
    2:{ unfold slice_cells. simpl. rewrite <- (take_cells _ (Z.to_nat len)) by (unfold want; lia).
        apply load_cells_take. rewrite <- Hb. unfold slice_cells.
        by rewrite (get_slice_len _ _ _ _ _ Hs). }
    rewrite (IH _ cs' b') by done. rewrite <- app_assoc. do 3 f_equal.
    rewrite take_app, Hlb, length_app, length_take. f_equal.
    + destruct (decide (max - length buf ≤ Z.to_nat len)%nat); [f_equal; unfold want; lia|].
      rewrite !take_ge by (unfold want; lia). done.
    + f_equal. unfold want. lia.
Qed.
End Segments.

Section Iovecs.
Context `{Build} (h : Heap) (mem : GuestMemory) (Hm : mem_ok h mem).

Lemma iovecs_cells_app l1 l2 : iovs_cells (l1 ++ l2) = iovs_cells l1 ++ iovs_cells l2.
Proof. unfold iovs_cells. by rewrite fmap_app, concat_app. Qed.

Lemma iovecs_eq segs mutable : ∀ skip rem iovs cs,
  segs_ok segs → segs_cells mem segs = Some cs → 0 ≤ skip → 0 ≤ rem →
  ∃ iovs', iovecs_loop mem segs skip rem mutable iovs h = (Ok (iovs ++ iovs'), h) ∧
    iovs_cells iovs' = take (Z.to_nat rem) (drop (Z.to_nat skip) cs) ∧
    Forall (λ s, 0 < sl_len s) iovs'.
Proof.
  induction segs as [|[addr len] segs IH]; intros skip rem iovs cs Hok.
  - intros [= <-] _ _. exists []. rewrite app_nil_r, drop_nil, take_nil. by repeat split.
  - apply Forall_cons in Hok as [Hlen Hok]. simpl in Hlen.
    intros (s & cs' & Hs & Hcs' & ->)%segs_cells_cons Hskip Hrem. cbn [iovecs_loop].
    pose proof (length_slice_cells mem addr len s Hs) as Hl.
    destruct (Z.eqb_spec rem 0) as [->|Hr0].
    { exists []. rewrite app_nil_r. by repeat split. }
    destruct (Z.leb_spec len skip).
    { destruct (IH (skip - len) rem iovs cs' Hok Hcs' ltac:(lia) Hrem) as (iovs' & Hrun & Hc & Hpos).
      exists iovs'. rewrite Hrun, Hc. split_and!; [done| |done].
      rewrite drop_app_ge by uint. rewrite Hl. do 2 f_equal. uint. }
    pose proof (get_slice_range _ _ _ _ _ _ Hm Hs) as [Ha He].
    set (seg_len := Z.min (len - skip) rem).
    assert (get_slice mem Gpa (addr + skip) seg_len
            = Some (mkSlice (ptr_add (sl_ptr s) skip) seg_len)) as Hsub.
    { apply (get_slice_sub h) with len; unfold seg_len; try done; lia. }
    destruct (IH 0 (rem - seg_len) (iovs ++ [mkSlice (ptr_add (sl_ptr s) skip) seg_len]) cs')
      as (iovs' & Hrun & Hc & Hpos); [done|done|lia|unfold seg_len; lia|].
    exists (mkSlice (ptr_add (sl_ptr s) skip) seg_len :: iovs'). split_and!.
    + unfold lift, mbind, M_bind. rewrite uadd_in by uint.
      destruct mutable; unfold segment_mut, segment, lift; rewrite ?get_slice_mut_eq, Hsub; simpl;
        rewrite Hrun; by rewrite <- app_assoc.
    + change (iovs_cells (?x :: iovs')) with (slice_cells x ++ iovs_cells iovs').
      rewrite Hc. change (slice_cells (mkSlice (ptr_add (sl_ptr s) skip) seg_len))
        with (cells (ptr_add (sl_ptr s) skip) (Z.to_nat seg_len)).
      rewrite drop_app_le by uint.
      assert (drop (Z.to_nat skip) (slice_cells s) =
              cells (ptr_add (sl_ptr s) skip) (Z.to_nat (len - skip))) as ->.
      { unfold slice_cells. rewrite (get_slice_len _ _ _ _ _ Hs), drop_cells by uint.
        rewrite Z2Nat.id by lia. f_equal. lia. }
      change (Z.to_nat 0) with 0%nat. rewrite drop_0. destruct (Z.leb_spec (len - skip) rem).
      * rewrite take_app_ge by (rewrite length_cells; lia). rewrite length_cells.
        replace seg_len with (len - skip) by (unfold seg_len; lia). f_equal. f_equal. lia.
      * rewrite take_app_le by (rewrite length_cells; lia).
        replace seg_len with rem by (unfold seg_len; lia). rewrite take_cells by lia.
        rewrite Z.sub_diag. by rewrite app_nil_r.
    + constructor; [unfold seg_len; simpl; lia|done].
Qed.
End Iovecs.

Lemma scatter_eq `{Build} mem segs : ∀ h data written cs,
  mem_ok h mem → segs_ok segs → segs_cells mem segs = Some cs →
  0 ≤ written → written + Z.of_nat (min (length data) (length cs)) < 2 ^ 32 →
  scatter_segments mem segs data written h =
    (Ok (written + Z.of_nat (min (length data) (length cs))),
     store_cells (take (length data) cs) (take (length cs) data) h).
Proof.
  induction segs as [|[addr len] segs IH]; intros h data written cs Hm Hok.
  - intros [= <-] Hw Hd. simpl. rewrite take_nil. simpl. rewrite Nat.min_0_r. by rewrite Z.add_0_r.
  - apply Forall_cons in Hok as [Hlen Hok]. simpl in Hlen.
    intros (s & cs' & Hs & Hcs' & ->)%segs_cells_cons Hw Hd. cbn [scatter_segments].
    pose proof (length_slice_cells mem addr len s Hs) as Hl. rewrite length_app, Hl in Hd.
    destruct data as [|b0 data0]; [by rewrite take_nil, Z.add_0_r|].
    set (data := b0 :: data0) in *. assert (length data ≠ O) as Hne by (subst data; simpl; lia).
    clearbody data. set (n := Z.min (Z.of_nat (length data)) len).
    unfold segment_mut, lift, mbind, M_bind. rewrite get_slice_mut_eq.
    rewrite (get_slice_part h mem Hm addr len s n Hs) by (unfold n; uint). simpl.
    assert (slice_cells (mkSlice (sl_ptr s) n) = take (Z.to_nat n) (slice_cells s)) as Hsc.
    { unfold slice_cells. simpl. rewrite (get_slice_len _ _ _ _ _ Hs).
      by rewrite take_cells by (unfold n; uint). }
    rewrite store_run.
    2:{ rewrite Hsc. destruct (get_slice_backed _ _ _ _ _ _ Hm Hs) as [old Hold].
        by rewrite (load_cells_take _ _ _ _ Hold). }
    2:{ rewrite length_take. cbn [sl_len]. unfold n. lia. }
    rewrite uadd_in by (unfold as_u32; rewrite wrap_id by (unfold n; uint); unfold n; uint).
    unfold as_u32. rewrite wrap_id by (unfold n; uint). rewrite Hsc.
    rewrite (IH _ _ _ cs'); [|by apply mem_ok_store|done|done|unfold n; uint
                            |rewrite length_drop; unfold n; uint].
    rewrite length_drop, length_app, Hl.
    destruct (Z.leb_spec (Z.of_nat (length data)) len).
    + replace (Z.to_nat n) with (length data) by (unfold n; lia).
      rewrite Nat.sub_diag. rewrite !(take_ge data), drop_ge by lia. rewrite take_0. cbn [store_cells].
      rewrite take_app_le by lia. f_equal. f_equal. unfold n. uint.
    + replace (Z.to_nat n) with (Z.to_nat len) by (unfold n; lia).
      rewrite (take_ge (slice_cells s)) by lia. rewrite take_app_ge by lia. rewrite Hl.
      f_equal; [f_equal; unfold n; uint|].
      rewrite <- store_cells_app by (rewrite length_take; lia). f_equal.
      rewrite <- (take_drop (Z.to_nat len) data) at 3. rewrite take_app_ge by (rewrite length_take; lia).
      rewrite length_take. do 2 f_equal. lia.
Qed.

(** ** Chains *)

(** The descriptor table as the virtio specification lays it out: 16 bytes per entry, the address
    at 0, the length at 8, the flags at 12 and the index of the next entry at 14, little-endian.
    Addresses are of 64 bits. *)
Section Layout.
Context (mem : GuestMemory) (vq : Virtqueue) (h : Heap).

(** The integer of [n] bytes at a user address. *)
Definition word_at (n : nat) (addr : Z) : option Z :=
  s ← get_slice mem User addr (Z.of_nat n);
  le_combine <$> load_cells (slice_cells s) h.

Definition desc_table (idx : Z) : outcome VirtqueueError desc :=
  let entry n k := word_at n (wrap 64 (desc_addr vq + (16 * idx + k))) in
  match entry 8%nat 0, entry 4%nat 8, entry 2%nat 12, entry 2%nat 14 with
  | Some addr, Some len, Some flags, Some next => Ok (addr, len, flags, next)
  | _, _, _, _ => Err OutOfBounds
  end.

Definition desc_ok (d : desc) : Prop :=
  is_uint 64 (desc_seg d).1 ∧ is_uint 32 (desc_seg d).2 ∧ is_uint 16 (desc_next d).

Lemma word_at_uint n addr v : word_at n addr = Some v → is_uint (8 * Z.of_nat n) v.
Proof.
  unfold word_at. destruct (get_slice mem User addr (Z.of_nat n)) as [s|] eqn:Hs; [|done]. simpl.
  destruct (load_cells (slice_cells s) h) as [b|] eqn:Hb; [|done]. intros [= <-]. apply le_combine_uint.
  rewrite (load_cells_length _ _ _ Hb). unfold slice_cells. rewrite length_cells.
  rewrite (get_slice_len _ _ _ _ _ Hs). lia.
Qed.

Lemma desc_table_ok idx d : desc_table idx = Ok d → desc_ok d.
Proof.
  unfold desc_table. destruct (word_at 8 _) as [addr|] eqn:H1; [|done]. destruct (word_at 4 _) as [len|] eqn:H2; [|done].
  destruct (word_at 2 _) as [flags|]; [|done]. destruct (word_at 2 _) as [next|] eqn:H4; [|done]. intros [= <-].
  apply word_at_uint in H1, H2, H4. done.
Qed.
End Layout.

Lemma in_bounds_word mem n addr h :
  mem_ok h mem → in_bounds (read_int n mem User addr) h = (ok_or (word_at mem h n addr) OutOfBounds, h).
Proof.
  intros Hm. unfold word_at, in_bounds, lift, mbind, M_bind.
  destruct (get_slice mem User addr (Z.of_nat n)) as [s|] eqn:Hs; simpl.
  - destruct (get_slice_backed _ _ _ _ _ _ Hm Hs) as [b Hb]. by rewrite (read_int_run n mem User addr h s b Hs Hb), Hb.
  - unfold read_int. by rewrite Hs.
Qed.

Lemma linked_det D idx ds : linked D idx ds → ∀ ds', linked D idx ds' → ds = ds'.
Proof.
  induction 1 as [idx d Hd _ Hn|idx d ds Hd _ Hn _ IH]; intros ds' Hl';
    inversion Hl' as [? d' Hd' _ Hn'|? d' ds2 Hd' _ Hn' Hl2]; subst; rewrite Hd in Hd'; injection Hd' as <-; try congruence.
  f_equal. by apply IH.
Qed.

Section Chains.
Context `{Build} (mem : GuestMemory) (vq : Virtqueue).

Lemma readable_of_cons d ds :
  readable_of (d :: ds) =
    (if flag_set VIRTQ_DESC_F_WRITE d then [] else [desc_seg d]) ++ readable_of ds.
Proof.
  unfold readable_of. rewrite filter_cons. destruct (flag_set VIRTQ_DESC_F_WRITE d) eqn:E.
  - by rewrite decide_False by congruence.
  - by rewrite decide_True by done.
Qed.

Lemma writable_of_cons d ds :
  writable_of (d :: ds) =
    (if flag_set VIRTQ_DESC_F_WRITE d then [desc_seg d] else []) ++ writable_of ds.
Proof.
  unfold writable_of. rewrite filter_cons. destruct (flag_set VIRTQ_DESC_F_WRITE d) eqn:E.
  - by rewrite decide_True by done.
  - by rewrite decide_False by congruence.
Qed.

(** The chain [c] extended with the segments of [ds]. *)
Definition chain_app (c : DescChain) (ds : list desc) : DescChain :=
  mkDescChain (c_head c) (c_readable c ++ readable_of ds) (c_writable c ++ writable_of ds).

Lemma chain_app_cons c addr len flags next ds :
  chain_app c ((addr, len, flags, next) :: ds) = chain_app (push_segment addr len flags c) ds.
Proof.
  unfold chain_app, push_segment. rewrite readable_of_cons, writable_of_cons.
  unfold flag_set, desc_flags, desc_seg; simpl.
  destruct (negb (Z.land flags VIRTQ_DESC_F_WRITE =? 0)); simpl; by rewrite <- ?app_assoc.
Qed.

Lemma chain_app_nil c : chain_app c [] = c.
Proof. destruct c. unfold chain_app. simpl. by rewrite !app_nil_r. Qed.

(** Addresses of the ring structures far enough from the end of the address space; without that a
    build with overflow checks can panic. *)
Definition desc_addr_ok : Prop := 0 ≤ desc_addr vq ∧ desc_addr vq + 2 ^ 20 ≤ 2 ^ 64.
Definition overruns : Prop := overflow_checks = true ∧ 2 ^ 64 < desc_addr vq + 2 ^ 20.

Lemma not_overruns : desc_addr_ok → ¬ overruns.
Proof. intros [? ?] [? ?]. lia. Qed.

Context (h : Heap) (Hm : mem_ok h mem) (Haddr : is_uint 64 (desc_addr vq)).

(** The code adds up the address of a field in steps. *)
Lemma field_addr {E} idx k j :
  is_uint 16 idx → 0 ≤ k → 0 ≤ j → k + j ≤ 14 →
  uadd (E := E) 64 (wrap 64 (desc_addr vq + (16 * idx + k))) j = Ok (wrap 64 (desc_addr vq + (16 * idx + (k + j)))) ∨
  uadd (E := E) 64 (wrap 64 (desc_addr vq + (16 * idx + k))) j = Panic ∧ overruns.
Proof.
  intros Hi Hk Hj Hkj. unfold uadd. set (x := desc_addr vq + (16 * idx + k)).
  assert (0 ≤ wrap 64 x ≤ x) as Hw by (unfold wrap; split; [apply Z.mod_pos_bound|apply Z.mod_le]; unfold x; uint).
  replace (desc_addr vq + (16 * idx + (k + j))) with (x + j) by (unfold x; lia).
  unfold arith. case_match eqn:Hc.
  - left. f_equal. unfold wrap at 2. rewrite <- Zplus_mod_idemp_l. symmetry. apply Z.mod_small. to_prop.
    unfold wrap in *. lia.
  - destruct overflow_checks eqn:Ho.
    + right. split; [done|]. split; [done|]. apply andb_false_iff in Hc as [Hc|Hc]; to_prop; [lia|].
      unfold x in *. uint.
    + left. f_equal. unfold wrap. by rewrite Zplus_mod_idemp_l.
Qed.

Lemma read_desc_run idx :
  is_uint 16 idx → ∃ r, read_desc mem vq idx h = (r, h) ∧ (r = desc_table mem vq h idx ∨ r = Panic ∧ overruns).
Proof.
  intros Hi. unfold read_desc, read_u64, read_u32, read_u16, lift, DESC_LEN. rewrite M_bind_run.
  assert (uadd (E := VirtqueueError) 64 (desc_addr vq) (idx * 16)
          = uadd 64 (wrap 64 (desc_addr vq)) (idx * 16)) as -> by by rewrite wrap_id.
  assert (uadd (E := VirtqueueError) 64 (wrap 64 (desc_addr vq)) (idx * 16) = Ok (wrap 64 (desc_addr vq + (16 * idx + 0))) ∨
          uadd (E := VirtqueueError) 64 (wrap 64 (desc_addr vq)) (idx * 16) = Panic ∧ overruns) as [-> | [-> Ho]].
  { rewrite wrap_id by done. unfold uadd, arith. replace (desc_addr vq + (16 * idx + 0)) with (desc_addr vq + idx * 16) by lia.
    case_match eqn:Hc; [left; f_equal; symmetry; apply wrap_id; to_prop; uint|].
    destruct overflow_checks eqn:Hck; [|by left]. right. split; [done|]. split; [done|].
    apply andb_false_iff in Hc as [Hc|Hc]; to_prop; uint. }
  2:{ eexists. split; [done|]. by right. }
  unfold desc_table.
  do 3 (rewrite M_bind_run, in_bounds_word by done; destruct (word_at mem h _ _); simpl; [|eexists; split; [done|by left]];
    rewrite M_bind_run;
    match goal with |- context [uadd 64 _ ?j] =>
      destruct (field_addr (E := VirtqueueError) idx 0 j Hi ltac:(lia) ltac:(lia) ltac:(lia)) as [-> | [-> Ho]];
        [|eexists; split; [done|by right]]
    end; cbn [Z.add]).
  rewrite M_bind_run, in_bounds_word by done. destruct (word_at mem h _ _); simpl; eexists; (split; [done|by left]).
Qed.

(** The loop follows the table. *)
Lemma walk_chain_spec fuel : ∀ idx c,
  is_uint 16 idx →
  ∃ r, walk_chain fuel mem vq idx c h = (r, h) ∧
    match r with
    | Ok c' => ∃ ds, linked (desc_table mem vq h) idx ds ∧ (length ds ≤ fuel)%nat ∧ c' = chain_app c ds
    | Err _ => ∀ ds, linked (desc_table mem vq h) idx ds → (fuel < length ds)%nat
    | Panic => overruns
    end.
Proof.
  induction fuel as [|fuel IH]; intros idx c Hi; cbn [walk_chain].
  { eexists. split; [done|]. intros ds Hl. destruct Hl; simpl; lia. }
  rewrite M_bind_run. destruct (read_desc_run idx Hi) as (r & -> & [->|[-> Ho]]); [|by eexists].
  destruct (desc_table mem vq h idx) as [[[[addr len] flags] next]|e|] eqn:Hd.
  3:{ unfold desc_table in Hd. by repeat case_match. }
  2:{ eexists. split; [done|]. intros ds Hl. inversion Hl; congruence. }
  pose proof (desc_table_ok _ _ _ _ _ Hd) as (_ & _ & Hnext). set (d := (addr, len, flags, next)) in *.
  change (negb (Z.land flags VIRTQ_DESC_F_INDIRECT =? 0)) with (flag_set VIRTQ_DESC_F_INDIRECT d).
  assert ((Z.land flags VIRTQ_DESC_F_NEXT =? 0) = negb (flag_set VIRTQ_DESC_F_NEXT d)) as ->
    by (unfold flag_set, desc_flags; simpl; by rewrite negb_involutive).
  destruct (flag_set VIRTQ_DESC_F_INDIRECT d) eqn:Hind.
  { eexists. split; [done|]. intros ds Hl. inversion Hl as [? d' Hd'|? d' ? Hd']; subst; rewrite Hd in Hd'; injection Hd' as <-; congruence. }
  destruct (flag_set VIRTQ_DESC_F_NEXT d) eqn:Hn; simpl.
  - destruct (IH next (push_segment addr len flags c) Hnext) as (r & Hrun & Hr). exists r. split; [done|].
    destruct r as [c'|e|]; [|intros ds Hl|done].
    + destruct Hr as (ds & Hl & Hlen & ->). exists (d :: ds).
      split_and!; [by econstructor|simpl; lia|by unfold d; rewrite (chain_app_cons c addr len flags next)].
    + inversion Hl as [? d' Hd' _ Hn'|? d' ds' Hd' _ _ Hl']; subst; rewrite Hd in Hd'; injection Hd' as <-; [congruence|].
      apply Hr in Hl'. simpl. lia.
  - eexists. split; [done|]. exists [d].
    split_and!; [by apply linked_last|simpl; lia|by unfold d; rewrite (chain_app_cons c _ _ _ next), chain_app_nil].
Qed.

(** The chain of a table that does not reach the end of the address space. *)
Lemma walk_chain_ok fuel idx c c' :
  desc_addr_ok → is_uint 16 idx →
  walk_chain fuel mem vq idx c h = (Ok c', h) ↔
  ∃ ds, linked (desc_table mem vq h) idx ds ∧ (length ds ≤ fuel)%nat ∧ c' = chain_app c ds.
Proof.
  intros Hd Hi. destruct (walk_chain_spec fuel idx c Hi) as (r & -> & Hr). split.
  - intros [= ->]. done.
  - intros (ds & Hl & Hlen & ->). destruct r as [c2|e|].
    + destruct Hr as (ds' & Hl' & _ & ->). by rewrite (linked_det _ _ _ Hl _ Hl').
    + apply Hr in Hl. lia.
    + by destruct (not_overruns Hd).
Qed.

Lemma walk_chain_total fuel idx c :
  desc_addr_ok → is_uint 16 idx → ∃ r, walk_chain fuel mem vq idx c h = (r, h) ∧ r ≠ Panic.
Proof.
  intros Hd Hi. destruct (walk_chain_spec fuel idx c Hi) as (r & Hrun & Hr). exists r. split; [done|].
  destruct r; [done..|]. by destruct (not_overruns Hd).
Qed.
End Chains.

Section Totality.
Context (mem : GuestMemory) (vq : Virtqueue) (h : Heap).

(** The segments of a chain have the widths of the descriptor fields. *)
Lemma linked_ok idx ds : linked (desc_table mem vq h) idx ds → Forall desc_ok ds.
Proof. induction 1 as [idx d HD _ _|idx d ds HD _ _ Hl IH]; constructor; try done; by eapply desc_table_ok. Qed.

Lemma segs_ok_readable ds : Forall desc_ok ds → segs_ok (readable_of ds).
Proof.
  intros Hds. unfold segs_ok, readable_of. apply Forall_fmap, Forall_forall.
  intros d [_ Hd]%list_elem_of_filter. rewrite Forall_forall in Hds. by apply Hds.
Qed.

Lemma segs_ok_writable ds : Forall desc_ok ds → segs_ok (writable_of ds).
Proof.
  intros Hds. unfold segs_ok, writable_of. apply Forall_fmap, Forall_forall.
  intros d [_ Hd]%list_elem_of_filter. rewrite Forall_forall in Hds. by apply Hds.
Qed.
End Totality.
