(* ===== verification/VirtqueueProps.v ===== *)
(** * Properties of the virtqueue

    Theorems about [Virtqueue]: the rings as first-in-first-out queues, descriptor chains, and
    the buffers of a chain as one sequence of host bytes that gathering, scattering and the
    [iovec]s all agree on. *)

From S2P Require Import Prelude Libc Errors Bytes Attr Wire Host VhostMsg Memory Virtqueue.
From stdpp Require Import list.
Local Open Scope Z_scope.

(** ** The rings *)

Section Rings.
Context `{Build} (mem : GuestMemory) (h : Heap) (Hm : mem_ok h mem).

(** The integer stored at a ring address. *)
Definition ring_u16 (addr : Z) : Z :=
  match read_u16 (E := unit) mem User addr h with
  | (Ok (Some v), _) => v
  | _ => 0
  end.

Lemma sub_read n base len s addr :
  get_slice mem User base len = Some s → base ≤ addr → 0 < Z.of_nat n → addr + Z.of_nat n ≤ base + len →
  ∃ v, is_uint (8 * Z.of_nat n) v ∧
    ∀ E, read_int (E := E) n mem User addr h = (Ok (Some v), h).
Proof.
  intros Hs Hb Hn He.
  assert (get_slice mem User addr (Z.of_nat n)
          = Some (mkSlice (ptr_add (sl_ptr s) (addr - base)) (Z.of_nat n))) as Hsub.
  { replace addr with (base + (addr - base)) at 1 by lia.
    apply (get_slice_sub h) with len; try done; lia. }
  destruct (get_slice_backed _ _ _ _ _ _ Hm Hsub) as [b Hb'].
  exists (le_combine b). split.
  - apply le_combine_uint. rewrite (load_cells_length _ _ _ Hb').
    unfold slice_cells. rewrite length_cells. simpl. lia.
  - intros E. by eapply read_int_run.
Qed.

(** The available ring is mapped, and its size is one a driver may configure. *)
Definition avail_mapped (vq : Virtqueue) : Prop :=
  0 < queue_size vq < 2 ^ 16 ∧ is_uint 16 (last_avail_idx vq) ∧
  is_Some (get_slice mem User (avail_addr vq) (4 + 2 * queue_size vq)).

Lemma pop_avail_run vq :
  avail_mapped vq →
  pop_avail mem vq h =
    if decide (ring_u16 (avail_addr vq + 2) = last_avail_idx vq) then (Ok (None, vq), h)
    else (Ok (Some (ring_u16 (avail_addr vq + (4 + 2 * (last_avail_idx vq mod queue_size vq)))),
              set_avail_base (wrap 16 (last_avail_idx vq + 1)) vq), h).
Proof.
  intros (Hq & Hlast & [s Hs]). pose proof (get_slice_range _ _ _ _ _ _ Hm Hs) as [Ha He].
  pose proof (Z.mod_pos_bound (last_avail_idx vq) (queue_size vq) ltac:(lia)) as Hmod.
  destruct (sub_read 2 _ _ _ (avail_addr vq + 2) Hs) as (idx & Hidx & Hread); [lia..|].
  destruct (sub_read 2 _ _ _ (avail_addr vq + (4 + 2 * (last_avail_idx vq mod queue_size vq))) Hs)
    as (hd & Hhd & Hread'); [lia..|].
  unfold ring_u16, pop_avail, in_bounds, lift, mbind, M_bind, read_u16, AVAIL_RING_OFFSET.
  rewrite uadd_in by uint. rewrite !Hread. simpl.
  destruct (Z.eqb_spec idx (last_avail_idx vq)) as [->|Hne].
  - by rewrite decide_True.
  - rewrite decide_False by done. unfold urem.
    rewrite (proj2 (Z.eqb_neq (queue_size vq) 0)) by lia.
    replace (4 + last_avail_idx vq mod queue_size vq * 2)
      with (4 + 2 * (last_avail_idx vq mod queue_size vq)) by lia.
    rewrite uadd_in by uint. by rewrite !Hread'.
Qed.

(** Pop until the ring is empty. *)
Fixpoint pop_all (fuel : nat) (vq : Virtqueue) : M Heap VirtqueueError (list Z * Virtqueue) :=
  match fuel with
  | O => mret ([], vq)
  | S fuel =>
      r ← pop_avail mem vq;
      match r.1 with
      | None => mret ([], r.2)
      | Some head => rest ← pop_all fuel r.2; mret (head :: rest.1, rest.2)
      end
  end.

(** The heads the driver has published and the device has not consumed. *)
Definition published (vq : Virtqueue) : nat :=
  Z.to_nat (wrap 16 (ring_u16 (avail_addr vq + 2) - last_avail_idx vq)).

Definition ring_head (vq : Virtqueue) (i : Z) : Z :=
  ring_u16 (avail_addr vq + (4 + 2 * ((last_avail_idx vq + i) mod 2 ^ 16 mod queue_size vq))).

Lemma ring_u16_range addr : is_uint 16 (ring_u16 addr).
Proof.
  unfold ring_u16. destruct (read_int_total (E := unit) 2 mem User addr h Hm) as (o & Ho & Hv).
  unfold read_u16. rewrite Ho. destruct o as [v|]; [by apply Hv|uint].
Qed.

Lemma pop_all_S n vq :
  pop_all (S n) vq =
    (r ← pop_avail mem vq;
     match r.1 with
     | None => mret ([], r.2)
     | Some head => rest ← pop_all n r.2; mret (head :: rest.1, rest.2)
     end).
Proof. done. Qed.

(** The queue after a pop. *)
Definition vq_next (vq : Virtqueue) : Virtqueue := set_avail_base (wrap 16 (last_avail_idx vq + 1)) vq.

Lemma published_zero vq :
  is_uint 16 (last_avail_idx vq) → published vq = O ↔ ring_u16 (avail_addr vq + 2) = last_avail_idx vq.
Proof.
  intros Hlast. unfold published. pose proof (ring_u16_range (avail_addr vq + 2)) as Hidx.
  set (idx := ring_u16 _) in *. split; intros Heq.
  - pose proof (wrap_range 16 (idx - last_avail_idx vq) ltac:(lia)) as Hwr.
    assert (wrap 16 (idx - last_avail_idx vq) = 0) as Hw by uint.
    unfold wrap in Hw. apply Z.mod_divide in Hw as [k Hk]; [|lia]. uint.
  - by rewrite Heq, Z.sub_diag.
Qed.

Lemma published_next vq n :
  is_uint 16 (last_avail_idx vq) → published vq = S n → published (vq_next vq) = n.
Proof.
  unfold published. simpl. pose proof (ring_u16_range (avail_addr vq + 2)) as Hidx.
  set (idx := ring_u16 _) in *. intros Hlast Hn.
  pose proof (wrap_range 16 (idx - last_avail_idx vq) ltac:(lia)) as Hwr. unfold wrap in *.
  rewrite Zminus_mod_idemp_r. replace (idx - (last_avail_idx vq + 1)) with ((idx - last_avail_idx vq) - 1) by lia.
  rewrite <- Zminus_mod_idemp_l. rewrite (Z.mod_small _ (2 ^ 16)) by uint. lia.
Qed.

Lemma ring_head_0 vq :
  is_uint 16 (last_avail_idx vq) →
  ring_head vq 0 = ring_u16 (avail_addr vq + (4 + 2 * (last_avail_idx vq mod queue_size vq))).
Proof. intros Hl. unfold ring_head. rewrite Z.add_0_r. by rewrite (Z.mod_small _ (2 ^ 16)) by uint. Qed.

Lemma ring_head_next vq i : ring_head (vq_next vq) i = ring_head vq (1 + i).
Proof. unfold ring_head, vq_next, wrap. simpl. rewrite Zplus_mod_idemp_l. by rewrite <- Z.add_assoc. Qed.

(** The heads a ring holds, the first one apart. *)
Lemma ring_heads_S vq n :
  ring_head vq <$> seqZ 0 (Z.of_nat (S n)) =
    ring_head vq 0 :: (ring_head (vq_next vq) <$> seqZ 0 (Z.of_nat n)).
Proof.
  replace (Z.of_nat (S n)) with (1 + Z.of_nat n) by lia. rewrite seqZ_app, fmap_app by lia.
  change (seqZ 0 1) with [0]. simpl. f_equal. change (0 + 1) with (1 + 0).
  rewrite <- (fmap_add_seqZ 1 0), <- list_fmap_compose. apply list_fmap_ext. intros i x _.
  symmetry. apply ring_head_next.
Qed.

Lemma pop_published vq n :
  avail_mapped vq → published vq = S n → pop_avail mem vq h = (Ok (Some (ring_head vq 0), vq_next vq), h).
Proof.
  intros Hav Hn. rewrite (pop_avail_run vq Hav). destruct Hav as (_ & Hlast & _).
  rewrite decide_False by (intros Heq%published_zero; [congruence|done]). by rewrite ring_head_0.
Qed.

Lemma pop_empty vq :
  avail_mapped vq → published vq = O → pop_avail mem vq h = (Ok (None, vq), h).
Proof.
  intros Hav Hn. rewrite (pop_avail_run vq Hav). destruct Hav as (_ & Hlast & _).
  by rewrite decide_True by by apply published_zero.
Qed.

Lemma avail_mapped_next vq : avail_mapped vq → avail_mapped (vq_next vq).
Proof. intros (? & ? & ?). split_and!; simpl; [lia..|by apply wrap_range|done]. Qed.

Lemma pop_all_run n : ∀ vq,
  avail_mapped vq → published vq = n →
  pop_all (S n) vq h =
    (Ok (ring_head vq <$> seqZ 0 (Z.of_nat n),
         set_avail_base (ring_u16 (avail_addr vq + 2)) vq), h).
Proof.
  induction n as [|n IH]; intros vq Hav Hn; rewrite pop_all_S; unfold mbind, M_bind.
  - rewrite pop_empty by done. destruct Hav as (_ & Hlast & _). apply published_zero in Hn; [|done].
    rewrite Hn. by destruct vq.
  - rewrite (pop_published vq n) by done. cbn [fst snd].
    rewrite (IH (vq_next vq)) by (try apply avail_mapped_next; try apply published_next; apply Hav || done).
    by rewrite ring_heads_S.
Qed.
End Rings.

Lemma cells_apart p k1 n1 k2 n2 :
  k1 + Z.of_nat n1 ≤ k2 ∨ k2 + Z.of_nat n2 ≤ k1 →
  Forall (λ c, c ∉ cells (ptr_add p k2) n2) (cells (ptr_add p k1) n1).
Proof.
  intros Hk. apply Forall_forall. intros c Hc. rewrite elem_of_cells in *. simpl in *. lia.
Qed.

Section UsedRing.
Context `{Build} (mem : GuestMemory) (vq : Virtqueue).

(** The used ring is mapped, at the host address [p]. *)
Definition used_mapped (p : ptr) : Prop :=
  0 < queue_size vq < 2 ^ 16 ∧
  get_slice mem User (used_addr vq) (4 + 8 * queue_size vq)
    = Some (mkSlice p (4 + 8 * queue_size vq)).

Definition ring_u32 (h : Heap) (addr : Z) : Z :=
  match read_u32 (E := unit) mem User addr h with
  | (Ok (Some v), _) => v
  | _ => 0
  end.

Definition used_idx (h : Heap) : Z := ring_u16 mem h (used_addr vq + 2).

(** The element in a slot of the used ring: the head of the chain and the bytes written to it. *)
Definition used_elem (h : Heap) (slot : Z) : Z * Z :=
  (ring_u32 h (used_addr vq + (4 + 8 * slot)), ring_u32 h (used_addr vq + (4 + 8 * slot + 4))).

Section At.
Context (p : ptr) (Hu : used_mapped p).

Lemma used_slice h k n :
  mem_ok h mem → 0 ≤ k → 0 < n → k + n ≤ 4 + 8 * queue_size vq →
  get_slice mem User (used_addr vq + k) n = Some (mkSlice (ptr_add p k) n).
Proof. intros Hm Hk Hn Hkn. destruct Hu as [_ Hs]. by rewrite (get_slice_sub h _ _ _ _ _ k n Hm Hs). Qed.

Lemma ring_u32_load h k b :
  mem_ok h mem → 0 ≤ k → k + 4 ≤ 4 + 8 * queue_size vq →
  load_cells (cells (ptr_add p k) 4) h = Some b → ring_u32 h (used_addr vq + k) = le_combine b.
Proof.
  intros Hm Hk Hkn Hb. unfold ring_u32, read_u32.
  erewrite (read_int_run 4); [done|apply (used_slice h); (done || lia)|done].
Qed.

Lemma ring_u32_apart h k k' n bs :
  mem_ok h mem → 0 ≤ k → k + 4 ≤ 4 + 8 * queue_size vq →
  k + 4 ≤ k' ∨ k' + Z.of_nat n ≤ k →
  ring_u32 (store_cells (cells (ptr_add p k') n) bs h) (used_addr vq + k) = ring_u32 h (used_addr vq + k).
Proof.
  intros Hm Hk Hkn Ha.
  destruct (get_slice_backed _ _ _ _ _ _ Hm (used_slice h k 4 Hm ltac:(lia) ltac:(lia) ltac:(lia))) as [b Hb].
  change (slice_cells _) with (cells (ptr_add p k) 4) in Hb.
  rewrite (ring_u32_load h k b) by (done || lia).
  apply ring_u32_load; [by apply mem_ok_store|lia..|].
  rewrite load_store_apart; [done|]. by apply cells_apart.
Qed.

Lemma write_u32_run {E} h k v :
  mem_ok h mem → 0 ≤ k → k + 4 ≤ 4 + 8 * queue_size vq →
  write_u32 (E := E) mem User (used_addr vq + k) v h
  = (Ok (Some tt), store_cells (cells (ptr_add p k) 4) (u32_le v) h).
Proof.
  intros Hm Hk Hkn. pose proof (used_slice h k 4 Hm Hk ltac:(lia) ltac:(lia)) as Hs.
  unfold write_u32. rewrite get_slice_mut_eq, Hs. unfold mbind, M_bind.
  rewrite store_run; [done|by eapply get_slice_backed|by rewrite u32_le_length].
Qed.

Lemma write_u16_run {E} h k v :
  mem_ok h mem → 0 ≤ k → k + 2 ≤ 4 + 8 * queue_size vq →
  write_u16 (E := E) mem User (used_addr vq + k) v h
  = (Ok (Some tt), store_cells (cells (ptr_add p k) 2) (u16_le v) h).
Proof.
  intros Hm Hk Hkn. pose proof (used_slice h k 2 Hm Hk ltac:(lia) ltac:(lia)) as Hs.
  unfold write_u16. rewrite get_slice_mut_eq, Hs. unfold mbind, M_bind.
  rewrite store_run; [done|by eapply get_slice_backed|by rewrite u16_le_length].
Qed.

(** The three stores of [push_used]. *)
Definition used_pushed (h : Heap) (head len : Z) : Heap :=
  let k := 4 + 8 * (used_idx h mod queue_size vq) in
  store_cells (cells (ptr_add p 2) 2) (u16_le (wrap 16 (used_idx h + 1)))
    (store_cells (cells (ptr_add p (k + 4)) 4) (u32_le len)
       (store_cells (cells (ptr_add p k) 4) (u32_le head) h)).

Lemma push_used_run h head len :
  mem_ok h mem → push_used mem vq head len h = (Ok tt, used_pushed h head len).
Proof.
  intros Hm. pose proof Hu as [Hq Hs]. pose proof (get_slice_range _ _ _ _ _ _ Hm Hs) as [Ha He].
  unfold used_pushed. pose proof (Z.mod_pos_bound (used_idx h) (queue_size vq) ltac:(lia)) as Hmod.
  set (slot := used_idx h mod queue_size vq) in *.
  destruct (sub_read mem h Hm 2 _ _ _ (used_addr vq + 2) Hs) as (idx & Hidx & Hread); [lia..|].
  assert (used_idx h = idx) as Hi by (unfold used_idx, ring_u16, read_u16; by rewrite Hread).
  unfold push_used, in_bounds, lift, mbind, M_bind, read_u16, USED_RING_OFFSET, USED_ELEM_LEN.
  rewrite uadd_in by uint. rewrite Hread. cbn [ok_or]. rewrite <- Hi. unfold urem.
  rewrite (proj2 (Z.eqb_neq (queue_size vq) 0)) by lia. fold slot.
  rewrite uadd_in by uint. rewrite uadd_in by uint.
  replace (used_addr vq + 4 + slot * 8) with (used_addr vq + (4 + 8 * slot)) by lia.
  rewrite write_u32_run by (done || lia). cbn [ok_or]. rewrite uadd_in by uint.
  rewrite <- Z.add_assoc, write_u32_run by (apply mem_ok_store || lia; done). cbn [ok_or].
  rewrite write_u16_run by (repeat apply mem_ok_store || lia; done). done.
Qed.

Lemma used_pushed_ok h head len : mem_ok h mem → mem_ok (used_pushed h head len) mem.
Proof. intros Hm. by do 3 apply mem_ok_store. Qed.

Lemma used_pushed_idx h head len :
  mem_ok h mem → used_idx (used_pushed h head len) = wrap 16 (used_idx h + 1).
Proof.
  intros Hm. pose proof (used_pushed_ok h head len Hm) as Hm'. destruct Hu as [Hq _].
  unfold used_idx at 1, ring_u16, read_u16.
  erewrite (read_int_run 2); [|apply (used_slice h); (done || lia)|].
  2:{ unfold used_pushed. apply load_store_same; [apply NoDup_cells|]. by rewrite u16_le_length. }
  rewrite u16_le_split, le_roundtrip; [done|]. by apply wrap_range.
Qed.

Lemma used_pushed_elem h head len slot :
  mem_ok h mem → is_uint 16 head → is_uint 32 len → 0 ≤ slot < queue_size vq →
  used_elem (used_pushed h head len) slot =
    if decide (slot = used_idx h mod queue_size vq) then (head, len) else used_elem h slot.
Proof.
  intros Hm Hh Hl Hslot. pose proof Hu as [Hq _].
  pose proof (Z.mod_pos_bound (used_idx h) (queue_size vq) ltac:(lia)) as Hmod.
  unfold used_elem, used_pushed. set (k := used_idx h mod queue_size vq) in *.
  case_decide as Heq; [subst slot; f_equal|f_equal].
  - rewrite !ring_u32_apart by (repeat apply mem_ok_store || lia; done).
    rewrite (ring_u32_load _ _ (u32_le head)); [|by apply mem_ok_store|lia..|].
    + rewrite u32_le_split. apply le_roundtrip. uint.
    + apply load_store_same; [apply NoDup_cells|by rewrite u32_le_length].
  - rewrite ring_u32_apart by (repeat apply mem_ok_store || lia; done).
    rewrite (ring_u32_load _ _ (u32_le len)); [|by do 2 apply mem_ok_store|lia..|].
    + rewrite u32_le_split. by apply le_roundtrip.
    + apply load_store_same; [apply NoDup_cells|by rewrite u32_le_length].
  - by rewrite !ring_u32_apart by (repeat apply mem_ok_store || lia; done).
  - by rewrite !ring_u32_apart by (repeat apply mem_ok_store || lia; done).
Qed.

Lemma used_pushed_only h head len c :
  c ∉ cells (ptr_add p 2) 2 → c ∉ cells (ptr_add p (4 + 8 * (used_idx h mod queue_size vq))) 8 →
  used_pushed h head len !! c = h !! c.
Proof.
  intros Hi He. unfold used_pushed.
  rewrite !store_cells_notin; [done|..]; rewrite elem_of_cells in *; simpl in *; lia.
Qed.

Lemma used_pushed_frame h head len c :
  c ∉ cells p (Z.to_nat (4 + 8 * queue_size vq)) → used_pushed h head len !! c = h !! c.
Proof.
  intros Hc. destruct Hu as [Hq _]. rewrite elem_of_cells in Hc.
  pose proof (Z.mod_pos_bound (used_idx h) (queue_size vq) ltac:(lia)) as Hmod.
  apply used_pushed_only; rewrite elem_of_cells; simpl; lia.
Qed.
End At.
End UsedRing.

(** ** A small ring

    One region of 256 bytes, at guest-physical address 0x1000 and user address 0x9000, that holds
    a queue of four descriptors: the table at user address 0x9000, the available ring at 0x9040,
    the used ring at 0x9050 and buffers from guest-physical address 0x1080. *)

Definition ring_memory : GuestMemory :=
  mkGuestMemory [mkRegion 0x1000 0x9000 256 (7, 0) (7, 0) 256].
Definition ring_heap (image : bytes) : Heap := store_cells (cells (7, 0) 256) image ∅.
Definition ring_queue (size last : Z) : Virtqueue := mkVirtqueue 0x9000 0x9040 0x9050 size last.

Definition ring_image (avail_idx : Z) (used_idx : Z) : bytes :=
  u64_le 0x1080 ++ u32_le 8 ++ u16_le VIRTQ_DESC_F_NEXT ++ u16_le 2 ++
  u64_le 0x10A0 ++ u32_le 16 ++ u16_le VIRTQ_DESC_F_WRITE ++ u16_le 0 ++
  u64_le 0x1090 ++ u32_le 4 ++ u16_le VIRTQ_DESC_F_NEXT ++ u16_le 1 ++
  u64_le 0x10A0 ++ u32_le 4 ++ u16_le VIRTQ_DESC_F_NEXT ++ u16_le 3 ++
  u16_le 0 ++ u16_le avail_idx ++ u16_le 1 ++ u16_le 11 ++ u16_le 12 ++ u16_le 3 ++ replicate 4 NUL ++
  u16_le 0 ++ u16_le used_idx ++ replicate 32 NUL ++ replicate 12 NUL ++
  u64_le 0x0807060504030201 ++ replicate 8 NUL ++ u32_le 0x0C0B0A09 ++ replicate 108 NUL.

Lemma length_ring_image a u : length (ring_image a u) = 256%nat.
Proof. unfold ring_image. rewrite !length_app, !length_replicate, !u64_le_length, !u32_le_length, !u16_le_length. done. Qed.

Lemma ring_memory_ok image : length image = 256%nat → mem_ok (ring_heap image) ring_memory.
Proof.
  intros Hl. split.
  - apply Forall_singleton. split; [simpl; lia..|]. apply load_cells_is_Some.
    change (is_Some (load_cells (cells (7, 0) 256) (ring_heap image))). unfold ring_heap.
    rewrite load_store_same; [done|apply NoDup_cells|by rewrite length_cells].
  - intros space. repeat constructor.
Qed.

(** * Properties *)

(** C19: the available ring is a first-in-first-out queue across the wrap of its 16-bit index:
    popping until [None] yields exactly the heads the driver has published since the last pop, in
    the order of their slots (indices modulo the size, a power of two), leaves the memory alone
    and ends with the device's index equal to the driver's. *)
Theorem pop_avail_fifo `{Build} mem h vq n :
  mem_ok h mem → avail_mapped mem vq → (queue_size vq | 2 ^ 16) → published mem h vq = n →
  pop_all mem (S n) vq h =
    (Ok ((λ i, ring_u16 mem h
            (avail_addr vq + (4 + 2 * ((last_avail_idx vq + i) mod queue_size vq)))) <$> seqZ 0 (Z.of_nat n),
         set_avail_base (ring_u16 mem h (avail_addr vq + 2)) vq), h).
Proof.
  intros Hm Hav Hdiv Hn. rewrite (pop_all_run mem h Hm n vq Hav Hn). do 3 f_equal.
  apply list_fmap_ext. intros i x _. unfold ring_head. do 4 f_equal.
  by apply Z.mod_mod_divide.
Qed.

Lemma pop_avail_fifo_witness :
  pop_all (H := checked_build) ring_memory 3 (ring_queue 4 0xffff) (ring_heap (ring_image 1 0))
  = (Ok ([3; 1], ring_queue 4 1), ring_heap (ring_image 1 0)).
Proof.
  rewrite (pop_avail_fifo (H := checked_build) ring_memory (ring_heap (ring_image 1 0))
             (ring_queue 4 0xffff) 2).
  - reflexivity.
  - apply ring_memory_ok, length_ring_image.
  - split_and!; [simpl; lia..|simpl; uint|vm_compute; by eexists].
  - by exists 16384.
  - vm_compute. reflexivity.
Defined.

(** C21: [push_used] publishes one completion: the element in the slot of the current used index
    holds the chain's head and the byte count, the index advances by one modulo 65536, and every
    byte of memory other than the eight of that element and the two of the index is unchanged,
    the flags of the ring, its other elements and everything outside it included. *)
Theorem push_used_publishes `{Build} mem h vq p head len :
  mem_ok h mem → used_mapped mem vq p → is_uint 16 head → is_uint 32 len →
  ∃ h', push_used mem vq head len h = (Ok tt, h') ∧ mem_ok h' mem ∧
    used_idx mem vq h' = wrap 16 (used_idx mem vq h + 1) ∧
    (∀ slot, 0 ≤ slot < queue_size vq →
       used_elem mem vq h' slot =
         if decide (slot = used_idx mem vq h mod queue_size vq) then (head, len)
         else used_elem mem vq h slot) ∧
    (∀ c, c ∉ cells (ptr_add p 2) 2 → c ∉ cells (ptr_add p (4 + 8 * (used_idx mem vq h mod queue_size vq))) 8 →
       h' !! c = h !! c).
Proof.
  intros Hm Hu Hh Hl. exists (used_pushed mem vq p h head len). split_and!.
  - by apply push_used_run.
  - by apply used_pushed_ok.
  - by apply used_pushed_idx.
  - intros slot Hslot. by apply used_pushed_elem.
  - intros c. by apply used_pushed_only.
Qed.

Lemma push_used_publishes_witness :
  ∃ h', push_used (H := checked_build) ring_memory (ring_queue 4 0) 3 12 (ring_heap (ring_image 1 0xffff))
        = (Ok tt, h') ∧
    used_idx ring_memory (ring_queue 4 0) h' = 0 ∧
    used_elem ring_memory (ring_queue 4 0) h' 3 = (3, 12) ∧
    used_elem ring_memory (ring_queue 4 0) h' 2 = (0, 0).
Proof.
  destruct (push_used_publishes (H := checked_build) ring_memory (ring_heap (ring_image 1 0xffff))
    (ring_queue 4 0) (7, 0x50) 3 12) as (h' & Hrun & _ & Hidx & Helem & _).
  - apply ring_memory_ok, length_ring_image.
  - split; [simpl; lia|vm_compute; reflexivity].
  - uint.
  - uint.
  - exists h'. split_and!; [exact Hrun|rewrite Hidx; vm_compute; reflexivity|..].
    + rewrite (Helem 3) by (simpl; lia). vm_compute. reflexivity.
    + rewrite (Helem 2) by (simpl; lia). vm_compute. reflexivity.
Defined.

(** C18: [read_chain] always ends and only reads.  On a descriptor table laid out as virtio says
    (entries of 16 bytes, address, length, flags and next at 0, 8, 12 and 14, little-endian) it
    succeeds exactly on the chains of at most 512 direct descriptors that end in one without the
    NEXT flag, and then returns their buffers in order, split by the WRITE flag; on every other
    table (a cycle, an indirect descriptor, an unmapped entry) it reports an error.  It panics only
    in a build with overflow checks and only on a table that reaches into the last mebibyte of the
    address space. *)
Theorem read_chain_exact `{Build} mem vq h head :
  mem_ok h mem → is_uint 64 (desc_addr vq) → is_uint 16 head →
  ∃ r, read_chain mem vq head h = (r, h) ∧
    match r with
    | Ok c => ∃ ds, linked (desc_table mem vq h) head ds ∧ (length ds ≤ MAX_CHAIN_LEN)%nat ∧
                c = mkDescChain head (readable_of ds) (writable_of ds)
    | Err _ => ∀ ds, linked (desc_table mem vq h) head ds → (MAX_CHAIN_LEN < length ds)%nat
    | Panic => overflow_checks = true ∧ 2 ^ 64 < desc_addr vq + 2 ^ 20
    end.
Proof. intros Hm Hd Hh. by apply walk_chain_spec. Qed.

Lemma read_chain_exact_witness :
  (∃ ds, linked (desc_table ring_memory (ring_queue 4 0) (ring_heap (ring_image 1 0))) 0 ds ∧
     readable_of ds = [(0x1080, 8); (0x1090, 4)] ∧ writable_of ds = [(0x10A0, 16)]) ∧
  (read_chain (H := checked_build) ring_memory (ring_queue 4 0) 3 (ring_heap (ring_image 1 0))).1
  = Err ChainTooLong.
Proof.
  split; [|vm_compute; reflexivity].
  destruct (read_chain_exact (H := checked_build) ring_memory (ring_queue 4 0)
    (ring_heap (ring_image 1 0)) 0) as (r & Hrun & Hr).
  - apply ring_memory_ok, length_ring_image.
  - simpl. uint.
  - uint.
  - assert (r = Ok (mkDescChain 0 [(0x1080, 8); (0x1090, 4)] [(0x10A0, 16)])) as ->.
    { apply (f_equal fst) in Hrun. simpl in Hrun. rewrite <- Hrun. vm_compute. reflexivity. }
    destruct Hr as (ds & Hl & _ & Hds). injection Hds as -> ->. eauto.
Defined.

(** C22: the buffers of a chain are one sequence of bytes: gathering returns it, the prefix gather
    returns its first bytes whatever the segment boundaries, and the [iovec]s built with a number
    of bytes to skip and a maximum cover exactly that part of it, with no empty entry. *)
Theorem chain_bytes `{Build} mem h chain cs bs max skip total mutable :
  mem_ok h mem → segs_ok (c_readable chain) → segs_cells mem (c_readable chain) = Some cs →
  load_cells cs h = Some bs → 0 ≤ skip → 0 ≤ total →
  gather_readable mem chain h = (Ok bs, h) ∧
  gather_readable_prefix mem chain max h = (Ok (take max bs), h) ∧
  ∃ iovs, iovecs_from mem (c_readable chain) skip total mutable h = (Ok iovs, h) ∧
    load_cells (iovs_cells iovs) h = Some (take (Z.to_nat total) (drop (Z.to_nat skip) bs)) ∧
    Forall (λ s, 0 < sl_len s) iovs.
Proof.
  intros Hm Hok Hcs Hbs Hskip Htotal. split_and!.
  - unfold gather_readable. by rewrite (gather_eq h mem _ [] cs bs Hcs Hbs).
  - unfold gather_readable_prefix. rewrite (gather_prefix_eq h mem Hm _ max [] cs bs Hok Hcs Hbs).
    simpl. by rewrite Nat.sub_0_r.
  - destruct (iovecs_eq h mem Hm (c_readable chain) mutable skip total [] cs Hok Hcs Hskip Htotal)
      as (iovs & Hrun & Hc & Hpos). exists iovs. split_and!; [exact Hrun| |done].
    rewrite Hc. by apply load_cells_take, load_cells_drop.
Qed.

Lemma chain_bytes_witness :
  let chain := mkDescChain 0 [(0x1080, 8); (0x1090, 4)] [(0x10A0, 16)] in
  let h := ring_heap (ring_image 1 0) in
  (gather_readable_prefix ring_memory chain 10 h).1
  = Ok (u64_le 0x0807060504030201 ++ u16_le 0x0A09) ∧
  ∃ iovs, (iovecs_from (H := checked_build) ring_memory (c_readable chain) 6 4 false h).1 = Ok iovs ∧
    load_cells (iovs_cells iovs) h = Some (u32_le 0x0A090807).
Proof.
  intros chain h.
  destruct (chain_bytes (H := checked_build) ring_memory h chain
    (cells (7, 0x80) 8 ++ cells (7, 0x90) 4)
    (u64_le 0x0807060504030201 ++ u32_le 0x0C0B0A09) 10 6 4 false) as (_ & Hp & iovs & Hi & Hl & _).
  - apply ring_memory_ok, length_ring_image.
  - repeat (apply Forall_cons; split; [simpl; uint|]). by apply Forall_nil.
  - vm_compute. reflexivity.
  - vm_compute. reflexivity.
  - lia.
  - lia.
  - rewrite Hp, Hi. split; [reflexivity|]. exists iovs. split; [done|]. rewrite Hl. reflexivity.
Defined.

(** C23: [scatter_writable] stores a reply into the writable buffers of a chain in order, across
    segment boundaries: as many leading bytes as fit, their number returned, nothing else
    touched; and what it stored is what gathering the same buffers reads back. *)
Theorem scatter_exact `{Build} mem h chain cs data :
  mem_ok h mem → segs_ok (c_writable chain) → segs_cells mem (c_writable chain) = Some cs →
  NoDup cs → Z.of_nat (length data) < 2 ^ 32 →
  ∃ h', scatter_writable mem chain data h = (Ok (Z.of_nat (min (length data) (length cs))), h') ∧
    mem_ok h' mem ∧
    load_cells (take (length data) cs) h' = Some (take (length cs) data) ∧
    (∀ c, c ∉ take (length data) cs → h' !! c = h !! c) ∧
    gather_readable_prefix mem (mkDescChain 0 (c_writable chain) []) (length data) h'
    = (Ok (take (length cs) data), h').
Proof.
  intros Hm Hok Hcs Hnd Hd. set (h' := store_cells (take (length data) cs) (take (length cs) data) h).
  assert (mem_ok h' mem) as Hm' by by apply mem_ok_store.
  assert (load_cells (take (length data) cs) h' = Some (take (length cs) data)) as Hl.
  { apply load_store_same; [by eapply sublist_NoDup, sublist_take|].
    rewrite !length_take. lia. }
  exists h'. split_and!; [|done|done|by intros c; apply store_cells_notin|].
  - unfold scatter_writable. by rewrite (scatter_eq mem _ h data 0 cs Hm Hok Hcs) by lia.
  - destruct (segs_cells_backed h' mem Hm' _ _ Hcs) as [all Hall].
    unfold gather_readable_prefix. rewrite (gather_prefix_eq h' mem Hm' _ _ [] cs all Hok Hcs Hall).
    simpl. rewrite Nat.sub_0_r. apply (load_cells_take _ _ _ (length data)) in Hall. congruence.
Qed.

Lemma scatter_exact_witness :
  let chain := mkDescChain 0 [] [(0x10A0, 2); (0x1090, 16)] in
  (scatter_writable (H := checked_build) ring_memory chain (u64_le 0x1122334455667788)
     (ring_heap (ring_image 1 0))).1 = Ok 8 ∧
  ∃ h', load_cells (cells (7, 0xA0) 2 ++ cells (7, 0x90) 6) h' = Some (u64_le 0x1122334455667788).
Proof.
  intros chain.
  destruct (scatter_exact (H := checked_build) ring_memory (ring_heap (ring_image 1 0)) chain
    (cells (7, 0xA0) 2 ++ cells (7, 0x90) 16) (u64_le 0x1122334455667788))
    as (h' & Hrun & _ & Hl & _).
  - apply ring_memory_ok, length_ring_image.
  - repeat (apply Forall_cons; split; [simpl; uint|]). by apply Forall_nil.
  - vm_compute. reflexivity.
  - apply (bool_decide_unpack _). vm_compute. reflexivity.
  - vm_compute. reflexivity.
  - rewrite Hrun. split; [reflexivity|]. exists h'. exact Hl.
Defined.

(** A queue configured with size zero (SET_VRING_NUM with a count that is zero modulo 65536)
    makes the first published request a panic in every build: the slot is an index modulo the
    size, and the remainder by zero is checked with or without overflow checks. *)
Theorem queue_size_zero `{Build} :
  let vq := ring_queue (as_u16 0x10000) 0 in
  (pop_avail ring_memory vq (ring_heap (ring_image 1 0))).1 = Panic ∧
  (push_used ring_memory vq 0 0 (ring_heap (ring_image 1 0))).1 = Panic.
Proof. destruct H as [[]]; split; vm_compute; reflexivity. Qed.
