(* ===== verification/Doorbell.v ===== *)
(** * Doorbells

    [doorbell.rs]: a descriptor one side signals and the other notices, an [eventfd] on Linux and
    a non-blocking pipe elsewhere.  The calls are the host's; [BellLaws] states what eventfd(2),
    pipe(2) and fcntl(2) document of them.  The theorem is that both kinds implement one flag:
    [consume] tells whether [notify] was called since the last [consume]. *)

From S2P Require Import Prelude Libc Errors Bytes.
From stdpp Require Import list.
Local Open Scope Z_scope.

(** [read] into a buffer of a size, whose contents the sources ignore, and [write].  A [read] of a
    descriptor for which [read_waits] does not return before somebody writes. *)
Class FdCalls (W : Type) := {
  read_waits : Z → W → bool;
  sys_read : Z → nat → W → (nat + Z) * W;
  sys_write : Z → bytes → W → (nat + Z) * W;
}.

Class BellCalls (W : Type) := {
  sys_eventfd : Z → Z → W → (Z + Z) * W;
  (** The read end and the write end. *)
  sys_pipe : W → ((Z * Z) + Z) * W;
  sys_fcntl : Z → Z → Z → W → (Z + Z) * W;
  EFD_CLOEXEC : Z; EFD_NONBLOCK : Z; O_NONBLOCK : Z; FD_CLOEXEC : Z;
  F_GETFL : Z; F_SETFL : Z; F_SETFD : Z;
}.

(** The fields of the two [cfg]s. *)
Inductive Doorbell :=
| EventFd (fd : Z)
| SelfPipe (read_fd write_fd : Z).

(** Why [consume] stops other than by returning: an error, a read that waits, or the iterations it
    was given. *)
Inductive BellStop := BellErr (e : io_error) | BellWaits | BellFuel.

Section Operations.
Context `{Libc, FdCalls W, BellCalls W}.

(** [fcntl] as the C function: -1 on an error. *)
Definition fcntl (fd cmd arg : Z) : M W io_error Z := λ w,
  let '(r, w) := sys_fcntl fd cmd arg w in
  (Ok (match r with inl n => n | inr _ => -1 end), w).

(** The body of the [for fd in fds] loop. *)
Definition set_nonblocking (fd : Z) : M W io_error unit :=
  flags ← fcntl fd F_GETFL 0;
  _ ← fcntl fd F_SETFL (Z.lor flags O_NONBLOCK);
  _ ← fcntl fd F_SETFD FD_CLOEXEC;
  mret tt.

Definition Doorbell_new : M W io_error Doorbell :=
  if decide (target_os = Linux) then
    fd ← os_call (sys_eventfd 0 (Z.lor EFD_CLOEXEC EFD_NONBLOCK));
    mret (EventFd fd)
  else
    fds ← os_call sys_pipe;
    _ ← set_nonblocking fds.1;
    _ ← set_nonblocking fds.2;
    mret (SelfPipe fds.1 fds.2).

Definition Doorbell_read_fd (d : Doorbell) : Z :=
  match d with
  | EventFd fd => fd
  | SelfPipe read_fd _ => read_fd
  end.

Definition Doorbell_notify (d : Doorbell) : M W io_error unit :=
  match d with
  | EventFd fd => _ ← os_call (sys_write fd (u64_le 1)); mret tt
  | SelfPipe _ write_fd => _ ← os_call (sys_write write_fd [Byte.x01]); mret tt
  end.

(** [err.kind() == ErrorKind::WouldBlock]. *)
Definition would_block (e : Z) : bool := e =? errno_val EAGAIN.

Fixpoint consume_loop (fuel : nat) (fd : Z) (any : bool) : M W BellStop bool :=
  match fuel with
  | O => throw BellFuel
  | S fuel => λ w,
      if read_waits fd w then (Err BellWaits, w)
      else
        let '(rc, w) := sys_read fd 256 w in
        match rc with
        | inl n =>
            if (0 <? n)%nat then
              if (n =? 256)%nat then consume_loop fuel fd true w else (Ok true, w)
            else (Ok any, w)
        | inr e => if would_block e then (Ok any, w) else (Err (BellErr (Os e)), w)
        end
  end.

Definition Doorbell_consume (fuel : nat) (d : Doorbell) : M W BellStop bool :=
  consume_loop fuel (Doorbell_read_fd d) false.
End Operations.

(** ** What the host promises *)

(** [efd_count w fd] is the counter of a non-blocking eventfd, [pipe_bytes w r e] the number of
    bytes in the pipe from [e] to [r], both ends open, and [fd_flags w fd] the status flags of an
    open descriptor. *)
Class BellLaws `{Libc} (W : Type) `{FdCalls W, BellCalls W} := {
  efd_count : W → Z → option Z;
  pipe_bytes : W → Z → Z → option nat;
  fd_flags : W → Z → option Z;
  law_eventfd w fd w' :
    sys_eventfd 0 (Z.lor EFD_CLOEXEC EFD_NONBLOCK) w = (inl fd, w') → efd_count w' fd = Some 0;
  law_efd_write fd v c w :
    efd_count w fd = Some c → 0 ≤ v < 2 ^ 64 - 1 →
    ∃ w', if decide (c + v < 2 ^ 64 - 1)
          then sys_write fd (u64_le v) w = (inl 8%nat, w') ∧ efd_count w' fd = Some (c + v)
          else sys_write fd (u64_le v) w = (inr (errno_val EAGAIN), w') ∧ efd_count w' fd = Some c;
  law_efd_read fd n c w :
    efd_count w fd = Some c → (8 ≤ n)%nat →
    read_waits fd w = false ∧ ∃ w', sys_read fd n w = (if decide (c = 0) then inr (errno_val EAGAIN) else inl 8%nat, w') ∧
      efd_count w' fd = Some 0;
  law_pipe w r e w' :
    sys_pipe w = (inl (r, e), w') →
    r ≠ e ∧ pipe_bytes w' r e = Some O ∧ is_Some (fd_flags w' r) ∧ is_Some (fd_flags w' e);
  law_getfl fd f w : fd_flags w fd = Some f → sys_fcntl fd F_GETFL 0 w = (inl f, w);
  (** F_SETFL changes the flags of one end of a pipe, and O_NONBLOCK as asked. *)
  law_setfl fd f g w :
    fd_flags w fd = Some f →
    ∃ w' f', sys_fcntl fd F_SETFL g w = (inl 0, w') ∧ fd_flags w' fd = Some f' ∧
      Z.land f' O_NONBLOCK = Z.land g O_NONBLOCK ∧
      ∀ r e k, pipe_bytes w r e = Some k →
        pipe_bytes w' r e = Some k ∧
        (fd = r → fd_flags w' e = fd_flags w e) ∧ (fd = e → fd_flags w' r = fd_flags w r);
  law_setfd fd f g w :
    fd_flags w fd = Some f →
    ∃ w', sys_fcntl fd F_SETFD g w = (inl 0, w') ∧ (∀ fd', fd_flags w' fd' = fd_flags w fd') ∧
      ∀ r e, pipe_bytes w' r e = pipe_bytes w r e;
  (** At most 512 bytes, the smallest PIPE_BUF: all accepted, or all refused by a pipe that is not
      empty. *)
  law_pipe_write r e f b k w :
    pipe_bytes w r e = Some k → fd_flags w e = Some f → Z.land f O_NONBLOCK = O_NONBLOCK →
    (0 < length b ≤ 512)%nat →
    ∃ w', (∀ fd, fd_flags w' fd = fd_flags w fd) ∧
      (sys_write e b w = (inl (length b), w') ∧ pipe_bytes w' r e = Some (k + length b)%nat ∨
       sys_write e b w = (inr (errno_val EAGAIN), w') ∧ pipe_bytes w' r e = Some k ∧ (0 < k)%nat);
  (** A read of an empty pipe waits unless the descriptor is non-blocking. *)
  law_pipe_read r e f n k w :
    pipe_bytes w r e = Some k → fd_flags w r = Some f → (0 < n)%nat →
    (read_waits r w = true ↔ k = O ∧ Z.land f O_NONBLOCK ≠ O_NONBLOCK) ∧
    (read_waits r w = false → ∃ w', (∀ fd, fd_flags w' fd = fd_flags w fd) ∧
       sys_read r n w = (if decide (k = 0)%nat then inr (errno_val EAGAIN) else inl (min n k), w') ∧
       pipe_bytes w' r e = Some (k - n)%nat);
}.

(** ** Specification: one flag *)

Inductive BellOp := Notify | Consume.

(** What each [Consume] tells, [b] the flag so far. *)
Fixpoint flag_run (b : bool) (ops : list BellOp) : list bool :=
  match ops with
  | [] => []
  | Notify :: ops => flag_run true ops
  | Consume :: ops => b :: flag_run false ops
  end.

Section Client.
Context `{Libc, FdCalls W, BellCalls W}.

(** A client that does not look at the result of [notify]. *)
Fixpoint bell_run (fuel : nat) (d : Doorbell) (ops : list BellOp) : M W BellStop (list bool) :=
  match ops with
  | [] => mret []
  | Notify :: ops => _ ← attempt (Doorbell_notify d); bell_run fuel d ops
  | Consume :: ops => b ← Doorbell_consume fuel d; bs ← bell_run fuel d ops; mret (b :: bs)
  end.
End Client.

(** * Lemmas *)

Section Bells.
Context `{BellLaws}.

Definition non_blocking (w : W) (fd : Z) : Prop :=
  ∃ f, fd_flags w fd = Some f ∧ Z.land f O_NONBLOCK = O_NONBLOCK.

(** A usable doorbell with [k] notifications pending. *)
Definition rings (w : W) (d : Doorbell) (k : nat) : Prop :=
  match d with
  | EventFd fd => efd_count w fd = Some (Z.of_nat k)
  | SelfPipe r e => pipe_bytes w r e = Some k ∧ non_blocking w r ∧ non_blocking w e
  end.

Lemma notify_rings w d k :
  rings w d k →
  ∃ r w' k', Doorbell_notify d w = (r, w') ∧ rings w' d k' ∧ (0 < k' ≤ S k)%nat ∧
    (r = Ok tt ∨ r = Err (Os (errno_val EAGAIN))).
Proof.
  destruct d as [fd|r e]; simpl; unfold os_call, mbind, M_bind.
  - intros Hk. destruct (law_efd_write fd 1 _ w Hk ltac:(lia)) as [w' Hw]. case_decide.
    + destruct Hw as [-> Hw]. exists (Ok tt), w', (S k). split_and!; [done|rewrite Hw; f_equal; lia|lia..|by left].
    + destruct Hw as [-> Hw]. exists (Err (Os (errno_val EAGAIN))), w', k. split_and!; [done|done|lia..|by right].
  - intros (Hk & Hr & f & Hf & Hnb).
    destruct (law_pipe_write r e f [Byte.x01] k w Hk Hf Hnb) as (w' & Hfl & [[-> Hw]|(-> & Hw & Hpos)]); [simpl; lia|..].
    + exists (Ok tt), w', (S k). unfold non_blocking in *. setoid_rewrite Hfl. rewrite Hw.
      split_and!; eauto; try lia. f_equal. simpl. lia.
    + exists (Err (Os (errno_val EAGAIN))), w', k. unfold non_blocking in *. setoid_rewrite Hfl. split_and!; eauto; lia.
Qed.

Lemma read_rings w d k :
  rings w d k →
  read_waits (Doorbell_read_fd d) w = false ∧
  ∃ w' k', sys_read (Doorbell_read_fd d) 256 w =
      (if decide (k = O) then inr (errno_val EAGAIN) else inl (match d with EventFd _ => 8 | _ => min 256 k end)%nat, w') ∧
    rings w' d k' ∧ k' = match d with EventFd _ => O | _ => (k - 256)%nat end.
Proof.
  destruct d as [fd|r e]; cbn [rings Doorbell_read_fd].
  - intros Hk. destruct (law_efd_read fd 256 _ w Hk ltac:(lia)) as (Hwt & w' & Hrun & Hw). split; [done|]. exists w', O.
    split_and!; [|done|done]. rewrite Hrun. repeat case_decide; (done || lia).
  - intros (Hk & (f & Hf & Hnb) & He).
    destruct (law_pipe_read r e f 256 k w Hk Hf ltac:(lia)) as [Hwt Hrd].
    assert (read_waits r w = false) as Hwt' by (apply not_true_is_false; intros [_ Hn]%Hwt; done).
    split; [done|]. destruct (Hrd Hwt') as (w' & Hfl & -> & Hw). exists w', (k - 256)%nat. unfold non_blocking in *. setoid_rewrite Hfl. split_and!; eauto.
Qed.

(** The loop ends after one read of an eventfd and one per 256 bytes of a pipe, and one more. *)
Lemma consume_loop_rings d fuel : ∀ k any w,
  rings w d k → (k < 256 * fuel)%nat →
  ∃ w', consume_loop fuel (Doorbell_read_fd d) any w = (Ok (any || (0 <? k)%nat), w') ∧ rings w' d 0.
Proof.
  induction fuel as [|fuel IH]; intros k any w Hk Hf; [lia|]. cbn [consume_loop].
  destruct (read_rings w d k Hk) as (-> & w' & k' & -> & Hw & ->). destruct (decide (k = O)) as [->|Hne].
  - unfold would_block. rewrite Z.eqb_refl, orb_false_r. exists w'. split; [done|]. by destruct d.
  - destruct (Nat.ltb_spec 0 k) as [_|]; [|lia]. rewrite orb_true_r.
    destruct d as [fd|r e]; [by exists w'|].
    destruct (Nat.ltb_spec 0 (min 256 k)) as [_|]; [|lia].
    destruct (Nat.eqb_spec (min 256 k) 256).
    + destruct (IH (k - 256)%nat true w' Hw ltac:(lia)) as (w2 & -> & Hw2). by exists w2.
    + exists w'. split; [done|]. by replace O with (k - 256)%nat by lia.
Qed.

Lemma set_nonblocking_run fd w r e k :
  pipe_bytes w r e = Some k → r ≠ e → fd = r ∨ fd = e →
  is_Some (fd_flags w r) → is_Some (fd_flags w e) →
  ∃ w', set_nonblocking fd w = (Ok tt, w') ∧ pipe_bytes w' r e = Some k ∧ non_blocking w' fd ∧
    (fd = r → fd_flags w' e = fd_flags w e) ∧ (fd = e → fd_flags w' r = fd_flags w r).
Proof.
  intros Hk Hne Hfd Hr He.
  assert (is_Some (fd_flags w fd)) as [f Hf] by (by destruct Hfd; subst).
  unfold set_nonblocking, fcntl, mbind, M_bind. rewrite (law_getfl fd f w Hf).
  destruct (law_setfl fd f (Z.lor f O_NONBLOCK) w Hf) as (w1 & f' & -> & Hf' & Hnb & Hp).
  destruct (law_setfd fd f' FD_CLOEXEC w1 Hf') as (w2 & -> & Hfl & Hp2).
  destruct (Hp r e k Hk) as (Hk1 & Hr1 & He1). exists w2. split_and!; [done|by rewrite Hp2| |..].
  - exists f'. rewrite Hfl, Hnb. split; [done|]. apply Z.bits_inj'. intros n _.
    rewrite Z.land_spec, Z.lor_spec. by destruct (Z.testbit f n), (Z.testbit O_NONBLOCK n).
  - intros ->. by rewrite Hfl, Hr1.
  - intros ->. by rewrite Hfl, He1.
Qed.

Lemma new_rings w d w' : Doorbell_new w = (Ok d, w') → rings w' d 0.
Proof.
  unfold Doorbell_new, os_call. case_decide as Hos; unfold mbind, M_bind.
  - destruct (sys_eventfd _ _ w) as [[fd|e] w1] eqn:He; [|done]. intros [= <- <-]. by eapply law_eventfd.
  - destruct (sys_pipe w) as [[[r e]|er] w1] eqn:Hp; [|done]. cbn [fst snd].
    destruct (law_pipe w r e w1 Hp) as (Hne & Hk & Hr & He).
    destruct (set_nonblocking_run r w1 r e 0 Hk Hne (or_introl eq_refl) Hr He) as (w2 & -> & Hk2 & Hnr & Hfe & _).
    specialize (Hfe eq_refl). rewrite <- Hfe in He.
    assert (is_Some (fd_flags w2 r)) as Hr2 by (destruct Hnr as (f & Hf & _); by exists f).
    destruct (set_nonblocking_run e w2 r e 0 Hk2 Hne (or_intror eq_refl) Hr2 He) as (w3 & -> & Hk3 & Hne3 & _ & Hfr).
    intros [= <- <-]. split_and!; [done| |done]. unfold non_blocking. by rewrite (Hfr eq_refl).
Qed.

Lemma bell_run_rings fuel d ops : ∀ k w,
  rings w d k → (k + length ops < 256 * fuel)%nat →
  ∃ w', bell_run fuel d ops w = (Ok (flag_run (0 <? k)%nat ops), w').
Proof.
  induction ops as [|[] ops IH]; intros k w Hk Hf; cbn [bell_run flag_run]; cbn [length] in Hf.
  - by exists w.
  - destruct (notify_rings w d k Hk) as (r & w1 & k' & Hrun & Hk' & Hpos & Hr).
    destruct (IH k' w1 Hk' ltac:(lia)) as (w' & Hw'). exists w'. unfold attempt, mbind, M_bind.
    rewrite Hrun. rewrite (proj2 (Nat.ltb_lt 0 k')) in Hw' by lia. by destruct Hr as [-> | ->].
  - unfold Doorbell_consume. destruct (consume_loop_rings d fuel k false w Hk ltac:(lia)) as (w1 & Hrun & Hk1).
    destruct (IH O w1 Hk1 ltac:(lia)) as (w' & Hw'). exists w'. unfold mbind, M_bind. by rewrite Hrun, Hw'.
Qed.
End Bells.

(** ** A host with one eventfd and one pipe

    The eventfd is descriptor 5, the pipe goes from 7 to 6 and holds at most 600 bytes. *)

Record toy_bells := mkBells { tb_count : option Z; tb_pipe : option nat; tb_read_fl : Z; tb_write_fl : Z }.

Definition toy_fd_calls (EAGAIN : Z) : FdCalls toy_bells := {|
  read_waits fd w :=
    match tb_pipe w with
    | Some O => (fd =? 6) && negb (Z.land (tb_read_fl w) 0x800 =? 0x800)
    | _ => false
    end;
  sys_read fd n w :=
    match fd, tb_count w, tb_pipe w with
    | 5, Some c, _ =>
        (if c =? 0 then inr EAGAIN else inl 8%nat, mkBells (Some 0) (tb_pipe w) (tb_read_fl w) (tb_write_fl w))
    | 6, _, Some k =>
        (if (k =? 0)%nat then inr EAGAIN else inl (min n k),
         mkBells (tb_count w) (Some (k - n)%nat) (tb_read_fl w) (tb_write_fl w))
    | _, _, _ => (inr 9, w)
    end;
  sys_write fd b w :=
    match fd, tb_count w, tb_pipe w with
    | 5, Some c, _ =>
        if c + le_combine b <? 2 ^ 64 - 1
        then (inl 8%nat, mkBells (Some (c + le_combine b)) (tb_pipe w) (tb_read_fl w) (tb_write_fl w))
        else (inr EAGAIN, w)
    | 7, _, Some k =>
        if (k + length b <=? 600)%nat
        then (inl (length b), mkBells (tb_count w) (Some (k + length b)%nat) (tb_read_fl w) (tb_write_fl w))
        else (inr EAGAIN, w)
    | _, _, _ => (inr 9, w)
    end;
|}.

Definition toy_bell_calls : BellCalls toy_bells := {|
  sys_eventfd _ _ w := (inl 5, mkBells (Some 0) (tb_pipe w) (tb_read_fl w) (tb_write_fl w));
  sys_pipe w := (inl (6, 7), mkBells (tb_count w) (Some O) 0 1);
  sys_fcntl fd cmd arg w :=
    match fd, cmd with
    | 6, 3 => (inl (tb_read_fl w), w)
    | 7, 3 => (inl (tb_write_fl w), w)
    | 6, 4 => (inl 0, mkBells (tb_count w) (tb_pipe w) arg (tb_write_fl w))
    | 7, 4 => (inl 0, mkBells (tb_count w) (tb_pipe w) (tb_read_fl w) arg)
    | _, 2 => (inl 0, w)
    | _, _ => (inr 9, w)
    end;
  EFD_CLOEXEC := 0x80000; EFD_NONBLOCK := 0x800; O_NONBLOCK := 0x800; FD_CLOEXEC := 1;
  F_GETFL := 3; F_SETFL := 4; F_SETFD := 2;
|}.

Definition toy_bell_laws `{L : Libc} :
  @BellLaws L toy_bells (toy_fd_calls (errno_val EAGAIN)) toy_bell_calls.
Proof.
  refine {|
    efd_count w fd := if decide (fd = 5) then tb_count w else None;
    pipe_bytes w r e := if decide (r = 6 ∧ e = 7) then tb_pipe w else None;
    fd_flags w fd := if decide (fd = 6) then Some (tb_read_fl w) else if decide (fd = 7) then Some (tb_write_fl w) else None;
  |}.
  all: cbn [sys_eventfd sys_pipe sys_fcntl read_waits sys_read sys_write toy_fd_calls toy_bell_calls
            EFD_CLOEXEC EFD_NONBLOCK O_NONBLOCK FD_CLOEXEC F_GETFL F_SETFL F_SETFD].
  - intros w fd w' [= <- <-]. done.
  - intros fd v c w Hc Hv. case_decide; [subst|done]. rewrite Hc.
    rewrite u64_le_split, le_roundtrip by uint. destruct (Z.ltb_spec (c + v) (2 ^ 64 - 1)); case_decide; try lia;
      eexists; split; reflexivity || done.
  - intros fd n c w Hc Hn. case_decide; [subst|done]. rewrite Hc. split; [by destruct (tb_pipe w) as [[|?]|]|].
    destruct (Z.eqb_spec c 0); case_decide; try lia; eexists; split; reflexivity.
  - intros w r e w' [= <- <- <-]. split_and!; (done || by eexists).
  - intros fd f w. repeat case_decide; intros; simplify_eq; done.
  - intros fd f g w. case_decide; [intros; subst|case_decide; [intros; subst|done]].
    all: eexists _, _; (split; [reflexivity|]); (split; [reflexivity|]); (split; [reflexivity|]);
      intros r e k; simpl; (case_decide as Hre; [destruct Hre as [-> ->]|done]); intros; split_and!; done.
  - intros fd f g w Hf. exists w. split_and!; [|done..]. repeat case_decide; subst; done.
  - intros r e f b k w. case_decide as Hre; [destruct Hre as [-> ->]|done]. simpl. intros Hk [= <-] Hnb.
    intros Hb. rewrite Hk. destruct (Nat.leb_spec (k + length b) 600); eexists; (split; [|first [left; split; reflexivity | right; split_and!; [reflexivity|done|lia]]]); done.
  - intros r e f n k w. case_decide as Hre; [destruct Hre as [-> ->]|done]. simpl. intros Hk [= <-] Hn.
    rewrite Hk. split; [destruct k; simpl; rewrite ?negb_true_iff, ?Z.eqb_neq; naive_solver|]. intros _. eexists. split_and!; [|destruct (Nat.eqb_spec k 0); case_decide; done || lia|reflexivity]. done.
Defined.

(** * Properties *)

(** C25: a doorbell is one flag on either platform: whatever the order of [notify] and [consume]
    calls on a new doorbell, each [consume] returns (after one read of an eventfd, one per 256
    bytes of a pipe), tells whether there was a [notify] since the last [consume], and no call
    blocks or loses a notification, even when the counter or the pipe is full. *)
Theorem doorbell_flag `{BellLaws} fuel ops w d w0 :
  Doorbell_new w = (Ok d, w0) → (length ops < 256 * fuel)%nat →
  ∃ w', bell_run fuel d ops w0 = (Ok (flag_run false ops), w').
Proof. intros Hnew Hf. apply new_rings in Hnew. by apply (bell_run_rings fuel d ops 0). Qed.

(** The two platforms, and a pipe that is filled up before it is drained. *)
Lemma doorbell_flag_witness :
  (∃ w', bell_run (H := linux_libc) (H0 := toy_fd_calls 11) 1 (EventFd 5)
     [Consume; Notify; Notify; Consume; Consume] (mkBells (Some 0) None 0 0)
   = (Ok [false; true; false], w')) ∧
  (∃ w', bell_run (H := macos_libc) (H0 := toy_fd_calls 35) 3 (SelfPipe 6 7)
     (replicate 700 Notify ++ [Consume; Consume]) (mkBells None (Some O) 0x800 0x801)
   = (Ok [true; false], w')).
Proof.
  split.
  - apply (doorbell_flag (H := linux_libc) (H2 := toy_bell_laws (L := linux_libc)) 1
      [Consume; Notify; Notify; Consume; Consume] (mkBells None None 0 0) (EventFd 5) (mkBells (Some 0) None 0 0));
      [reflexivity|simpl; lia].
  - apply (doorbell_flag (H := macos_libc) (H2 := toy_bell_laws (L := macos_libc)) 3
      (replicate 700 Notify ++ [Consume; Consume]) (mkBells None None 0 0) (SelfPipe 6 7)
      (mkBells None (Some O) 0x800 0x801)); [reflexivity|vm_compute; lia].
Defined.
