(* ===== verification/Connection.v ===== *)
(** * The vhost-user connection

    [vhost_user/connection.rs]: messages over a stream socket that carries descriptors beside the
    bytes.  [sendfd] and the socket are outside the repository: [Socket] is their interface and
    [StreamLaws] the documented behaviour of a UNIX stream socket, which may deliver a message in
    any number of pieces. *)

From S2P Require Import Prelude Libc Errors Bytes VhostMsg Doorbell.
From stdpp Require Import list.
Local Open Scope Z_scope.

Class Socket (W : Type) := {
  (** [send_with_fd]: the number of bytes accepted. *)
  send_with_fd : Z → bytes → list Z → W → (nat + Z) * W;
  (** [recv_with_fd] with the sizes of the two buffers: what it put into them. *)
  recv_with_fd : Z → nat → nat → W → ((bytes * list Z) + Z) * W;
}.

Definition MAX_FDS_PER_RECV : nat := 32.
Definition MAX_PAYLOAD : Z := Z.shiftl 1 20.

(** The sockets of [std::os::unix::net]. *)
Class UnixNet (W : Type) := {
  unix_bind : bytes → W → (Z + Z) * W;
  unix_accept : Z → W → (Z + Z) * W;
  unix_connect : bytes → W → (Z + Z) * W;
}.

(** A [Connection] is its stream, and a [UnixStream] its descriptor. *)
Definition Connection_from_stream (stream : Z) : Z := stream.
Definition Connection_as_raw_fd (conn : Z) : Z := conn.

Section Setup.
Context `{UnixNet W}.

Definition Connection_connect (path : bytes) : M W io_error Z :=
  stream ← os_call (unix_connect path);
  mret (Connection_from_stream stream).

Definition Connection_accept (listener : Z) : M W io_error Z :=
  stream ← os_call (unix_accept listener);
  mret (Connection_from_stream stream).
End Setup.

Section Operations.
Context `{Socket W}.

Abbreviation Net := (M W ProtoError).

Definition socket {A} (call : W → (A + Z) * W) : Net A := λ w,
  let '(r, w) := call w in
  (match r with inl a => Ok a | inr e => Err (PIo (Os e)) end, w).

(** The [while] loop of [send]; an iteration that does not return sends at least a byte. *)
Fixpoint send_loop (fuel : nat) (stream : Z) (buf : bytes) (sent : nat) (fds : list Z) : Net unit :=
  if (length buf <=? sent)%nat then mret tt
  else
    match fuel with
    | O => panic
    | S fuel =>
        n ← (if (sent =? 0)%nat && negb (bool_decide (fds = []))
             then socket (send_with_fd stream (drop sent buf) fds)
             else socket (send_with_fd stream (drop sent buf) []));
        if (n =? 0)%nat then throw Disconnected
        else send_loop fuel stream buf (sent + n) fds
    end.

Definition Connection_send (stream : Z) (header : MsgHeader) (payload : bytes) (fds : list Z) : Net unit :=
  let buf := MsgHeader_to_bytes header ++ payload in
  send_loop (length buf) stream buf 0 fds.

(** The [while] loop of [recv_exact]: [buf] is what is filled of a buffer of [len] bytes. *)
Fixpoint recv_loop (fuel : nat) (stream : Z) (len : nat) (buf : bytes) (fds : list Z)
    : Net (bytes * list Z) :=
  if (len <=? length buf)%nat then mret (buf, fds)
  else
    match fuel with
    | O => panic
    | S fuel =>
        r ← socket (recv_with_fd stream (len - length buf) MAX_FDS_PER_RECV);
        let '(data, fd_buf) := r in
        if (length data =? 0)%nat then throw Disconnected
        else if (MAX_FDS_PER_RECV <? length fd_buf)%nat then panic
        else recv_loop fuel stream len (buf ++ data) (fds ++ fd_buf)
    end.

Definition recv_exact (stream : Z) (len : nat) (fds : list Z) : Net (bytes * list Z) :=
  recv_loop len stream len [] fds.

Definition Connection_recv (stream : Z) : Net (MsgHeader * bytes * list Z) :=
  r ← recv_exact stream HEADER_LEN [];
  let '(header_buf, fds) := r in
  let header := MsgHeader_from_bytes header_buf in
  let size := mh_size header in
  if MAX_PAYLOAD <? size then throw (PayloadTooLarge size)
  else
    r ← recv_exact stream (Z.to_nat size) fds;
    let '(payload, fds) := r in
    mret (header, payload, fds).
End Operations.

(** ** Stream sockets

    [inflight w s] is what the end [s] has still to receive, each byte with the open files that
    ride on it, and [ofd w s fd] the open file behind a descriptor of the process at that end. *)

(** A [sendmsg]: the descriptors ride on its first byte. *)
Definition ride (files : list Z) (b : bytes) : list (byte * list Z) :=
  match b with
  | [] => []
  | x :: b => (x, files) :: ((λ y, (y, [])) <$> b)
  end.

Definition files_of (m : list (byte * list Z)) : list Z := concat m.*2.

Class StreamLaws (W : Type) `{Socket W} := {
  inflight : W → Z → list (byte * list Z);
  ofd : W → Z → Z → option Z;
  peer : Z → Z;
  law_send s b fds (files : list Z) w n w' :
    b ≠ [] → send_with_fd s b fds w = (inl n, w') → ofd w s <$> fds = Some <$> files →
    (n ≤ length b)%nat ∧ inflight w' (peer s) = inflight w (peer s) ++ ride files (take n b);
  law_recv s len cap w data fds w' :
    (0 < len)%nat → recv_with_fd s len cap w = (inl (data, fds), w') →
    let m := take (length data) (inflight w s) in
    (length data ≤ len)%nat ∧ (length fds ≤ cap)%nat ∧ data = m.*1 ∧
    inflight w' s = drop (length data) (inflight w s) ∧
    ((length (files_of m) ≤ cap)%nat → ofd w' s <$> fds = Some <$> files_of m) ∧
    (∀ fd f, ofd w s fd = Some f → ofd w' s fd = Some f);
}.

(** The calls are not interrupted and make progress, and a receive sees the end of the stream
    only when nothing is left. *)
Class Uninterrupted (W : Type) `{StreamLaws W} := {
  send_progress s b fds w :
    b ≠ [] → ∃ n w', send_with_fd s b fds w = (inl n, w') ∧ (0 < n)%nat;
  recv_progress s len cap w :
    (0 < len)%nat →
    ∃ data fds w', recv_with_fd s len cap w = (inl (data, fds), w') ∧
      (inflight w s ≠ [] → data ≠ []);
}.

(** * Lemmas *)

Section Fuel.
Context `{Socket W}.

(** The loops never run out of iterations: more change nothing. *)
Lemma send_loop_fuel n stream buf fds k : ∀ sent w,
  (length buf ≤ sent + n)%nat → send_loop (n + k) stream buf sent fds w = send_loop n stream buf sent fds w.
Proof.
  induction n as [|n IH]; intros sent w Hn; cbn [Nat.add send_loop].
  { destruct k; cbn [send_loop]; by rewrite (proj2 (Nat.leb_le _ _)) by lia. }
  case_match; [done|]. unfold mbind, M_bind.
  case_match eqn:Hs; clear Hs. repeat case_match; try done. apply IH.
  repeat match goal with Hb : (_ =? _)%nat = false |- _ => apply Nat.eqb_neq in Hb end. lia.
Qed.

Lemma recv_loop_fuel n stream len k : ∀ buf fds w,
  (len ≤ length buf + n)%nat → recv_loop (n + k) stream len buf fds w = recv_loop n stream len buf fds w.
Proof.
  induction n as [|n IH]; intros buf fds w Hn; cbn [Nat.add recv_loop].
  { destruct k; cbn [recv_loop]; by rewrite (proj2 (Nat.leb_le _ _)) by lia. }
  case_match; [done|]. unfold mbind, M_bind.
  destruct (socket _ w) as [[[data fd_buf]|e|] w']; simpl; try done.
  destruct data as [|b data]; [done|]. simpl. case_match; [done|].
  apply IH. rewrite length_app. simpl. lia.
Qed.
End Fuel.

Lemma files_of_app m1 m2 : files_of (m1 ++ m2) = files_of m1 ++ files_of m2.
Proof. unfold files_of. by rewrite fmap_app, concat_app. Qed.

Lemma ride_fst files b : (ride files b).*1 = b.
Proof.
  destruct b as [|x b]; [done|]. simpl. f_equal. rewrite <- list_fmap_compose.
  by rewrite (list_fmap_id b) at 1.
Qed.

Lemma files_of_ride files b : b ≠ [] → files_of (ride files b) = files.
Proof.
  destruct b as [|x b]; [done|]. intros _. unfold files_of. simpl.
  rewrite <- list_fmap_compose. induction b as [|y b IH]; simpl in *; [by rewrite app_nil_r|done].
Qed.

Lemma ride_split files b n :
  (0 < n)%nat → ride files (take n b) ++ ride [] (drop n b) = ride files b.
Proof.
  intros Hn. destruct n as [|n]; [lia|]. destruct b as [|x b]; [done|]. simpl. f_equal.
  rewrite <- (take_drop n b) at 3. rewrite fmap_app. f_equal. by destruct (drop n b).
Qed.

Section Stream.
Context `{Uninterrupted W} (s : Z).

Lemma ofd_mono (fds files : list Z) w w' :
  ofd w s <$> fds = Some <$> files → (∀ fd f, ofd w s fd = Some f → ofd w' s fd = Some f) →
  ofd w' s <$> fds = Some <$> files.
Proof.
  revert files. induction fds as [|fd fds IH]; intros [|f files] Hf Hmono; simpl in *; try done.
  injection Hf as Hfd Hf. f_equal; [by apply Hmono|by apply IH].
Qed.

Lemma recv_loop_ok fuel len : ∀ buf fds w m rest,
  inflight w s = m ++ rest → (length buf + length m = len)%nat → (length m ≤ fuel)%nat →
  (length (files_of m) ≤ MAX_FDS_PER_RECV)%nat →
  ∃ new w', recv_loop fuel s len buf fds w = (Ok (buf ++ m.*1, fds ++ new), w') ∧
    inflight w' s = rest ∧ ofd w' s <$> new = Some <$> files_of m ∧
    (∀ fd f, ofd w s fd = Some f → ofd w' s fd = Some f).
Proof.
  induction fuel as [|fuel IH]; intros buf fds w m rest Hin Hlen Hfuel Hfiles; cbn [recv_loop].
  { destruct m; [|simpl in *; lia]. rewrite (proj2 (Nat.leb_le _ _)) by (simpl in *; lia).
    exists [], w. simpl. by rewrite !app_nil_r. }
  destruct (Nat.leb_spec len (length buf)).
  { destruct m; [|simpl in *; lia]. exists [], w. simpl. by rewrite !app_nil_r. }
  destruct (recv_progress s (len - length buf) MAX_FDS_PER_RECV w) as (data & got & w1 & Hrecv & Hdata);
    [lia|]. pose proof (law_recv s (len - length buf) _ w _ _ _ ltac:(lia) Hrecv) as (Hk & Hcap & Hd & Hw1 & Hofd & Hmono).
  assert (data ≠ []) as Hne by (apply Hdata; rewrite Hin; destruct m; simpl in *; [lia|done]).
  set (k := length data) in *. assert (k ≠ 0)%nat by (subst k; by destruct data).
  rewrite Hin, take_app_le in Hd, Hofd by lia. rewrite Hin, drop_app_le in Hw1 by lia.
  assert (files_of m = files_of (take k m) ++ files_of (drop k m)) as Hsplit
    by by rewrite <- files_of_app, take_drop.
  rewrite Hsplit, length_app in Hfiles. specialize (Hofd ltac:(lia)).
  destruct (IH (buf ++ data) (fds ++ got) w1 (drop k m) rest) as (new & w2 & Hrun & Hrest & Hnew & Hmono');
    [done|rewrite length_app, length_drop; lia|rewrite length_drop; lia|lia|].
  exists (got ++ new), w2. split_and!; [|done| |by auto].
  - unfold mbind, M_bind, socket. rewrite Hrecv.
    rewrite (proj2 (Nat.eqb_neq (length data) 0)) by done. rewrite (proj2 (Nat.ltb_ge _ _)) by lia.
    rewrite Hrun, <- !app_assoc. do 3 f_equal. f_equal. rewrite Hd, <- fmap_app. f_equal. apply take_drop.
  - rewrite Hsplit, !fmap_app. f_equal; [by eapply ofd_mono|done].
Qed.

Lemma recv_exact_ok len fds w m rest :
  inflight w s = m ++ rest → length m = len → (length (files_of m) ≤ MAX_FDS_PER_RECV)%nat →
  ∃ new w', recv_exact s len fds w = (Ok (m.*1, fds ++ new), w') ∧
    inflight w' s = rest ∧ ofd w' s <$> new = Some <$> files_of m ∧
    (∀ fd f, ofd w s fd = Some f → ofd w' s fd = Some f).
Proof. intros Hin Hlen Hf. apply (recv_loop_ok len len [] fds w m rest); simpl; (done || lia). Qed.

(** A stream that ends too early. *)
Lemma recv_loop_short fuel len : ∀ buf fds w,
  (length (inflight w s) + length buf < len)%nat → (length (inflight w s) < fuel)%nat →
  ∃ w', recv_loop fuel s len buf fds w = (Err Disconnected, w').
Proof.
  induction fuel as [|fuel IH]; intros buf fds w Hlen Hfuel; [lia|]. cbn [recv_loop].
  destruct (Nat.leb_spec len (length buf)); [lia|].
  destruct (recv_progress s (len - length buf) MAX_FDS_PER_RECV w) as (data & got & w1 & Hrecv & Hdata);
    [lia|]. pose proof (law_recv s (len - length buf) _ w _ _ _ ltac:(lia) Hrecv) as (Hk & Hcap & Hd & Hw1 & _ & _).
  unfold mbind, M_bind, socket. rewrite Hrecv. destruct (Nat.eqb_spec (length data) 0); [by eexists|].
  rewrite (proj2 (Nat.ltb_ge _ _)) by lia.
  assert (length data ≤ length (inflight w s))%nat.
  { rewrite Hd, length_fmap, length_take. lia. }
  apply IH; rewrite ?length_app, Hw1, length_drop; lia.
Qed.

Lemma send_loop_rest fuel buf fds : ∀ sent w,
  (0 < sent)%nat → (length buf ≤ sent + fuel)%nat →
  ∃ w', send_loop fuel s buf sent fds w = (Ok tt, w') ∧
    inflight w' (peer s) = inflight w (peer s) ++ ride [] (drop sent buf).
Proof.
  induction fuel as [|fuel IH]; intros sent w Hsent Hfuel; cbn [send_loop].
  { rewrite (proj2 (Nat.leb_le _ _)) by lia. exists w. by rewrite drop_ge, app_nil_r by lia. }
  destruct (Nat.leb_spec (length buf) sent).
  { exists w. by rewrite drop_ge, app_nil_r by lia. }
  rewrite (proj2 (Nat.eqb_neq sent 0)) by lia. cbn [andb].
  assert (drop sent buf ≠ []) as Hne.
  { intros He%(f_equal length). rewrite length_drop in He. simpl in He. lia. }
  destruct (send_progress s (drop sent buf) [] w Hne) as (n & w1 & Hsend & Hn).
  destruct (law_send _ _ _ [] _ _ _ Hne Hsend eq_refl) as [Hle Hw1].
  unfold mbind, M_bind, socket. rewrite Hsend. rewrite (proj2 (Nat.eqb_neq n 0)) by lia.
  destruct (IH (sent + n)%nat w1) as (w2 & Hrun & Hw2); [lia|lia|].
  exists w2. split; [done|]. rewrite Hw2, Hw1, <- app_assoc. f_equal.
  rewrite <- drop_drop. by apply ride_split.
Qed.

Lemma send_ok h payload (fds files : list Z) w :
  ofd w s <$> fds = Some <$> files →
  ∃ w', Connection_send s h payload fds w = (Ok tt, w') ∧
    inflight w' (peer s) = inflight w (peer s) ++ ride files (MsgHeader_to_bytes h ++ payload).
Proof.
  intros Hfiles. unfold Connection_send. set (buf := MsgHeader_to_bytes h ++ payload).
  assert (buf ≠ []) as Hne.
  { intros He%(f_equal length). unfold buf in He. by rewrite length_app, length_MsgHeader_to_bytes in He. }
  destruct (length buf) as [|fuel] eqn:Hl; [by destruct buf|]. cbn [send_loop]. rewrite Hl. cbn [Nat.leb].
  destruct (send_progress s buf fds w Hne) as (n & w1 & Hsend & Hn).
  destruct (law_send _ _ _ files _ _ _ Hne Hsend Hfiles) as [Hle Hw1].
  destruct (send_loop_rest fuel buf fds n w1 Hn ltac:(lia)) as (w2 & Hrun & Hw2).
  exists w2. split.
  - rewrite drop_0. unfold mbind, M_bind.
    assert ((if (0 =? 0)%nat && negb (bool_decide (fds = [])) then socket (send_with_fd s buf fds)
             else socket (send_with_fd s buf [])) w = (Ok n, w1)) as ->.
    { cbn [Nat.eqb andb]. case_bool_decide; subst; cbn [negb]; unfold socket; by rewrite Hsend. }
    rewrite (proj2 (Nat.eqb_neq n 0)) by lia. exact Hrun.
  - rewrite Hw2, Hw1, <- app_assoc. f_equal. by apply ride_split.
Qed.
End Stream.

Section Receive.
Context `{Uninterrupted W} (s : Z).

Lemma recv_header h m rest w :
  MsgHeader_ok h → inflight w s = m ++ rest → m.*1 = MsgHeader_to_bytes h →
  (length (files_of m) ≤ MAX_FDS_PER_RECV)%nat →
  ∃ fds w', recv_exact s HEADER_LEN [] w = (Ok (MsgHeader_to_bytes h, fds), w') ∧
    MsgHeader_from_bytes (MsgHeader_to_bytes h) = h ∧ inflight w' s = rest ∧
    ofd w' s <$> fds = Some <$> files_of m.
Proof.
  intros Hh Hin Hm Hf. destruct (recv_exact_ok s HEADER_LEN [] w m rest Hin) as (fds & w1 & Hrun & Hw1 & Hofd & _).
  - by rewrite <- (length_fmap fst), Hm, length_MsgHeader_to_bytes.
  - done.
  - exists fds, w1. rewrite Hrun, Hm. split_and!; try done. by apply MsgHeader_roundtrip.
Qed.

Lemma recv_message h payload m rest w :
  MsgHeader_ok h → mh_size h = Z.of_nat (length payload) → mh_size h ≤ MAX_PAYLOAD →
  inflight w s = m ++ rest → m.*1 = MsgHeader_to_bytes h ++ payload →
  (length (files_of m) ≤ MAX_FDS_PER_RECV)%nat →
  ∃ fds w', Connection_recv s w = (Ok (h, payload, fds), w') ∧
    inflight w' s = rest ∧ ofd w' s <$> fds = Some <$> files_of m.
Proof.
  intros Hh Hsize Hmax Hin Hm Hf.
  assert ((take HEADER_LEN m).*1 = MsgHeader_to_bytes h ∧ (drop HEADER_LEN m).*1 = payload) as [Hm1 Hm2].
  { rewrite fmap_take, fmap_drop, Hm. pose proof (length_MsgHeader_to_bytes h) as Hl.
    by rewrite (take_app_length' _ _ _ (eq_sym Hl)), (drop_app_length' _ _ _ (eq_sym Hl)). }
  rewrite <- (take_drop HEADER_LEN m) in Hin, Hf |- *.
  set (m1 := take HEADER_LEN m) in *. set (m2 := drop HEADER_LEN m) in *.
  rewrite files_of_app, length_app in Hf. rewrite <- app_assoc in Hin.
  destruct (recv_header h m1 (m2 ++ rest) w Hh Hin Hm1 ltac:(lia)) as (fds1 & w1 & Hrun1 & Hfrom & Hw1 & Ho1).
  destruct (recv_exact_ok s (Z.to_nat (mh_size h)) fds1 w1 m2 rest Hw1) as (new & w2 & Hrun2 & Hw2 & Ho2 & Hmono).
  { rewrite <- (length_fmap fst m2), Hm2. lia. }
  { lia. }
  exists (fds1 ++ new), w2. split_and!; [|done|].
  - unfold Connection_recv, mbind, M_bind. rewrite Hrun1, Hfrom. rewrite (proj2 (Z.ltb_ge _ _)) by lia.
    by rewrite Hrun2, Hm2.
  - rewrite files_of_app, !fmap_app. f_equal; [by eapply ofd_mono|done].
Qed.
End Receive.

(** ** A socket that delivers in small pieces

    One queue; a send accepts at most 7 bytes and a receive returns at most 5. *)

Definition toy_stream : Type := list (byte * list Z).

#[export] Instance toy_socket : Socket toy_stream := {
  send_with_fd _ b fds q := (inl (min 7 (length b)), q ++ ride fds (take 7 b));
  recv_with_fd _ len cap q :=
    let m := take (min 5 len) q in
    (inl (m.*1, take cap (files_of m)), drop (min 5 len) q);
}.

#[export] Instance toy_stream_laws : StreamLaws toy_stream.
Proof.
  refine {| inflight q _ := q; ofd _ _ fd := Some fd; peer s := s |}.
  - intros s b fds files w n w' Hb Hs Hf.
    assert (n = min 7 (length b) ∧ w' = w ++ ride fds (take 7 b)) as [-> ->] by (by inversion Hs).
    split; [lia|].
    assert (fds = files) as -> by (by apply (inj (fmap Some)) in Hf).
    f_equal. f_equal. destruct (decide (length b ≤ 7)%nat).
    + rewrite !take_ge by lia. done.
    + f_equal. lia.
  - intros s len cap w data fds w' Hlen Hr.
    assert (data = (take (min 5 len) w).*1 ∧ fds = take cap (files_of (take (min 5 len) w)) ∧
            w' = drop (min 5 len) w) as (-> & -> & ->) by (by inversion Hr).
    rewrite length_fmap, length_take. assert (∀ k, take (min k (length w)) w = take k w) as Ht.
    { intros k. destruct (decide (k ≤ length w)%nat); [f_equal; lia|]. rewrite !take_ge by lia. done. }
    rewrite Ht. split_and!; [lia| |done| |by intros Hc; rewrite take_ge|done].
    + rewrite length_take. lia.
    + destruct (decide (min 5 len ≤ length w)%nat); [f_equal; lia|]. rewrite !drop_ge by lia. done.
Defined.

#[export] Instance toy_uninterrupted : Uninterrupted toy_stream.
Proof.
  split.
  - intros s b fds w Hb. exists (min 7 (length b)), (w ++ ride fds (take 7 b)). split; [done|].
    destruct b; [done|]. simpl. lia.
  - intros s len cap w Hlen. do 3 eexists. split; [reflexivity|]. simpl.
    destruct len as [|len]; [lia|]. destruct w; [done|]. by intros _ ?.
Defined.

(** * Properties *)

(** C24: a message survives the socket whatever the pieces it is cut into: what [send] sends,
    [recv] at the other end returns, header, payload and descriptors for the same open files in
    the same order, and it consumes exactly that message. *)
Theorem send_recv `{Uninterrupted W} s h payload (fds files : list Z) w :
  MsgHeader_ok h → mh_size h = Z.of_nat (length payload) → mh_size h ≤ MAX_PAYLOAD →
  (length fds ≤ MAX_FDS_PER_RECV)%nat → ofd w s <$> fds = Some <$> files → inflight w (peer s) = [] →
  ∃ w1 fds' w2, Connection_send s h payload fds w = (Ok tt, w1) ∧
    Connection_recv (peer s) w1 = (Ok (h, payload, fds'), w2) ∧
    inflight w2 (peer s) = [] ∧ ofd w2 (peer s) <$> fds' = Some <$> files.
Proof.
  intros Hh Hsize Hmax Hlen Hfiles Hempty. destruct (send_ok s h payload fds files w Hfiles) as (w1 & Hsend & Hw1).
  set (buf := MsgHeader_to_bytes h ++ payload) in *.
  assert (buf ≠ []) as Hne.
  { intros He%(f_equal length). unfold buf in He. by rewrite length_app, length_MsgHeader_to_bytes in He. }
  destruct (recv_message (peer s) h payload (ride files buf) [] w1) as (fds' & w2 & Hrecv & Hw2 & Hofd); try done.
  - by rewrite app_nil_r, Hw1, Hempty.
  - by rewrite ride_fst.
  - rewrite files_of_ride by done. apply (f_equal length) in Hfiles. rewrite !length_fmap in Hfiles. lia.
  - rewrite files_of_ride in Hofd by done. by exists w1, fds', w2.
Qed.

Lemma send_recv_witness :
  ∃ w1 fds' w2,
    Connection_send 3 (MsgHeader_new SetVringKick 0 8) (u64_le 1) [9] ([] : toy_stream) = (Ok tt, w1) ∧
    Connection_recv 3 w1 = (Ok (MsgHeader_new SetVringKick 0 8, u64_le 1, fds'), w2) ∧
    Some <$> fds' = Some <$> [9].
Proof.
  destruct (send_recv (W := toy_stream) 3 (MsgHeader_new SetVringKick 0 8) (u64_le 1) [9] [9] [])
    as (w1 & fds' & w2 & H1 & H2 & _ & H4); try reflexivity.
  - split; by vm_compute.
  - vm_compute. done.
  - vm_compute. lia.
  - by exists w1, fds', w2.
Defined.

(** A message the connection refuses: a size above one MiB is reported before any of the
    payload is read, leaving the stream just after the header, and a stream that ends inside a
    header or a payload is a disconnect, not a short message. *)
Theorem recv_refuses `{Uninterrupted W} s h m rest w :
  MsgHeader_ok h → inflight w s = m ++ rest → m.*1 = MsgHeader_to_bytes h → files_of m = [] →
  (MAX_PAYLOAD < mh_size h →
     ∃ w', Connection_recv s w = (Err (PayloadTooLarge (mh_size h)), w') ∧ inflight w' s = rest) ∧
  (mh_size h ≤ MAX_PAYLOAD → Z.of_nat (length rest) < mh_size h →
     ∃ w', Connection_recv s w = (Err Disconnected, w')) ∧
  (∀ w0, (length (inflight w0 s) < HEADER_LEN)%nat → ∃ w', Connection_recv s w0 = (Err Disconnected, w')).
Proof.
  intros Hh Hin Hm Hf.
  destruct (recv_header s h m rest w Hh Hin Hm) as (fds & w1 & Hrun & Hfrom & Hw1 & _);
    [rewrite Hf; simpl; lia|].
  unfold Connection_recv, mbind, M_bind. rewrite Hrun, Hfrom. split_and!.
  - intros Hbig. rewrite (proj2 (Z.ltb_lt _ _)) by done. by exists w1.
  - intros Hmax Hshort. rewrite (proj2 (Z.ltb_ge _ _)) by lia. unfold recv_exact.
    destruct (recv_loop_short s (Z.to_nat (mh_size h)) (Z.to_nat (mh_size h)) [] fds w1) as [w2 ->];
      [rewrite Hw1; simpl; lia..|]. by exists w2.
  - intros w0 Hw0. unfold recv_exact.
    destruct (recv_loop_short s HEADER_LEN HEADER_LEN [] [] w0) as [w2 ->]; [simpl; lia..|]. by exists w2.
Qed.

Lemma recv_refuses_witness :
  ∃ w', Connection_recv 3 (ride [] (MsgHeader_to_bytes (mkMsgHeader 2 1 (2 ^ 21))) : toy_stream)
        = (Err (PayloadTooLarge (2 ^ 21)), w') ∧ w' = [].
Proof.
  destruct (recv_refuses (W := toy_stream) 3 (mkMsgHeader 2 1 (2 ^ 21))
    (ride [] (MsgHeader_to_bytes (mkMsgHeader 2 1 (2 ^ 21)))) []
    (ride [] (MsgHeader_to_bytes (mkMsgHeader 2 1 (2 ^ 21))))) as [Hbig _].
  - split; simpl; uint.
  - by rewrite app_nil_r.
  - reflexivity.
  - reflexivity.
  - apply Hbig. reflexivity.
Defined.
