(* ===== verification/Server.v ===== *)
(** * The vhost-user server

    [vhost_user/server.rs]: the control messages that set up memory and queues, the request loop
    of a queue with its zero-copy READ and WRITE, and the event loop.  The state is the server's
    fields, with the kernel state inside the session's file system, and the shared memory. *)

From S2P Require Import Prelude Libc Errors Bytes Attr Wire Inode Handle Host Passthrough Dispatch.
From S2P Require Import VhostMsg Memory Virtqueue Doorbell Connection.
From stdpp Require Import list.
Local Open Scope Z_scope.

Definition REQUEST_HEADER_LEN : nat := IN_HEADER_LEN + 40.
Definition PROTOCOL_FEATURES : Z := 0.
Definition VIRTIO_F_VERSION_1 : Z := Z.shiftl 1 32.
Definition VIRTIO_FEATURES : Z := Z.lor (Z.shiftl 1 30) VIRTIO_F_VERSION_1.
Definition NUM_QUEUES : nat := 2.

Record VringSlot := mkVringSlot {
  slot_queue_size : option Z;
  slot_pending_avail_base : Z;
  slot_vq : option Virtqueue;
  slot_kick_fd : option Z;
  slot_call_fd : option Z;
  slot_enabled : bool;
}.

Definition VringSlot_default : VringSlot := mkVringSlot None 0 None None None false.

Definition set_slot_queue_size (qs : Z) (s : VringSlot) : VringSlot :=
  mkVringSlot (Some qs) (slot_pending_avail_base s) (slot_vq s) (slot_kick_fd s) (slot_call_fd s) (slot_enabled s).
Definition set_slot_vq (vq : Virtqueue) (s : VringSlot) : VringSlot :=
  mkVringSlot (slot_queue_size s) (slot_pending_avail_base s) (Some vq) (slot_kick_fd s) (slot_call_fd s) (slot_enabled s).
Definition set_slot_kick_fd (fd : option Z) (s : VringSlot) : VringSlot :=
  mkVringSlot (slot_queue_size s) (slot_pending_avail_base s) (slot_vq s) fd (slot_call_fd s) (slot_enabled s).
Definition set_slot_call_fd (fd : option Z) (s : VringSlot) : VringSlot :=
  mkVringSlot (slot_queue_size s) (slot_pending_avail_base s) (slot_vq s) (slot_kick_fd s) fd (slot_enabled s).
Definition set_slot_enabled (b : bool) (s : VringSlot) : VringSlot :=
  mkVringSlot (slot_queue_size s) (slot_pending_avail_base s) (slot_vq s) (slot_kick_fd s) (slot_call_fd s) b.
(** [pending_avail_base = base], and the built queue's index with it. *)
Definition set_slot_base (base : Z) (s : VringSlot) : VringSlot :=
  mkVringSlot (slot_queue_size s) base (set_avail_base base <$> slot_vq s) (slot_kick_fd s) (slot_call_fd s) (slot_enabled s).

Definition VringSlot_maybe_build (addr : VringAddr) (s : VringSlot) : VringSlot :=
  match slot_queue_size s with
  | Some qs =>
      let vq := Virtqueue_new qs (va_descriptor addr) (va_avail addr) (va_used addr) in
      set_slot_vq (set_avail_base (slot_pending_avail_base s) vq) s
  | None => s
  end.

Record ServerOn `{Host} (Hp : Type) := mkServer {
  srv_conn : Z;
  srv_mem : option GuestMemory;
  srv_vrings : list VringSlot;
  srv_session : Session;
  srv_heap : Hp;
}.
#[global] Arguments mkServer {_} {Hp}.
#[global] Arguments srv_conn {_ Hp}.
#[global] Arguments srv_mem {_ Hp}.
#[global] Arguments srv_vrings {_ Hp}.
#[global] Arguments srv_session {_ Hp}.
#[global] Arguments srv_heap {_ Hp}.

(** The server on a memory nobody else touches. *)
Abbreviation Server := (ServerOn Heap).

(** The calls of the event loop: [poll] for input without a timeout, which returns the [revents],
    and reads and writes of the descriptors polled. *)
Class Events `{Host} := {
  sys_poll : list Z → World → (list Z + Z) * World;
  #[global] events_calls :: FdCalls World;
}.

(** Why a loop stops: an error, a regular return, a read that waits, or the iterations it was
    given. *)
Inductive Stop := Failed (e : ProtoError) | Finished | Blocked | OutOfFuel.

Section Signals.
Context `{FdCalls W}.

(** [notify]: one [u64] in the byte order of the host. *)
Definition notify {E} (fd : Z) : M W E unit := λ w, (Ok tt, (sys_write fd (u64_le 1) w).2).

Fixpoint drain_fd (fuel : nat) (fd : Z) : M W Stop unit :=
  match fuel with
  | O => throw OutOfFuel
  | S fuel => λ w,
      if read_waits fd w then (Err Blocked, w)
      else
        let '(rc, w) := sys_read fd 256 w in
        match rc with
        | inr _ => (Ok tt, w)
        | inl n => if (n =? 0)%nat || (n <? 256)%nat then (Ok tt, w) else drain_fd fuel fd w
        end
  end.
End Signals.

Section Operations.
Context `{Libc, Build, HashOrder, Host, !Mmap, !Events, !Socket World, Ram Hp}.

#[local] Abbreviation Server := (ServerOn Hp).
Abbreviation Srv := (M Server ProtoError).

Definition Server_new (conn : Z) (session : Session) (h : Hp) : Server :=
  mkServer conn None (replicate NUM_QUEUES VringSlot_default) session h.

Definition set_mem (mem : GuestMemory) (s : Server) : Server :=
  mkServer (srv_conn s) (Some mem) (srv_vrings s) (srv_session s) (srv_heap s).
Definition set_vrings (v : list VringSlot) (s : Server) : Server :=
  mkServer (srv_conn s) (srv_mem s) v (srv_session s) (srv_heap s).
Definition set_session (x : Session) (s : Server) : Server :=
  mkServer (srv_conn s) (srv_mem s) (srv_vrings s) x (srv_heap s).
Definition set_heap (h : Hp) (s : Server) : Server :=
  mkServer (srv_conn s) (srv_mem s) (srv_vrings s) (srv_session s) h.
Definition srv_fs (s : Server) : PassthroughFs := s_fs (srv_session s).
Definition set_fs (fs : PassthroughFs) (s : Server) : Server :=
  set_session (mkSession _ fs (readdir_cache (srv_session s))) s.
Definition srv_world (s : Server) : World := world (srv_fs s).
Definition set_world (w : World) (s : Server) : Server :=
  set_fs (mkFs _ w (inodes (srv_fs s)) (fhandles (srv_fs s))) s.

Definition on_heap {A} (m : M Hp VirtqueueError A) : Srv A :=
  zoom srv_heap set_heap (map_errM PVirtqueue m).
Definition on_world {E A} (m : M World E A) : M Server E A := zoom srv_world set_world m.
Definition on_fs {A} (m : M PassthroughFs FsError A) : M Server FsError A := zoom srv_fs set_fs m.
Definition on_session {A} (m : M Session ProtoError A) : Srv A := zoom srv_session set_session m.

(** ** Requests *)

Definition dispatch_generic (mem : GuestMemory) (chain : DescChain) : Srv Z :=
  request ← on_heap (gather_readable mem chain);
  reply ← on_session (Session_handle request);
  match reply with
  | ReplyBytes bytes => on_heap (scatter_writable mem chain bytes)
  | ReplyNone => mret 0
  end.

(** What the kernel reads from the buffers of a vectored write. *)
Fixpoint load_iovecs (iov : list slice) : M Hp VirtqueueError (list bytes) :=
  match iov with
  | [] => mret []
  | s :: iov => b ← load s; bs ← load_iovecs iov; mret (b :: bs)
  end.

(** What the kernel does with the bytes of a vectored read: it fills the buffers in order. *)
Definition fill_iovecs (iov : list slice) (data : bytes) : M Hp VirtqueueError unit :=
  store_at (iovs_cells iov) data.

(** The value [None] makes the caller fall back; [Some(Err(e))] is the error. *)
Definition try_write_zero_copy (mem : GuestMemory) (chain : DescChain) (header_prefix : bytes)
    : Srv (option Z) :=
  match InHeader_from_bytes header_prefix, WriteIn_from_bytes (InHeader_body header_prefix) with
  | Ok hdr, Ok (w, _) =>
      iov ← on_heap (iovecs_from mem (c_readable chain) (Z.of_nat REQUEST_HEADER_LEN) (wi_size w) false);
      data ← on_heap (load_iovecs iov);
      r ← attempt (on_fs (PassthroughFs_write_vectored (wi_fh w) (wi_offset w) data));
      let wire_reply :=
        match r with
        | Ok written => OutHeader_reply (ih_unique hdr) 0 (write_out (as_u32 (Z.of_nat written)))
        | Err e => OutHeader_error_for (ih_unique hdr) (FsError_errno e)
        | Panic => []
        end in
      n ← on_heap (scatter_writable mem chain wire_reply);
      mret (Some n)
  | Panic, _ | Ok _, Panic => panic
  | _, _ => mret None
  end.

(** [chain.writable.iter().map(|&(_, len)| len).sum()]. *)
Fixpoint sum_lens {E} (segs : list (Z * Z)) (acc : Z) : outcome E Z :=
  match segs with
  | [] => Ok acc
  | (_, len) :: segs => acc ← uadd 64 acc len; sum_lens segs acc
  end.

Definition try_read_zero_copy (mem : GuestMemory) (chain : DescChain) (header_prefix : bytes)
    : Srv (option Z) :=
  match InHeader_from_bytes header_prefix, ReadIn_from_bytes (InHeader_body header_prefix) with
  | Ok hdr, Ok r =>
      writable_capacity ← lift (sum_lens (c_writable chain) 0);
      let payload_capacity := Z.max 0 (writable_capacity - Z.of_nat OUT_HEADER_LEN) in
      let want := Z.min (ri_size r) payload_capacity in
      iov ← on_heap (iovecs_from mem (c_writable chain) (Z.of_nat OUT_HEADER_LEN) want true);
      res ← attempt (on_fs (PassthroughFs_read_vectored (ri_fh r) (ri_offset r)
                              ((λ s, Z.to_nat (sl_len s)) <$> iov)));
      match res with
      | Ok data =>
          _ ← on_heap (fill_iovecs iov data);
          let n := Z.of_nat (length data) in
          let header := OutHeader_success_header_only (ih_unique hdr) (as_u32 (Z.of_nat OUT_HEADER_LEN + n)) in
          header_written ← on_heap (scatter_writable mem chain header);
          total ← lift (uadd 32 header_written (as_u32 n));
          mret (Some total)
      | Err e =>
          n ← on_heap (scatter_writable mem chain (OutHeader_error_for (ih_unique hdr) (FsError_errno e)));
          mret (Some n)
      | Panic => panic
      end
  | Panic, _ | Ok _, Panic => panic
  | _, _ => mret None
  end.

(** The opcode of the request: bytes 4 to 8, or none. *)
Definition request_opcode (header_prefix : bytes) : Opcode :=
  match get_range header_prefix 4 8 with
  | Some b => Opcode_from (le_combine b)
  | None => OpUnknown 0
  end.

Definition or_generic (mem : GuestMemory) (chain : DescChain) (m : Srv (option Z)) : Srv Z :=
  r ← m;
  match r with
  | Some written => mret written
  | None => dispatch_generic mem chain
  end.

(** The body of the loop of [process_vring], for the head popped. *)
Definition serve_request (mem : GuestMemory) (vq : Virtqueue) (head : Z) : Srv unit :=
  chain ← on_heap (read_chain mem vq head);
  header_prefix ← on_heap (gather_readable_prefix mem chain REQUEST_HEADER_LEN);
  written ←
    match request_opcode header_prefix with
    | OpWrite => or_generic mem chain (try_write_zero_copy mem chain header_prefix)
    | OpRead => or_generic mem chain (try_read_zero_copy mem chain header_prefix)
    | _ => dispatch_generic mem chain
    end;
  on_heap (push_used mem vq head written).

(** ** The queue loop *)

Definition update_slot (idx : nat) (f : VringSlot → VringSlot) (s : Server) : Server :=
  set_vrings (alter f idx (srv_vrings s)) s.

(** One iteration of the [while let]: pop a head and serve its request; whether there was one. *)
Definition process_one (mem : GuestMemory) (idx : nat) (vq : Virtqueue) : Srv bool :=
  r ← on_heap (pop_avail mem vq);
  let '(popped, vq) := r in
  match popped with
  | None => mret false
  | Some head =>
      _ ← modify (update_slot idx (set_slot_vq vq));
      _ ← serve_request mem vq head;
      mret true
  end.

Definition slot_queue (idx : nat) (s : Server) : option Virtqueue := srv_vrings s !! idx ≫= slot_vq.

(** [processed] is an [i32]. *)
Fixpoint process_loop (fuel : nat) (mem : GuestMemory) (idx : nat) (processed : Z) : M Server Stop Z :=
  match fuel with
  | O => throw OutOfFuel
  | S fuel =>
      o ← gets (slot_queue idx);
      match o with
      | None => panic
      | Some vq =>
          more ← map_errM Failed (process_one mem idx vq);
          if more : bool then
            processed ← lift (iadd 32 processed 1);
            process_loop fuel mem idx processed
          else mret processed
      end
  end.

Definition process_vring (fuel : nat) (idx : nat) : M Server Stop unit :=
  mem ← gets srv_mem;
  vrings ← gets srv_vrings;
  match mem with
  | None => mret tt
  | Some mem =>
      match vrings !! idx with
      | None => panic
      | Some slot =>
          match slot_vq slot with
          | None => mret tt
          | Some _ =>
              processed ← process_loop fuel mem idx 0;
              if 0 <? processed then
                match slot_call_fd slot with
                | Some call_fd => on_world (notify call_fd)
                | None => mret tt
                end
              else mret tt
          end
      end
  end.

(** ** Control messages *)

Definition Server_reply (request : Request) (body : bytes) : Srv unit :=
  conn ← gets srv_conn;
  on_world (Connection_send conn (MsgHeader_reply request (as_u32 (Z.of_nat (length body)))) body []).

(** [take_fd]: the descriptor taken, and what is left. *)
Definition take_fd (fds : list Z) (no_fd : bool) : option Z * list Z :=
  match fds with
  | fd :: rest => if no_fd then (None, fds) else (Some fd, rest)
  | [] => (None, [])
  end.

(** [impl Drop for OwnedFd], for an optional one. *)
Definition drop_fd {E} (o : option Z) : M Server E unit :=
  match o with
  | Some fd => on_world (λ w, (Ok tt, sys_close fd w))
  | None => mret tt
  end.

Definition handle_set_mem_table (payload : bytes) (fds : list Z) : Srv unit :=
  rs ← lift (MemoryRegions_from_bytes payload);
  if (length rs =? length fds)%nat then
    mem ← on_world (map_errM PIo (map_regions rs fds));
    old ← gets srv_mem;
    _ ← modify (set_mem mem);
    match old with
    | Some old => on_world (λ w, (Ok tt, GuestMemory_drop old w))
    | None => mret tt
    end
  else throw Truncated.

Definition handle_set_vring_num (payload : bytes) : Srv unit :=
  s ← lift (VringState_from_bytes payload);
  modify (update_slot (Z.to_nat (vs_index s)) (set_slot_queue_size (as_u16 (vs_num s)))).

Definition handle_set_vring_addr (payload : bytes) : Srv unit :=
  a ← lift (VringAddr_from_bytes payload);
  modify (update_slot (Z.to_nat (va_index a)) (VringSlot_maybe_build a)).

Definition handle_set_vring_base (payload : bytes) : Srv unit :=
  s ← lift (VringState_from_bytes payload);
  modify (update_slot (Z.to_nat (vs_index s)) (set_slot_base (as_u16 (vs_num s)))).

Definition handle_get_vring_base (payload : bytes) : Srv unit :=
  s ← lift (VringState_from_bytes payload);
  vq ← gets (slot_queue (Z.to_nat (vs_index s)));
  let base := default 0 (avail_base <$> vq) in
  Server_reply GetVringBase (VringState_to_bytes (mkVringState (vs_index s) base)).

Definition handle_set_vring_kick (payload : bytes) (fds : list Z) : Srv unit :=
  p ← lift (VringFdPayload_from_bytes payload);
  vrings ← gets srv_vrings;
  match vrings !! Z.to_nat (vf_index p) with
  | None => mret tt
  | Some slot =>
      let '(fd, _) := take_fd fds (vf_no_fd p) in
      _ ← modify (update_slot (Z.to_nat (vf_index p)) (set_slot_kick_fd fd));
      drop_fd (slot_kick_fd slot)
  end.

Definition handle_set_vring_call (payload : bytes) (fds : list Z) : Srv unit :=
  p ← lift (VringFdPayload_from_bytes payload);
  vrings ← gets srv_vrings;
  match vrings !! Z.to_nat (vf_index p) with
  | None => mret tt
  | Some slot =>
      let '(fd, _) := take_fd fds (vf_no_fd p) in
      _ ← modify (update_slot (Z.to_nat (vf_index p)) (set_slot_call_fd fd));
      drop_fd (slot_call_fd slot)
  end.

(** The descriptor is dropped at once. *)
Definition handle_set_vring_err (payload : bytes) (fds : list Z) : Srv unit :=
  p ← lift (VringFdPayload_from_bytes payload);
  let '(fd, _) := take_fd fds (vf_no_fd p) in
  drop_fd fd.

Definition handle_set_vring_enable (payload : bytes) : Srv unit :=
  s ← lift (VringState_from_bytes payload);
  modify (update_slot (Z.to_nat (vs_index s)) (set_slot_enabled (negb (vs_num s =? 0)))).

Definition handle_request (request : Request) (payload : bytes) (fds : list Z) : Srv unit :=
  match request with
  | GetFeatures => Server_reply request (U64Payload_to_bytes VIRTIO_FEATURES)
  | SetFeatures => _ ← lift (U64Payload_from_bytes payload); mret tt
  | SetOwner | ResetOwner => mret tt
  | GetProtocolFeatures => Server_reply request (U64Payload_to_bytes PROTOCOL_FEATURES)
  | SetProtocolFeatures => mret tt
  | GetQueueNum => Server_reply request (U64Payload_to_bytes (Z.of_nat NUM_QUEUES))
  | SetMemTable => handle_set_mem_table payload fds
  | SetVringNum => handle_set_vring_num payload
  | SetVringAddr => handle_set_vring_addr payload
  | SetVringBase => handle_set_vring_base payload
  | GetVringBase => handle_get_vring_base payload
  | SetVringKick => handle_set_vring_kick payload fds
  | SetVringCall => handle_set_vring_call payload fds
  | SetVringErr => handle_set_vring_err payload fds
  | SetVringEnable => handle_set_vring_enable payload
  | SetLogBase | SetLogFd => mret tt
  end.

Definition handle_one_message : Srv unit :=
  conn ← gets srv_conn;
  m ← on_world (Connection_recv conn);
  let '(header, payload, fds) := m in
  match MsgHeader_request header with
  | Ok request => handle_request request payload fds
  | Err _ => mret tt
  | Panic => panic
  end.

(** ** The event loop *)

Definition POLLIN : Z := 1.
Definition POLLERR : Z := 8.
Definition POLLHUP : Z := 16.

(** The enabled queues with a kick descriptor: their indices and descriptors. *)
Definition kick_slots (vrings : list VringSlot) : list (nat * Z) :=
  omap (λ p, if slot_enabled p.2 then (λ fd, (p.1, fd)) <$> slot_kick_fd p.2 else None)
       (zip (seq 0 (length vrings)) vrings).

(** The [for] loop over the queues polled. *)
Fixpoint serve_kicks (fuel : nat) (kicks : list ((nat * Z) * Z)) : M Server Stop unit :=
  match kicks with
  | [] => mret tt
  | ((idx, fd), revents) :: kicks =>
      _ ← (if negb (Z.land revents POLLIN =? 0) then
             _ ← on_world (drain_fd fuel fd);
             process_vring fuel idx
           else mret tt);
      serve_kicks fuel kicks
  end.

Definition run_iteration (fuel : nat) : M Server Stop unit :=
  conn ← gets srv_conn;
  slots ← gets (λ s, kick_slots (srv_vrings s));
  polled ← on_world (λ w, let '(r, w) := sys_poll (conn :: slots.*2) w in (Ok r, w));
  match polled with
  | inr e => if e =? errno_val EINTR then mret tt else throw (Failed (PIo (Os e)))
  | inl revents =>
      let revents0 := nth 0 revents 0 in
      _ ← (if negb (Z.land revents0 POLLIN =? 0) then
             r ← attempt handle_one_message;
             match r with
             | Ok _ => mret tt
             | Err Disconnected => throw Finished
             | Err e => throw (Failed e)
             | Panic => panic
             end
           else mret tt);
      if negb (Z.land revents0 (Z.lor POLLHUP POLLERR) =? 0) then throw Finished
      else serve_kicks fuel (zip slots (drop 1 revents))
  end.

(** The loop; it returns only through [Finished] or a failure. *)
Fixpoint run (fuel : nat) : M Server Stop unit :=
  match fuel with
  | O => throw OutOfFuel
  | S fuel => _ ← run_iteration fuel; run fuel
  end.
End Operations.
