(* ===== verification/ServerProps.v ===== *)
(** * Properties of the server

    Theorems about [Server]: the zero-copy paths are invisible, the queue loop answers what the
    guest published, and the control messages keep the queues well formed. *)

From S2P Require Import Prelude Libc Errors Bytes Attr Wire Inode Handle Host ToyHost Passthrough.
From S2P Require Import FsProps Dispatch DispatchProps VhostMsg Memory Virtqueue VirtqueueProps Doorbell Connection Server.
From stdpp Require Import list.
Local Open Scope Z_scope.

(** * Lemmas *)

Lemma field_take n off k buf : (off + n ≤ k)%nat → field n off (take k buf) = field n off buf.
Proof.
  intros Hk. unfold field.  rewrite skipn_firstn_comm, firstn_firstn. do 2 f_equal. lia.
Qed.

(** ** Vectored buffers *)

Lemma load_iovecs_eq iov : ∀ h b,
  load_cells (iovs_cells iov) h = Some b →
  ∃ l, load_iovecs iov h = (Ok l, h) ∧ concat l = b ∧ length l = length iov.
Proof.
  induction iov as [|s iov IH]; intros h b; simpl.
  - intros [= <-]. by exists [].
  - change (iovs_cells (s :: iov)) with (slice_cells s ++ iovs_cells iov). rewrite load_cells_app.
    destruct (load_cells (slice_cells s) h) as [b1|] eqn:H1; [|done]. simpl.
    destruct (load_cells (iovs_cells iov) h) as [b2|] eqn:H2; [|done]. intros [= <-].
    destruct (IH h b2 H2) as (l & Hl & Hc & Hn). exists (b1 :: l).
    unfold mbind, M_bind. rewrite (load_run _ _ _ H1), Hl. simpl. by rewrite Hc, Hn.
Qed.

Lemma length_iovs_cells iov :
  length (iovs_cells iov) = sum_list ((λ s, Z.to_nat (sl_len s)) <$> iov).
Proof.
  induction iov as [|s iov IH]; [done|].
  change (iovs_cells (s :: iov)) with (slice_cells s ++ iovs_cells iov).
  rewrite length_app, IH. unfold slice_cells. by rewrite length_cells.
Qed.

Lemma store_cells_take cs bs : ∀ h, store_cells (take (length bs) cs) bs h = store_cells cs bs h.
Proof.
  revert bs. induction cs as [|c cs IH]; intros [|b bs] h; by simpl.
Qed.

Lemma sum_lens_eq `{Build} {E} segs : ∀ acc,
  segs_ok segs → 0 ≤ acc → acc + segs_len segs < 2 ^ 64 →
  sum_lens (E := E) segs acc = Ok (acc + segs_len segs).
Proof.
  induction segs as [|[a len] segs IH]; intros acc Hok Ha Hs; simpl in *; [by rewrite Z.add_0_r|].
  apply Forall_cons in Hok as [Hl Hok]. simpl in Hl.
  assert (0 ≤ segs_len segs).
  { clear -Hok. induction Hok as [|[]]; simpl in *; [lia|uint]. }
  rewrite uadd_in by uint. simpl. rewrite IH by (done || uint). f_equal. lia.
Qed.

Lemma segs_len_bound segs : segs_ok segs → 0 ≤ segs_len segs ≤ Z.of_nat (length segs) * 2 ^ 32.
Proof. induction 1 as [|[] ? ? ? IH]; simpl in *; [lia|]. unfold is_uint in *. lia. Qed.

(** ** Running parts of the state *)

Section Parts.
Context `{Libc, Build, HashOrder, Host}.

Lemma set_heap_same (s : Server) : set_heap (srv_heap s) s = s.
Proof. by destruct s. Qed.

Lemma on_heap_ok {A} (m : M Heap VirtqueueError A) s a h' :
  m (srv_heap s) = (Ok a, h') → on_heap m s = (Ok a, set_heap h' s).
Proof. intros Hm. unfold on_heap, zoom, map_errM. by rewrite Hm. Qed.

Lemma on_heap_read {A} (m : M Heap VirtqueueError A) s a :
  m (srv_heap s) = (Ok a, srv_heap s) → on_heap m s = (Ok a, s).
Proof. intros Hm. rewrite (on_heap_ok _ _ _ _ Hm). by rewrite set_heap_same. Qed.
End Parts.

(** ** The zero-copy paths *)

Section ZeroCopy.
Context `{Libc, Build, HashOrder, HL : HostLaws, !VectoredLaws}.
Context (mem : GuestMemory) (chain : DescChain) (cs ws : list ptr) (bs : bytes).

(** A chain whose buffers are mapped, [cs] and [ws] the addresses of its readable and writable
    bytes, and [bs] the request in the readable ones. *)
Record chain_mapped (h : Heap) : Prop := {
  cm_mem : mem_ok h mem;
  cm_readable : segs_ok (c_readable chain);
  cm_writable : segs_ok (c_writable chain);
  cm_cs : segs_cells mem (c_readable chain) = Some cs;
  cm_ws : segs_cells mem (c_writable chain) = Some ws;
  cm_bs : load_cells cs h = Some bs;
  cm_slice : slice_ok bs;
}.

Context (s : Server) (Hc : chain_mapped (srv_heap s)).

Lemma body_prefix : InHeader_body (take REQUEST_HEADER_LEN bs) = take 40 (InHeader_body bs).
Proof.
  unfold InHeader_body. rewrite skipn_firstn_comm, length_take. unfold REQUEST_HEADER_LEN, IN_HEADER_LEN.
  destruct (decide (length bs ≤ 40)%nat).
  - rewrite !drop_ge by lia. by rewrite !take_nil.
  - rewrite !Nat.min_l by lia. done.
Qed.

Lemma slice_ok_take k : slice_ok (take k bs).
Proof. pose proof (cm_slice _ Hc). unfold slice_ok in *. rewrite length_take. lia. Qed.

Lemma slice_ok_body b : slice_ok b → slice_ok (InHeader_body b).
Proof. unfold slice_ok, InHeader_body. rewrite length_drop. lia. Qed.

Lemma length_body b : length (InHeader_body b) = (length b - 40)%nat.
Proof. unfold InHeader_body, IN_HEADER_LEN. rewrite length_drop. lia. Qed.

Lemma InHeader_prefix :
  InHeader_from_bytes (take REQUEST_HEADER_LEN bs) = InHeader_from_bytes bs.
Proof.
  rewrite !InHeader_from_bytes_eq; [|apply (cm_slice _ Hc)|apply slice_ok_take].
  rewrite !field_take by (unfold REQUEST_HEADER_LEN, IN_HEADER_LEN; lia).
  rewrite length_take. unfold REQUEST_HEADER_LEN, IN_HEADER_LEN.
  repeat case_decide; (done || lia).
Qed.

Lemma ReadIn_prefix :
  ReadIn_from_bytes (InHeader_body (take REQUEST_HEADER_LEN bs)) = ReadIn_from_bytes (InHeader_body bs).
Proof.
  rewrite body_prefix, !ReadIn_from_bytes_eq.
  - rewrite !field_take, length_take by lia. repeat case_decide; (done || lia).
  - apply slice_ok_body, (cm_slice _ Hc).
  - rewrite <- body_prefix. apply slice_ok_body, slice_ok_take.
Qed.

Lemma WriteIn_prefix :
  WriteIn_from_bytes (InHeader_body (take REQUEST_HEADER_LEN bs)) =
    match WriteIn_from_bytes (InHeader_body bs) with
    | Ok (w, _) => Ok (w, [])
    | r => r
    end.
Proof.
  rewrite body_prefix, !WriteIn_from_bytes_eq.
  - rewrite !field_take, length_take by lia. repeat case_decide; (done || lia || idtac).
    f_equal. f_equal. apply drop_ge. rewrite length_take. lia.
  - apply slice_ok_body, (cm_slice _ Hc).
  - rewrite <- body_prefix. apply slice_ok_body, slice_ok_take.
Qed.

Lemma gather_run : on_heap (gather_readable mem chain) s = (Ok bs, s).
Proof.
  apply on_heap_read. unfold gather_readable.
  by rewrite (gather_eq _ _ _ [] cs bs (cm_cs _ Hc) (cm_bs _ Hc)).
Qed.

Lemma prefix_run k : on_heap (gather_readable_prefix mem chain k) s = (Ok (take k bs), s).
Proof.
  apply on_heap_read. unfold gather_readable_prefix.
  rewrite (gather_prefix_eq _ _ (cm_mem _ Hc) _ k [] cs bs (cm_readable _ Hc) (cm_cs _ Hc) (cm_bs _ Hc)).
  simpl. by rewrite Nat.sub_0_r.
Qed.

(** What the generic path does with a WRITE. *)
Lemma generic_write hdr w :
  InHeader_from_bytes bs = Ok hdr → Opcode_from (ih_opcode hdr) = OpWrite →
  WriteIn_from_bytes (InHeader_body bs) = Ok (w, drop REQUEST_HEADER_LEN bs) → 0 ≤ wi_size w →
  dispatch_generic mem chain s =
    (r ← attempt (on_fs (PassthroughFs_write (wi_fh w) (wi_offset w)
                           (take (Z.to_nat (wi_size w)) (drop REQUEST_HEADER_LEN bs))));
     on_heap (scatter_writable mem chain
       match r with
       | Ok written => OutHeader_reply (ih_unique hdr) 0 (write_out (as_u32 (Z.of_nat written)))
       | Err e => OutHeader_error_for (ih_unique hdr) (FsError_errno e)
       | Panic => []
       end)) s.
Proof.
  intros Hh Hop Hw Hs. unfold dispatch_generic, mbind, M_bind. rewrite gather_run.
  unfold on_session, zoom, Session_handle. rewrite Hh, Hop. unfold handle_opcode, returned, handle_write.
  unfold try_parse, lift, mbind, M_bind. rewrite Hw. cbn [map_err].
  assert (take (Z.to_nat (Z.min (wi_size w) (Z.of_nat (length (drop REQUEST_HEADER_LEN bs)))))
            (drop REQUEST_HEADER_LEN bs)
          = take (Z.to_nat (wi_size w)) (drop REQUEST_HEADER_LEN bs)) as ->.
  { set (d := drop _ bs). destruct (Z.leb_spec (wi_size w) (Z.of_nat (length d))).
    - f_equal. lia.
    - rewrite !take_ge by lia. done. }
  unfold try_fs, zoom, map_errM, attempt, on_fs, zoom, srv_fs.
  by destruct (PassthroughFs_write _ _ _ _) as [[n|e|] fs'].
Qed.

Lemma write_equiv hdr :
  InHeader_from_bytes bs = Ok hdr → Opcode_from (ih_opcode hdr) = OpWrite →
  0 < field 4 16 (InHeader_body bs) → (REQUEST_HEADER_LEN < length bs)%nat →
  or_generic mem chain (try_write_zero_copy mem chain (take REQUEST_HEADER_LEN bs)) s
  = dispatch_generic mem chain s.
Proof.
  intros Hh Hop Hsize Hlen.
  pose proof (WriteIn_from_bytes_eq (InHeader_body bs) (slice_ok_body _ (cm_slice _ Hc))) as Hw.
  rewrite length_body in Hw. unfold REQUEST_HEADER_LEN, IN_HEADER_LEN in Hlen.
  rewrite decide_True in Hw by lia.
  assert (drop 40 (InHeader_body bs) = drop REQUEST_HEADER_LEN bs) as Hd.
  { unfold InHeader_body, IN_HEADER_LEN. rewrite drop_drop, Nat.min_l by lia. done. }
  rewrite Hd in Hw. set (w := mkWriteIn _ _ _) in Hw.
  assert (0 < wi_size w) as Hsz by done. clearbody w.
  rewrite (generic_write hdr w Hh Hop Hw) by lia.
  unfold or_generic, try_write_zero_copy. rewrite InHeader_prefix, WriteIn_prefix, Hh, Hw.
  destruct (iovecs_eq (srv_heap s) mem (cm_mem _ Hc) (c_readable chain) false
    (Z.of_nat REQUEST_HEADER_LEN) (wi_size w) [] cs (cm_readable _ Hc) (cm_cs _ Hc))
    as (iov & Hiov & Hcells & _); [lia..|]. rewrite Nat2Z.id in Hcells.
  destruct (load_iovecs_eq iov (srv_heap s) (take (Z.to_nat (wi_size w)) (drop REQUEST_HEADER_LEN bs)))
    as (l & Hl & Hcat & Hn).
  { rewrite Hcells. apply load_cells_take, load_cells_drop, (cm_bs _ Hc). }
  unfold mbind, M_bind, iovecs_from. rewrite (on_heap_read _ _ _ Hiov). cbn [app].
  rewrite (on_heap_read _ _ _ Hl).
  assert (l ≠ []) as Hne.
  { intros ->. simpl in Hcat. symmetry in Hcat. apply (f_equal length) in Hcat.
    rewrite length_take, length_drop in Hcat. unfold REQUEST_HEADER_LEN, IN_HEADER_LEN in *.
    simpl in Hcat. lia. }
  assert (∀ fs, PassthroughFs_write_vectored (wi_fh w) (wi_offset w) l fs =
                PassthroughFs_write (wi_fh w) (wi_offset w)
                  (take (Z.to_nat (wi_size w)) (drop REQUEST_HEADER_LEN bs)) fs) as Hfs.
  { intros fs. unfold PassthroughFs_write_vectored, PassthroughFs_write, mbind, M_bind.
    destruct (with_file _ fs) as [[fd|e|] fs']; [|done..]. unfold syscall.
    by rewrite law_pwritev_pwrite, Hcat. }
  unfold attempt, on_fs, zoom. rewrite Hfs. destruct (PassthroughFs_write _ _ _ _) as [[n|e|] fs']; simpl; [..|done];
    by destruct (on_heap _ _) as [[?|?|] ?].
Qed.

(** What the generic path does with a READ. *)
Lemma generic_read hdr r :
  InHeader_from_bytes bs = Ok hdr → Opcode_from (ih_opcode hdr) = OpRead →
  ReadIn_from_bytes (InHeader_body bs) = Ok r →
  dispatch_generic mem chain s =
    (res ← attempt (on_fs (PassthroughFs_read (ri_fh r) (ri_offset r) (Z.to_nat (ri_size r))));
     on_heap (scatter_writable mem chain
       match res with
       | Ok data => OutHeader_reply (ih_unique hdr) 0 data
       | Err e => OutHeader_error_for (ih_unique hdr) (FsError_errno e)
       | Panic => []
       end)) s.
Proof.
  intros Hh Hop Hr. unfold dispatch_generic, mbind, M_bind. rewrite gather_run.
  unfold on_session, zoom, Session_handle. rewrite Hh, Hop. unfold handle_opcode, returned, handle_read.
  unfold try_parse, lift, mbind, M_bind. rewrite Hr. cbn [map_err].
  unfold try_fs, zoom, map_errM, attempt, on_fs, zoom, srv_fs.
  by destruct (PassthroughFs_read _ _ _ _) as [[n|e|] fs'].
Qed.

(** A reply stored in two parts: the payload first, then the header in front of it. *)
Lemma store_header_last hdr data h k :
  length hdr = OUT_HEADER_LEN → (length data ≤ k)%nat → (OUT_HEADER_LEN + k ≤ length ws)%nat → NoDup ws →
  store_cells (take OUT_HEADER_LEN ws) hdr (store_cells (take k (drop OUT_HEADER_LEN ws)) data h)
  = store_cells (take (length (hdr ++ data)) ws) (hdr ++ data) h.
Proof.
  intros Hh Hd Hk Hnd. rewrite store_cells_comm.
  2:{ intros c Hc1 Hc2. rewrite <- (take_drop OUT_HEADER_LEN ws) in Hnd.
      apply NoDup_app in Hnd as (_ & Hnd & _). apply (Hnd c Hc1).
      rewrite <- (take_drop k (drop OUT_HEADER_LEN ws)). apply elem_of_app. by left. }
  rewrite store_cells_take. rewrite <- (take_drop OUT_HEADER_LEN ws) at 3.
  rewrite store_cells_app by (rewrite length_take; lia).
  rewrite <- (store_cells_take (take k _)), <- (store_cells_take (drop _ _)), take_take. f_equal. f_equal. lia.
Qed.

Lemma success_header unique data :
  OutHeader_reply unique 0 data =
    OutHeader_success_header_only unique (as_u32 (Z.of_nat OUT_HEADER_LEN + Z.of_nat (length data))) ++ data.
Proof.
  rewrite OutHeader_reply_unfold. unfold OutHeader_success_header_only. writes. simpl.
  do 3 f_equal. unfold OUT_HEADER_LEN. lia.
Qed.

Lemma length_success_header unique n : length (OutHeader_success_header_only unique n) = OUT_HEADER_LEN.
Proof. unfold OutHeader_success_header_only. writes. len. Qed.

Lemma scatter_run s' reply :
  mem_ok (srv_heap s') mem → Z.of_nat (min (length reply) (length ws)) < 2 ^ 32 →
  on_heap (scatter_writable mem chain reply) s' =
    (Ok (Z.of_nat (min (length reply) (length ws))),
     set_heap (store_cells (take (length reply) ws) (take (length ws) reply) (srv_heap s')) s').
Proof.
  intros Hm Hr. erewrite on_heap_ok; [done|]. unfold scatter_writable.
  rewrite (scatter_eq mem _ (srv_heap s') reply 0 ws Hm (cm_writable _ Hc) (cm_ws _ Hc)) by lia. done.
Qed.

(** The two transfers of a READ agree. *)
Lemma read_vectored_eq fh off size iov fs :
  iovs_cells iov = take (Z.to_nat size) (drop OUT_HEADER_LEN ws) → 0 < size →
  Z.of_nat OUT_HEADER_LEN + size ≤ Z.of_nat (length ws) →
  PassthroughFs_read_vectored fh off ((λ s, Z.to_nat (sl_len s)) <$> iov) fs
  = PassthroughFs_read fh off (Z.to_nat size) fs.
Proof.
  intros Hcells Hs Hcap. pose proof (length_iovs_cells iov) as Hl. rewrite Hcells, length_take, length_drop in Hl.
  unfold PassthroughFs_read_vectored, PassthroughFs_read, mbind, M_bind.
  destruct (with_file _ fs) as [[fd|e|] fs']; [|done..]. unfold syscall.
  rewrite law_preadv_pread.
  - rewrite <- Hl, Nat.min_l by lia. done.
  - intros He. rewrite He in Hl. simpl in Hl. unfold OUT_HEADER_LEN in *. lia.
Qed.

Lemma read_length fh off n fs data fs' :
  PassthroughFs_read fh off n fs = (Ok data, fs') → (length data ≤ n)%nat.
Proof.
  unfold PassthroughFs_read, mbind, M_bind. destruct (with_file _ fs) as [[fd|e|] fs1]; [|done..].
  unfold syscall. destruct (sys_pread _ _ _ _) as [[b|e] w] eqn:Hp; [|done]. intros [= <- <-].
  apply (law_pread_length fd n (as_i64 off) (world fs1)). by rewrite Hp.
Qed.

Lemma read_equiv hdr :
  let size := field 4 16 (InHeader_body bs) in
  InHeader_from_bytes bs = Ok hdr → Opcode_from (ih_opcode hdr) = OpRead → (60 ≤ length bs)%nat →
  NoDup ws → 0 < size → Z.of_nat OUT_HEADER_LEN + size ≤ Z.of_nat (length ws) →
  (length (c_writable chain) ≤ MAX_CHAIN_LEN)%nat → Z.of_nat OUT_HEADER_LEN + size < 2 ^ 32 →
  or_generic mem chain (try_read_zero_copy mem chain (take REQUEST_HEADER_LEN bs)) s
  = dispatch_generic mem chain s.
Proof.
  intros size Hh Hop Hlen Hnd Hsize Hcap Hsegs H32.
  pose proof (ReadIn_from_bytes_eq (InHeader_body bs) (slice_ok_body _ (cm_slice _ Hc))) as Hr.
  rewrite length_body, decide_True in Hr by lia. set (r := mkReadIn _ _ _) in Hr.
  assert (ri_size r = size) as Hrs by done. clearbody r size.
  rewrite (generic_read hdr r Hh Hop Hr). unfold or_generic, try_read_zero_copy.
  rewrite InHeader_prefix, ReadIn_prefix, Hh, Hr.
  pose proof (length_segs_cells mem _ _ (cm_writable _ Hc) (cm_ws _ Hc)) as Hws.
  pose proof (segs_len_bound _ (cm_writable _ Hc)) as Hsum. unfold MAX_CHAIN_LEN in Hsegs.
  unfold lift, mbind, M_bind. rewrite sum_lens_eq by (apply Hc || lia). rewrite Z.add_0_l, Hrs.
  assert (Z.min size (Z.max 0 (segs_len (c_writable chain) - Z.of_nat OUT_HEADER_LEN)) = size) as -> by lia.
  destruct (iovecs_eq (srv_heap s) mem (cm_mem _ Hc) (c_writable chain) true
    (Z.of_nat OUT_HEADER_LEN) size [] ws (cm_writable _ Hc) (cm_ws _ Hc)) as (iov & Hiov & Hcells & _); [lia..|].
  rewrite Nat2Z.id in Hcells. unfold iovecs_from. rewrite (on_heap_read _ _ _ Hiov). cbn [app].
  unfold attempt, on_fs, zoom. rewrite (read_vectored_eq _ _ size) by done.
  destruct (PassthroughFs_read _ _ _ _) as [[data|e|] fs'] eqn:Hread; [| |done].
  2:{ by destruct (on_heap _ _) as [[?|?|] ?]. }
  apply read_length in Hread.
  assert (on_heap (fill_iovecs iov data) (set_fs fs' s) =
          (Ok tt, set_heap (store_cells (take (Z.to_nat size) (drop OUT_HEADER_LEN ws)) data (srv_heap s)) (set_fs fs' s)))
    as ->.
  { apply on_heap_ok. unfold fill_iovecs. rewrite Hcells.
    destruct (segs_cells_backed _ _ (cm_mem _ Hc) _ _ (cm_ws _ Hc)) as [all Hall].
    apply store_at_run. eexists. by apply load_cells_take, load_cells_drop. }
  rewrite scatter_run by (first [by apply mem_ok_store, (cm_mem _ Hc)|rewrite length_success_header; unfold OUT_HEADER_LEN; lia]).
  rewrite success_header. rewrite scatter_run.
  2:{ apply (cm_mem _ Hc). }
  2:{ rewrite length_app, length_success_header. unfold OUT_HEADER_LEN in *. lia. }
  set (header := OutHeader_success_header_only _ _).
  assert (length header = OUT_HEADER_LEN) as Hhl by apply length_success_header. clearbody header.
  rewrite !length_app, Hhl. rewrite (Nat.min_l OUT_HEADER_LEN), (Nat.min_l (OUT_HEADER_LEN + _)) by lia.
  unfold as_u32. rewrite wrap_id by uint. rewrite uadd_in by uint.
  rewrite (take_ge header), (take_ge (header ++ data)) by (rewrite ?length_app; lia).
  unfold mret, M_ret. cbv beta iota. f_equal; [f_equal; lia|]. unfold set_heap. cbn [srv_heap srv_conn srv_mem srv_vrings srv_session set_fs set_session].
  f_equal. rewrite store_header_last by (done || lia). by rewrite length_app, Hhl.
Qed.
End ZeroCopy.

(** ** Requests as a whole *)

(** [serve_request] without the zero-copy paths. *)
Definition serve_reference `{Libc, Build, HashOrder, Host} (mem : GuestMemory) (vq : Virtqueue) (head : Z)
    : M Server ProtoError unit :=
  chain ← on_heap (read_chain mem vq head);
  written ← dispatch_generic mem chain;
  on_heap (push_used mem vq head written).

(** A READ or WRITE that moves at least a byte, and a READ that leaves room for what it asks for;
    [ws] are the addresses of the reply's bytes. *)
Definition transfer_fits (req : bytes) (ws : list ptr) : Prop :=
  let size := field 4 56 req in
  match Opcode_from (field 4 4 req) with
  | OpWrite => (80 ≤ length req)%nat → 0 < size ∧ (80 < length req)%nat
  | OpRead => (60 ≤ length req)%nat →
      NoDup ws ∧ 0 < size ∧ 16 + size ≤ Z.of_nat (length ws) ∧ 16 + size < 2 ^ 32
  | _ => True
  end.

(** The buffers of a chain are mapped and hold the request [req]. *)
Definition buffers_mapped (mem : GuestMemory) (h : Heap) (chain : DescChain) (req : bytes) (ws : list ptr)
    : Prop :=
  ∃ cs, segs_cells mem (c_readable chain) = Some cs ∧ segs_cells mem (c_writable chain) = Some ws ∧
    load_cells cs h = Some req ∧ slice_ok req.

Section Requests.
Context `{Libc, Build, HashOrder, HL : HostLaws, !VectoredLaws}.

Lemma field_body n off req : (40 ≤ length req)%nat → field n off (InHeader_body req) = field n (40 + off) req.
Proof.
  intros Hl. unfold field, InHeader_body, IN_HEADER_LEN. rewrite drop_drop, Nat.min_l by lia. done.
Qed.

Lemma request_opcode_eq req :
  request_opcode (take REQUEST_HEADER_LEN req) =
    if decide (8 ≤ length req)%nat then Opcode_from (field 4 4 req) else OpUnknown 0.
Proof.
  unfold request_opcode. rewrite <- (field_take 4 4 REQUEST_HEADER_LEN req) by (vm_compute; lia).
  set (p := take REQUEST_HEADER_LEN req).
  assert (length p = min 80 (length req)) as Hp by apply length_take. clearbody p.
  unfold get_range, field. change (4 <=? 8)%nat with true. cbn [andb]. case_decide.
  - by rewrite (proj2 (Nat.leb_le 8 (length p))) by lia.
  - by rewrite (proj2 (Nat.leb_gt 8 (length p))) by lia.
Qed.

Lemma read_chain_bounds mem vq head h chain :
  mem_ok h mem → desc_addr_ok vq → is_uint 16 head → read_chain mem vq head h = (Ok chain, h) →
  segs_ok (c_readable chain) ∧ segs_ok (c_writable chain) ∧ (length (c_writable chain) ≤ MAX_CHAIN_LEN)%nat.
Proof.
  intros Hm Hd Hh Hrun. apply walk_chain_ok in Hrun as (ds & Hl & Hlen & ->); [|done|destruct Hd; uint|done..].
  pose proof (linked_ok mem vq h head ds Hl) as Hok. simpl. split_and!.
  - by apply segs_ok_readable.
  - by apply segs_ok_writable.
  - unfold writable_of. rewrite length_fmap. etrans; [apply length_filter|done].
Qed.

Lemma read_chain_exact_run mem vq h head :
  mem_ok h mem → desc_addr_ok vq → is_uint 16 head →
  ∃ r, read_chain mem vq head h = (r, h) ∧ r ≠ Panic.
Proof. intros Hm Hd Hh. apply walk_chain_total; [done|destruct Hd; uint|done..]. Qed.

(** The dispatch of [serve_request] is the generic one. *)
Lemma dispatch_equiv mem chain req ws s :
  mem_ok (srv_heap s) mem → segs_ok (c_readable chain) → segs_ok (c_writable chain) →
  (length (c_writable chain) ≤ MAX_CHAIN_LEN)%nat →
  buffers_mapped mem (srv_heap s) chain req ws → transfer_fits req ws →
  match request_opcode (take REQUEST_HEADER_LEN req) with
  | OpWrite => or_generic mem chain (try_write_zero_copy mem chain (take REQUEST_HEADER_LEN req))
  | OpRead => or_generic mem chain (try_read_zero_copy mem chain (take REQUEST_HEADER_LEN req))
  | _ => dispatch_generic mem chain
  end s = dispatch_generic mem chain s.
Proof.
  intros Hm Hr Hw Hn (cs & Hcs & Hws & Hbs & Hsl) Hfit.
  assert (chain_mapped mem chain cs ws req (srv_heap s)) as Hc by by split.
  rewrite request_opcode_eq. case_decide as Hlen; [|done].
  pose proof (InHeader_from_bytes_eq req Hsl) as Hh. unfold transfer_fits in Hfit.
  destruct (Opcode_from (field 4 4 req)) eqn:Hop; try done.
  - destruct (decide (60 ≤ length req)%nat) as [H60|H60].
    + destruct (Hfit H60) as (Hnd & Hpos & Hcap & H32). rewrite decide_True in Hh by lia.
      eapply read_equiv; [done|exact Hh|done|done|done|rewrite field_body by lia; unfold OUT_HEADER_LEN; simpl; lia..| |].
      all: rewrite ?field_body by lia; unfold OUT_HEADER_LEN; simpl; (done || lia).
    + unfold or_generic, try_read_zero_copy, mbind, M_bind.
      rewrite (InHeader_prefix mem chain cs ws req s Hc), (ReadIn_prefix mem chain cs ws req s Hc), Hh.
      rewrite ReadIn_from_bytes_eq by by apply slice_ok_body. rewrite length_body, (decide_False (P := (20 ≤ _)%nat)) by lia.
      by case_decide.
  - destruct (decide (80 ≤ length req)%nat) as [H80|H80].
    + destruct (Hfit H80) as (Hpos & Hmore). rewrite decide_True in Hh by lia.
      eapply write_equiv; [done|exact Hh|done|by rewrite field_body by lia|by unfold REQUEST_HEADER_LEN, IN_HEADER_LEN].
    + unfold or_generic, try_write_zero_copy, mbind, M_bind.
      rewrite (InHeader_prefix mem chain cs ws req s Hc), (WriteIn_prefix mem chain cs ws req s Hc), Hh.
      rewrite WriteIn_from_bytes_eq by by apply slice_ok_body. rewrite length_body, (decide_False (P := (40 ≤ _ - _)%nat)) by lia.
      by case_decide.
Qed.
End Requests.

(** ** Control messages *)

(** The fields of a queue have the widths of the source. *)
Record vq_ok (vq : Virtqueue) : Prop := {
  vo_size : is_uint 16 (queue_size vq);
  vo_last : is_uint 16 (last_avail_idx vq);
  vo_desc : is_uint 64 (desc_addr vq);
  vo_avail : is_uint 64 (avail_addr vq);
  vo_used : is_uint 64 (used_addr vq);
}.

Definition slot_ok (slot : VringSlot) : Prop :=
  (∀ qs, slot_queue_size slot = Some qs → is_uint 16 qs) ∧ is_uint 16 (slot_pending_avail_base slot) ∧
  (∀ vq, slot_vq slot = Some vq → vq_ok vq).

Definition vrings_ok `{Host} {Hp} (s : ServerOn Hp) : Prop :=
  length (srv_vrings s) = NUM_QUEUES ∧ Forall slot_ok (srv_vrings s).

Section Control.
Context `{Libc, Build, HashOrder, Host, !Mmap, !Events, !Socket World, Ram Hp}.
#[local] Abbreviation Server := (ServerOn Hp).
#[local] Abbreviation vrings_ok := (vrings_ok (Hp := Hp)).

Lemma keeps_on_heap {A} (m : M Hp VirtqueueError A) : keeps vrings_ok (on_heap m).
Proof. by apply keeps_zoom. Qed.
Lemma keeps_on_world {E A} (m : M World E A) : keeps vrings_ok (on_world m).
Proof. by apply keeps_zoom. Qed.
Lemma keeps_on_fs {A} (m : M PassthroughFs FsError A) : keeps vrings_ok (on_fs m).
Proof. by apply keeps_zoom. Qed.
Lemma keeps_on_session {A} (m : M Session ProtoError A) : keeps vrings_ok (on_session m).
Proof. by apply keeps_zoom. Qed.

Lemma keeps_update_slot {E} idx f :
  (∀ slot, slot_ok slot → slot_ok (f slot)) → keeps vrings_ok (modify (update_slot idx f) : M Server E unit).
Proof.
  intros Hf. apply keeps_modify. intros s [Hl Hs]. split; simpl.
  - by rewrite length_alter.
  - apply Forall_alter; [done|]. intros slot _ Hslot. by apply Hf.
Qed.

Ltac server_step :=
  repeat first
    [ apply keeps_on_heap | apply keeps_on_world | apply keeps_on_fs | apply keeps_on_session
    | progress keeps_step ].

Lemma keeps_generic mem chain : keeps vrings_ok (dispatch_generic mem chain).
Proof. unfold dispatch_generic. server_step. Qed.

Lemma keeps_serve mem vq head : keeps vrings_ok (serve_request mem vq head).
Proof.
  unfold serve_request, or_generic, try_write_zero_copy, try_read_zero_copy.
  repeat first [apply keeps_generic | progress server_step].
Qed.

Lemma vq_ok_pop mem vq h o vq' h' : vq_ok vq → pop_avail mem vq h = (Ok (o, vq'), h') → vq_ok vq'.
Proof.
  intros Hvq. unfold pop_avail. intros (a1 & s1 & _ & Hk)%M_bind_Ok.
  apply M_bind_Ok in Hk as (a2 & s2 & _ & Hk). revert Hk. case_match.
  { intros [= <- <- <-]. done. }
  intros (a3 & s3 & _ & Hk)%M_bind_Ok. apply M_bind_Ok in Hk as (a4 & s4 & _ & Hk).
  apply M_bind_Ok in Hk as (a5 & s5 & _ & Hk). injection Hk as <- <- <-.
  destruct Hvq. split; simpl; try done. by apply wrap_range.
Qed.

Lemma keeps_process_one mem idx vq : vq_ok vq → keeps vrings_ok (process_one mem idx vq).
Proof.
  intros Hvq s Hs. unfold process_one, mbind at 1, M_bind. pose proof (keeps_on_heap (pop_avail mem vq) s Hs) as Hk.
  destruct (on_heap (pop_avail mem vq) s) as [[[o vq']|e|] s'] eqn:Hpop; simpl in Hk; [|done..].
  destruct o as [head|]; [|done].
  assert (vq_ok vq') as Hvq'.
  { unfold on_heap, zoom, map_errM in Hpop. destruct (pop_avail mem vq (srv_heap s)) as [[x|e|] h'] eqn:Hrun;
      [|done..]. injection Hpop as -> _. by eapply vq_ok_pop. }
  revert s' Hk Hpop. intros s' Hk _.
  refine (keeps_bind vrings_ok _ _ _ _ s' Hk).
  - apply keeps_update_slot. intros slot (H1' & H2' & _). split_and!; [done..|]. by intros ? [= <-].
  - intros []. apply keeps_bind; [apply keeps_serve|]. intros []. apply keeps_ret.
Qed.

Lemma keeps_process_loop mem idx fuel : ∀ n, keeps vrings_ok (process_loop fuel mem idx n).
Proof.
  induction fuel as [|fuel IH]; intros n; cbn [process_loop]; [apply keeps_throw|].
  intros s Hs. unfold mbind at 1, M_bind, gets. destruct (slot_queue idx s) as [vq|] eqn:Hvq; [|done].
  assert (vq_ok vq) as Hok.
  { unfold slot_queue in Hvq. destruct (srv_vrings s !! idx) as [slot|] eqn:Hslot; [|done].
    destruct Hs as [_ Hs]. rewrite Forall_lookup in Hs. by apply (Hs _ _ Hslot). }
  refine (keeps_bind vrings_ok _ _ _ _ s Hs).
  - by apply keeps_map_errM, keeps_process_one.
  - intros []; [|apply keeps_ret]. apply keeps_bind; [apply keeps_lift|]. intros k. apply IH.
Qed.

Lemma keeps_process_vring fuel idx : keeps vrings_ok (process_vring fuel idx).
Proof.
  unfold process_vring. repeat first [apply keeps_process_loop | progress server_step].
Qed.

Lemma slot_ok_build a slot : VringAddr_ok a → slot_ok slot → slot_ok (VringSlot_maybe_build a slot).
Proof.
  intros Ha Hslot. unfold VringSlot_maybe_build. destruct (slot_queue_size slot) as [qs|] eqn:E; [|done].
  destruct Hslot as (Hq & Hb & Hv). split_and!; simpl; [done..|]. intros vq [= <-]. destruct Ha.
  split; simpl; auto.
Qed.

Lemma slot_ok_base b slot : is_uint 16 b → slot_ok slot → slot_ok (set_slot_base b slot).
Proof.
  intros Hb (Hq & _ & Hv). split_and!; simpl; [done..|]. intros vq. destruct (slot_vq slot) as [vq0|]; [|done].
  intros [= <-]. destruct (Hv vq0 eq_refl). by split.
Qed.

Lemma VringAddr_from_bytes_ok b a : VringAddr_from_bytes b = Ok a → VringAddr_ok a.
Proof.
  unfold VringAddr_from_bytes. destruct (Nat.ltb_spec (length b) 40); [done|]. intros [= <-].
  split; simpl; apply field_range; lia.
Qed.

(** A message handler that parses, then updates a slot with a value that fits it. *)
Lemma keeps_parsed {A} (r : outcome ProtoError A) (idx : A → nat) (f : A → VringSlot → VringSlot) :
  (∀ a slot, r = Ok a → slot_ok slot → slot_ok (f a slot)) →
  keeps vrings_ok (a ← lift r; modify (update_slot (idx a) (f a)) : M Server ProtoError unit).
Proof.
  intros Hf s Hs. unfold lift, mbind, M_bind. destruct r as [a|e|]; [|done..].
  by apply keeps_update_slot; [intros slot; apply Hf|].
Qed.

Lemma keeps_set_mem {E} mem : keeps vrings_ok (modify (set_mem mem) : M Server E unit).
Proof. by apply keeps_modify. Qed.

Lemma slot_ok_kick fd slot : slot_ok slot → slot_ok (set_slot_kick_fd fd slot).
Proof. done. Qed.
Lemma slot_ok_call fd slot : slot_ok slot → slot_ok (set_slot_call_fd fd slot).
Proof. done. Qed.

Lemma keeps_request request payload fds : keeps vrings_ok (handle_request request payload fds).
Proof.
  destruct request; cbn [handle_request]; unfold Server_reply, handle_set_mem_table,
    handle_get_vring_base, handle_set_vring_kick, handle_set_vring_call, handle_set_vring_err, drop_fd;
    try by repeat first
      [ apply keeps_set_mem
      | apply keeps_update_slot; intros ?; first [apply slot_ok_kick | apply slot_ok_call]
      | progress server_step ].
  - apply keeps_parsed. intros v slot _ (Hq & Hb & Hv). split_and!; simpl; [|done..].
    intros ? [= <-]. by apply wrap_range.
  - apply keeps_parsed. intros v slot Hv. by apply slot_ok_build, (VringAddr_from_bytes_ok payload).
  - apply keeps_parsed. intros v slot _. apply slot_ok_base. by apply wrap_range.
  - by apply keeps_parsed.
Qed.

Lemma keeps_message : keeps vrings_ok handle_one_message.
Proof. unfold handle_one_message. repeat first [apply keeps_request | progress server_step]. Qed.

Lemma keeps_kicks fuel kicks : keeps vrings_ok (serve_kicks fuel kicks).
Proof.
  induction kicks as [|[[idx fd] revents] kicks IH]; cbn [serve_kicks]; [apply keeps_ret|].
  apply keeps_bind; [|intros []; apply IH]. case_match; [|apply keeps_ret].
  apply keeps_bind; [apply keeps_on_world|]. intros []. apply keeps_process_vring.
Qed.

Lemma keeps_run fuel : keeps vrings_ok (run fuel).
Proof.
  induction fuel as [|fuel IH]; cbn [run]; [apply keeps_throw|].
  apply keeps_bind; [|intros []; apply IH]. unfold run_iteration.
  do 3 (apply keeps_bind; [first [apply keeps_gets | apply keeps_on_world]|intros ?]).
  case_match; [|case_match; first [apply keeps_ret | apply keeps_throw]].
  apply keeps_bind; [|intros ?; case_match; first [apply keeps_throw | apply keeps_kicks]].
  case_match; [|apply keeps_ret]. apply keeps_bind; [apply keeps_attempt, keeps_message|]. keeps_step.
Qed.
End Control.

(** A slot configured with a size, a base index and ring addresses. *)
Definition configured (num base : Z) (a : VringAddr) : Virtqueue :=
  mkVirtqueue (va_descriptor a) (va_avail a) (va_used a) (as_u16 num) (as_u16 base).

Section Setup.
Context `{Libc, Build, HashOrder, Host, !Mmap, !Socket World} {Hp : Type}.
Implicit Types s : ServerOn Hp.

Lemma set_num_run idx num s :
  is_uint 32 idx → is_uint 32 num →
  handle_request SetVringNum (VringState_to_bytes (mkVringState idx num)) [] s =
    (Ok tt, update_slot (Z.to_nat idx) (set_slot_queue_size (as_u16 num)) s).
Proof.
  intros Hi Hn. pose proof (VringState_roundtrip (mkVringState idx num) [] Hi Hn) as Hr.
  rewrite app_nil_r in Hr. cbn [handle_request]. unfold handle_set_vring_num, lift, mbind, M_bind. by rewrite Hr.
Qed.

Lemma set_base_run idx base s :
  is_uint 32 idx → is_uint 32 base →
  handle_request SetVringBase (VringState_to_bytes (mkVringState idx base)) [] s =
    (Ok tt, update_slot (Z.to_nat idx) (set_slot_base (as_u16 base)) s).
Proof.
  intros Hi Hn. pose proof (VringState_roundtrip (mkVringState idx base) [] Hi Hn) as Hr.
  rewrite app_nil_r in Hr. cbn [handle_request]. unfold handle_set_vring_base, lift, mbind, M_bind. by rewrite Hr.
Qed.

Lemma set_addr_run a s :
  VringAddr_ok a →
  handle_request SetVringAddr (VringAddr_to_bytes a) [] s =
    (Ok tt, update_slot (Z.to_nat (va_index a)) (VringSlot_maybe_build a) s).
Proof.
  intros Ha. pose proof (VringAddr_roundtrip a [] Ha) as Hr.
  rewrite app_nil_r in Hr. cbn [handle_request]. unfold handle_set_vring_addr, lift, mbind, M_bind. by rewrite Hr.
Qed.

Lemma get_base_run idx num s :
  is_uint 32 idx → is_uint 32 num →
  handle_request GetVringBase (VringState_to_bytes (mkVringState idx num)) [] s =
    Server_reply GetVringBase (VringState_to_bytes
      (mkVringState idx (default 0 (avail_base <$> slot_queue (Z.to_nat idx) s)))) s.
Proof.
  intros Hi Hn. pose proof (VringState_roundtrip (mkVringState idx num) [] Hi Hn) as Hr.
  rewrite app_nil_r in Hr. cbn [handle_request]. unfold handle_get_vring_base, lift, mbind, M_bind. by rewrite Hr.
Qed.

Lemma update_update idx f g s :
  update_slot idx f (update_slot idx g s) = update_slot idx (f ∘ g) s.
Proof. unfold update_slot, set_vrings. simpl. by rewrite list_alter_alter_eq. Qed.

Lemma update_lookup idx f s : srv_vrings (update_slot idx f s) !! idx = f <$> srv_vrings s !! idx.
Proof. apply list_lookup_alter_eq. Qed.

Lemma update_lookup_ne idx j f s :
  idx ≠ j → srv_vrings (update_slot idx f s) !! j = srv_vrings s !! j.
Proof. apply list_lookup_alter_ne. Qed.
End Setup.

(** ** A small server

    Memory of 512 bytes at guest-physical address 0x1000 and user address 0x9000: a queue of four
    descriptors as in [ring_memory], a READ request of 80 bytes cut in two, and a reply buffer of
    40 bytes cut in two.  The session has the file [a] open under handle 1. *)

#[local] Existing Instance toy_host.
#[local] Existing Instance linux_libc.
#[local] Existing Instance key_order.
#[local] Existing Instance checked_build.

Definition io_memory : GuestMemory :=
  mkGuestMemory [mkRegion 0x1000 0x9000 512 (7, 0) (7, 0) 512].

Definition io_image (req : bytes) : bytes :=
  u64_le 0x1080 ++ u32_le 50 ++ u16_le VIRTQ_DESC_F_NEXT ++ u16_le 1 ++
  u64_le 0x10B2 ++ u32_le 30 ++ u16_le VIRTQ_DESC_F_NEXT ++ u16_le 2 ++
  u64_le 0x1100 ++ u32_le 10 ++ u16_le (VIRTQ_DESC_F_NEXT + VIRTQ_DESC_F_WRITE) ++ u16_le 3 ++
  u64_le 0x1140 ++ u32_le 30 ++ u16_le VIRTQ_DESC_F_WRITE ++ u16_le 0 ++
  u16_le 0 ++ u16_le 1 ++ replicate 12 NUL ++ replicate 48 NUL ++ take 80 (req ++ replicate 80 NUL) ++
  replicate 304 NUL.

Definition io_heap (req : bytes) : Heap := store_cells (cells (7, 0) 512) (io_image req) ∅.

Lemma io_memory_ok req : mem_ok (io_heap req) io_memory.
Proof.
  assert (length (io_image req) = 512%nat) as Hl.
  { unfold io_image. rewrite !length_app, length_take, length_app, !length_replicate, !u64_le_length,
      !u32_le_length, !u16_le_length. lia. }
  split.
  - apply Forall_singleton. split; [simpl; lia..|]. apply load_cells_is_Some.
    change (is_Some (load_cells (cells (7, 0) 512) (io_heap req))). unfold io_heap.
    rewrite load_store_same; [done|apply NoDup_cells|by rewrite length_cells].
  - intros space. repeat constructor.
Qed.

Definition io_session : Session :=
  Session_new (foldl (λ fs op, (run_op op fs).2) (toy_fs 8) [FLookup ROOT_ID name_a; FOpen 2 0]).

Definition io_read : bytes := request 15 7 2 (u64_le 1 ++ u64_le 0 ++ u32_le 24 ++ replicate 20 NUL).

Definition io_server : Server := mkServer 3 (Some io_memory) [] io_session (io_heap io_read).

Definition io_chain : DescChain :=
  mkDescChain 0 [(0x1080, 50); (0x10B2, 30)] [(0x1100, 10); (0x1140, 30)].

(** * Properties *)

(** C14: the zero-copy READ and WRITE are invisible.  Serving a request through them leaves the
    guest's memory, the used ring, the file system, the kernel and the result exactly as the
    ordinary path would: gather the request, dispatch it, scatter the reply.  The chain's buffers
    are mapped, a transfer moves at least a byte, and the reply buffers of a READ are distinct
    and large enough. *)
Theorem zero_copy_transparent `{Libc, Build, HashOrder, HL : HostLaws, !VectoredLaws} mem vq head s :
  mem_ok (srv_heap s) mem → desc_addr_ok vq → is_uint 16 head →
  (∀ chain, read_chain mem vq head (srv_heap s) = (Ok chain, srv_heap s) →
     ∃ req ws, buffers_mapped mem (srv_heap s) chain req ws ∧ transfer_fits req ws) →
  serve_request mem vq head s = serve_reference mem vq head s.
Proof.
  intros Hm Hd Hh Hbuf. unfold serve_request, serve_reference, mbind, M_bind.
  destruct (read_chain_exact_run mem vq (srv_heap s) head Hm Hd Hh) as (r & Hrun & Hp).
  unfold on_heap at 1 4, zoom, map_errM. rewrite Hrun. destruct r as [chain|e|]; [|done..].
  destruct (Hbuf chain Hrun) as (req & ws & Hmap & Hfit). cbn [map_err].
  destruct (read_chain_bounds mem vq head _ chain Hm Hd Hh Hrun) as (Hr & Hw & Hn).
  rewrite set_heap_same.
  assert (on_heap (gather_readable_prefix mem chain REQUEST_HEADER_LEN) s
          = (Ok (take REQUEST_HEADER_LEN req), s)) as ->.
  { destruct Hmap as (cs & Hcs & Hws & Hbs & Hsl). by eapply prefix_run. }
  by rewrite (dispatch_equiv mem chain req ws s Hm Hr Hw Hn Hmap Hfit).
Qed.

Lemma zero_copy_transparent_witness :
  (serve_request io_memory (ring_queue 4 0) 0 io_server).1 = Ok tt ∧
  used_elem io_memory (ring_queue 4 0) (srv_heap (serve_request io_memory (ring_queue 4 0) 0 io_server).2) 0
  = (0, 17) ∧
  serve_request io_memory (ring_queue 4 0) 0 io_server = serve_reference io_memory (ring_queue 4 0) 0 io_server.
Proof.
  split; [vm_compute; reflexivity|]. split; [vm_compute; reflexivity|].
  apply (zero_copy_transparent (HL := toy_laws) io_memory (ring_queue 4 0) 0 io_server).
  - apply io_memory_ok.
  - split; simpl; lia.
  - uint.
  - intros chain Hrun.
    assert (chain = io_chain) as ->.
    { apply (f_equal fst) in Hrun. vm_compute in Hrun. by injection Hrun. }
    exists io_read, (cells (7, 0x100) 10 ++ cells (7, 0x140) 30). split.
    + exists (cells (7, 0x80) 50 ++ cells (7, 0xB2) 30).
      split_and!; [vm_compute; reflexivity..|]. vm_compute. reflexivity.
    + unfold transfer_fits. replace (Opcode_from (field 4 4 io_read)) with OpRead by (vm_compute; reflexivity).
      intros _. split_and!; [|vm_compute; (reflexivity || congruence)..].
      apply (bool_decide_unpack _). vm_compute. reflexivity.
Defined.

(** The event loop keeps every queue well formed, whatever the front-end sends, the guest
    writes and the kernel returns, for any number of iterations and also when it stops with an
    error: there are always two slots, and sizes, indices and ring addresses have the widths of
    their fields. *)
Theorem run_keeps_vrings `{Libc, Build, HashOrder, Host, !Mmap, !Events, !Socket World, Ram Hp} fuel (s : ServerOn Hp) :
  vrings_ok s → vrings_ok (run fuel s).2.
Proof. apply keeps_run. Qed.

(** A host on which the socket is readable and delivers one message in its first read. *)
Definition toy_events : Events := {|
  sys_poll fds w := (inl (replicate (length fds) 1), w);
  events_calls := {| read_waits fd w := false; sys_read fd n w := (inl 8%nat, w); sys_write fd b w := (inl (length b), w) |};
|}.

(** A front-end that has closed the connection. *)
Definition toy_closed : Socket World := {|
  send_with_fd _ b _ w := (inl (length b), w);
  recv_with_fd _ _ _ w := (inl ([], []), w);
|}.

Lemma run_keeps_vrings_witness :
  let s : Server := Server_new 3 io_session ∅ in
  (run (H3 := toy_mmap) (H4 := toy_events) (Socket0 := toy_closed) 2 s).1 = Err Finished ∧
  vrings_ok (run (H3 := toy_mmap) (H4 := toy_events) (Socket0 := toy_closed) 2 s).2.
Proof.
  intros s. split; [vm_compute; reflexivity|].
  apply (run_keeps_vrings (H3 := toy_mmap) (H4 := toy_events) (Socket0 := toy_closed) 2 s).
  split; [reflexivity|]. repeat (apply Forall_cons; split; [by split_and!|]). by apply Forall_nil.
Defined.

(** Configuring a queue: SET_VRING_NUM, then SET_VRING_ADDR and SET_VRING_BASE in either
    order build the queue with exactly the size (modulo 65536), addresses and index the front-end
    sent, touch no other slot, and GET_VRING_BASE then replies with that index. *)
Theorem vring_setup `{Libc, Build, HashOrder, Host, !Mmap, !Socket World} {Hp} (s : ServerOn Hp) num base a other :
  vrings_ok s → VringAddr_ok a → va_index a < 2 → is_uint 32 num → is_uint 32 base → is_uint 32 other →
  let idx := va_index a in
  let m_num := handle_request SetVringNum (VringState_to_bytes (mkVringState idx num)) [] in
  let m_base := handle_request SetVringBase (VringState_to_bytes (mkVringState idx base)) [] in
  let m_addr := handle_request SetVringAddr (VringAddr_to_bytes a) [] in
  ∃ s', (m_num ;; m_base ;; m_addr) s = (Ok tt, s') ∧ (m_num ;; m_addr ;; m_base) s = (Ok tt, s') ∧
    slot_queue (Z.to_nat idx) s' = Some (configured num base a) ∧
    (∀ j, j ≠ Z.to_nat idx → srv_vrings s' !! j = srv_vrings s !! j) ∧
    handle_request GetVringBase (VringState_to_bytes (mkVringState idx other)) [] s' =
      Server_reply GetVringBase (VringState_to_bytes (mkVringState idx (as_u16 base))) s'.
Proof.
  intros [Hlen Hslots] Ha Hidx Hnum Hbase Hother. cbv zeta. pose proof Ha as [Hi _ _ _ _ _].
  set (i := Z.to_nat (va_index a)).
  destruct (srv_vrings s !! i) as [slot|] eqn:Hslot.
  2:{ apply lookup_ge_None in Hslot. unfold NUM_QUEUES in Hlen. unfold i in Hslot. lia. }
  set (f := VringSlot_maybe_build a ∘ (set_slot_base (as_u16 base) ∘ set_slot_queue_size (as_u16 num))).
  exists (update_slot i f s). unfold mbind, M_bind. rewrite set_num_run by done.
  rewrite set_base_run, set_addr_run, set_addr_run, set_base_run by done. fold i.
  rewrite !update_update. split_and!.
  - done.
  - done.
  - unfold slot_queue. by rewrite update_lookup, Hslot.
  - intros j Hj. by apply update_lookup_ne.
  - rewrite get_base_run by done. fold i. unfold slot_queue. rewrite update_lookup, Hslot. done.
Qed.

Lemma vring_setup_witness :
  let s : Server := Server_new 3 io_session ∅ in
  let a := mkVringAddr 1 0 0x9000 0x9050 0x9040 0 in
  ∃ s', (handle_request (H3 := toy_mmap) (Socket0 := toy_closed) SetVringNum (VringState_to_bytes (mkVringState 1 256)) [] ;;
         handle_request (H3 := toy_mmap) (Socket0 := toy_closed) SetVringBase (VringState_to_bytes (mkVringState 1 5)) [] ;;
         handle_request (H3 := toy_mmap) (Socket0 := toy_closed) SetVringAddr (VringAddr_to_bytes a) []) s = (Ok tt, s') ∧
    slot_queue 1 s' = Some (mkVirtqueue 0x9000 0x9040 0x9050 256 5).
Proof.
  intros s a.
  destruct (vring_setup (H3 := toy_mmap) (Socket0 := toy_closed) s 256 5 a 0)
    as (s' & Hrun & _ & Hq & _).
  - split; [reflexivity|]. repeat (apply Forall_cons; split; [by split_and!|]). by apply Forall_nil.
  - split; simpl; uint.
  - done.
  - uint.
  - uint.
  - uint.
  - exists s'. split; [exact Hrun|]. exact Hq.
Defined.

(** The server with a descriptor 9 received for a memory region. *)
Definition leak_server : Server :=
  let w := srv_world io_server in
  set_world (mkToy (t_nodes w) (<[9 := 12]> (t_fds w)) (t_next w) 8 (t_extra w)) (Server_new 3 io_session ∅).

(** The descriptors of SET_MEM_TABLE are never closed.  After a memory table with one region
    is installed and then replaced by an empty one, whose installation unmaps the region, the
    descriptor is still open and no field of the server holds it. *)
Theorem mem_table_fd_leak :
  let table rs fds := handle_set_mem_table (H3 := toy_mmap) (MemoryRegions_to_bytes rs) fds in
  let r := (table [mkMemoryRegion 0x40000000 0x1000 0x7f0000000000 0] [9] ;; table [] []) leak_server in
  r.1 = Ok tt ∧ srv_mem r.2 = Some (mkGuestMemory []) ∧
  t_fds (srv_world r.2) !! 9 = Some 12 ∧
  Forall (λ slot, slot_kick_fd slot = None ∧ slot_call_fd slot = None) (srv_vrings r.2).
Proof.
  cbv zeta. split; [vm_compute; reflexivity|]. split; [vm_compute; reflexivity|].
  split; [vm_compute; reflexivity|]. vm_compute. repeat constructor.
Qed.
