(* ===== verification/QueueProps.v ===== *)
(** * Serving a queue

    What a driver gets that follows the virtio rules: every chain it has published is served, in
    order, whatever the requests in it say and whatever the kernel answers, and each one is
    returned in the used ring. *)

From S2P Require Import Prelude Libc Errors Bytes Attr Wire Inode Handle Host ToyHost Passthrough.
From S2P Require Import FsProps Dispatch DispatchProps Capacity VhostMsg Memory Virtqueue VirtqueueProps.
From S2P Require Import Doorbell Connection Server ServerProps.
From stdpp Require Import list.
Local Open Scope Z_scope.

(** * Definitions *)

(** The descriptor table, of [queue_size] entries. *)
Definition table_in (mem : GuestMemory) (vq : Virtqueue) (h : Heap) (idx : Z)
    : outcome VirtqueueError desc :=
  if (0 <=? idx) && (idx <? queue_size vq) then desc_table mem vq h idx else Err OutOfBounds.

(** The host addresses of the available ring, the descriptor table and the used ring. *)
Record places := mkPlaces { p_avail : ptr; p_table : ptr; p_used : ptr }.

Definition ring_cells (vq : Virtqueue) (ps : places) : list ptr :=
  cells (p_avail ps) (Z.to_nat (4 + 2 * queue_size vq)) ++
  cells (p_table ps) (Z.to_nat (16 * queue_size vq)).
Definition used_cells (vq : Virtqueue) (ps : places) : list ptr :=
  cells (p_used ps) (Z.to_nat (4 + 8 * queue_size vq)).

(** A chain a driver may publish: it stays in the table, ends within the device's limit, its
    buffers are mapped, and those for the reply overlap neither each other nor the rings. *)
Definition chain_ready (mem : GuestMemory) (vq : Virtqueue) (ps : places) (h : Heap) (head : Z) : Prop :=
  ∃ ds cs ws, linked (table_in mem vq h) head ds ∧ (length ds ≤ MAX_CHAIN_LEN)%nat ∧
    segs_cells mem (readable_of ds) = Some cs ∧ segs_cells mem (writable_of ds) = Some ws ∧
    Z.of_nat (length ws) < 2 ^ 32 ∧ NoDup ws ∧ ∀ c, c ∈ ws → c ∉ ring_cells vq ps ++ used_cells vq ps.

(** A queue a driver may offer. *)
Record queue_ready (mem : GuestMemory) (vq : Virtqueue) (ps : places) (h : Heap) : Prop := {
  qr_mem : mem_ok h mem;
  qr_size : 0 < queue_size vq < 2 ^ 16 ∧ (queue_size vq | 2 ^ 16);
  qr_last : is_uint 16 (last_avail_idx vq);
  qr_desc : desc_addr_ok vq;
  qr_table : get_slice mem User (desc_addr vq) (16 * queue_size vq)
             = Some (mkSlice (p_table ps) (16 * queue_size vq));
  qr_avail : get_slice mem User (avail_addr vq) (4 + 2 * queue_size vq)
             = Some (mkSlice (p_avail ps) (4 + 2 * queue_size vq));
  qr_used : used_mapped mem vq (p_used ps);
  qr_apart c : c ∈ used_cells vq ps → c ∉ ring_cells vq ps;
  qr_count : Z.of_nat (published mem h vq) ≤ queue_size vq;
  qr_chains i : 0 ≤ i < Z.of_nat (published mem h vq) → chain_ready mem vq ps h (ring_head mem h vq i);
}.

(** The buffers [ws] of a chain hold an answer to the request [bs], as much of it as fits, and
    [len] is its length there. *)
Definition replied (ws : list ptr) (bs : bytes) (h : Heap) (len : Z) : Prop :=
  ∃ r, answered bs r ∧
    match r with
    | ReplyNone => len = 0
    | ReplyBytes b =>
        len = Z.of_nat (min (length b) (length ws)) ∧
        load_cells (take (length b) ws) h = Some (take (length ws) b)
    end.

(** From [h] to [h'] the request of the chain at [head] is answered in its own buffers. *)
Definition chain_answered (mem : GuestMemory) (vq : Virtqueue) (h : Heap) (head len : Z) (h' : Heap) : Prop :=
  ∃ ds cs ws bs, linked (table_in mem vq h) head ds ∧
    segs_cells mem (readable_of ds) = Some cs ∧ segs_cells mem (writable_of ds) = Some ws ∧
    load_cells cs h = Some bs ∧ replied ws bs h' len.

(** The chains of the elements [l], answered one after another. *)
Inductive answers (mem : GuestMemory) (vq : Virtqueue) : Heap → list (Z * Z) → Heap → Prop :=
| answers_nil h : answers mem vq h [] h
| answers_cons h h1 h2 head len l :
    chain_answered mem vq h head len h1 → answers mem vq h1 l h2 → answers mem vq h ((head, len) :: l) h2.

(** From one heap to the next the elements [done] were added to the used ring. *)
Definition completed (mem : GuestMemory) (vq : Virtqueue) (h h' : Heap) (done : list (Z * Z)) : Prop :=
  used_idx mem vq h' = wrap 16 (used_idx mem vq h + Z.of_nat (length done)) ∧
  ∀ slot, 0 ≤ slot < queue_size vq →
    used_elem mem vq h' slot =
      default (used_elem mem vq h slot) (done !! Z.to_nat ((slot - used_idx mem vq h) mod queue_size vq)).

(** * Lemmas *)

(** ** Reads that agree *)

Definition agree (cs : list ptr) (h h' : Heap) : Prop := ∀ c, c ∈ cs → h' !! c = h !! c.

Lemma load_cells_agree cs h h' : agree cs h h' → load_cells cs h' = load_cells cs h.
Proof.
  intros Ha. unfold load_cells. induction cs as [|c cs IH]; [done|]. simpl. rewrite (Ha c) by (by left).
  rewrite IH; [done|]. intros c' Hc'. apply Ha. by right.
Qed.

Lemma agree_sub cs cs' h h' : (∀ c, c ∈ cs' → c ∈ cs) → agree cs h h' → agree cs' h h'.
Proof. intros Hs Ha c Hc. by apply Ha, Hs. Qed.

Section Reads.
Context (mem : GuestMemory) (h h' : Heap) (Hm : mem_ok h mem) (base len : Z) (p : ptr).
Context (Hs : get_slice mem User base len = Some (mkSlice p len)).
Context (Ha : agree (cells p (Z.to_nat len)) h h').

(** An integer read from a mapped place that did not change. *)
Lemma read_int_agree {E} n addr :
  (0 < n)%nat → base ≤ addr → addr + Z.of_nat n ≤ base + len →
  read_int (E := E) n mem User addr h' = ((read_int (E := E) n mem User addr h).1, h').
Proof.
  intros Hn Hb He. assert (get_slice mem User addr (Z.of_nat n)
    = Some (mkSlice (ptr_add p (addr - base)) (Z.of_nat n))) as Hsub.
  { replace addr with (base + (addr - base)) at 1 by lia.
    rewrite (get_slice_sub h mem User base len _ (addr - base) (Z.of_nat n) Hm Hs) by lia. done. }
  destruct (get_slice_backed _ _ _ _ _ _ Hm Hsub) as [b Hb'].
  rewrite (read_int_run n mem User addr h _ b Hsub Hb'). simpl.
  apply (read_int_run n mem User addr h' _ b Hsub). rewrite <- Hb'. apply load_cells_agree.
  eapply agree_sub; [|exact Ha]. intros c. unfold slice_cells. rewrite !elem_of_cells. simpl. lia.
Qed.

Lemma word_at_agree n addr :
  (0 < n)%nat → base ≤ addr → addr + Z.of_nat n ≤ base + len → word_at mem h' n addr = word_at mem h n addr.
Proof.
  intros Hn Hb He. unfold word_at. replace addr with (base + (addr - base)) by lia.
  rewrite (get_slice_sub h mem User base len _ (addr - base) (Z.of_nat n) Hm Hs) by lia. simpl. f_equal.
  apply load_cells_agree. eapply agree_sub; [|exact Ha]. intros c. unfold slice_cells. rewrite !elem_of_cells. simpl. lia.
Qed.

Lemma ring_u16_agree addr :
  base ≤ addr → addr + 2 ≤ base + len → ring_u16 mem h' addr = ring_u16 mem h addr.
Proof.
  intros Hb He. unfold ring_u16, read_u16. rewrite read_int_agree by lia.
  by destruct (read_int 2 mem User addr h) as [[] ?].
Qed.

Lemma ring_u32_agree addr :
  base ≤ addr → addr + 4 ≤ base + len → ring_u32 mem h' addr = ring_u32 mem h addr.
Proof.
  intros Hb He. unfold ring_u32, read_u32. rewrite read_int_agree by lia.
  by destruct (read_int 4 mem User addr h) as [[] ?].
Qed.
End Reads.

(** ** Chains that stay valid *)

Lemma linked_mono (D D' : Z → outcome VirtqueueError desc) idx ds :
  (∀ i d, D i = Ok d → D' i = Ok d) → linked D idx ds → linked D' idx ds.
Proof. intros HD Hl. induction Hl; [apply linked_last|eapply linked_more]; eauto. Qed.

Section Rings.
Context `{Build} (mem : GuestMemory) (vq : Virtqueue) (ps : places).

Lemma table_agree h h' idx :
  queue_ready mem vq ps h → agree (ring_cells vq ps) h h' →
  table_in mem vq h' idx = table_in mem vq h idx.
Proof.
  intros Hq Ha. unfold table_in. destruct (Z.leb_spec 0 idx), (Z.ltb_spec idx (queue_size vq)); [|done..].
  cbn [andb]. pose proof (qr_table _ _ _ _ Hq) as Hs.
  pose proof (get_slice_range _ _ _ _ _ _ (qr_mem _ _ _ _ Hq) Hs) as [Hr1 Hr2].
  assert (agree (cells (p_table ps) (Z.to_nat (16 * queue_size vq))) h h') as Ht.
  { eapply agree_sub; [|exact Ha]. intros c Hc. apply elem_of_app. by right. }
  assert (∀ n k, (0 < n)%nat → 0 ≤ k → k + Z.of_nat n ≤ 16 →
    word_at mem h' n (wrap 64 (desc_addr vq + (16 * idx + k))) = word_at mem h n (wrap 64 (desc_addr vq + (16 * idx + k)))) as Hw.
  { intros n k Hn Hk Hkn. rewrite wrap_id by uint. eapply (word_at_agree mem h h' (qr_mem _ _ _ _ Hq) _ _ _ Hs Ht); lia. }
  unfold desc_table. by rewrite !Hw by lia.
Qed.

Lemma table_desc h idx d : table_in mem vq h idx = Ok d → desc_table mem vq h idx = Ok d ∧ 0 ≤ idx < queue_size vq.
Proof. unfold table_in. destruct (Z.leb_spec 0 idx), (Z.ltb_spec idx (queue_size vq)); done || lia || eauto. Qed.

Lemma linked_head h head ds : linked (table_in mem vq h) head ds → 0 ≤ head < queue_size vq.
Proof. destruct 1 as [idx d HD|idx d ds HD]; by apply table_desc in HD as [_ ?]. Qed.

(** The device reads the chain the driver wrote. *)
Lemma read_chain_ready h head ds :
  queue_ready mem vq ps h → linked (table_in mem vq h) head ds → (length ds ≤ MAX_CHAIN_LEN)%nat →
  read_chain mem vq head h = (Ok (mkDescChain head (readable_of ds) (writable_of ds)), h).
Proof.
  intros Hq Hl Hlen. pose proof (linked_head _ _ _ Hl) as Hh. pose proof (qr_size _ _ _ _ Hq) as [Hsz _].
  pose proof (qr_desc _ _ _ _ Hq) as Hd.
  apply walk_chain_ok; [apply Hq|destruct Hd; uint|done|uint|]. exists ds. split_and!; [|done|done].
  eapply linked_mono; [|exact Hl]. intros i d. by intros [? _]%table_desc.
Qed.

Lemma chain_agree h h' head :
  queue_ready mem vq ps h → agree (ring_cells vq ps) h h' →
  chain_ready mem vq ps h head → chain_ready mem vq ps h' head.
Proof.
  intros Hq Ha (ds & cs & ws & Hl & Hrest). exists ds, cs, ws. split; [|done].
  eapply linked_mono; [|exact Hl]. intros i d. by rewrite (table_agree h h').
Qed.

(** ** The available ring *)

Lemma avail_agree h h' addr :
  queue_ready mem vq ps h → agree (ring_cells vq ps) h h' →
  avail_addr vq ≤ addr → addr + 2 ≤ avail_addr vq + (4 + 2 * queue_size vq) →
  ring_u16 mem h' addr = ring_u16 mem h addr.
Proof.
  intros Hq Ha Hb He. eapply ring_u16_agree; [apply Hq|apply (qr_avail _ _ _ _ Hq)| |done|done].
  eapply agree_sub; [|exact Ha]. intros c Hc. apply elem_of_app. by left.
Qed.

Lemma head_agree h h' i :
  queue_ready mem vq ps h → agree (ring_cells vq ps) h h' → ring_head mem h' vq i = ring_head mem h vq i.
Proof.
  intros Hq Ha. pose proof (qr_size _ _ _ _ Hq) as [Hsz _]. unfold ring_head.
  pose proof (Z.mod_pos_bound ((last_avail_idx vq + i) mod 2 ^ 16) (queue_size vq) ltac:(lia)).
  eapply avail_agree; [done|done|lia..].
Qed.

Lemma published_agree h h' :
  queue_ready mem vq ps h → agree (ring_cells vq ps) h h' → published mem h' vq = published mem h vq.
Proof.
  intros Hq Ha. pose proof (qr_size _ _ _ _ Hq) as [Hsz _]. unfold published.
  by rewrite (avail_agree h h') by (done || lia).
Qed.

(** A queue stays ready when the device writes outside the available ring and the table. *)
Lemma ready_agree h h' :
  queue_ready mem vq ps h → mem_ok h' mem → agree (ring_cells vq ps) h h' → queue_ready mem vq ps h'.
Proof.
  intros Hq Hm Ha. pose proof (published_agree h h' Hq Ha) as Hp.
  destruct Hq as [? ? ? ? ? ? ? ? Hc Hch] eqn:E. split; try done.
  - by rewrite Hp.
  - intros i Hi. rewrite Hp in Hi. rewrite (head_agree h h') by done. eapply chain_agree; [done|done|by apply Hch].
Qed.

Lemma ready_avail h : queue_ready mem vq ps h → avail_mapped mem vq.
Proof. intros Hq. split_and!; [apply Hq..|]. rewrite (qr_avail _ _ _ _ Hq). by eexists. Qed.

Lemma ready_next h n :
  queue_ready mem vq ps h → published mem h vq = S n → queue_ready mem (vq_next vq) ps h.
Proof.
  intros Hq Hn. pose proof (published_next mem h (qr_mem _ _ _ _ Hq) vq n (qr_last _ _ _ _ Hq) Hn) as Hp.
  pose proof (qr_count _ _ _ _ Hq) as Hc. pose proof (qr_chains _ _ _ _ Hq) as Hch. destruct Hq.
  split; try done.
  - by apply wrap_range.
  - rewrite Hp. simpl. lia.
  - intros i Hi. rewrite ring_head_next. rewrite Hp in Hi. apply Hch. lia.
Qed.

(** ** The used ring *)

Lemma used_agree h h' :
  mem_ok h mem → used_mapped mem vq (p_used ps) → agree (used_cells vq ps) h h' →
  used_idx mem vq h' = used_idx mem vq h ∧
  ∀ slot, 0 ≤ slot < queue_size vq → used_elem mem vq h' slot = used_elem mem vq h slot.
Proof.
  intros Hm [Hsz Hs] Ha. split.
  - eapply ring_u16_agree; [done|exact Hs|exact Ha|lia..].
  - intros slot Hslot. unfold used_elem. f_equal; (eapply ring_u32_agree; [done|exact Hs|exact Ha|lia..]).
Qed.

Lemma completed_nil h h' :
  mem_ok h mem → used_mapped mem vq (p_used ps) → agree (used_cells vq ps) h h' → completed mem vq h h' [].
Proof.
  intros Hm Hu Ha. destruct (used_agree h h' Hm Hu Ha) as [Hi He]. split.
  - rewrite Hi. simpl. rewrite Z.add_0_r. symmetry. apply wrap_id. by apply ring_u16_range.
  - intros slot Hslot. by rewrite He.
Qed.

Lemma mod_zero_eq a b q : 0 < q → 0 ≤ a < q → (a - b) mod q = 0 → a = b mod q.
Proof.
  intros Hq Ha H0. rewrite <- (Z.mod_small a q) by lia. apply Z.mod_divide in H0 as [k Hk]; [|lia].
  replace a with (b + k * q) by lia. apply Z_mod_plus_full.
Qed.

(** One more element, and then [done]. *)
Lemma completed_cons h h1 h' head len done :
  mem_ok h mem → used_mapped mem vq (p_used ps) → (queue_size vq | 2 ^ 16) →
  agree (used_cells vq ps) h h1 → mem_ok h1 mem → is_uint 16 head → is_uint 32 len →
  completed mem vq (used_pushed mem vq (p_used ps) h1 head len) h' done →
  Z.of_nat (S (length done)) ≤ queue_size vq → completed mem vq h h' ((head, len) :: done).
Proof.
  intros Hm Hu [k Hdiv] Ha Hm1 Hh Hl [Hidx Helem] Hn. destruct (used_agree h h1 Hm Hu Ha) as [Hi He].
  pose proof Hu as [Hsz _]. rewrite used_pushed_idx in Hidx, Helem by done. rewrite Hi in *.
  set (u := used_idx mem vq h) in *. set (q := queue_size vq) in *. split.
  - rewrite Hidx. unfold wrap. rewrite Zplus_mod_idemp_l. f_equal. simpl. lia.
  - intros slot Hslot. rewrite Helem by done. rewrite used_pushed_elem by done. rewrite Hi. fold u q.
    assert ((slot - wrap 16 (u + 1)) mod q = ((slot - u) mod q - 1) mod q) as ->.
    { rewrite Zminus_mod_idemp_l. unfold wrap. rewrite <- Zminus_mod_idemp_r.
      rewrite Z.mod_mod_divide by (by exists k). rewrite Zminus_mod_idemp_r. f_equal. lia. }
    pose proof (Z.mod_pos_bound (slot - u) q ltac:(lia)) as Hb. case_decide as Heq.
    + assert ((slot - u) mod q = 0) as ->.
      { rewrite Heq, Zminus_mod_idemp_l. by rewrite Z.sub_diag, Zmod_0_l. }
      replace ((0 - 1) mod q) with (q - 1).
      2:{ replace (0 - 1) with (q - 1 + -1 * q) by lia. rewrite Z_mod_plus_full. symmetry. apply Z.mod_small. lia. }
      rewrite lookup_ge_None_2 by lia. done.
    + assert ((slot - u) mod q ≠ 0) as Hne by (intros H0; apply Heq, mod_zero_eq; (exact H0 || lia)).
      rewrite (Z.mod_small (_ - 1)) by lia.
      replace (Z.to_nat ((slot - u) mod q)) with (S (Z.to_nat ((slot - u) mod q - 1))) by lia.
      cbn [lookup list_lookup]. f_equal. by rewrite He.
Qed.
End Rings.

(** ** Requests *)

Section Serving.
Context `{Libc, Build, HashOrder, HL : HostLaws} (mem : GuestMemory).

(** What serving a request leaves alone: everything but the session and the bytes [ws]. *)
Record serves (ws : list ptr) (s s' : Server) : Prop := {
  sv_conn : srv_conn s' = srv_conn s;
  sv_mem : srv_mem s' = srv_mem s;
  sv_vrings : srv_vrings s' = srv_vrings s;
  sv_ok : mem_ok (srv_heap s') mem;
  sv_frame c : c ∉ ws → srv_heap s' !! c = srv_heap s !! c;
}.

Lemma serves_session ws s x : mem_ok (srv_heap s) mem → serves ws s (set_session x s).
Proof. intros Hm. by split. Qed.

Lemma serves_trans ws s1 s2 s3 : serves ws s1 s2 → serves ws s2 s3 → serves ws s1 s3.
Proof. intros [] []. split; [congruence..|done|]. intros c Hc. rewrite sv_frame1; auto. Qed.

Lemma serves_store ws s cs bs :
  mem_ok (srv_heap s) mem → (∀ c, c ∈ cs → c ∈ ws) →
  serves ws s (set_heap (store_cells cs bs (srv_heap s)) s).
Proof.
  intros Hm Hc. split; try done; simpl; [by apply mem_ok_store|].
  intros c Hnot. apply store_cells_notin. naive_solver.
Qed.

(** A vectored transfer, in a session that can serve one more request. *)
Lemma lasts_transfer {A} (m : M PassthroughFs FsError A) op n s :
  run_op op = discard m → wf_op op → is_create op = false → (∀ k, keeps (fs_room k) m) →
  session_lasts (S n) s →
  match m (s_fs s) with
  | (Panic, _) => False
  | (_, fs') => session_lasts n (mkSession _ fs' (readdir_cache s))
  end.
Proof.
  intros Hop Hwf Hc Hk Hs. pose proof (lasts_roomy n s Hs) as [_ Hroomy]. destruct Hs as [[[b Hb] Hcache] Hroom].
  pose proof (run_op_triple op b Hwf (s_fs s) (conj Hb Hroomy)) as Ht. rewrite Hop in Ht.
  pose proof (Hk _ _ Hroom) as Hr. unfold discard, mbind, M_bind in Ht.
  assert (∀ fs', fs_inv b fs' → fs_room (2 * Z.of_nat (S n)) fs' →
    session_lasts n (mkSession _ fs' (readdir_cache s))) as Hl.
  { intros fs' Hi Hroom'. split; [split; [by exists b|done]|]. eapply s_room_weaken; [|exact Hroom']. lia. }
  destruct (m (s_fs s)) as [[a|e|] fs']; simpl in *; [by apply Hl| |done].
  destruct Ht as [Hi|[? _]]; [by apply Hl|congruence].
Qed.

Lemma room_vectored_write k fh off l : keeps (fs_room k) (PassthroughFs_write_vectored fh off l).
Proof. unfold PassthroughFs_write_vectored. apply keeps_bind; [apply room_with_file|]. intros fd. apply room_syscall. Qed.

Lemma room_vectored_read k fh off l : keeps (fs_room k) (PassthroughFs_read_vectored fh off l).
Proof. unfold PassthroughFs_read_vectored. apply keeps_bind; [apply room_with_file|]. intros fd. apply room_syscall. Qed.

Section Chain.
Context (chain : DescChain) (cs ws : list ptr) (bs : bytes) (s : Server).
Context (Hc : chain_mapped mem chain cs ws bs (srv_heap s)) (H32 : Z.of_nat (length ws) < 2 ^ 32).
Context (Hnd : NoDup ws) (n : nat) (Hlasts : session_lasts (S n) (srv_session s)).

(** A dispatch that ends with an answer in the reply buffers and a session that still lasts. *)
Record dispatched (w : Z) (s' : Server) : Prop := {
  dp_len : is_uint 32 w;
  dp_lasts : session_lasts n (srv_session s');
  dp_serves : serves ws s s';
  dp_reply : replied ws bs (srv_heap s') w;
}.

Definition dispatches (m : M Server ProtoError Z) : Prop := ∃ w s', m s = (Ok w, s') ∧ dispatched w s'.

(** A reply stored from the start of the buffers is there. *)
Lemma replied_store reply h h' w :
  answered bs (ReplyBytes reply) → w = Z.of_nat (min (length reply) (length ws)) →
  h' = store_cells (take (length reply) ws) (take (length ws) reply) h → replied ws bs h' w.
Proof.
  intros Ha -> ->. exists (ReplyBytes reply). split_and!; [done|done|]. apply load_store_same.
  - by eapply sublist_NoDup, sublist_take.
  - rewrite !length_take. lia.
Qed.

Lemma scatter_serves s' reply :
  serves ws s s' → session_lasts n (srv_session s') →
  ∃ w s'', on_heap (scatter_writable mem chain reply) s' = (Ok w, s'') ∧
    w = Z.of_nat (min (length reply) (length ws)) ∧ session_lasts n (srv_session s'') ∧ serves ws s s'' ∧
    srv_heap s'' = store_cells (take (length reply) ws) (take (length ws) reply) (srv_heap s').
Proof.
  intros Hs' Hl. eexists _, _. split.
  - eapply (scatter_run mem chain cs ws bs s Hc s' reply (sv_ok _ _ _ Hs')). lia.
  - split_and!; [done|done| |done]. eapply serves_trans; [exact Hs'|]. apply serves_store; [apply Hs'|].
    intros c Hin. rewrite <- (take_drop (length reply) ws). apply elem_of_app. by left.
Qed.

Lemma dispatch_generic_total : dispatches (dispatch_generic mem chain).
Proof.
  unfold dispatch_generic. destruct (session_lasts_step (E := ProtoError) n bs (srv_session s)
    (cm_slice _ _ _ _ _ _ Hc) Hlasts) as (r & x & Hh & Hx & Ha).
  unfold dispatches, mbind, M_bind. rewrite (gather_run mem chain cs ws bs s Hc).
  unfold on_session, zoom. rewrite Hh. destruct r as [b|].
  - destruct (scatter_serves (set_session x s) b) as (w & s'' & Hrun & Hw & Hl & Hs' & Hheap);
      [apply serves_session, Hc|done|]. exists w, s''. split; [exact Hrun|].
    split; [uint|done|done|]. by eapply replied_store.
  - eexists _, _. split; [done|]. split; [uint|done|apply serves_session, Hc|]. by exists ReplyNone.
Qed.

Lemma or_generic_total (m : M Server ProtoError (option Z)) :
  (∃ w s', m s = (Ok (Some w), s') ∧ dispatched w s') ∨
  m s = (Ok None, s) → dispatches (or_generic mem chain m).
Proof.
  unfold dispatches, or_generic, mbind, M_bind. intros [(w & s' & -> & Hr)| -> ]; [by exists w, s'|].
  apply dispatch_generic_total.
Qed.

(** Both ends of the transfer in a zero-copy path, the session in between. *)
Lemma transfer_serves {A} (m : M PassthroughFs FsError A) op :
  run_op op = discard m → wf_op op → is_create op = false → (∀ k, keeps (fs_room k) m) →
  ∃ r s', attempt (F := ProtoError) (on_fs m) s = (Ok r, s') ∧ r ≠ Panic ∧ session_lasts n (srv_session s') ∧
    serves ws s s' ∧ srv_heap s' = srv_heap s ∧ (∀ a, r = Ok a → ∃ fs', m (srv_fs s) = (Ok a, fs')).
Proof.
  intros Hop Hwf Hcr Hk. pose proof (lasts_transfer m op n _ Hop Hwf Hcr Hk Hlasts) as Hl.
  unfold attempt, on_fs, zoom, srv_fs. destruct (m (s_fs (srv_session s))) as [[a|e|] fs']; [..|done];
    eexists _, _; (split; [done|]); (split_and!; [done|done|by apply serves_session, Hc|done|]); naive_solver.
Qed.

Lemma answered_success body :
  (40 ≤ length bs)%nat → answered bs (ReplyBytes (OutHeader_reply (field 8 8 bs) 0 body)).
Proof. intros Hl. split; [done|]. apply reply_ok_success, (field_range 8); lia. Qed.

Lemma answered_error e :
  (40 ≤ length bs)%nat → answered bs (ReplyBytes (OutHeader_error_for (field 8 8 bs) e)).
Proof. intros Hl. split; [done|]. apply reply_ok_error, (field_range 8); lia. Qed.

Lemma try_write_total :
  dispatches (or_generic mem chain (try_write_zero_copy mem chain (take REQUEST_HEADER_LEN bs))).
Proof.
  apply or_generic_total. unfold try_write_zero_copy.
  rewrite (InHeader_prefix mem chain cs ws bs s Hc), (WriteIn_prefix mem chain cs ws bs s Hc).
  pose proof (cm_slice _ _ _ _ _ _ Hc) as Hsl.
  rewrite InHeader_from_bytes_eq, WriteIn_from_bytes_eq by (by try apply slice_ok_body).
  case_decide; [|by right]. case_decide; [left|by right].
  assert (is_uint 32 (field 4 16 (InHeader_body bs))) as Hsz by (apply field_range; lia).
  set (hdr := mkInHeader _ _ _ _ _ _ _). set (w := mkWriteIn _ _ _). change (field 4 16 _) with (wi_size w) in Hsz.
  destruct (iovecs_eq (srv_heap s) mem (cm_mem _ _ _ _ _ _ Hc) (c_readable chain) false
    (Z.of_nat REQUEST_HEADER_LEN) (wi_size w) [] cs (cm_readable _ _ _ _ _ _ Hc) (cm_cs _ _ _ _ _ _ Hc))
    as (iov & Hiov & Hcells & _); [lia|apply Hsz|].
  destruct (load_iovecs_eq iov (srv_heap s) (take (Z.to_nat (wi_size w)) (drop REQUEST_HEADER_LEN bs)))
    as (l & Hl & _ & _).
  { rewrite Hcells, Nat2Z.id. apply load_cells_take, load_cells_drop, (cm_bs _ _ _ _ _ _ Hc). }
  destruct (transfer_serves (PassthroughFs_write_vectored (wi_fh w) (wi_offset w) l)
    (FWriteVectored (wi_fh w) (wi_offset w) l)) as (r & s' & Hrun & Hnp & Hl' & Hs' & _);
    [done..|intros k; apply room_vectored_write|].
  unfold mbind, M_bind, iovecs_from. rewrite (on_heap_read _ _ _ Hiov). cbn [app].
  rewrite (on_heap_read _ _ _ Hl), Hrun.
  edestruct (scatter_serves s') as (n' & s'' & Hsc & Hn' & Hl'' & Hs'' & Hheap); [done|done|].
  rewrite Hsc. exists n', s''. split; [done|]. split; [uint|done|done|]. eapply replied_store; [|done..].
  destruct r; [by apply answered_success|by apply answered_error|done].
Qed.

(** The kernel fills part of the reply buffers. *)
Lemma fill_serves iov data k off s' :
  iovs_cells iov = take k (drop off ws) → serves ws s s' →
  ∃ s'', on_heap (fill_iovecs iov data) s' = (Ok tt, s'') ∧ srv_session s'' = srv_session s' ∧ serves ws s s'' ∧
    srv_heap s'' = store_cells (take k (drop off ws)) data (srv_heap s').
Proof.
  intros Hcells Hs'. eexists. split; [|split; [|split]].
  - apply on_heap_ok. unfold fill_iovecs. rewrite Hcells.
    destruct (segs_cells_backed _ _ (sv_ok _ _ _ Hs') _ _ (cm_ws _ _ _ _ _ _ Hc)) as [all Hall].
    apply store_at_run. eexists. by apply load_cells_take, load_cells_drop.
  - done.
  - eapply serves_trans; [exact Hs'|]. apply serves_store; [apply Hs'|]. intros c Hin.
    rewrite <- (take_drop off ws). apply elem_of_app. right.
    rewrite <- (take_drop k (drop off ws)). apply elem_of_app. by left.
  - done.
Qed.

(** The header stored in front of the data the kernel put there. *)
Lemma header_in_front hdr data k h :
  length hdr = OUT_HEADER_LEN → (length data ≤ min k (length ws - OUT_HEADER_LEN))%nat →
  (k ≤ length ws - OUT_HEADER_LEN)%nat →
  store_cells (take (length hdr) ws) (take (length ws) hdr) (store_cells (take k (drop OUT_HEADER_LEN ws)) data h)
  = store_cells (take (length (hdr ++ data)) ws) (take (length ws) (hdr ++ data)) h.
Proof.
  intros Hh Hd Hk. destruct (decide (OUT_HEADER_LEN ≤ length ws)%nat) as [Hle|Hlt].
  - rewrite (take_ge hdr), (take_ge (hdr ++ data)) by (rewrite ?length_app; lia). rewrite Hh.
    apply (store_header_last ws); (done || lia).
  - destruct data; [|simpl in Hd; lia]. by rewrite app_nil_r, drop_ge, take_nil by lia.
Qed.

Lemma vectored_read_length fh off lens fs data fs' :
  PassthroughFs_read_vectored fh off lens fs = (Ok data, fs') → (length data ≤ sum_list lens)%nat.
Proof.
  unfold PassthroughFs_read_vectored, mbind, M_bind. destruct (with_file _ fs) as [[fd|e|] fs1]; [|done..].
  unfold syscall. destruct (sys_preadv _ _ _ _) as [[b|e] w] eqn:Hp; [|done]. intros [= <- <-].
  apply (law_preadv_length fd lens (as_i64 off) (world fs1)). by rewrite Hp.
Qed.

Lemma try_read_total :
  dispatches (or_generic mem chain (try_read_zero_copy mem chain (take REQUEST_HEADER_LEN bs))).
Proof.
  apply or_generic_total. unfold try_read_zero_copy.
  rewrite (InHeader_prefix mem chain cs ws bs s Hc), (ReadIn_prefix mem chain cs ws bs s Hc).
  pose proof (cm_slice _ _ _ _ _ _ Hc) as Hsl.
  rewrite InHeader_from_bytes_eq, ReadIn_from_bytes_eq by (by try apply slice_ok_body).
  case_decide; [|by right]. case_decide; [left|by right].
  assert (is_uint 32 (field 4 16 (InHeader_body bs))) as Hsz by (apply field_range; lia).
  set (hdr := mkInHeader _ _ _ _ _ _ _). set (r := mkReadIn _ _ _). change (field 4 16 _) with (ri_size r) in Hsz.
  pose proof (length_segs_cells mem _ _ (cm_writable _ _ _ _ _ _ Hc) (cm_ws _ _ _ _ _ _ Hc)) as Hws.
  unfold lift, mbind, M_bind. rewrite sum_lens_eq by (apply Hc || lia). rewrite Z.add_0_l, <- Hws.
  set (want := Z.min _ _). assert (0 ≤ want ≤ Z.max 0 (Z.of_nat (length ws) - 16)) as Hwant
    by (unfold want, OUT_HEADER_LEN; uint).
  destruct (iovecs_eq (srv_heap s) mem (cm_mem _ _ _ _ _ _ Hc) (c_writable chain) true
    (Z.of_nat OUT_HEADER_LEN) want [] ws (cm_writable _ _ _ _ _ _ Hc) (cm_ws _ _ _ _ _ _ Hc))
    as (iov & Hiov & Hcells & _); [lia..|]. rewrite Nat2Z.id in Hcells.
  unfold iovecs_from. rewrite (on_heap_read _ _ _ Hiov). cbn [app].
  set (lens := (λ x : slice, Z.to_nat (sl_len x)) <$> iov).
  destruct (transfer_serves (PassthroughFs_read_vectored (ri_fh r) (ri_offset r) lens)
    (FReadVectored (ri_fh r) (ri_offset r) lens)) as (res & s' & Hrun & Hnp & Hl' & Hs' & Hh & Hdata);
    [done..|intros k; apply room_vectored_read|].
  rewrite Hrun. destruct res as [data|e|]; [| |done].
  - destruct (Hdata data eq_refl) as [fs' Hread]. apply vectored_read_length in Hread.
    unfold lens in Hread. rewrite <- length_iovs_cells, Hcells, length_take, length_drop in Hread.
    destruct (fill_serves iov data _ _ s' Hcells Hs') as (s1 & -> & Hx & Hs1 & Hh1).
    edestruct (scatter_serves s1) as (n' & s2 & -> & Hn' & Hl2 & Hs2 & Hh2); [done|by rewrite Hx|].
    rewrite Hh1, header_in_front in Hh2 by (rewrite ?length_success_header; unfold OUT_HEADER_LEN in *; lia).
    rewrite <- success_header in Hh2.
    rewrite length_success_header in Hn'. unfold as_u32. unfold OUT_HEADER_LEN in Hn', Hread, Hwant.
    rewrite wrap_id by uint. rewrite uadd_in by uint.
    eexists _, s2. split; [done|]. split; [uint|done|done|].
    eapply replied_store; [by apply answered_success| |exact Hh2].
    rewrite success_header, length_app, length_success_header. unfold OUT_HEADER_LEN. lia.
  - edestruct (scatter_serves s') as (n' & s2 & -> & Hn' & Hl2 & Hs2 & Hh2); [done|done|].
    exists n', s2. split; [done|]. split; [uint|done|done|]. by eapply replied_store; [apply answered_error|..].
Qed.

(** Whatever the request is, its dispatch ends with a reply. *)
Lemma dispatch_total :
  dispatches
    match request_opcode (take REQUEST_HEADER_LEN bs) with
    | OpWrite => or_generic mem chain (try_write_zero_copy mem chain (take REQUEST_HEADER_LEN bs))
    | OpRead => or_generic mem chain (try_read_zero_copy mem chain (take REQUEST_HEADER_LEN bs))
    | _ => dispatch_generic mem chain
    end.
Proof.
  destruct (request_opcode _); first [apply dispatch_generic_total | apply try_write_total | apply try_read_total].
Qed.
End Chain.
End Serving.

(** ** The queue loop *)

Section Loop.
Context `{Libc, Build, HashOrder, HL : HostLaws, !Events}.
Context (mem : GuestMemory) (ps : places).

Lemma ready_chain_mapped vq h head ds cs ws :
  queue_ready mem vq ps h → linked (table_in mem vq h) head ds → (length ds ≤ MAX_CHAIN_LEN)%nat →
  segs_cells mem (readable_of ds) = Some cs → segs_cells mem (writable_of ds) = Some ws →
  ∃ bs, chain_mapped mem (mkDescChain head (readable_of ds) (writable_of ds)) cs ws bs h.
Proof.
  intros Hq Hl Hlen Hcs Hws. pose proof (qr_mem _ _ _ _ Hq) as Hm. pose proof (qr_size _ _ _ _ Hq) as [Hsz _].
  pose proof (linked_head _ _ _ _ _ Hl) as Hhd.
  assert (Forall desc_ok ds) as Hok.
  { eapply (linked_ok mem vq h head). eapply linked_mono; [|exact Hl].
    intros i d. by intros [? _]%table_desc. }
  destruct (segs_cells_backed h mem Hm _ _ Hcs) as [bs Hbs]. exists bs.
  pose proof (segs_ok_readable ds Hok) as Hr. pose proof (segs_ok_writable ds Hok) as Hw.
  split; try done. unfold slice_ok. rewrite (load_cells_length _ _ _ Hbs).
  rewrite (length_segs_cells mem _ _ Hr Hcs). pose proof (segs_len_bound _ Hr) as Hb.
  unfold readable_of in Hb at 3. rewrite length_fmap in Hb.
  pose proof (length_filter (λ d, flag_set VIRTQ_DESC_F_WRITE d = false) ds). unfold MAX_CHAIN_LEN in *. lia.
Qed.

Lemma replied_agree ws bs h h' len : agree ws h h' → replied ws bs h len → replied ws bs h' len.
Proof.
  intros Ha (r & Hr & Hm). exists r. split; [done|]. destruct r as [b|]; [|done]. destruct Hm as [-> <-].
  split; [done|]. apply load_cells_agree. eapply agree_sub; [|exact Ha]. intros c. by apply subseteq_take.
Qed.

(** The index of the queue does not matter to its chains. *)
Lemma answers_next vq h l h' : answers mem (vq_next vq) h l h' → answers mem vq h l h'.
Proof. induction 1; by econstructor. Qed.

(** What a request of a ready queue leaves behind. *)
Record request_served (vq : Virtqueue) (head len : Z) (n : nat) (s s' : Server) : Prop := {
  rs_len : is_uint 32 len;
  rs_lasts : session_lasts n (srv_session s');
  rs_conn : srv_conn s' = srv_conn s;
  rs_mem : srv_mem s' = srv_mem s;
  rs_vrings : srv_vrings s' = srv_vrings s;
  rs_reply : chain_answered mem vq (srv_heap s) head len (srv_heap s');
  rs_heap : ∃ h, mem_ok h mem ∧ agree (ring_cells vq ps ++ used_cells vq ps) (srv_heap s) h ∧
    srv_heap s' = used_pushed mem vq (p_used ps) h head len;
}.

Lemma serve_ready vq head n s :
  queue_ready mem vq ps (srv_heap s) → chain_ready mem vq ps (srv_heap s) head →
  session_lasts (S n) (srv_session s) →
  ∃ len s', serve_request mem vq head s = (Ok tt, s') ∧ request_served vq head len n s s'.
Proof.
  intros Hq (ds & cs & ws & Hl & Hlen & Hcs & Hws & H32 & Hnd & Hapart) Hlasts.
  destruct (ready_chain_mapped vq _ head ds cs ws Hq Hl Hlen Hcs Hws) as [bs Hc].
  unfold serve_request, mbind, M_bind.
  rewrite (on_heap_read _ _ _ (read_chain_ready mem vq ps _ _ _ Hq Hl Hlen)).
  rewrite (prefix_run mem _ cs ws bs s Hc REQUEST_HEADER_LEN).
  destruct (dispatch_total mem _ cs ws bs s Hc H32 Hnd n Hlasts) as (len & s1 & -> & [Hlen32 Hl1 Hs1 Hrep]).
  exists len. eexists. split.
  - apply on_heap_ok. by apply push_used_run; [apply (qr_used _ _ _ _ Hq)|apply Hs1].
  - destruct Hs1 as [? ? ? ? Hframe]. split; try done.
    + exists ds, cs, ws, bs. split_and!; [done..|apply (cm_bs _ _ _ _ _ _ Hc)|].
      eapply replied_agree; [|exact Hrep]. intros c Hin.
      apply (used_pushed_frame mem vq (p_used ps) (qr_used _ _ _ _ Hq)). intros Hu.
      by apply (Hapart c Hin), elem_of_app; right.
    + exists (srv_heap s1). split_and!; [done| |done].
      intros c Hin. apply Hframe. intros Hin'. by apply (Hapart c).
Qed.

Lemma served_agree vq head len n s s' :
  queue_ready mem vq ps (srv_heap s) → request_served vq head len n s s' →
  mem_ok (srv_heap s') mem ∧ agree (ring_cells vq ps) (srv_heap s) (srv_heap s').
Proof.
  intros Hq [_ _ _ _ _ _ (h & Hm & Ha & ->)]. split; [by apply used_pushed_ok|]. intros c Hc.
  rewrite (used_pushed_frame mem vq (p_used ps) (qr_used _ _ _ _ Hq)).
  - apply Ha, elem_of_app. by left.
  - intros Hu. by apply (qr_apart _ _ _ _ Hq c).
Qed.

Context (idx : nat).

(** The queue after all its requests are served, [lens] bytes written for each. *)
Record queue_served (vq : Virtqueue) (n : nat) (lens : list Z) (s s' : Server) : Prop := {
  qs_lens : length lens = n;
  qs_session : session_ok (srv_session s');
  qs_conn : srv_conn s' = srv_conn s;
  qs_mem : srv_mem s' = srv_mem s;
  qs_vrings : srv_vrings s' =
    alter (set_slot_vq (set_avail_base (ring_u16 mem (srv_heap s) (avail_addr vq + 2)) vq)) idx (srv_vrings s);
  qs_used : completed mem vq (srv_heap s) (srv_heap s')
              (zip (ring_head mem (srv_heap s) vq <$> seqZ 0 (Z.of_nat n)) lens);
  qs_replies : answers mem vq (srv_heap s) (zip (ring_head mem (srv_heap s) vq <$> seqZ 0 (Z.of_nat n)) lens)
                 (srv_heap s');
  qs_rings : agree (ring_cells vq ps) (srv_heap s) (srv_heap s');
}.

Lemma served_nothing vq s :
  slot_queue idx s = Some vq → queue_ready mem vq ps (srv_heap s) → published mem (srv_heap s) vq = O →
  session_lasts O (srv_session s) → queue_served vq O [] s s.
Proof.
  intros Hslot Hq Hn [Hok _]. split; try done.
  - rewrite (proj1 (published_zero _ _ (qr_mem _ _ _ _ Hq) vq (qr_last _ _ _ _ Hq)) Hn).
    unfold slot_queue in Hslot. destruct (srv_vrings s !! idx) as [slot|] eqn:Hi; [|done]. simpl in Hslot.
    apply list_eq. intros j. destruct (decide (j = idx)) as [->|]; [|by rewrite list_lookup_alter_ne].
    rewrite list_lookup_alter_eq, Hi. simpl. f_equal. destruct slot, vq. simpl in *. by subst.
  - by eapply completed_nil; [apply Hq|apply (qr_used _ _ _ _ Hq)|].
  - apply answers_nil.
Qed.

Lemma served_more vq n head len lens s s1 s2 :
  queue_ready mem vq ps (srv_heap s) → published mem (srv_heap s) vq = S n →
  head = ring_head mem (srv_heap s) vq 0 →
  request_served vq head len n (update_slot idx (set_slot_vq (vq_next vq)) s) s1 →
  queue_served (vq_next vq) n lens s1 s2 → queue_served vq (S n) (len :: lens) s s2.
Proof.
  intros Hq Hn Hhead Hr Hqs.
  destruct (served_agree vq head len n (update_slot idx (set_slot_vq (vq_next vq)) s) s1 Hq Hr) as [Hm1 Ha1].
  simpl in Ha1. pose proof (qr_size _ _ _ _ Hq) as [Hsz Hdiv].
  assert (ring_u16 mem (srv_heap s1) (avail_addr vq + 2) = ring_u16 mem (srv_heap s) (avail_addr vq + 2)) as Hidx
    by (eapply avail_agree; [done|done|lia..]).
  assert (ring_head mem (srv_heap s1) (vq_next vq) <$> seqZ 0 (Z.of_nat n)
          = (ring_head mem (srv_heap s) (vq_next vq) <$> seqZ 0 (Z.of_nat n) : list Z)) as Hheads.
  { apply list_fmap_ext. intros i x _. by eapply head_agree; [eapply ready_next|]. }
  destruct Hr as [Hl32 _ Hc1 Hmm1 Hv1 Hrep (h & Hm & Ha & Hh1)], Hqs as [Hlens Hs2 Hc2 Hmm2 Hv2 Hu2 Han Hr2].
  simpl in *. split.
  - simpl. by rewrite Hlens.
  - done.
  - congruence.
  - congruence.
  - rewrite Hv2, Hv1. simpl. rewrite Hidx, list_alter_alter_eq. by apply list_alter_ext.
  - rewrite ring_heads_S. cbn [zip]. rewrite Hheads, Hh1 in Hu2. rewrite <- Hhead.
    pose proof (qr_mem _ _ _ _ Hq) as Hm0.
    eapply completed_cons; [exact Hm0|apply (qr_used _ _ _ _ Hq)|done| |exact Hm| |exact Hl32|exact Hu2|].
    + eapply agree_sub; [|exact Ha]. intros c Hc. apply elem_of_app. by right.
    + rewrite Hhead. by apply ring_u16_range.
    + rewrite length_zip, length_fmap, length_seqZ. pose proof (qr_count _ _ _ _ Hq). lia.
  - rewrite ring_heads_S. cbn [zip]. rewrite <- Hhead. rewrite Hheads in Han.
    by eapply answers_cons, answers_next.
  - intros c Hc. rewrite Hr2 by done. by apply Ha1.
Qed.

Lemma process_loop_S fuel k :
  process_loop (S fuel) mem idx k =
    (o ← gets (slot_queue idx);
     match o with
     | None => panic
     | Some vq =>
         more ← map_errM Failed (process_one mem idx vq);
         if more : bool then k ← lift (iadd 32 k 1); process_loop fuel mem idx k else mret k
     end).
Proof. done. Qed.

Lemma process_one_ready vq n s :
  queue_ready mem vq ps (srv_heap s) → published mem (srv_heap s) vq = S n → session_lasts (S n) (srv_session s) →
  ∃ len s', process_one mem idx vq s = (Ok true, s') ∧
    request_served vq (ring_head mem (srv_heap s) vq 0) len n (update_slot idx (set_slot_vq (vq_next vq)) s) s'.
Proof.
  intros Hq Hn Hl. unfold process_one, mbind, M_bind.
  rewrite (on_heap_read _ s _ (pop_published mem _ (qr_mem _ _ _ _ Hq) vq n (ready_avail _ _ _ _ Hq) Hn)).
  unfold modify. destruct (serve_ready (vq_next vq) (ring_head mem (srv_heap s) vq 0) n
    (update_slot idx (set_slot_vq (vq_next vq)) s)) as (len & s' & Hrun & Hr).
  - by eapply ready_next.
  - apply (qr_chains _ _ _ _ Hq 0). lia.
  - done.
  - exists len, s'. rewrite Hrun. split; [done|]. by destruct Hr.
Qed.

Lemma process_loop_ready n : ∀ fuel k s vq,
  (n < fuel)%nat → slot_queue idx s = Some vq → queue_ready mem vq ps (srv_heap s) →
  published mem (srv_heap s) vq = n → session_lasts n (srv_session s) → 0 ≤ k → k + Z.of_nat n < 2 ^ 31 →
  ∃ lens s', process_loop fuel mem idx k s = (Ok (k + Z.of_nat n), s') ∧ queue_served vq n lens s s'.
Proof.
  induction n as [|n IH]; intros [|fuel] k s vq Hf Hslot Hq Hn Hl Hk Hk'; try lia; rewrite process_loop_S;
    unfold mbind, M_bind, gets; rewrite Hslot; unfold map_errM.
  - exists [], s. split; [|by apply served_nothing]. unfold process_one, mbind, M_bind.
    rewrite (on_heap_read _ s _ (pop_empty mem _ (qr_mem _ _ _ _ Hq) vq (ready_avail _ _ _ _ Hq) Hn)).
    by rewrite Z.add_0_r.
  - destruct (process_one_ready vq n s Hq Hn Hl) as (len & s1 & -> & Hr). cbn [map_err]. unfold lift. rewrite iadd_in by lia.
    destruct (served_agree _ _ _ _ (update_slot idx (set_slot_vq (vq_next vq)) s) _ Hq Hr) as [Hm1 Ha1].
    pose proof (ready_next mem vq ps _ n Hq Hn) as Hq'.
    destruct (IH fuel (k + 1) s1 (vq_next vq)) as (lens & s2 & Hrun & Hqs); [lia|..|lia|lia|].
    + unfold slot_queue in *. rewrite (rs_vrings _ _ _ _ _ _ Hr), update_lookup.
      by destruct (srv_vrings s !! idx).
    + by eapply ready_agree.
    + rewrite (published_agree mem (vq_next vq) ps _ _ Hq' Ha1). apply published_next; [apply Hq|apply Hq|done].
    + apply Hr.
    + exists (len :: lens), s2. rewrite Hrun. split; [do 2 f_equal; lia|]. by eapply served_more.
Qed.

(** The notification at the end of [process_vring]. *)
Definition notified (slot : VringSlot) (n : nat) (s : Server) : Server :=
  match n, slot_call_fd slot with
  | S _, Some fd => set_world (sys_write fd (u64_le 1) (srv_world s)).2 s
  | _, _ => s
  end.
End Loop.

(** ** The event loop around it *)

(** read(2), write(2) and poll(2) neither open nor close descriptors. *)
Class EventLaws `{HL : HostLaws, !Events} := {
  law_read fd n : keeps_fds open_fds (sys_read fd n);
  law_write fd b : keeps_fds open_fds (sys_write fd b);
  law_poll fds : keeps_fds open_fds (sys_poll fds);
}.

Section Iteration.
Context `{Libc, Build, HashOrder, HL : HostLaws, !Mmap, !Events, !EventLaws, !Socket World}.

Lemma drain_fds fuel fd w r w' : drain_fd fuel fd w = (r, w') → open_fds w' = open_fds w.
Proof.
  revert w. induction fuel as [|fuel IH]; intros w; cbn [drain_fd]; [by intros [= _ <-]|].
  destruct (read_waits fd w); [by intros [= _ <-]|].
  pose proof (law_read fd 256 w) as Hr. destruct (sys_read fd 256 w) as [[n|e] w1]; simpl in Hr.
  - destruct (_ || _).
    + intros [= _ <-]. done.
    + intros Hd. by rewrite (IH w1 Hd).
  - intros [= _ <-]. done.
Qed.

Lemma lasts_world {Hp} n (s : ServerOn Hp) w :
  open_fds w = open_fds (srv_world s) → session_lasts n (srv_session s) →
  session_lasts n (srv_session (set_world w s)).
Proof.
  intros Hw [[[bs [Hi Hh Hf]] Hc] []]. split; [split; [exists bs|done]|by split].
  split; [done..|]. simpl. rewrite Hw. exact Hf.
Qed.

(** Descriptors [poll] did not report. *)
Definition quiet (k : (nat * Z) * Z) : Prop := Z.land k.2 POLLIN = 0.

Lemma serve_kicks_quiet fuel l k s : Forall quiet l → serve_kicks fuel (l ++ k) s = serve_kicks fuel k s.
Proof.
  induction 1 as [|[[idx fd] r] l Hq Hl IH]; [done|]. cbn [app serve_kicks]. unfold mbind, M_bind.
  unfold quiet in Hq. cbn [snd] in Hq. rewrite Hq. cbn. apply IH.
Qed.

Lemma process_vring_ready mem ps idx slot vq s fuel n :
  srv_mem s = Some mem → srv_vrings s !! idx = Some slot → slot_vq slot = Some vq →
  queue_ready mem vq ps (srv_heap s) → published mem (srv_heap s) vq = n →
  session_lasts n (srv_session s) → (n < fuel)%nat →
  ∃ lens s', process_vring fuel idx s = (Ok tt, notified slot n s') ∧ queue_served mem ps idx vq n lens s s'.
Proof.
  intros Hmem Hslot Hvq Hq Hn Hl Hf.
  destruct (process_loop_ready mem ps idx n fuel 0 s vq) as (lens & s' & Hrun & Hs); try done.
  { unfold slot_queue. by rewrite Hslot. }
  { pose proof (qr_count _ _ _ _ Hq). pose proof (qr_size _ _ _ _ Hq). lia. }
  exists lens, s'. split; [|done]. unfold process_vring, mbind, M_bind, gets.
  rewrite Hmem, Hslot, Hvq, Hrun. cbn [Z.add]. unfold notified. clear Hn Hrun Hs Hl Hf.
  destruct n, (slot_call_fd slot); done.
Qed.

(** An iteration in which one kick descriptor is readable: drain it and process its queue. *)
Lemma iteration_kicked fuel idx kick r rest l1 l2 s w1 w2 :
  sys_poll (srv_conn s :: (kick_slots (srv_vrings s)).*2) (srv_world s) = (inl (0 :: rest), w1) →
  zip (kick_slots (srv_vrings s)) rest = l1 ++ ((idx, kick), r) :: l2 → Forall quiet l1 → Forall quiet l2 →
  Z.land r POLLIN ≠ 0 → drain_fd fuel kick w1 = (Ok tt, w2) →
  run_iteration fuel s = process_vring fuel idx (set_world w2 s).
Proof.
  intros Hpoll Hzip Hq1 Hq2 Hr Hdrain. unfold run_iteration, mbind, M_bind, gets, on_world, zoom.
  rewrite Hpoll. cbn [nth drop]. change (negb (Z.land 0 POLLIN =? 0)) with false. cbn [mret M_ret].
  change (negb (Z.land 0 (Z.lor POLLHUP POLLERR) =? 0)) with false. cbv iota.
  rewrite drop_0, Hzip, serve_kicks_quiet by done. cbn [serve_kicks]. unfold mbind, M_bind, on_world, zoom.
  rewrite (proj2 (Z.eqb_neq _ _) Hr). cbn [negb].
  change (srv_world (set_world w1 s)) with w1. rewrite Hdrain.
  change (set_world w2 (set_world w1 s)) with (set_world w2 s).
  destruct (process_vring fuel idx (set_world w2 s)) as [[[]|e|] s']; [|done..].
  by rewrite <- (app_nil_r l2), serve_kicks_quiet.
Qed.
End Iteration.

(** * Properties *)

(** C3: every request a driver publishes is answered.  On a queue that follows the virtio rules
    (rings and buffers mapped, chains that end within the limit, reply buffers that overlap
    neither each other nor a ring) [process_vring] returns after as many iterations as there are
    published chains.  Whatever the bytes of a chain say and whatever the kernel answers, its
    buffers then hold a well-formed reply that carries the request's own identifier, as much of
    it as fits, and the length reported is the length stored.  The used ring gains exactly the
    heads in the order they were published, the device's index has caught up with the driver's,
    the rings the driver owns are untouched, and the guest is notified once if anything was
    served. *)
Theorem queue_answered `{Libc, Build, HashOrder, HL : HostLaws, !Events}
    mem ps idx slot vq s fuel :
  let n := published mem (srv_heap s) vq in
  srv_mem s = Some mem → srv_vrings s !! idx = Some slot → slot_vq slot = Some vq →
  queue_ready mem vq ps (srv_heap s) → session_lasts n (srv_session s) → (n < fuel)%nat →
  ∃ lens s', process_vring fuel idx s = (Ok tt, notified slot n s') ∧
    queue_served mem ps idx vq n lens s s'.
Proof.
  intros n Hmem Hslot Hvq Hq Hl Hf. by apply process_vring_ready.
Qed.

#[local] Existing Instance toy_host.
#[local] Existing Instance linux_libc.
#[local] Existing Instance key_order.
#[local] Existing Instance checked_build.

(** A fresh session, and a queue that offers one chain twice, across the wrap of its index: a
    LOOKUP whose reply is longer than its buffers. *)
Definition lookup_server : Server :=
  mkServer 3 (Some io_memory) [mkVringSlot (Some 4) 0 (Some (ring_queue 4 0xffff)) None (Some 5) true]
    toy_session (io_heap (request 1 7 ROOT_ID (name_a ++ [NUL]))).

Definition io_places : places := mkPlaces (7, 0x40) (7, 0) (7, 0x50).

Lemma lookup_chain_ready :
  chain_ready io_memory (ring_queue 4 0xffff) io_places (srv_heap lookup_server) 0.
Proof.
  exists [(0x1080, 50, 1, 1); (0x10B2, 30, 1, 2); (0x1100, 10, 3, 3); (0x1140, 30, 2, 0)],
    (cells (7, 0x80) 50 ++ cells (7, 0xB2) 30), (cells (7, 0x100) 10 ++ cells (7, 0x140) 30).
  split_and!.
  - do 3 (eapply linked_more; [vm_compute; reflexivity..|]). apply linked_last; vm_compute; reflexivity.
  - simpl. unfold MAX_CHAIN_LEN. lia.
  - vm_compute. reflexivity.
  - vm_compute. reflexivity.
  - vm_compute. reflexivity.
  - apply NoDup_app. split_and!; [apply NoDup_cells| |apply NoDup_cells].
    intros c. rewrite !elem_of_cells. simpl. lia.
  - intros c. unfold ring_cells, used_cells. rewrite !elem_of_app, !elem_of_cells. simpl. lia.
Qed.

Lemma lookup_published : published io_memory (srv_heap lookup_server) (ring_queue 4 0xffff) = 2%nat.
Proof. vm_compute. reflexivity. Qed.

Lemma lookup_queue_ready :
  queue_ready io_memory (ring_queue 4 0xffff) io_places (srv_heap lookup_server).
Proof.
  pose proof lookup_published as Hp. split.
  - apply io_memory_ok.
  - split; [simpl; lia|by exists 16384].
  - simpl. uint.
  - split; simpl; lia.
  - vm_compute. reflexivity.
  - vm_compute. reflexivity.
  - split; [simpl; lia|vm_compute; reflexivity].
  - intros c. unfold ring_cells, used_cells. rewrite !elem_of_app, !elem_of_cells. simpl. lia.
  - rewrite Hp. simpl. lia.
  - rewrite Hp. intros i Hi. assert (i = 0 ∨ i = 1) as [-> | ->] by lia.
    + replace (ring_head _ _ _ _) with 0 by (vm_compute; reflexivity). apply lookup_chain_ready.
    + replace (ring_head _ _ _ _) with 0 by (vm_compute; reflexivity). apply lookup_chain_ready.
Qed.

Lemma lookup_heads :
  (ring_head io_memory (srv_heap lookup_server) (ring_queue 4 0xffff) <$> seqZ 0 2) = [0; 0].
Proof. vm_compute. reflexivity. Qed.

Lemma lookup_lasts n : (n < 100)%nat → session_lasts (HL := toy_laws) n toy_session.
Proof.
  intros Hn. apply (lasts_new (HL := toy_laws) [Byte.x2f] (toy0 8) (toy_fs 8) (world (toy_fs 8))); [lia|].
  apply toy_fs_new. lia.
Qed.

Lemma queue_answered_witness :
  ∃ len1 len2 s', (process_vring (H4 := toy_events) 3 0 lookup_server).1 = Ok tt ∧
    completed io_memory (ring_queue 4 0xffff) (srv_heap lookup_server) (srv_heap s') [(0, len1); (0, len2)] ∧
    answers io_memory (ring_queue 4 0xffff) (srv_heap lookup_server) [(0, len1); (0, len2)] (srv_heap s').
Proof.
  destruct (queue_answered (HL := toy_laws) (H3 := toy_events)
    io_memory io_places 0 (mkVringSlot (Some 4) 0 (Some (ring_queue 4 0xffff)) None (Some 5) true)
    (ring_queue 4 0xffff) lookup_server 3 eq_refl eq_refl eq_refl lookup_queue_ready) as (lens & s' & Hrun & Hs).
  - rewrite lookup_published. apply lookup_lasts. lia.
  - rewrite lookup_published. lia.
  - apply (f_equal fst) in Hrun. destruct Hs as [Hlens _ _ _ _ Hu Ha _]. rewrite lookup_published in Hlens, Hu, Ha.
    change (Z.of_nat 2) with 2 in Hu, Ha. rewrite lookup_heads in Hu, Ha.
    destruct lens as [|len1 [|len2 [|]]]; try discriminate Hlens.
    exists len1, len2, s'. split; [exact Hrun|]. split; [exact Hu|exact Ha].
Defined.

(** ** Kicks and calls *)

Section Kicks.
Context `{BellLaws}.

Lemma drain_rings d fuel : ∀ k w,
  rings w d k → (k < 256 * fuel)%nat →
  ∃ w', drain_fd fuel (Doorbell_read_fd d) w = (Ok tt, w') ∧ rings w' d 0.
Proof.
  induction fuel as [|fuel IH]; intros k w Hk Hf; [lia|]. cbn [drain_fd].
  destruct (read_rings w d k Hk) as (-> & w' & k' & -> & Hw & ->). destruct (decide (k = O)) as [->|Hne].
  - exists w'. split; [done|]. by destruct d.
  - destruct d as [fd|r e]; [by exists w'|]. cbv beta iota.
    destruct (Nat.eqb_spec (min 256 k) 0), (Nat.ltb_spec (min 256 k) 256); cbn [orb]; try lia.
    + exists w'. split; [done|]. by replace O with (k - 256)%nat by lia.
    + apply (IH (k - 256)%nat w' Hw). lia.
Qed.

(** The descriptor the other side signals. *)
Definition Doorbell_write_fd (d : Doorbell) : Z :=
  match d with
  | EventFd fd => fd
  | SelfPipe _ write_fd => write_fd
  end.

Lemma call_rings d k w :
  rings w d k →
  ∃ w' k', notify (E := Stop) (Doorbell_write_fd d) w = (Ok tt, w') ∧ rings w' d k' ∧ (0 < k' ≤ k + 8)%nat.
Proof.
  destruct d as [fd|r e]; simpl; unfold notify.
  - intros Hk. destruct (law_efd_write fd 1 _ w Hk ltac:(lia)) as [w' Hw]. case_decide; destruct Hw as [-> Hw].
    + exists w', (S k). split_and!; [done|rewrite Hw; f_equal; lia|lia..].
    + exists w', k. split_and!; [done..|lia|lia].
  - intros (Hk & Hr & f & Hf & Hnb). destruct (law_pipe_write r e f (u64_le 1) k w Hk Hf Hnb)
      as (w' & Hfl & [[-> Hw]|(-> & Hw & Hpos)]); [rewrite u64_le_length; lia|..].
    + rewrite u64_le_length in Hw. exists w', (k + 8)%nat. unfold non_blocking in *. setoid_rewrite Hfl.
      split_and!; eauto; lia.
    + exists w', k. unfold non_blocking in *. setoid_rewrite Hfl. split_and!; eauto; lia.
Qed.

Lemma drain_blocking r e f fuel : ∀ k w,
  pipe_bytes w r e = Some k → fd_flags w r = Some f → Z.land f O_NONBLOCK ≠ O_NONBLOCK → (k < 256 * fuel)%nat →
  ∃ w', drain_fd fuel r w = (if decide (k mod 256 = 0)%nat then Err Blocked else Ok tt, w') ∧ pipe_bytes w' r e = Some O.
Proof.
  induction fuel as [|fuel IH]; intros k w Hk Hf Hb Hn; [lia|]. cbn [drain_fd].
  destruct (law_pipe_read r e f 256 k w Hk Hf ltac:(lia)) as [Hwt Hrd]. destruct (decide (k = O)) as [->|Hne].
  { rewrite (proj2 Hwt) by done. by exists w. }
  assert (read_waits r w = false) as Hw by (apply not_true_is_false; intros [? _]%Hwt; done). rewrite Hw.
  destruct (Hrd Hw) as (w' & Hfl & -> & Hk'). rewrite (proj2 (Nat.eqb_neq (min 256 k) 0)) by lia. cbn [orb].
  destruct (Nat.ltb_spec (min 256 k) 256).
  - exists w'. rewrite decide_False by (rewrite Nat.mod_small by lia; lia). split; [done|]. rewrite Hk'. f_equal. lia.
  - destruct (IH (k - 256)%nat w' Hk') as (w2 & -> & Hw2); [by rewrite Hfl|done|lia|]. exists w2. split; [|done].
    replace (k mod 256)%nat with ((k - 256) mod 256)%nat; [done|].
    replace k with (k - 256 + 1 * 256)%nat at 2 by lia. by rewrite Nat.Div0.mod_add.
Qed.
End Kicks.

(** C26: the server's half of a doorbell of either kind, an eventfd or a pipe, whose descriptors are
    non-blocking.  Draining the kick descriptor ends (one read of an eventfd, one per 256 bytes of
    a pipe) and leaves nothing pending, so that only a later kick makes it readable again; and
    after the server signals the call descriptor the front-end's [consume] tells so, also when the
    counter or the pipe is full. *)
Theorem kick_and_call `{BellLaws} fuel d k w :
  rings w d k → (k < 256 * fuel)%nat →
  (∃ w' w'', drain_fd fuel (Doorbell_read_fd d) w = (Ok tt, w') ∧ Doorbell_consume fuel d w' = (Ok false, w'')) ∧
  (∃ w' w'', notify (E := Stop) (Doorbell_write_fd d) w = (Ok tt, w') ∧
     Doorbell_consume (S fuel) d w' = (Ok true, w'')).
Proof.
  intros Hk Hf. unfold Doorbell_consume. split.
  - destruct (drain_rings d fuel k w Hk Hf) as (w' & Hrun & Hw).
    destruct (consume_loop_rings d fuel 0 false w' Hw ltac:(lia)) as (w'' & Hc & _). eauto.
  - destruct (call_rings d k w Hk) as (w' & k' & Hrun & Hk' & Hpos).
    destruct (consume_loop_rings d (S fuel) k' false w' Hk' ltac:(lia)) as (w'' & Hc & _).
    rewrite (proj2 (Nat.ltb_lt 0 k')) in Hc by lia. eauto.
Qed.

(** A pipe with 5 bytes in it, and an eventfd. *)
Lemma kick_and_call_witness :
  (∃ w' w'', drain_fd (H := toy_fd_calls 35) 1 6 (mkBells None (Some 5%nat) 0x800 0x801) = (Ok tt, w') ∧
     Doorbell_consume (H := macos_libc) (H0 := toy_fd_calls 35) 1 (SelfPipe 6 7) w' = (Ok false, w'')) ∧
  (∃ w' w'', notify (H := toy_fd_calls 11) (E := Stop) 5 (mkBells (Some 3) None 0 0) = (Ok tt, w') ∧
     Doorbell_consume (H := linux_libc) (H0 := toy_fd_calls 11) 2 (EventFd 5) w' = (Ok true, w'')).
Proof.
  split.
  - apply (kick_and_call (H := macos_libc) (H2 := toy_bell_laws (L := macos_libc)) 1 (SelfPipe 6 7) 5
      (mkBells None (Some 5%nat) 0x800 0x801)); [|lia].
    split_and!; [reflexivity|by eexists|by eexists].
  - apply (kick_and_call (H := linux_libc) (H2 := toy_bell_laws (L := linux_libc)) 1 (EventFd 5) 3
      (mkBells (Some 3) None 0 0)); [reflexivity|lia].
Defined.

(** C27: a kick descriptor that is a blocking pipe can hang the server, although any descriptor that
    can be polled and read is meant to do.  After a full read of 256 bytes [drain_fd] reads again
    without asking [poll]: with a multiple of 256 bytes pending it takes them all and then waits
    for the next kick, and with any other number it returns. *)
Theorem drain_waits `{BellLaws} fuel r e f k w :
  pipe_bytes w r e = Some k → fd_flags w r = Some f → Z.land f O_NONBLOCK ≠ O_NONBLOCK → (k < 256 * fuel)%nat →
  ∃ w', drain_fd fuel r w = (if decide (k mod 256 = 0)%nat then Err Blocked else Ok tt, w') ∧ pipe_bytes w' r e = Some O.
Proof. apply drain_blocking. Qed.

Lemma drain_waits_witness :
  ∃ w', drain_fd (H := toy_fd_calls 11) 3 6 (mkBells None (Some 512%nat) 0 1) = (Err Blocked, w') ∧ tb_pipe w' = Some O.
Proof.
  apply (drain_waits (H := linux_libc) (H2 := toy_bell_laws (L := linux_libc)) 3 6 7 0 512 (mkBells None (Some 512%nat) 0 1));
    [reflexivity|reflexivity|done|lia].
Defined.

(** ** One pass of the event loop *)

(** C7: a kick is answered in the iteration of the event loop that sees it.  When [poll] reports
    the kick descriptor of a ready queue (a non-blocking eventfd or pipe with [k] notifications
    pending), and nothing on the connection and the other descriptors, the iteration empties the
    descriptor, then processes the queue: it serves every published chain in order and signals the
    call descriptor, and the loop goes on. *)
Theorem kick_answered
    `{Libc, Build, HashOrder, HL : HostLaws, !Mmap, !Events, !EventLaws, !Socket World, !BellCalls World, !BellLaws World}
    fuel mem ps idx slot vq d k r rest l1 l2 s w1 :
  let n := published mem (srv_heap s) vq in
  srv_mem s = Some mem → srv_vrings s !! idx = Some slot → slot_vq slot = Some vq →
  sys_poll (srv_conn s :: (kick_slots (srv_vrings s)).*2) (srv_world s) = (inl (0 :: rest), w1) →
  zip (kick_slots (srv_vrings s)) rest = l1 ++ ((idx, Doorbell_read_fd d), r) :: l2 →
  Forall quiet (l1 ++ l2) → Z.land r POLLIN ≠ 0 → rings w1 d k → (k < 256 * fuel)%nat →
  queue_ready mem vq ps (srv_heap s) → session_lasts n (srv_session s) → (n < fuel)%nat →
  ∃ w2 lens s', rings w2 d 0 ∧ run_iteration fuel s = process_vring fuel idx (set_world w2 s) ∧
    run_iteration fuel s = (Ok tt, notified slot n s') ∧ queue_served mem ps idx vq n lens s s'.
Proof.
  intros n Hmem Hslot Hvq Hpoll Hzip [Hq1 Hq2]%Forall_app Hr Hk Hkf Hq Hl Hf.
  destruct (drain_rings d fuel k w1 Hk Hkf) as (w2 & Hdrain & Hw2).
  assert (run_iteration fuel s = process_vring fuel idx (set_world w2 s)) as Hrun
    by (by eapply (iteration_kicked fuel idx (Doorbell_read_fd d) r rest l1 l2 s w1 w2)).
  destruct (process_vring_ready mem ps idx slot vq (set_world w2 s) fuel n) as (lens & s' & Hp & Hs); try done.
  { apply lasts_world; [|done]. rewrite (drain_fds _ _ _ _ _ Hdrain).
    pose proof (law_poll (srv_conn s :: (kick_slots (srv_vrings s)).*2) (srv_world s)) as Hx.
    by rewrite Hpoll in Hx. }
  exists w2, lens, s'. rewrite Hrun. split_and!; [done..|]. by destruct Hs.
Qed.

(** The connection is silent, the kick descriptor readable.  It is the eventfd 6, whose counter is
    the contents of the object 98. *)
Definition bell_count (w : toy_world) : option Z :=
  match t_nodes w !! 98 with
  | Some (TFile b) => Some (le_combine b)
  | _ => None
  end.
Definition set_bell (c : Z) (w : toy_world) : toy_world := toy_set_nodes (<[98 := TFile (u64_le c)]> (t_nodes w)) w.

Definition kick_events : Events := {|
  sys_poll fds w := (inl [0; 1], w);
  events_calls := {|
    read_waits fd w := false;
    sys_read fd n w :=
      match bell_count w with
      | Some c => if fd =? 6 then (if c =? 0 then inr 11 else inl 8%nat, set_bell 0 w) else (inr 9, w)
      | None => (inr 9, w)
      end;
    sys_write fd x w :=
      match bell_count w with
      | Some c =>
          if fd =? 6
          then if c + le_combine x <? 2 ^ 64 - 1 then (inl 8%nat, set_bell (c + le_combine x) w) else (inr 11, w)
          else (inl (length x), w)
      | None => (inl (length x), w)
      end |};
|}.

Definition kick_event_laws : EventLaws (HL := toy_laws) (H0 := kick_events).
Proof.
  split.
  - intros fd n w. simpl. destruct (bell_count w); [|done]. by destruct (fd =? 6).
  - intros fd b w. simpl. destruct (bell_count w); [|done]. destruct (fd =? 6); [|done]. by case_match.
  - done.
Defined.

Definition kick_bells : BellCalls toy_world := {|
  sys_eventfd _ _ w := (inr 24, w); sys_pipe w := (inr 24, w); sys_fcntl _ _ _ w := (inr 9, w);
  EFD_CLOEXEC := 0x80000; EFD_NONBLOCK := 0x800; O_NONBLOCK := 0x800; FD_CLOEXEC := 1;
  F_GETFL := 3; F_SETFL := 4; F_SETFD := 2;
|}.

Definition kick_bell_laws : @BellLaws linux_libc toy_world (@events_calls _ kick_events) kick_bells.
Proof.
  refine {| efd_count w fd := if decide (fd = 6) then bell_count w else None;
            pipe_bytes _ _ _ := None; fd_flags _ _ := None |}; try done.
  - intros fd v c w Hc Hv. cbn [sys_write events_calls kick_events]. case_decide as Hfd; [subst|done]. rewrite Hc.
    rewrite Z.eqb_refl, u64_le_split, le_roundtrip by uint.
    assert (0 ≤ c) as Hc0 by (revert Hc; unfold bell_count; repeat case_match; intros; simplify_eq; apply LittleEndianList.le_combine_bound).
    destruct (Z.ltb_spec (c + v) (2 ^ 64 - 1)); case_decide; try lia; eexists; (split; [reflexivity|]); [|done].
    unfold bell_count, set_bell, toy_set_nodes. cbn [t_nodes]. rewrite lookup_insert_eq, u64_le_split, le_roundtrip by uint. done.
  - intros fd n c w Hc Hn. split; [done|]. cbn [sys_read events_calls kick_events]. case_decide as Hfd; [subst|done]. rewrite Hc.
    rewrite Z.eqb_refl. eexists. split; [destruct (Z.eqb_spec c 0); case_decide; try done; lia|].
    unfold bell_count, set_bell, toy_set_nodes. cbn [t_nodes]. by rewrite lookup_insert_eq.
Defined.

Definition kicked_slot : VringSlot := mkVringSlot (Some 4) 0 (Some (ring_queue 4 0xffff)) (Some 6) (Some 5) true.
Definition kicked_server : Server :=
  set_vrings [kicked_slot] (set_world (set_bell 3 (srv_world lookup_server)) lookup_server).

Lemma kicked_heap : srv_heap kicked_server = srv_heap lookup_server.
Proof. unfold kicked_server. by generalize lookup_server. Qed.

Lemma kicked_lasts n : (n < 100)%nat → session_lasts (HL := toy_laws) n (srv_session kicked_server).
Proof.
  intros Hn.
  change (srv_session kicked_server) with (srv_session (set_world (set_bell 3 (srv_world lookup_server)) lookup_server)).
  apply (lasts_world (HL := toy_laws)); [reflexivity|]. by apply lookup_lasts.
Qed.

Lemma kick_answered_witness :
  ∃ w2 len1 len2 s', bell_count w2 = Some 0 ∧
    (run_iteration (H3 := toy_mmap) (H4 := kick_events) (Socket0 := toy_closed) 3 kicked_server).1 = Ok tt ∧
    run_iteration (H3 := toy_mmap) (H4 := kick_events) (Socket0 := toy_closed) 3 kicked_server =
      process_vring (H4 := kick_events) 3 0 (set_world w2 kicked_server) ∧
    completed io_memory (ring_queue 4 0xffff) (srv_heap lookup_server) (srv_heap s') [(0, len1); (0, len2)].
Proof.
  destruct (kick_answered (HL := toy_laws) (H3 := toy_mmap) (H4 := kick_events) (H5 := kick_event_laws)
    (Socket0 := toy_closed) (BellCalls0 := kick_bells) (BellLaws0 := kick_bell_laws) 3 io_memory io_places 0 kicked_slot
    (ring_queue 4 0xffff) (EventFd 6) 3 1 [1] [] [] kicked_server (srv_world kicked_server))
    as (w2 & lens & s' & Hw2 & Heq & Hrun & Hs).
  1-5: reflexivity.
  - apply Forall_nil_2.
  - done.
  - vm_compute. reflexivity.
  - lia.
  - rewrite kicked_heap. apply lookup_queue_ready.
  - rewrite kicked_heap, lookup_published. apply kicked_lasts. lia.
  - rewrite kicked_heap, lookup_published. lia.
  - destruct Hs as [Hlens _ _ _ _ Hu _ _]. rewrite kicked_heap, lookup_published in Hlens, Hu.
    change (Z.of_nat 2) with 2 in Hu. rewrite lookup_heads in Hu.
    destruct lens as [|len1 [|len2 [|]]]; try discriminate Hlens.
    exists w2, len1, len2, s'. split_and!; [exact Hw2|rewrite Hrun; reflexivity|exact Heq|exact Hu].
Defined.
