(* ===== verification/Control.v ===== *)
(** * Control messages

    Whatever a front-end sends over the socket, in whatever pieces and with whatever descriptors,
    a message is handled without a panic in a build without overflow checks, and it changes
    neither the guest's memory nor the tables of the file system. *)

From S2P Require Import Prelude Libc Errors Bytes Attr Wire Inode Handle Host ToyHost Passthrough Dispatch.
From S2P Require Import VhostMsg Memory Virtqueue Doorbell Connection Server ServerProps.
Local Open Scope Z_scope.

(** What control messages leave alone. *)
Record served_part `{Host} (Hp : Type) := mkServedPart {
  sp_heap : Hp;
  sp_inodes : InodeStore;
  sp_handles : HandleStore;
  sp_listings : gmap Z (list DirEntry);
}.
#[global] Arguments mkServedPart {_ Hp}.

Definition part_of `{Host} {Hp} (s : ServerOn Hp) : served_part Hp :=
  mkServedPart (srv_heap s) (inodes (srv_fs s)) (fhandles (srv_fs s)) (readdir_cache (srv_session s)).

(** * Lemmas *)

Section Socket.
Context `{StreamLaws W}.

Lemma secure_send n stream buf fds : ∀ sent,
  (length buf ≤ sent + n)%nat → secure any any (send_loop n stream buf sent fds).
Proof.
  induction n as [|n IH]; intros sent Hn; cbn [send_loop]; case_match eqn:Hc; try by apply secure_ret.
  { apply Nat.leb_gt in Hc. lia. }
  eapply (secure_bind _ any).
  { assert (∀ l, secure any any (socket (send_with_fd stream (drop sent buf) l))) as Hs; [|by case_match].
    intros l w _. unfold socket. by destruct (send_with_fd _ _ _ _) as [[?|?] ?]. }
  intros k _. destruct (Nat.eqb_spec k 0); [apply secure_throw|]. apply IH. lia.
Qed.

Lemma secure_recv n stream len : ∀ buf fds,
  (len ≤ length buf + n)%nat → secure any any (recv_loop n stream len buf fds).
Proof.
  induction n as [|n IH]; intros buf fds Hn; cbn [recv_loop]; (destruct (Nat.leb_spec len (length buf)); [by apply secure_ret|]).
  { lia. }
  eapply (secure_bind _ (λ r, (length r.2 ≤ MAX_FDS_PER_RECV)%nat)).
  { intros w _. unfold socket. destruct (recv_with_fd _ _ _ _) as [[[data l]|e] w'] eqn:Hr; [|done].
    split; [done|]. apply law_recv in Hr as (_ & Hl & _); [done|lia]. }
  intros [data l] Hl. simpl in Hl. destruct (Nat.eqb_spec (length data) 0); [apply secure_throw|].
  rewrite (proj2 (Nat.ltb_ge _ _)) by done. apply IH. rewrite length_app. lia.
Qed.

Lemma secure_Connection_send stream header payload fds : secure any any (Connection_send stream header payload fds).
Proof. apply secure_send. lia. Qed.

Lemma secure_Connection_recv stream : secure any any (Connection_recv stream).
Proof.
  unfold Connection_recv. eapply secure_bind; [apply secure_recv; simpl; lia|]. intros [hb fds] _. cbv zeta.
  case_match; [apply secure_throw|]. eapply secure_bind; [apply secure_recv; simpl; lia|]. intros [p l] _. by apply secure_ret.
Qed.
End Socket.

Section Maps.
Context `{Build, Mmap} (Hrel : overflow_checks = false) (Hpage : as_u64 PAGESIZE ≠ 0).

Lemma mmap_extent_total {E} region : ∃ x, mmap_extent (E := E) region = Ok x.
Proof.
  unfold mmap_extent, urem, usub, uadd. rewrite (proj2 (Z.eqb_neq _ _) Hpage). simpl.
  do 3 (edestruct (release_arith (E := E) 64) as (? & -> & _); [done|lia|]; simpl). eauto.
Qed.

Lemma map_one_total region fd w : (map_one region fd w).1 ≠ Panic.
Proof.
  unfold map_one, lift, mbind, M_bind. destruct (mmap_extent_total (E := io_error) region) as [[[a e] l] ->].
  unfold mmap_call. by destruct (sys_mmap _ _ _ _) as [[?|?] ?].
Qed.

Lemma secure_map_all l : ∀ mapped, secure any any (map_all l mapped).
Proof.
  induction l as [|[region fd] l IH]; intros mapped; cbn [map_all]; [by apply secure_ret|]. intros w _.
  pose proof (map_one_total region fd w). destruct (map_one region fd w) as [[r|e|] w']; [by apply IH|done|done].
Qed.

Lemma secure_map_regions rs fds : secure any any (map_regions rs fds).
Proof.
  unfold map_regions. case_match; [|apply secure_throw]. eapply secure_bind; [apply secure_map_all|].
  intros mapped _. by apply secure_ret.
Qed.
End Maps.

Section Messages.
Context `{Libc, Build, HashOrder, Host, !Mmap, !Events, !Socket World, !StreamLaws World} {Hp : Type}.
Context (Hrel : overflow_checks = false) (Hpage : as_u64 PAGESIZE ≠ 0).
Context (p : served_part Hp).

Definition keeps_part (s : ServerOn Hp) : Prop := part_of s = p.

Lemma secure_on_world {E A} (m : M World E A) : secure any any m → secure keeps_part any (on_world m).
Proof.
  intros Hm s Hs. unfold on_world, zoom. specialize (Hm (srv_world s) I).
  destruct (m (srv_world s)) as [[a|e|] w]; done.
Qed.

Lemma secure_modify {E} (f : ServerOn Hp → ServerOn Hp) :
  (∀ s, part_of (f s) = part_of s) → secure (E := E) keeps_part any (modify f).
Proof. intros Hf s Hs. split; [|done]. unfold keeps_part. by rewrite Hf. Qed.

Lemma secure_update {E} idx f : secure (E := E) keeps_part any (modify (update_slot idx f)).
Proof. by apply secure_modify. Qed.

Lemma secure_pure {E A} (r : outcome E A) : r ≠ Panic → secure keeps_part any (lift r).
Proof. intros Hr. apply secure_lift. by destruct r. Qed.

Lemma secure_reply request body : secure keeps_part any (Server_reply request body).
Proof.
  unfold Server_reply. eapply secure_bind; [apply secure_gets|]. intros conn _.
  apply secure_on_world, secure_Connection_send.
Qed.

Lemma secure_drop_fd {E} o : secure (E := E) keeps_part any (drop_fd o).
Proof. destruct o; [by apply secure_on_world|by apply secure_ret]. Qed.

(** No payload makes its parser panic. *)
Lemma payloads_total buf :
  U64Payload_from_bytes buf ≠ Panic ∧ VringState_from_bytes buf ≠ Panic ∧ VringAddr_from_bytes buf ≠ Panic ∧
  VringFdPayload_from_bytes buf ≠ Panic ∧ MemoryRegions_from_bytes buf ≠ Panic.
Proof.
  assert (U64Payload_from_bytes buf ≠ Panic) as Hu by (unfold U64Payload_from_bytes; by destruct (get_range _ _ _)).
  split_and!; [done|unfold VringState_from_bytes; by case_match|unfold VringAddr_from_bytes; by case_match| |].
  - unfold VringFdPayload_from_bytes. by destruct (U64Payload_from_bytes buf).
  - unfold MemoryRegions_from_bytes. destruct (Nat.ltb_spec (length buf) 8); [done|].
    pose proof (regions_from_total buf (Z.to_nat (field 4 0 buf)) 8 [] ltac:(lia)). by case_match.
Qed.

#[local] Hint Resolve secure_pure secure_update secure_reply secure_drop_fd : secure.

Lemma secure_request request payload fds : secure keeps_part any (handle_request request payload fds).
Proof.
  destruct (payloads_total payload) as (Hu & Hs & Ha & Hf & Hm).
  destruct request; cbn [handle_request]; unfold handle_set_mem_table, handle_set_vring_num, handle_set_vring_addr,
    handle_set_vring_base, handle_get_vring_base, handle_set_vring_kick, handle_set_vring_call, handle_set_vring_err,
    handle_set_vring_enable; try solve [securely].
  eapply secure_bind; [by apply secure_pure|]. intros rs _. case_match; [|apply secure_throw].
  eapply secure_bind; [by apply secure_on_world, secure_map_errM, secure_map_regions|]. intros mem _.
  eapply secure_bind; [apply secure_gets|]. intros old _. eapply secure_bind; [by apply secure_modify|]. intros [] _.
  case_match; [by apply secure_on_world|by apply secure_ret].
Qed.

Lemma secure_message : secure keeps_part any handle_one_message.
Proof.
  unfold handle_one_message. eapply secure_bind; [apply secure_gets|]. intros conn _.
  eapply secure_bind; [apply secure_on_world, secure_Connection_recv|]. intros [[h b] fds] _.
  unfold MsgHeader_request. destruct (Request_try_from (mh_request h)) as [r|e|] eqn:Hr;
    [apply secure_request|by apply secure_ret|].
  unfold Request_try_from in Hr. by repeat case_match.
Qed.
End Messages.

(** ** A front-end with a message *)

#[local] Existing Instance toy_host.
#[local] Existing Instance linux_libc.
#[local] Existing Instance key_order.
#[local] Existing Instance unchecked_build.

(** The bytes under way are the contents of the object 99; the other end does not read. *)
Definition pending_bytes (w : World) : bytes :=
  match t_nodes w !! 99 with Some (TFile b) => b | _ => [] end.

Definition pending_socket : Socket World := {|
  send_with_fd _ _ _ w := (inr 32, w);
  recv_with_fd _ len _ w :=
    (inl (take len (pending_bytes w), []), toy_set_nodes (<[99 := TFile (drop len (pending_bytes w))]> (t_nodes w)) w);
|}.

Definition pending_laws : StreamLaws World (H := pending_socket).
Proof.
  refine {| inflight w _ := (λ b, (b, [])) <$> pending_bytes w; ofd _ _ fd := Some fd; peer s := s |}.
  - done.
  - intros s len cap w data fds w' Hlen [= <- <- <-].
    set (b := pending_bytes w). set (w1 := toy_set_nodes _ w).
    assert (pending_bytes w1 = drop len b) as Hb by (unfold pending_bytes; simpl; by rewrite lookup_insert_eq).
    assert (take (length (take len b)) ((λ x, (x, [])) <$> b) = ((λ x, (x, [])) <$> take len b : list (byte * list Z))) as Hm.
    { rewrite <- fmap_take. f_equal. rewrite length_take. destruct (decide (len ≤ length b)%nat); [f_equal; lia|].
      rewrite !take_ge by lia. done. }
    rewrite Hm. split_and!.
    + rewrite length_take. lia.
    + simpl. lia.
    + rewrite <- list_fmap_compose. symmetry. apply list_fmap_id.
    + rewrite Hb, <- fmap_drop. f_equal. rewrite length_take.
      destruct (decide (len ≤ length b)%nat); [f_equal; lia|]. rewrite !drop_ge by lia. done.
    + intros _. generalize (take len b). intros l. induction l as [|x l IH]; [done|]. exact IH.
    + done.
Defined.

(** A server that is sent SET_VRING_NUM for a queue it does not have. *)
Definition addressed_server : Server :=
  let w := srv_world io_server in
  set_world (toy_set_nodes (<[99 := TFile (MsgHeader_to_bytes (MsgHeader_new SetVringNum 0 8) ++
                                           VringState_to_bytes (mkVringState 77 256))]> (t_nodes w)) w) io_server.

(** * Properties *)

(** C5: the front-end cannot make the daemon panic either, nor reach the file system or the
    guest's memory by a message: in a build without overflow checks every sequence of bytes on
    the socket, cut into any pieces and with any descriptors attached, is handled to an answer or
    an error; the guest's memory, the inode and handle tables and the cached listings are as
    before.  (Running out of memory is outside the model.) *)
Theorem control_total `{Libc, Build, HashOrder, Host, !Mmap, !Socket World, !StreamLaws World} {Hp} (s : ServerOn Hp) :
  overflow_checks = false → as_u64 PAGESIZE ≠ 0 →
  (handle_one_message s).1 ≠ Panic ∧ part_of (handle_one_message s).2 = part_of s.
Proof.
  intros Hrel Hpage. pose proof (secure_message Hrel Hpage (part_of s) s eq_refl) as Hm.
  destruct (handle_one_message s) as [[a|e|] s']; [|by split|done]. by destruct Hm.
Qed.

Lemma control_total_witness :
  (handle_one_message (H3 := toy_mmap) (Socket0 := pending_socket) addressed_server).1 = Ok tt ∧
  part_of (handle_one_message (H3 := toy_mmap) (Socket0 := pending_socket) addressed_server).2 = part_of addressed_server.
Proof.
  split; [vm_compute; reflexivity|].
  apply (control_total (H3 := toy_mmap) (Socket0 := pending_socket) (StreamLaws0 := pending_laws) addressed_server);
    [reflexivity|done].
Defined.

(** Descriptors that come with a message the server has no use for stay open: with SET_LOG_FD,
    and with SET_VRING_KICK or SET_VRING_CALL for a queue that does not exist, the descriptor is
    neither closed nor held by any slot. *)
Theorem stray_fd_leak :
  let r := (handle_request (H3 := toy_mmap) (Socket0 := toy_closed) SetLogFd [] [9] ;;
            handle_request (H3 := toy_mmap) (Socket0 := toy_closed) SetVringCall (u64_le 5) [9]) leak_server in
  r.1 = Ok tt ∧ t_fds (srv_world r.2) !! 9 = Some 12 ∧
  Forall (λ slot, slot_kick_fd slot = None ∧ slot_call_fd slot = None) (srv_vrings r.2).
Proof. cbv zeta. split_and!; [vm_compute; reflexivity..|vm_compute; repeat constructor]. Qed.
