(* ===== verification/Bringup.v ===== *)
(** * Bringing a queue up

    The messages with which a front-end installs the guest's memory and a queue, as one sequence:
    what the server holds after them is what the theorems about the data path start from.  And
    the messages with which a queue is handed on. *)

From S2P Require Import Prelude Libc Errors Bytes Attr Wire Inode Handle Host ToyHost Passthrough Dispatch.
From S2P Require Import VhostMsg Memory Virtqueue VirtqueueProps Doorbell Connection Server ServerProps Capacity QueueProps Control.
Local Open Scope Z_scope.

(** ** The front-end's side *)

(** A region of the table lies within both address spaces, and its offset is a file offset. *)
Record sent_ok `{Build, Mmap} (region : MemoryRegion) : Prop := {
  so_words : MemoryRegion_ok region;
  so_extent : extent_ok region;
  so_gpa : mr_guest_phys_addr region + mr_memory_size region ≤ 2 ^ 64;
  so_user : mr_userspace_addr region + mr_memory_size region ≤ 2 ^ 64;
  so_offset : mr_mmap_offset region < 2 ^ 63;
}.

(** Where a region starts in an address space, as sent. *)
Definition sent_base (space : AddrSpace) (region : MemoryRegion) : Z :=
  match space with Gpa => mr_guest_phys_addr region | User => mr_userspace_addr region end.

Definition sent_apart (space : AddrSpace) (a b : MemoryRegion) : Prop :=
  sent_base space a + mr_memory_size a ≤ sent_base space b ∨
  sent_base space b + mr_memory_size b ≤ sent_base space a.

Record table_ok `{Build, Mmap} (rs : list MemoryRegion) : Prop := {
  to_sent : Forall sent_ok rs;
  to_apart space : ForallOrdPairs (sent_apart space) rs;
  to_count : Z.of_nat (length rs) < 2 ^ 32;
}.

(** The mapped region is the one that was sent: its place in both address spaces, its length, and
    the offset of its first byte in the object behind the descriptor. *)
Definition as_sent (region : MemoryRegion) (r : Region) : Prop :=
  r_gpa r = mr_guest_phys_addr region ∧ r_user_addr r = mr_userspace_addr region ∧
  r_len r = mr_memory_size region ∧ (r_ptr r).2 = mr_mmap_offset region ∧ region_in_mapping r.

(** Every byte of the region exists in the object it maps. *)
Definition behind (h : Heap) (r : Region) : Prop :=
  Forall (λ c, is_Some (h !! c)) (cells (r_ptr r) (Z.to_nat (r_len r))).

(** The messages, in the order QEMU sends them. *)
Definition bring_up_queue `{Libc, Build, HashOrder, Host, !Mmap, !Socket World} {Hp}
    (rs : list MemoryRegion) (fds : list Z) (num base : Z) (a : VringAddr) (kick call : Z)
    : M (ServerOn Hp) ProtoError unit :=
  handle_request SetMemTable (MemoryRegions_to_bytes rs) fds ;;
  handle_request SetVringNum (VringState_to_bytes (mkVringState (va_index a) num)) [] ;;
  handle_request SetVringBase (VringState_to_bytes (mkVringState (va_index a) base)) [] ;;
  handle_request SetVringAddr (VringAddr_to_bytes a) [] ;;
  handle_request SetVringKick (VringFdPayload_to_bytes (mkVringFdPayload (va_index a) false)) [kick] ;;
  handle_request SetVringCall (VringFdPayload_to_bytes (mkVringFdPayload (va_index a) false)) [call] ;;
  handle_request SetVringEnable (VringState_to_bytes (mkVringState (va_index a) 1)) [].

(** * Lemmas *)

Section Table.
Context `{Build, Mmap}.

Lemma map_one_sent region fd w r w' : sent_ok region → map_one region fd w = (Ok r, w') → as_sent region r.
Proof.
  intros [Hr He _ _ Ho] Hone. pose proof (map_one_ok _ _ _ _ _ Hr He Hone) as Hin.
  revert Hone. unfold map_one, lift, mbind, M_bind.
  destruct (mmap_extent region) as [[[aligned extra] len]|e|] eqn:Hx; [|done..].
  destruct (mmap_extent_ok _ _ _ _ Hr He Hx) as (Hextra & _ & Hsum & Hal).
  unfold mmap_call. destruct (sys_mmap _ _ _ w) as [[obj|e] w1]; [|done]. intros [= <- <-].
  split_and!; try done. simpl. unfold as_i64. rewrite sign_id; lia.
Qed.

Lemma map_all_sent l : ∀ mapped w rs w',
  Forall (λ p, sent_ok p.1) l → map_all l mapped w = (Ok rs, w') →
  ∃ more, rs = mapped ++ more ∧ Forall2 as_sent l.*1 more.
Proof.
  induction l as [|[region fd] l IH]; intros mapped w rs w' Hl; cbn [map_all].
  - intros [= <- <-]. exists []. by rewrite app_nil_r.
  - apply Forall_cons in Hl as [Hr Hl]. destruct (map_one region fd w) as [[r|e|] w1] eqn:Hone; [|done..].
    intros Hall. destruct (IH _ _ _ _ Hl Hall) as (more & -> & Hmore).
    exists (r :: more). rewrite <- app_assoc. split; [done|]. constructor; [by eapply map_one_sent|done].
Qed.

Lemma map_regions_sent rs fds w mem w' :
  Forall sent_ok rs → map_regions rs fds w = (Ok mem, w') →
  length rs = length fds ∧ Forall2 as_sent rs (regions mem).
Proof.
  intros Hrs. unfold map_regions. destruct (Nat.eqb_spec (length rs) (length fds)) as [Hlen|]; [|done].
  unfold mbind, M_bind. destruct (map_all _ _ w) as [[l|e|] w1] eqn:Hall; [|done..]. intros [= <- <-].
  apply map_all_sent in Hall as (more & -> & Hmore).
  - split; [done|]. by rewrite fst_zip in Hmore by lia.
  - apply Forall_fmap. by rewrite fst_zip by lia.
Qed.

Lemma apart_sent space a b r r' : as_sent a r → as_sent b r' → sent_apart space a b → apart space r r'.
Proof.
  intros (Hg & Hu & Hl & _) (Hg' & Hu' & Hl' & _). unfold sent_apart, apart, sent_base, Region_base_for.
  rewrite Hl, Hl'. destruct space; [by rewrite Hg, Hg'|by rewrite Hu, Hu'].
Qed.

Lemma pairs_sent space rs l :
  Forall2 as_sent rs l → ForallOrdPairs (sent_apart space) rs → ForallOrdPairs (apart space) l.
Proof.
  induction 1 as [|a r rs l Ha Hl IH]; intros Hp; inversion Hp as [|?? Hall Hrest]; subst; constructor; [|by apply IH].
  clear -Ha Hl Hall. induction Hl as [|b r' rs l Hb Hl IH]; [constructor|].
  apply Forall_cons in Hall as [Hab Hall]. constructor; [by eapply apart_sent|by apply IH].
Qed.

(** A well-formed table whose objects are as long as it says is well-formed memory. *)
Lemma mem_ok_sent h rs mem :
  table_ok rs → Forall2 as_sent rs (regions mem) → Forall (behind h) (regions mem) → mem_ok h mem.
Proof.
  intros [Hs Hap _] Hf Hb. split; [|intros space; by eapply pairs_sent].
  apply Forall_forall. intros r Hr. rewrite Forall_forall in Hb. specialize (Hb r Hr).
  apply list_elem_of_lookup in Hr as [i Hi].
  destruct (Forall2_lookup_r _ _ _ _ _ Hf Hi) as (region & Hreg & Hg & Hu & Hl & _).
  rewrite Forall_lookup in Hs. destruct (Hs _ _ Hreg) as [[Hw1 Hw2 Hw3 _] _ Hgp Hus _].
  split; [rewrite Hg, Hl; uint|rewrite Hu, Hl; uint|rewrite Hl; uint|done].
Qed.
End Table.

Section Messages.
Context `{Libc, Build, HashOrder, Host, !Mmap, !Socket World} {Hp : Type}.
Implicit Types s : ServerOn Hp.

Lemma set_mem_run rs fds s mem w' :
  Forall MemoryRegion_ok rs → Z.of_nat (length rs) < 2 ^ 32 → length rs = length fds → srv_mem s = None →
  map_regions rs fds (srv_world s) = (Ok mem, w') →
  handle_request SetMemTable (MemoryRegions_to_bytes rs) fds s = (Ok tt, set_mem mem (set_world w' s)).
Proof.
  intros Hrs Hn Hlen Hnone Hmap. destruct (mem_table_roundtrip rs [] [] Hrs Hn) as [Hr _].
  rewrite app_nil_r in Hr. cbn [handle_request]. unfold handle_set_mem_table, lift. rewrite Hr.
  unfold mbind, M_bind. rewrite (proj2 (Nat.eqb_eq _ _) Hlen). unfold on_world, zoom, map_errM. rewrite Hmap.
  unfold gets. simpl. by rewrite Hnone.
Qed.

Lemma fd_payload_run idx : is_uint 8 idx →
  VringFdPayload_from_bytes (VringFdPayload_to_bytes (mkVringFdPayload idx false)) = Ok (mkVringFdPayload idx false).
Proof.
  intros Hi. rewrite <- (app_nil_r (VringFdPayload_to_bytes _)).
  apply (payload_roundtrips (mkMsgHeader 1 1 0) 3 (mkVringState 0 256) (mkVringAddr 0 0 1 2 3 4)); try split; simpl; uint.
Qed.

Lemma set_kick_run idx kick slot s :
  is_uint 8 idx → srv_vrings s !! Z.to_nat idx = Some slot → slot_kick_fd slot = None →
  handle_request SetVringKick (VringFdPayload_to_bytes (mkVringFdPayload idx false)) [kick] s =
    (Ok tt, update_slot (Z.to_nat idx) (set_slot_kick_fd (Some kick)) s).
Proof.
  intros Hi Hs Hn. cbn [handle_request]. unfold handle_set_vring_kick, lift. rewrite fd_payload_run by done.
  unfold mbind, M_bind, gets. simpl. by rewrite Hs, Hn.
Qed.

Lemma set_call_run idx call slot s :
  is_uint 8 idx → srv_vrings s !! Z.to_nat idx = Some slot → slot_call_fd slot = None →
  handle_request SetVringCall (VringFdPayload_to_bytes (mkVringFdPayload idx false)) [call] s =
    (Ok tt, update_slot (Z.to_nat idx) (set_slot_call_fd (Some call)) s).
Proof.
  intros Hi Hs Hn. cbn [handle_request]. unfold handle_set_vring_call, lift. rewrite fd_payload_run by done.
  unfold mbind, M_bind, gets. simpl. by rewrite Hs, Hn.
Qed.

Lemma set_enable_run idx num s :
  is_uint 32 idx → is_uint 32 num →
  handle_request SetVringEnable (VringState_to_bytes (mkVringState idx num)) [] s =
    (Ok tt, update_slot (Z.to_nat idx) (set_slot_enabled (negb (num =? 0))) s).
Proof.
  intros Hi Hn. pose proof (VringState_roundtrip (mkVringState idx num) [] Hi Hn) as Hr.
  rewrite app_nil_r in Hr. cbn [handle_request]. unfold handle_set_vring_enable, lift, mbind, M_bind. by rewrite Hr.
Qed.

Lemma notified_vrings `{!Events} slot n (s : Server) : srv_vrings (notified slot n s) = srv_vrings s.
Proof. unfold notified. by repeat case_match. Qed.

Lemma notified_heap `{!Events} slot n (s : Server) : srv_heap (notified slot n s) = srv_heap s.
Proof. unfold notified. by repeat case_match. Qed.

Lemma in_kick_slots vrings i slot fd :
  vrings !! i = Some slot → slot_enabled slot = true → slot_kick_fd slot = Some fd → (i, fd) ∈ kick_slots vrings.
Proof.
  intros Hs He Hk. unfold kick_slots. apply list_elem_of_omap. exists (i, slot). simpl. rewrite He, Hk. split; [|done].
  apply list_elem_of_lookup. exists i. apply lookup_zip_with_Some. exists i, slot. split_and!; [done| |done].
  apply lookup_seq. split; [done|]. by eapply lookup_lt_Some.
Qed.
End Messages.

(** ** The index of a queue *)

Section Index.
Context (mem : GuestMemory) (h : Heap) (Hm : mem_ok h mem).

Lemma published_index vq : ring_u16 mem h (avail_addr vq + 2) = (last_avail_idx vq + Z.of_nat (published mem h vq)) mod 2 ^ 16.
Proof.
  pose proof (ring_u16_range mem h Hm (avail_addr vq + 2)) as Hr. unfold published, wrap.
  rewrite Z2Nat.id by (apply Z.mod_pos_bound; lia).
  rewrite Zplus_mod_idemp_r.
  replace (last_avail_idx vq + _) with (ring_u16 mem h (avail_addr vq + 2)) by lia.
  symmetry. apply Z.mod_small, Hr.
Qed.

(** What is published from a later index on. *)
Lemma published_from vq n m :
  ring_u16 mem h (avail_addr vq + 2) = (last_avail_idx vq + n + Z.of_nat m) mod 2 ^ 16 → Z.of_nat m < 2 ^ 16 →
  published mem h (set_avail_base ((last_avail_idx vq + n) mod 2 ^ 16) vq) = m.
Proof.
  intros Hx Hn. unfold published, wrap. simpl. rewrite Hx, <- Zminus_mod.
  replace (last_avail_idx vq + n + Z.of_nat m - (last_avail_idx vq + n)) with (Z.of_nat m) by lia.
  rewrite Z.mod_small by lia. apply Nat2Z.id.
Qed.

Lemma head_from vq n i :
  ring_head mem h (set_avail_base ((last_avail_idx vq + n) mod 2 ^ 16) vq) i = ring_head mem h vq (n + i).
Proof.
  unfold ring_head, set_avail_base. cbn [last_avail_idx avail_addr queue_size].
  by rewrite Zplus_mod_idemp_l, <- Z.add_assoc.
Qed.
End Index.

(** ** A fresh server

    The table and queue of [io_memory] and [ring_queue], sent to a server that has neither. *)

#[local] Existing Instance toy_host.
#[local] Existing Instance linux_libc.
#[local] Existing Instance key_order.
#[local] Existing Instance checked_build.

Definition fresh_server : Server := Server_new 3 io_session (io_heap io_read).
Definition fresh_table : list MemoryRegion := [mkMemoryRegion 0x1000 512 0x9000 0].
Definition fresh_addr : VringAddr :=
  let q := ring_queue 4 0 in mkVringAddr 0 0 (desc_addr q) (used_addr q) (avail_addr q) 0.

(** * Properties *)

(** C28: bringing a queue up.  On a server with no memory and an unused slot, a memory table whose
    regions lie in the address spaces, do not overlap and are backed by the objects behind their
    descriptors, followed by the messages for the queue's size, index, addresses, kick, call and
    enabling, is accepted in full.  The installed memory is well formed and its regions are the
    ones sent, each inside its mapping; the slot holds exactly the queue, the index and the two
    descriptors sent and is among those polled; the other slot, the guest's memory and the file
    system are as before. *)
Theorem bring_up `{Libc, Build, HashOrder, Host, !Mmap, !Socket World} (s : Server) rs fds num base a kick call mem w' :
  let idx := Z.to_nat (va_index a) in
  srv_mem s = None → srv_vrings s !! idx = Some VringSlot_default →
  table_ok rs → VringAddr_ok a → va_index a < 2 ^ 8 → is_uint 32 num → is_uint 32 base →
  map_regions rs fds (srv_world s) = (Ok mem, w') → Forall (behind (srv_heap s)) (regions mem) →
  ∃ s', bring_up_queue rs fds num base a kick call s = (Ok tt, s') ∧
    srv_mem s' = Some mem ∧ srv_world s' = w' ∧ mem_ok (srv_heap s') mem ∧ Forall2 as_sent rs (regions mem) ∧
    srv_vrings s' !! idx =
      Some (mkVringSlot (Some (as_u16 num)) (as_u16 base) (Some (configured num base a)) (Some kick) (Some call) true) ∧
    (idx, kick) ∈ kick_slots (srv_vrings s') ∧
    (∀ j, j ≠ idx → srv_vrings s' !! j = srv_vrings s !! j) ∧ part_of s' = part_of s.
Proof.
  intros idx Hnone Hslot Ht Ha Hidx Hnum Hbase Hmap Hb. pose proof Ha as [Hi _ _ _ _ _].
  assert (is_uint 8 (va_index a)) as Hi8 by uint.
  destruct (map_regions_sent _ _ _ _ _ (to_sent _ Ht) Hmap) as [Hlen Hsent].
  assert (Forall MemoryRegion_ok rs) as Hrs by (eapply Forall_impl; [apply Ht|]; by intros ? []).
  set (f := VringSlot_maybe_build a ∘ (set_slot_base (as_u16 base) ∘ set_slot_queue_size (as_u16 num))).
  set (g := set_slot_enabled true ∘ (set_slot_call_fd (Some call) ∘ (set_slot_kick_fd (Some kick) ∘ f))).
  set (s1 := set_mem mem (set_world w' s)).
  assert (srv_vrings (update_slot idx g s1) !! idx = Some (g VringSlot_default)) as Hg
    by (rewrite update_lookup; simpl; by rewrite Hslot).
  exists (update_slot idx g s1). split_and!; try done.
  - unfold bring_up_queue, mbind, M_bind. rewrite (set_mem_run rs fds s mem w'); try done; [|by apply Ht]. fold s1.
    rewrite set_num_run, set_base_run, set_addr_run by done. fold idx. rewrite !update_update. fold f.
    rewrite (set_kick_run _ kick (f VringSlot_default)) by (done || (fold idx; rewrite update_lookup; simpl; by rewrite Hslot)).
    fold idx. rewrite update_update.
    rewrite (set_call_run _ call (set_slot_kick_fd (Some kick) (f VringSlot_default)))
      by (done || (fold idx; rewrite update_lookup; simpl; by rewrite Hslot)).
    fold idx. rewrite update_update, set_enable_run by (done || uint). fold idx. by rewrite update_update.
  - by eapply mem_ok_sent.
  - by eapply in_kick_slots.
  - intros j Hj. rewrite (update_lookup_ne idx j g s1) by done. done.
Qed.

Lemma bring_up_witness :
  ∃ s', bring_up_queue (H3 := toy_mmap) (Socket0 := toy_closed) fresh_table [7] 4 0 fresh_addr 6 5 fresh_server = (Ok tt, s') ∧
    srv_mem s' = Some io_memory ∧ mem_ok (srv_heap s') io_memory ∧
    srv_vrings s' !! 0%nat = Some (mkVringSlot (Some 4) 0 (Some (ring_queue 4 0)) (Some 6) (Some 5) true) ∧
    part_of s' = part_of fresh_server.
Proof.
  destruct (bring_up (H3 := toy_mmap) (Socket0 := toy_closed) fresh_server fresh_table [7] 4 0 fresh_addr 6 5
    io_memory (srv_world fresh_server)) as (s' & Hrun & Hm & _ & Hok & _ & Hs & _ & _ & Hp).
  - done.
  - done.
  - split; [|intros [|]; repeat constructor|done]. apply Forall_singleton.
    split; simpl; [split; simpl; uint|by left|lia..].
  - split; simpl; uint.
  - done.
  - uint.
  - uint.
  - vm_compute. reflexivity.
  - apply Forall_singleton. pose proof (mo_regions _ _ (io_memory_ok io_read)) as Hr.
    apply Forall_cons in Hr as [Hr _]. apply (ro_backed _ _ Hr).
  - exists s'. by split_and!.
Defined.

(** C29: a queue can be handed from one server to another.  After a kick is served, GET_VRING_BASE
    replies with the index behind the last of the [n] requests the guest had published.  A server
    (a new one, or the same one after a reset) that is then given this index with the size and the
    addresses of the queue has exactly the queue the first one left, and takes it up where the
    first one stopped: of the requests the guest publishes from then on, none is lost and none of
    the earlier ones comes up again. *)
Theorem queue_handover `{Libc, Build, HashOrder, HL : HostLaws, !Mmap, !Events, !Socket World}
    fuel mem ps slot num b a other (s s2 : Server) :
  let idx := Z.to_nat (va_index a) in
  let vq := configured num b a in
  let n := published mem (srv_heap s) vq in
  let base := (as_u16 b + Z.of_nat n) mod 2 ^ 16 in
  srv_mem s = Some mem → srv_vrings s !! idx = Some slot → slot_vq slot = Some vq → queue_ready mem vq ps (srv_heap s) →
  session_lasts n (srv_session s) → (n < fuel)%nat →
  vrings_ok s2 → VringAddr_ok a → va_index a < 2 → is_uint 32 num → is_uint 32 other →
  ∃ s1 s3, process_vring fuel idx s = (Ok tt, s1) ∧
    handle_request GetVringBase (VringState_to_bytes (mkVringState (va_index a) other)) [] s1 =
      Server_reply GetVringBase (VringState_to_bytes (mkVringState (va_index a) base)) s1 ∧
    (handle_request SetVringNum (VringState_to_bytes (mkVringState (va_index a) num)) [] ;;
     handle_request SetVringBase (VringState_to_bytes (mkVringState (va_index a) base)) [] ;;
     handle_request SetVringAddr (VringAddr_to_bytes a) []) s2 = (Ok tt, s3) ∧
    ∃ vq', slot_queue idx s1 = Some vq' ∧ slot_queue idx s3 = Some vq' ∧ published mem (srv_heap s1) vq' = O ∧
      ∀ h m, ring_u16 mem h (avail_addr vq + 2) = (base + Z.of_nat m) mod 2 ^ 16 → Z.of_nat m < 2 ^ 16 →
        published mem h vq' = m ∧ ∀ i, ring_head mem h vq' i = ring_head mem h vq (Z.of_nat n + i).
Proof.
  intros idx vq n base Hmem Hslot Hvq Hq Hl Hf Hv2 Ha Hidx Hnum Hoth. pose proof Ha as [Hi _ _ _ _ _].
  destruct (process_vring_ready mem ps idx slot vq s fuel n) as (lens & s1 & Hrun & Hs); try done.
  assert (is_uint 32 base) as Hbase by (pose proof (Z.mod_pos_bound (as_u16 b + Z.of_nat n) (2 ^ 16)); unfold base; uint).
  assert (as_u16 base = base) as Hb16 by (apply wrap_id; apply Z.mod_pos_bound; lia).
  set (vq' := set_avail_base base vq). assert (ring_u16 mem (srv_heap s) (avail_addr vq + 2) = base) as Hring
    by (apply (published_index mem (srv_heap s) (qr_mem _ _ _ _ Hq) vq)).
  assert (slot_queue idx (notified slot n s1) = Some vq') as Hq1.
  { unfold slot_queue. rewrite notified_vrings, (qs_vrings _ _ _ _ _ _ _ _ Hs), list_lookup_alter_eq, Hslot, Hring. done. }
  assert (is_Some (srv_vrings s2 !! idx)) as [slot2 Hslot2].
  { apply lookup_lt_is_Some_2. destruct Hv2 as [Hlen _]. unfold NUM_QUEUES in Hlen. unfold idx. lia. }
  exists (notified slot n s1), (update_slot idx (VringSlot_maybe_build a ∘ (set_slot_base (as_u16 base) ∘ set_slot_queue_size (as_u16 num))) s2).
  split_and!; [done| | |exists vq'; split_and!; [done| | |]].
  - rewrite get_base_run by done. fold idx. by rewrite Hq1.
  - unfold mbind, M_bind. rewrite set_num_run, set_base_run, set_addr_run by done. fold idx. by rewrite !update_update.
  - unfold slot_queue. rewrite update_lookup, Hslot2. simpl. unfold vq', set_avail_base. simpl. by rewrite Hb16.
  - apply published_from; [|done]. rewrite notified_heap, Z.add_0_r.
    pose proof (qr_size _ _ _ _ Hq) as [Hsz _].
    by rewrite (avail_agree mem vq ps (srv_heap s) (srv_heap s1) (avail_addr vq + 2) Hq (qs_rings _ _ _ _ _ _ _ _ Hs)) by lia.
  - intros h m Hx Hm. split; [|apply head_from]. apply published_from; [|done]. rewrite Hx. unfold base. by rewrite Zplus_mod_idemp_l.
Qed.

(** The queue with two LOOKUPs across the wrap of the index, taken over at index 1. *)
Lemma queue_handover_witness :
  let a := let q := ring_queue 4 0xffff in mkVringAddr 0 0 (desc_addr q) (used_addr q) (avail_addr q) 0 in
  ∃ s1 s3, process_vring (H4 := kick_events) 3 0 lookup_server = (Ok tt, s1) ∧
    handle_request (H3 := toy_mmap) (Socket0 := toy_closed) GetVringBase (VringState_to_bytes (mkVringState 0 0)) [] s1 =
      Server_reply (Socket0 := toy_closed) GetVringBase (VringState_to_bytes (mkVringState 0 1)) s1 ∧
    (handle_request (H3 := toy_mmap) (Socket0 := toy_closed) SetVringNum (VringState_to_bytes (mkVringState 0 4)) [] ;;
     handle_request (H3 := toy_mmap) (Socket0 := toy_closed) SetVringBase (VringState_to_bytes (mkVringState 0 1)) [] ;;
     handle_request (H3 := toy_mmap) (Socket0 := toy_closed) SetVringAddr (VringAddr_to_bytes a) []) fresh_server = (Ok tt, s3) ∧
    slot_queue 0 s3 = slot_queue 0 s1.
Proof.
  intros a.
  destruct (queue_handover (HL := toy_laws) (H3 := toy_mmap) (H4 := kick_events) (Socket0 := toy_closed) 3 io_memory io_places
    (mkVringSlot (Some 4) 0 (Some (ring_queue 4 0xffff)) None (Some 5) true) 4 0xffff a 0 lookup_server fresh_server)
    as (s1 & s3 & Hrun & Hget & Hset & vq' & Hq1 & Hq3 & _).
  - reflexivity.
  - reflexivity.
  - reflexivity.
  - apply lookup_queue_ready.
  - apply (lookup_lasts 2). lia.
  - change (configured 4 0xffff a) with (ring_queue 4 0xffff). rewrite lookup_published. lia.
  - split; [reflexivity|]. repeat (apply Forall_cons; split; [by split_and!|]). by apply Forall_nil.
  - split; simpl; uint.
  - done.
  - uint.
  - uint.
  - change (configured 4 0xffff a) with (ring_queue 4 0xffff) in Hget, Hset. rewrite lookup_published in Hget, Hset.
    exists s1, s3. split_and!; [exact Hrun|exact Hget|exact Hset|]. exact (eq_trans Hq3 (eq_sym Hq1)).
Defined.
