(* ===== verification/Contested.v ===== *)
(** * Memory the guest writes to while it is served

    The guest and the device share memory without any lock: the guest's processors may store to it
    between any two accesses of the device.  [Shared] is such a memory.  The operations of
    [Virtqueue] and [Server] are written against the class [Ram], so they run on it as they are.
    A device that runs without overflow checks then stays within the mapped regions and does not
    panic, whatever the guest writes and whenever it does so. *)

From S2P Require Import Prelude Libc Errors Bytes Attr Wire Inode Handle Host ToyHost Passthrough FsProps Dispatch.
From S2P Require Import DispatchProps Capacity VhostMsg Memory Virtqueue VirtqueueProps Doorbell Connection.
From S2P Require Import Server ServerProps QueueProps.
Local Open Scope Z_scope.

(** ** The guest *)

(** What the guest stores at each moment, given what the memory holds; it reaches part of the
    shared objects. *)
Class Guest := {
  guest_reach : ptr → bool;
  guest_moves : nat → Heap → list (ptr * byte);
}.

Record Shared := mkShared { sh_bytes : Heap; sh_time : nat }.

Section Guest.
Context `{Guest}.

Definition poke (h : Heap) (cb : ptr * byte) : Heap :=
  if guest_reach cb.1 && bool_decide (is_Some (h !! cb.1)) then <[cb.1 := cb.2]> h else h.

Definition guest_turn (m : Shared) : Shared :=
  mkShared (foldl poke (sh_bytes m) (guest_moves (sh_time m) (sh_bytes m))) (S (sh_time m)).

(** The guest moves before every access. *)
#[global] Instance shared_ram : Ram Shared := {|
  load_at E cs m :=
    let m := guest_turn m in
    match load_cells cs (sh_bytes m) with Some b => (Ok b, m) | None => (Panic, m) end;
  store_at E cs b m :=
    let m := guest_turn m in
    match load_cells cs (sh_bytes m) with
    | Some _ => (Ok tt, mkShared (store_cells cs b (sh_bytes m)) (sh_time m))
    | None => (Panic, m)
    end;
|}.
End Guest.

(** ** What a memory promises *)

(** An address in the mapped part of some region. *)
Definition in_region (mem : GuestMemory) (c : ptr) : Prop :=
  ∃ r, r ∈ regions mem ∧ c ∈ cells (r_ptr r) (Z.to_nat (r_len r)).

(** What a memory promises the device: accesses within the regions succeed and keep [I]. *)
Class RamKeeps `{Ram Hp} (mem : GuestMemory) (I : Hp → Prop) := {
  rk_load {E} cs : Forall (in_region mem) cs → secure I (λ bs, length bs = length cs) (load_at (E := E) cs);
  rk_store {E} cs bs : Forall (in_region mem) cs → secure I any (store_at (E := E) cs bs);
}.

(** A chain within the limit of [read_chain]. *)
Definition chain_bounded (c : DescChain) (room : nat) : Prop :=
  segs_ok (c_readable c) ∧ segs_ok (c_writable c) ∧
  (length (c_readable c) + length (c_writable c) + room ≤ MAX_CHAIN_LEN)%nat.

(** * Lemmas *)

Lemma slice_in_region mem space addr len s :
  get_slice mem space addr len = Some s → Forall (in_region mem) (slice_cells s).
Proof.
  intros Hs. destruct (get_slice_region _ _ _ _ _ Hs) as (r & Hr & _ & Hb & Hlen & Hend & ->).
  apply Forall_forall. intros c Hc. exists r. split; [done|].
  unfold slice_cells in Hc. rewrite elem_of_cells in *. unfold ptr_add in Hc. simpl in Hc. lia.
Qed.

(** ** The device's operations *)

Section Device.
Context `{Build, Ram Hp} (mem : GuestMemory) (I : Hp → Prop) `{!RamKeeps mem I}.
Context (Hrel : overflow_checks = false).

Lemma secure_uadd {S E} (J : S → Prop) w a b : 0 ≤ w → secure (E := E) J (is_uint w) (lift (uadd w a b)).
Proof. intros Hw. apply secure_lift. unfold uadd. by destruct (release_arith (E := E) w (a + b) Hrel Hw) as (r & -> & Hr). Qed.

Lemma secure_urem {S E} (J : S → Prop) a b : b ≠ 0 → secure (E := E) J any (lift (urem a b)).
Proof. intros Hb. apply secure_lift. unfold urem. by rewrite (proj2 (Z.eqb_neq b 0)). Qed.

Lemma secure_in_bounds {A} (V : A → Prop) (m : M Hp VirtqueueError (option A)) :
  secure I (λ o, ∀ a, o = Some a → V a) m → secure I V (in_bounds m).
Proof.
  intros Hm. unfold in_bounds. eapply secure_bind; [exact Hm|]. intros o Ho. apply secure_lift.
  destruct o; simpl; auto.
Qed.

Lemma secure_in_bounds_any {A} (m : M Hp VirtqueueError (option A)) : secure I any m → secure I any (in_bounds m).
Proof. intros Hm. apply secure_in_bounds. by eapply secure_weaken. Qed.

Lemma secure_load {E} s :
  Forall (in_region mem) (slice_cells s) → secure (E := E) I (λ b, length b = Z.to_nat (sl_len s)) (load s).
Proof.
  intros Hs. unfold load. eapply secure_weaken; [by apply rk_load|]. intros b ->.
  unfold slice_cells. by rewrite length_cells.
Qed.

Lemma secure_store {E} s b :
  Forall (in_region mem) (slice_cells s) → length b = Z.to_nat (sl_len s) → secure (E := E) I any (store s b).
Proof.
  intros Hs Hb. unfold store. rewrite (proj2 (Nat.eqb_eq _ _)) by lia. by apply rk_store.
Qed.

Lemma secure_read_int {E} n space addr :
  secure (E := E) I (λ o, ∀ v, o = Some v → is_uint (8 * Z.of_nat n) v) (read_int n mem space addr).
Proof.
  unfold read_int. destruct (get_slice mem space addr (Z.of_nat n)) as [s|] eqn:Hs; [|by apply secure_ret].
  pose proof (get_slice_len _ _ _ _ _ Hs) as Hl.
  eapply secure_bind; [by apply secure_load; eapply slice_in_region|]. cbv beta. intros b Hb. rewrite Hl, Nat2Z.id in Hb.
  eapply (secure_bind _ (λ a, a = b)).
  - apply secure_lift. unfold to_array. by rewrite (proj2 (Nat.eqb_eq _ _)).
  - intros a ->. apply secure_ret. intros v [= <-]. apply le_combine_uint. lia.
Qed.

Lemma secure_write n (bs : bytes) space addr :
  length bs = n →
  secure I any (match get_slice_mut mem space addr (Z.of_nat n) with
              | None => mret None
              | Some s => _ ← store s bs; mret (Some tt)
              end : M Hp VirtqueueError (option unit)).
Proof.
  intros Hn. rewrite get_slice_mut_eq. destruct (get_slice mem space addr (Z.of_nat n)) as [s|] eqn:Hs; [|by apply secure_ret].
  eapply secure_bind; [|intros []; by auto with secure]. apply secure_store; [by eapply slice_in_region|].
  rewrite (get_slice_len _ _ _ _ _ Hs). lia.
Qed.

Lemma secure_write_u16 space addr val : secure I any (write_u16 (E := VirtqueueError) mem space addr val).
Proof. apply (secure_write 2). by rewrite u16_le_length. Qed.
Lemma secure_write_u32 space addr val : secure I any (write_u32 (E := VirtqueueError) mem space addr val).
Proof. apply (secure_write 4). by rewrite u32_le_length. Qed.

(** An integer read from a ring or a table. *)
Lemma secure_ring_int n space addr :
  secure I (is_uint (8 * Z.of_nat n)) (in_bounds (read_int n mem space addr)).
Proof. apply secure_in_bounds, secure_read_int. Qed.

#[local] Hint Resolve secure_uadd secure_urem secure_ring_int secure_in_bounds_any secure_write_u16 secure_write_u32 : secure.
#[local] Hint Extern 0 (0 ≤ _) => lia : secure.

Lemma secure_pop_avail vq :
  queue_size vq ≠ 0 → secure I (λ r, queue_size r.2 = queue_size vq) (pop_avail mem vq).
Proof. intros Hq. unfold pop_avail, read_u16. securely. Qed.

Lemma secure_push_used vq head len : queue_size vq ≠ 0 → secure I any (push_used mem vq head len).
Proof. intros Hq. unfold push_used, read_u16. securely. Qed.

(** ** Chains *)

Lemma secure_read_desc vq idx :
  secure I (λ d, is_uint 32 (desc_seg d).2) (read_desc mem vq idx).
Proof.
  unfold read_desc, read_u16, read_u32, read_u64. securely.
Qed.

Lemma chain_bounded_push addr len flags c room :
  is_uint 32 len → chain_bounded c (S room) → chain_bounded (push_segment addr len flags c) room.
Proof.
  intros Hlen (Hr & Hw & Hl). unfold push_segment. case_match; unfold chain_bounded; simpl; split_and!; try done;
    unfold segs_ok in *; rewrite ?Forall_app, ?length_app, ?Forall_singleton; simpl; (done || lia).
Qed.

Lemma secure_walk vq fuel : ∀ idx c,
  chain_bounded c fuel → secure I (λ c, chain_bounded c 0) (walk_chain fuel mem vq idx c).
Proof.
  induction fuel as [|fuel IH]; intros idx c Hc; cbn [walk_chain]; [apply secure_throw|].
  eapply secure_bind; [apply secure_read_desc|]. intros [[[addr len] flags] next] Hlen. simpl in Hlen.
  case_match; [apply secure_throw|]. pose proof (chain_bounded_push addr len flags c fuel Hlen Hc) as Hpush.
  case_match; [|by apply IH]. apply secure_ret. destruct Hpush as (? & ? & ?). split_and!; [done..|lia].
Qed.

Lemma secure_read_chain vq head : secure I (λ c, chain_bounded c 0) (read_chain mem vq head).
Proof. apply secure_walk. split_and!; [by apply Forall_nil_2..|simpl; lia]. Qed.

Lemma secure_segment addr len :
  secure I (λ s, sl_len s = len ∧ Forall (in_region mem) (slice_cells s)) (segment (Hp := Hp) mem addr len).
Proof.
  apply secure_lift. destruct (get_slice mem Gpa addr len) as [s|] eqn:Hs; simpl; [|done].
  split; [by eapply get_slice_len|by eapply slice_in_region].
Qed.

Lemma secure_segment_mut addr len :
  secure I (λ s, sl_len s = len ∧ Forall (in_region mem) (slice_cells s)) (segment_mut (Hp := Hp) mem addr len).
Proof. apply secure_segment. Qed.

Lemma secure_gather segs : ∀ buf,
  segs_ok segs →
  secure I (λ b, Z.of_nat (length b) = Z.of_nat (length buf) + segs_len segs) (gather_segments mem segs buf).
Proof.
  induction segs as [|[addr len] segs IH]; intros buf Hok; cbn [gather_segments segs_len foldr].
  - apply secure_ret. lia.
  - apply Forall_cons in Hok as [Hlen Hok]. simpl in Hlen. eapply secure_bind; [apply secure_segment|].
    intros s [Hl Hs]. eapply secure_bind; [by apply secure_load|]. intros b Hb.
    eapply secure_weaken; [by apply IH|]. cbv beta. intros b' ->. rewrite length_app, Hb, Hl. simpl.
    change (foldr _ 0 segs) with (segs_len segs). uint.
Qed.

Lemma secure_prefix segs max : ∀ buf,
  (length buf ≤ max)%nat → secure I (λ b, (length b ≤ max)%nat) (gather_prefix_segments mem segs max buf).
Proof.
  induction segs as [|[addr len] segs IH]; intros buf Hb; cbn [gather_prefix_segments]; [by apply secure_ret|].
  destruct (Nat.leb_spec max (length buf)); [by apply secure_ret|]. eapply secure_bind; [apply secure_segment|]. intros s [Hl Hs].
  eapply secure_bind; [by apply secure_load|]. cbv beta. intros b Hlb. apply IH. rewrite length_app. lia.
Qed.

Lemma secure_scatter segs : ∀ data written,
  segs_ok segs → secure I any (scatter_segments mem segs data written).
Proof.
  induction segs as [|[addr len] segs IH]; intros data written Hok; cbn [scatter_segments]; [by apply secure_ret|].
  apply Forall_cons in Hok as [Hlen Hok]. simpl in Hlen. destruct data as [|b data]; [by apply secure_ret|].
  set (n := Z.min _ _). assert (0 ≤ n ≤ Z.of_nat (length (b :: data))) as Hn by (unfold n; uint).
  eapply secure_bind; [apply secure_segment_mut|]. intros s [Hl Hs].
  eapply secure_bind; [apply secure_store; [done|]|].
  { rewrite length_take, Hl. lia. }
  intros [] _. eapply secure_bind; [by apply secure_uadd|]. intros w _. by apply IH.
Qed.

Lemma secure_iovecs segs mutable : ∀ skip rem iovs,
  Forall (λ s, Forall (in_region mem) (slice_cells s)) iovs →
  secure I (Forall (λ s, Forall (in_region mem) (slice_cells s))) (iovecs_loop mem segs skip rem mutable iovs).
Proof.
  induction segs as [|[addr len] segs IH]; intros skip rem iovs Hi; cbn [iovecs_loop]; [by apply secure_ret|].
  case_match; [by apply secure_ret|]. case_match; [by apply IH|].
  eapply secure_bind; [by apply secure_uadd|]. intros start _.
  eapply (secure_bind _ (λ s, sl_len s = Z.min (len - skip) rem ∧ Forall (in_region mem) (slice_cells s))).
  { case_match; [apply secure_segment_mut|apply secure_segment]. }
  intros s [Hl Hs]. apply IH. apply Forall_app. split; [done|]. apply Forall_singleton.
  destruct s as [p l]. simpl in *. by subst.
Qed.

Lemma secure_load_iovecs iov :
  Forall (λ s, Forall (in_region mem) (slice_cells s)) iov → secure I any (load_iovecs iov).
Proof.
  induction 1 as [|s iov Hs Hi IH]; cbn [load_iovecs]; [by apply secure_ret|].
  eapply secure_bind; [by apply secure_load|]. intros b _. eapply secure_bind; [exact IH|]. intros bs _. by apply secure_ret.
Qed.

Lemma secure_fill iov data :
  Forall (λ s, Forall (in_region mem) (slice_cells s)) iov → secure I any (fill_iovecs iov data).
Proof.
  intros Hi. apply rk_store. unfold iovs_cells. apply Forall_concat. by apply Forall_fmap.
Qed.
End Device.

(** ** The server on such a memory *)

(** The sizes of the queues that are built. *)
Definition queue_sizes {Hp} `{Host} (s : ServerOn Hp) : list (option Z) :=
  (λ slot, queue_size <$> slot_vq slot) <$> srv_vrings s.

Section Hostile.
Context `{Libc, Build, HashOrder, HL : HostLaws, !Mmap, !Events, !EventLaws, !Socket World, Ram Hp}.
Context (mem : GuestMemory) (I : Hp → Prop) `{!RamKeeps mem I} (Hrel : overflow_checks = false).
Context (sizes : list (option Z)) (Hsizes : Some 0 ∉ sizes).

(** A server that can serve [n] more requests. *)
Record sound (n : nat) (s : ServerOn Hp) : Prop := {
  so_heap : I (srv_heap s);
  so_lasts : session_lasts n (srv_session s);
  so_mem : srv_mem s = Some mem;
  so_sizes : queue_sizes s = sizes;
}.

Lemma sound_less n n' s : (n' ≤ n)%nat → sound n s → sound n' s.
Proof.
  intros Hn [Hh [Hok Hr] Hm Hs]. split; try done. split; [done|]. eapply s_room_weaken; [|exact Hr]. lia.
Qed.

Lemma secure_heap {A} n (V : A → Prop) (m : M Hp VirtqueueError A) : secure I V m → secure (sound n) V (on_heap m).
Proof.
  intros Hm s [Hh Hl Hmem Hs]. unfold on_heap, zoom, map_errM. specialize (Hm _ Hh).
  destruct (m (srv_heap s)) as [[a|e|] h']; simpl in *; [destruct Hm; split; [|done]|..|done]; by split.
Qed.

(** A step that may use up a request. *)
Definition serves_one {A} n (m : M (ServerOn Hp) ProtoError A) : Prop :=
  ⟪ sound (S n) ⟫ m ⤳ (λ _, sound n) ⊘ (λ _, sound n).

Lemma before {A B} n (V : A → Prop) (m : M (ServerOn Hp) ProtoError A) (k : A → M (ServerOn Hp) ProtoError B) (Q : B → ServerOn Hp → Prop) :
  secure (sound (S n)) V m → (∀ a, V a → ⟪ sound (S n) ⟫ k a ⤳ Q ⊘ (λ _, sound n)) →
  ⟪ sound (S n) ⟫ m ≫= k ⤳ Q ⊘ (λ _, sound n).
Proof.
  intros Hm Hk. eapply triple_bind_pure; [|exact Hk]. eapply triple_weaken; [exact Hm|done|done|].
  intros e s. apply sound_less. lia.
Qed.

Lemma serves_session_handle n req : slice_ok req → serves_one n (on_session (Session_handle req)).
Proof.
  intros Hreq s [Hh Hl Hm Hs]. unfold on_session, zoom.
  destruct (session_lasts_step (E := ProtoError) n req (srv_session s) Hreq Hl) as (r & x & -> & Hx & _). by split.
Qed.

Lemma secure_gather_chain n c :
  chain_bounded c 0 → secure (sound n) slice_ok (on_heap (gather_readable mem c)).
Proof.
  intros (Hr & _ & Hlen). apply secure_heap. eapply secure_weaken; [by apply secure_gather|]. cbv beta. intros b Hb.
  pose proof (segs_len_bound _ Hr). unfold MAX_CHAIN_LEN in Hlen. unfold slice_ok. simpl in Hb. lia.
Qed.

Lemma secure_scatter_chain n c data :
  chain_bounded c 0 → secure (sound n) any (on_heap (scatter_writable mem c data)).
Proof. intros (_ & Hw & _). by apply secure_heap, secure_scatter. Qed.

Lemma serves_generic n c : chain_bounded c 0 → serves_one n (dispatch_generic mem c).
Proof.
  intros Hc. apply (before n slice_ok); [by apply secure_gather_chain|]. intros req Hreq.
  eapply triple_bind; [by apply serves_session_handle|]. intros [b|]; [|by apply triple_ret].
  eapply triple_weaken; [by apply (secure_scatter_chain n c b)|done|by intros ? ? []|done].
Qed.

Lemma serves_transfer {A} n (m : M PassthroughFs FsError A) op :
  run_op op = discard m → wf_op op → is_create op = false → (∀ k, keeps (fs_room k) m) →
  ⟪ sound (S n) ⟫ attempt (F := ProtoError) (on_fs m) ⤳ (λ r s, sound n s ∧ r ≠ Panic) ⊘ (λ _, sound n).
Proof.
  intros Hop Hwf Hc Hk s [Hh Hl Hm Hs]. pose proof (lasts_transfer m op n _ Hop Hwf Hc Hk Hl) as Ht.
  unfold attempt, on_fs, zoom, srv_fs. destruct (m (s_fs (srv_session s))) as [[a|e|] fs']; [..|done];
    (split; [by split|done]).
Qed.

Lemma serves_write_vectored n fh off data :
  ⟪ sound (S n) ⟫ attempt (F := ProtoError) (on_fs (PassthroughFs_write_vectored fh off data))
  ⤳ (λ r s, sound n s ∧ r ≠ Panic) ⊘ (λ _, sound n).
Proof. apply (serves_transfer n _ (FWriteVectored fh off data)); [done..|]. intros k. apply room_vectored_write. Qed.

Lemma serves_read_vectored n fh off lens :
  ⟪ sound (S n) ⟫ attempt (F := ProtoError) (on_fs (PassthroughFs_read_vectored fh off lens))
  ⤳ (λ r s, sound n s ∧ r ≠ Panic) ⊘ (λ _, sound n).
Proof. apply (serves_transfer n _ (FReadVectored fh off lens)); [done..|]. intros k. apply room_vectored_read. Qed.

(** The zero-copy paths: an answer, or nothing done. *)
Definition tried n (o : option Z) : ServerOn Hp → Prop := match o with Some _ => sound n | None => sound (S n) end.

Lemma prefix_headers prefix :
  (length prefix ≤ REQUEST_HEADER_LEN)%nat → slice_ok prefix ∧ slice_ok (InHeader_body prefix).
Proof.
  unfold REQUEST_HEADER_LEN, IN_HEADER_LEN, slice_ok, InHeader_body. rewrite length_drop. lia.
Qed.

Lemma tries_write n c prefix :
  chain_bounded c 0 → (length prefix ≤ REQUEST_HEADER_LEN)%nat →
  ⟪ sound (S n) ⟫ try_write_zero_copy mem c prefix ⤳ tried n ⊘ (λ _, sound n).
Proof.
  intros Hc Hlp. destruct (prefix_headers prefix Hlp) as [H1' H2']. unfold try_write_zero_copy.
  rewrite InHeader_from_bytes_eq, WriteIn_from_bytes_eq by done.
  case_decide; [|by apply triple_ret]. case_decide; [|by apply triple_ret].
  apply (before n (Forall (λ s, Forall (in_region mem) (slice_cells s)))).
  { apply secure_heap, secure_iovecs; [done|by apply Forall_nil_2]. }
  intros iov Hiov. apply (before n any); [by eapply secure_heap, secure_load_iovecs|]. intros data _.
  eapply triple_bind; [apply serves_write_vectored|]. intros r. eapply (triple_bind _ _ _ (λ _, sound n)).
  - eapply triple_weaken; [by apply (secure_scatter_chain n c)|by intros ? []|by intros ? ? []|done].
  - intros w. by apply triple_ret.
Qed.

Lemma secure_sum_lens {S E} (J : S → Prop) segs : ∀ acc, secure (E := E) J any (lift (sum_lens segs acc)).
Proof.
  intros acc. apply secure_lift. revert acc. induction segs as [|[a l] segs IH]; intros acc; cbn [sum_lens]; [done|].
  destruct (release_arith (E := E) 64 (acc + l) Hrel ltac:(lia)) as (r & Hr & _). unfold uadd. rewrite Hr. apply IH.
Qed.

Lemma tries_read n c prefix :
  chain_bounded c 0 → (length prefix ≤ REQUEST_HEADER_LEN)%nat →
  ⟪ sound (S n) ⟫ try_read_zero_copy mem c prefix ⤳ tried n ⊘ (λ _, sound n).
Proof.
  intros Hc Hlp. destruct (prefix_headers prefix Hlp) as [H1' H2']. unfold try_read_zero_copy.
  rewrite InHeader_from_bytes_eq, ReadIn_from_bytes_eq by done.
  case_decide; [|by apply triple_ret]. case_decide; [|by apply triple_ret].
  apply (before n any); [apply secure_sum_lens|]. intros cap _.
  apply (before n (Forall (λ s, Forall (in_region mem) (slice_cells s)))).
  { apply secure_heap, secure_iovecs; [done|by apply Forall_nil_2]. }
  intros iov Hiov. eapply triple_bind_pure; [apply serves_read_vectored|]. intros [data|e|] Hr; [| |done].
  - eapply (triple_bind_pure _ _ _ (sound n) any); [by eapply secure_heap, secure_fill|]. intros [] _.
    eapply (triple_bind_pure _ _ _ (sound n) any); [by apply secure_scatter_chain|]. intros hw _.
    eapply (triple_bind_pure _ _ _ (sound n)); [by apply secure_uadd|]. intros t _. by apply triple_ret.
  - eapply (triple_bind_pure _ _ _ (sound n) any); [by apply secure_scatter_chain|]. intros hw _. by apply triple_ret.
Qed.

Lemma serves_or_generic n c m :
  chain_bounded c 0 → ⟪ sound (S n) ⟫ m ⤳ tried n ⊘ (λ _, sound n) → serves_one n (or_generic mem c m).
Proof.
  intros Hc Hm. eapply triple_bind; [exact Hm|]. intros [w|]; [by apply triple_ret|by apply serves_generic].
Qed.

Lemma serves_request n vq head : queue_size vq ≠ 0 → serves_one n (serve_request mem vq head).
Proof.
  intros Hq. apply (before n (λ c, chain_bounded c 0)); [by apply secure_heap, secure_read_chain|]. intros c Hc.
  apply (before n (λ b, (length b ≤ REQUEST_HEADER_LEN)%nat)).
  { apply secure_heap, secure_prefix; [done|]. simpl. lia. }
  intros prefix Hlp. eapply (triple_bind _ _ _ (λ _, sound n)).
  - destruct (request_opcode prefix); try by apply serves_generic.
    + apply serves_or_generic; [done|]. by apply tries_read.
    + apply serves_or_generic; [done|]. by apply tries_write.
  - intros w. eapply triple_weaken; [by apply (secure_heap n any), secure_push_used|done|by intros ? ? []|done].
Qed.

(** ** The queue loop *)

Lemma sound_slot n idx f s :
  (∀ slot, srv_vrings s !! idx = Some slot → queue_size <$> slot_vq (f slot) = queue_size <$> slot_vq slot) →
  sound n s → sound n (update_slot idx f s).
Proof.
  intros Hf [Hh Hl Hm Hs]. split; try done. rewrite <- Hs. unfold queue_sizes. simpl. apply list_eq. intros j.
  rewrite !list_lookup_fmap. destruct (decide (j = idx)) as [->|]; [|by rewrite list_lookup_alter_ne].
  rewrite list_lookup_alter_eq. destruct (srv_vrings s !! idx) eqn:Hi; [|done]. simpl. f_equal. by apply Hf.
Qed.

Lemma sound_queue n idx s vq : sound n s → slot_queue idx s = Some vq → queue_size vq ≠ 0.
Proof.
  intros [_ _ _ Hs] Hq Hz. apply Hsizes. rewrite <- Hs. unfold slot_queue in Hq.
  destruct (srv_vrings s !! idx) as [slot|] eqn:Hi; [|done]. simpl in Hq.
  apply list_elem_of_fmap. exists slot. rewrite Hq. simpl. rewrite Hz. split; [done|]. by eapply list_elem_of_lookup_2.
Qed.

(** The queue of a slot stays there. *)
Lemma sound_has n idx s : sound n s → is_Some (slot_queue idx s) ↔ ∃ q, sizes !! idx = Some (Some q).
Proof.
  intros [_ _ _ Hs]. rewrite <- Hs. unfold queue_sizes, slot_queue. rewrite list_lookup_fmap.
  destruct (srv_vrings s !! idx) as [slot|]; simpl; [|by split; [intros []|intros (q & [=])]].
  destruct (slot_vq slot) as [vq|]; simpl; split; try naive_solver.
Qed.

Lemma serves_process_one n idx vq s :
  slot_queue idx s = Some vq → sound (S n) s →
  match process_one mem idx vq s with
  | (Ok _, s') | (Err _, s') => sound n s'
  | (Panic, _) => False
  end.
Proof.
  intros Hslot Hs. pose proof (sound_queue _ _ _ _ Hs Hslot) as Hq. unfold process_one.
  pose proof (secure_heap (S n) _ _ (secure_pop_avail mem I Hrel vq Hq) s Hs) as Hpop.
  rewrite M_bind_run. assert (slot_queue idx (on_heap (pop_avail mem vq) s).2 = Some vq) as Hslot'.
  { rewrite <- Hslot. unfold on_heap, zoom, map_errM. by destruct (pop_avail mem vq (srv_heap s)). }
  destruct (on_heap (pop_avail mem vq) s) as [[[o vq']|e|] s1]; [|by eapply sound_less, Hpop; lia|done].
  destruct Hpop as [Hs1 Hsize]. simpl in Hsize, Hslot'. destruct o as [head|]; [|by eapply sound_less, Hs1; lia].
  rewrite M_bind_run. unfold modify.
  assert (sound (S n) (update_slot idx (set_slot_vq vq') s1)) as Hs2.
  { apply sound_slot; [|done]. intros slot Hi. unfold slot_queue in Hslot'. rewrite Hi in Hslot'. simpl in *.
    rewrite Hslot'. simpl. by rewrite Hsize. }
  rewrite M_bind_run. pose proof (serves_request n vq' head ltac:(congruence) _ Hs2) as Hr.
  destruct (serve_request mem vq' head _) as [[[]|e|] s3]; done.
Qed.

Lemma loop_safe idx q fuel : ∀ n k,
  sizes !! idx = Some (Some q) →
  ⟪ sound (fuel + n) ⟫ process_loop fuel mem idx k ⤳ (λ _, sound n) ⊘ (λ _, sound n).
Proof.
  induction fuel as [|fuel IH]; intros n k Hq s Hs; cbn [process_loop]; [done|].
  rewrite M_bind_run. unfold gets. destruct (proj2 (sound_has _ idx _ Hs) (ex_intro _ q Hq)) as [vq Hvq]. rewrite Hvq.
  rewrite M_bind_run. unfold map_errM. pose proof (serves_process_one (fuel + n) idx vq s Hvq Hs) as Hone.
  destruct (process_one mem idx vq s) as [[[]|e|] s1]; cbn [map_err]; [| | |done]; try (eapply sound_less, Hone; lia).
  rewrite M_bind_run. unfold lift. destruct (release_iadd (E := Stop) 32 k 1 Hrel) as [k' ->]. by apply IH.
Qed.

Lemma sound_world n w s : open_fds w = open_fds (srv_world s) → sound n s → sound n (set_world w s).
Proof. intros Hw [Hh Hl Hm Hs]. split; try done. by apply lasts_world. Qed.

Lemma vring_safe idx fuel n :
  (idx < length sizes)%nat → ⟪ sound (fuel + n) ⟫ process_vring fuel idx ⤳ (λ _, sound n) ⊘ (λ _, sound n).
Proof.
  intros Hidx s Hs. unfold process_vring. rewrite !M_bind_run. unfold gets at 1. rewrite M_bind_run. unfold gets.
  rewrite (so_mem _ _ Hs). assert (length (srv_vrings s) = length sizes) as Hlen.
  { rewrite <- (so_sizes _ _ Hs). unfold queue_sizes. by rewrite length_fmap. }
  destruct (srv_vrings s !! idx) as [slot|] eqn:Hi; [|apply lookup_ge_None in Hi; lia].
  destruct (slot_vq slot) as [vq|] eqn:Hvq; [|by eapply sound_less, Hs; lia].
  assert (∃ q, sizes !! idx = Some (Some q)) as [q Hq].
  { apply (sound_has _ _ _ Hs). unfold slot_queue. rewrite Hi. simpl. rewrite Hvq. by eexists. }
  rewrite M_bind_run. pose proof (loop_safe idx q fuel n 0 Hq s Hs) as Hl.
  destruct (process_loop fuel mem idx 0 s) as [[k|e|] s1]; [|done..].
  destruct (0 <? k); [|done]. destruct (slot_call_fd slot) as [fd|]; [|done].
  unfold on_world, zoom, notify. apply sound_world; [|done]. apply law_write.
Qed.

(** ** The event loop *)

Lemma kick_slots_lt vrings : Forall (λ p, (p.1 < length vrings)%nat) (kick_slots vrings).
Proof.
  apply Forall_forall. intros [idx fd] Hin. unfold kick_slots in Hin. apply list_elem_of_omap in Hin as ([j slot] & Hj & He).
  simpl in He. destruct (slot_enabled slot); [|done]. destruct (slot_kick_fd slot); [|done]. injection He as -> ->.
  apply elem_of_zip_l, elem_of_seq in Hj. simpl. lia.
Qed.

Lemma length_omap_le {A B} (f : A → option B) l : (length (omap f l) ≤ length l)%nat.
Proof. induction l as [|x l IH]; [done|]. unfold omap in *. simpl. destruct (f x); simpl; lia. Qed.

Lemma length_kick_slots vrings : (length (kick_slots vrings) ≤ length vrings)%nat.
Proof.
  unfold kick_slots. etrans; [apply length_omap_le|]. rewrite length_zip, length_seq. lia.
Qed.

Lemma drain_ends fuel fd w : (drain_fd fuel fd w).1 ≠ Panic.
Proof.
  revert w. induction fuel as [|fuel IH]; intros w; cbn [drain_fd]; [done|].
  destruct (read_waits fd w); [done|]. destruct (sys_read fd 256 w) as [[k|e] w1]; [|done]. by destruct (_ || _).
Qed.

Lemma drain_safe n fuel fd : secure (sound n) any (on_world (drain_fd fuel fd)).
Proof.
  intros s Hs. unfold on_world, zoom. pose proof (drain_ends fuel fd (srv_world s)) as Hp'.
  destruct (drain_fd fuel fd (srv_world s)) as [r w] eqn:Hd. apply drain_fds in Hd.
  pose proof (sound_world n w s Hd Hs). by destruct r.
Qed.

Lemma kicks_safe fuel kicks n :
  Forall (λ k, (k.1.1 < length sizes)%nat) kicks →
  ⟪ sound (length kicks * fuel + n) ⟫ serve_kicks fuel kicks ⤳ (λ _, sound n) ⊘ (λ _, sound n).
Proof.
  induction 1 as [|[[idx fd] revents] kicks Hk Hks IH]; cbn [serve_kicks length]; [by apply triple_ret|].
  simpl in Hk. eapply (triple_bind _ _ _ (λ _, sound (length kicks * fuel + n))); [|by intros []].
  replace (S (length kicks) * fuel + n)%nat with (fuel + (length kicks * fuel + n))%nat by lia.
  case_match; [|apply triple_ret; intros s; apply sound_less; lia].
  eapply (triple_bind _ _ _ (λ _, sound (fuel + (length kicks * fuel + n)))).
  - eapply triple_weaken; [apply drain_safe|done|by intros ? ? []|intros ? ?; apply sound_less; lia].
  - intros []. eapply triple_weaken; [by apply vring_safe|done|done|intros ? ?; apply sound_less; lia].
Qed.

(** The front-end says nothing more. *)
Definition silent (fds : list Z) (w : World) : Prop :=
  match (sys_poll fds w).1 with inl revents => nth 0 revents 0 = 0 | inr _ => True end.

Lemma iteration_safe fuel n :
  (∀ fds w, silent fds w) →
  ⟪ sound (length sizes * fuel + n) ⟫ run_iteration fuel ⤳ (λ _, sound n) ⊘ (λ _, sound n).
Proof.
  intros Hsil s Hs. unfold run_iteration. rewrite !M_bind_run. unfold gets at 1. rewrite M_bind_run. unfold gets.
  set (slots := kick_slots (srv_vrings s)). assert (length (srv_vrings s) = length sizes) as Hlen.
  { rewrite <- (so_sizes _ _ Hs). unfold queue_sizes. by rewrite length_fmap. }
  rewrite M_bind_run. unfold on_world, zoom at 1. pose proof (Hsil (srv_conn s :: slots.*2) (srv_world s)) as Hq.
  pose proof (law_poll (srv_conn s :: slots.*2) (srv_world s)) as Hw. unfold silent in Hq.
  destruct (sys_poll (srv_conn s :: slots.*2) (srv_world s)) as [[revents|e] w]; simpl in Hq, Hw.
  2:{ eapply sound_world in Hs; [|exact Hw]. destruct (e =? errno_val EINTR); (eapply sound_less, Hs; lia). }
  eapply sound_world in Hs; [|exact Hw]. rewrite Hq. simpl. rewrite M_bind_run. simpl.
  pose proof (length_kick_slots (srv_vrings s)) as Hk. fold slots in Hk.
  apply (kicks_safe fuel (zip slots (drop 1 revents)) n).
  - apply Forall_forall. intros [p r] Hin. apply elem_of_zip_l in Hin. simpl.
    pose proof (kick_slots_lt (srv_vrings s)) as Hlt. rewrite Forall_forall in Hlt. rewrite <- Hlen. by apply Hlt.
  - eapply sound_less, Hs. rewrite length_zip. nia.
Qed.

Lemma run_safe fuel : ∀ n,
  (∀ fds w, silent fds w) →
  ⟪ sound (length sizes * (fuel * fuel) + n) ⟫ run fuel ⤳ (λ _, sound n) ⊘ (λ _, sound n).
Proof.
  induction fuel as [|fuel IH]; intros n Hsil; cbn [run].
  { apply triple_throw. intros s. apply sound_less. lia. }
  eapply (triple_bind _ _ _ (λ _, sound (length sizes * (fuel * fuel) + n))); [|intros []; by apply IH].
  eapply triple_weaken; [by apply (iteration_safe fuel (length sizes * (fuel * fuel) + n))| |done|].
  - intros s. apply sound_less. nia.
  - intros e s. apply sound_less. lia.
Qed.
End Hostile.

(** ** The shared memory keeps its promise *)

(** The mapped regions are backed; outside them, and out of the guest's reach, nothing has changed
    since [h0]. *)
Record shared_ok `{Guest} (mem : GuestMemory) (h0 : Heap) (m : Shared) : Prop := {
  sh_backed c : in_region mem c → is_Some (sh_bytes m !! c);
  sh_outside c : ¬ in_region mem c → guest_reach c = false → sh_bytes m !! c = h0 !! c;
}.

Section SharedMemory.
Context `{Guest} (mem : GuestMemory) (h0 : Heap).

Lemma poke_cases h cb c :
  (is_Some (h !! c) → is_Some (poke h cb !! c)) ∧ (guest_reach c = false → poke h cb !! c = h !! c).
Proof.
  unfold poke. destruct cb as [c' b]. simpl. destruct (guest_reach c') eqn:Hr; [|done]. simpl.
  case_bool_decide; [|done]. destruct (decide (c = c')) as [->|].
  - rewrite lookup_insert_eq. split; [by eexists|congruence].
  - by rewrite lookup_insert_ne.
Qed.

Lemma turn_ok m : shared_ok mem h0 m → shared_ok mem h0 (guest_turn m).
Proof.
  intros Hm. unfold guest_turn. generalize (guest_moves (sh_time m) (sh_bytes m)). intros l.
  assert (∀ h, shared_ok mem h0 (mkShared h (sh_time m)) → shared_ok mem h0 (mkShared (foldl poke h l) (S (sh_time m))))
    as Hl; [|apply Hl; by destruct Hm; split].
  induction l as [|cb l IH]; intros h [Hb Ho]; [by split|]. apply IH. split; simpl.
  - intros c Hc. by apply poke_cases, Hb.
  - intros c Hc Hr. rewrite (proj2 (poke_cases h cb c) Hr). by apply Ho.
Qed.

Lemma shared_load cs m : shared_ok mem h0 m → Forall (in_region mem) cs → is_Some (load_cells cs (sh_bytes m)).
Proof.
  intros Hm Hcs. apply load_cells_is_Some. eapply Forall_impl; [exact Hcs|]. apply Hm.
Qed.

Lemma shared_store cs bs m :
  shared_ok mem h0 m → Forall (in_region mem) cs → shared_ok mem h0 (mkShared (store_cells cs bs (sh_bytes m)) (sh_time m)).
Proof.
  intros [Hb Ho] Hcs. split; simpl.
  - intros c Hc. apply store_cells_mono. by apply Hb.
  - intros c Hc Hr. rewrite store_cells_notin; [by apply Ho|]. intros Hin. rewrite Forall_forall in Hcs. naive_solver.
Qed.

#[global] Instance shared_keeps : RamKeeps mem (shared_ok mem h0).
Proof.
  split.
  - intros E cs Hcs m Hm%turn_ok. cbn [load_at shared_ram]. destruct (shared_load cs _ Hm Hcs) as [b Hb].
    rewrite Hb. split; [done|]. by eapply load_cells_length.
  - intros E cs bs Hcs m Hm%turn_ok. cbn [store_at shared_ram]. destruct (shared_load cs _ Hm Hcs) as [b Hb].
    rewrite Hb. split; [by apply shared_store|done].
Qed.
End SharedMemory.

(** * Properties *)

(** C4: a guest cannot break the daemon through its memory.  In a build without overflow checks
    (the release profile), with queues of non-zero size and a front-end that has finished the
    setup, the event loop never panics, whatever bytes the guest stores into the rings, the
    descriptors and the buffers and at whatever moments, also between two accesses to the same
    request.  The session stays well formed (no descriptor lost, no table broken), and memory that
    is neither mapped nor in the guest's own reach is never written. *)
Theorem hostile_guest_contained
    `{Libc, Build, HashOrder, HL : HostLaws, !Mmap, !Events, !EventLaws, !Socket World, Guest}
    fuel mem (s : ServerOn Shared) :
  overflow_checks = false → (∀ fds w, silent fds w) → srv_mem s = Some mem →
  (∀ c, in_region mem c → is_Some (sh_bytes (srv_heap s) !! c)) → Some 0 ∉ queue_sizes s →
  session_lasts (length (srv_vrings s) * (fuel * fuel)) (srv_session s) →
  let '(r, s') := run fuel s in
  r ≠ Panic ∧ session_ok (srv_session s') ∧
  (∀ c, ¬ in_region mem c → guest_reach c = false → sh_bytes (srv_heap s') !! c = sh_bytes (srv_heap s) !! c).
Proof.
  intros Hrel Hsil Hmem Hback Hsz Hl.
  set (I := shared_ok mem (sh_bytes (srv_heap s))).
  assert (sound mem I (queue_sizes s) (length (queue_sizes s) * (fuel * fuel) + 0) s) as Hs.
  { split; [by split| |done|done]. unfold queue_sizes. by rewrite length_fmap, Nat.add_0_r. }
  pose proof (run_safe mem I Hrel (queue_sizes s) Hsz fuel 0 Hsil s Hs) as Hr.
  destruct (run fuel s) as [r s']. assert (sound mem I (queue_sizes s) 0 s' ∧ r ≠ Panic) as [[[_ Ho] [Hok _] _ _] Hp]
    by (by destruct r).
  split_and!; [done|done|]. intros c Hc Hg. by apply Ho.
Qed.

#[local] Existing Instance toy_host.
#[local] Existing Instance linux_libc.
#[local] Existing Instance key_order.

(** A guest that rewrites the opcode of its request and the index of its ring all the time. *)
Definition restless_guest : Guest := {|
  guest_reach c := c.1 =? 7;
  guest_moves t _ := match u16_le (Z.of_nat t) with b :: _ => [((7, 0x84), b); ((7, 0x42), b)] | [] => [] end;
|}.

Definition restless_server : ServerOn Shared :=
  mkServer (srv_conn kicked_server) (srv_mem kicked_server) (srv_vrings kicked_server) (srv_session kicked_server)
    (mkShared (srv_heap kicked_server) 0).

Lemma hostile_guest_contained_witness :
  (run (H0 := unchecked_build) (H3 := toy_mmap) (H4 := kick_events) (Socket0 := toy_closed)
       (H5 := shared_ram (H := restless_guest)) 3 restless_server).1 ≠ Panic.
Proof.
  pose proof (hostile_guest_contained (H0 := unchecked_build) (HL := toy_laws) (H3 := toy_mmap) (H4 := kick_events)
    (H5 := kick_event_laws) (Socket0 := toy_closed) (H6 := restless_guest) 3 io_memory restless_server) as Hw.
  destruct (run 3 restless_server) as [r s']. apply Hw.
  - reflexivity.
  - intros fds w. reflexivity.
  - reflexivity.
  - intros c (reg & Hreg%list_elem_of_singleton & Hc). subst reg.
    destruct (io_memory_ok (request 1 7 ROOT_ID (name_a ++ [NUL]))) as [Hm _].
    apply Forall_singleton in Hm as [_ _ _ Hb]. rewrite Forall_forall in Hb.
    change (sh_bytes (srv_heap restless_server)) with (srv_heap kicked_server). rewrite kicked_heap. by apply Hb.
  - change (queue_sizes restless_server) with [Some 4]. by intros [=]%list_elem_of_singleton.
  - apply kicked_lasts. simpl. lia.
Defined.

(** READ into a reply buffer whose second part starts at the last guest address. *)
Definition overflow_server : Server :=
  mkServer 3 (Some io_memory) [mkVringSlot (Some 4) 0 (Some (ring_queue 4 0)) None None true] io_session
    (store_cells (cells (7, 48) 8) (u64_le (2 ^ 64 - 1)) (io_heap io_read)).

(** In a build with overflow checks a guest can stop the daemon: the start of the payload within a
    reply buffer is computed as [addr + skip] before the address is looked up, so a descriptor at
    the end of the address space makes [iovecs_from] panic.  Without the checks the same request
    ends with an error. *)
Theorem read_buffer_overflow :
  (process_vring (H0 := checked_build) (H4 := toy_events) 2 0 overflow_server).1 = Panic ∧
  (process_vring (H0 := unchecked_build) (H4 := toy_events) 2 0 overflow_server).1 =
    Err (Failed (PVirtqueue OutOfBounds)).
Proof. split; vm_compute; reflexivity. Qed.
