(* ===== verification/Daemon.v ===== *)
(** * The daemon

    [main.rs]: open the shared directory, listen, accept one front-end and serve it.  The command
    line is parsed by [clap]; its two arguments are arguments here.  [std::process::exit] runs no
    destructors, so what is open stays with the process. *)

From S2P Require Import Prelude Libc Errors Bytes Attr Wire Inode Handle Host ToyHost Passthrough.
From S2P Require Import FsProps Dispatch DispatchProps Capacity VhostMsg Memory Virtqueue Doorbell.
From S2P Require Import Connection Server ServerProps.
From stdpp Require Import list gmultiset.
Local Open Scope Z_scope.

(** [cfg!(unix)]: every target modelled is a Unix. *)
Definition PASSTHROUGH_SUPPORTED `{Libc} : bool :=
  match target_os with
  | Linux | MacOS | OtherUnix => true
  end.

(** The same for the transport; nothing reads it. *)
Definition VHOST_USER_SUPPORTED `{Libc} : bool :=
  match target_os with
  | Linux | MacOS | OtherUnix => true
  end.

(** [std::fs::remove_file]. *)
Class RemoveFile (W : Type) := { std_remove_file : bytes → W → (unit + Z) * W }.

Section Main.
Context `{Libc, Build, HashOrder, Host, !Mmap, !Events, !Socket World, !UnixNet World, !RemoveFile World, Ram Hp}.

(** What the process exits with when [run] is over. *)
Definition exit_of (r : outcome Stop unit * ServerOn Hp) : outcome Stop Z * World :=
  let '(r, s) := r in
  (match r with
   | Ok _ | Err Finished => Ok 0
   | Err (Failed _) => Ok 1
   | Err Blocked => Err Blocked
   | Err OutOfFuel => Err OutOfFuel
   | Panic => Panic
   end, srv_world s).

Definition main (fuel : nat) (shared_dir socket_path : bytes) (h : Hp) (w : World) : outcome Stop Z * World :=
  if PASSTHROUGH_SUPPORTED then
    match PassthroughFs_new shared_dir w with
    | (Panic, w) => (Panic, w)
    | (Err _, w) => (Ok 1, w)
    | (Ok fs, w) =>
        let '(_, w) := std_remove_file socket_path w in
        match unix_bind socket_path w with
        | (inr _, w) => (Ok 1, w)
        | (inl listener, w) =>
            match Connection_accept listener w with
            | (Panic, w) => (Panic, w)
            | (Err _, w) => (Ok 1, w)
            | (Ok conn, w) =>
                let session := Session_new (mkFs _ w (inodes fs) (fhandles fs)) in
                exit_of (run fuel (Server_new conn session h))
            end
        end
    end
  else (Ok 1, w).
End Main.

(** unlink(2), bind(2) and accept(2), on the descriptors of the process. *)
Class NetLaws `{HL : HostLaws, !UnixNet World, !RemoveFile World} := {
  law_remove path : keeps_fds open_fds (std_remove_file path);
  law_bind path : opens_fd open_fds (unix_bind path);
  law_accept l : opens_fd open_fds (unix_accept l);
}.

(** * Lemmas *)

Section Start.
Context `{Libc, Build, HashOrder, HL : HostLaws}.

(** The file system of a process that has opened [more] descriptors since. *)
Lemma fs_inv_opened b more fs w :
  fs_inv b fs → open_fds w = more ⊎ open_fds (world fs) →
  fs_inv (more ⊎ b) (mkFs _ w (inodes fs) (fhandles fs)).
Proof. intros [Hi Hh Hf] Hw. split; [done..|]. simpl. rewrite Hw, Hf. multiset_solver. Qed.

Lemma lasts_opened n b fs w :
  s_room (2 * Z.of_nat n) (Session_new fs) → fs_inv b (mkFs _ w (inodes fs) (fhandles fs)) →
  session_lasts n (Session_new (mkFs _ w (inodes fs) (fhandles fs))).
Proof.
  intros [] Hi. split; [split; [by exists b|apply map_Forall_empty]|by split].
Qed.

Lemma new_world path w fs w' : PassthroughFs_new path w = (Ok fs, w') → world fs = w'.
Proof.
  unfold PassthroughFs_new. case_bool_decide; [done|]. destruct (sys_open _ _ w) as [[fd|e] w1]; [|done].
  destruct (sys_fstat fd w1) as [[st|e] w2]; [|done]. by intros [= <- <-].
Qed.
End Start.

Lemma server_new_vrings `{Libc, Build, HashOrder, Host} {Hp} conn session (h : Hp) : vrings_ok (Server_new conn session h).
Proof.
  split; [done|]. apply Forall_replicate. split_and!; [done|done|done].
Qed.

(** A host with a listening socket. *)
#[local] Existing Instance toy_host.
#[local] Existing Instance linux_libc.
#[local] Existing Instance key_order.
#[local] Existing Instance checked_build.

Definition toy_net : UnixNet World := {|
  unix_bind _ w := toy_alloc 12 w;
  unix_accept _ w := toy_alloc 12 w;
  unix_connect _ w := toy_alloc 12 w;
|}.
Definition toy_rm : RemoveFile World := {| std_remove_file _ w := (inr 2, w) |}.

Definition toy_net_laws : NetLaws (HL := toy_laws) (UnixNet0 := toy_net) (RemoveFile0 := toy_rm).
Proof. split; [by intros path w|..]; intros ? w; by apply toy_alloc_opens. Qed.

(** * Properties *)

(** C30: a daemon whose start-up succeeds serves its front-end from a sound state: the loop runs
    on the accepted connection with two unconfigured queues that stay well formed as long as it
    runs, the file system owns its root descriptor and nothing else, the only other descriptors
    opened are the listener and the connection, and the session can serve any number of
    requests below 2^63 - 1; the exit status is the loop's. *)
Theorem daemon_serves
    `{Libc, Build, HashOrder, HL : HostLaws, !Mmap, !Events, !Socket World, !UnixNet World, !RemoveFile World, !NetLaws, Ram Hp}
    fuel shared_dir socket_path (h : Hp) w fs w1 l w2 c w3 :
  PassthroughFs_new shared_dir w = (Ok fs, w1) →
  unix_bind socket_path (std_remove_file socket_path w1).2 = (inl l, w2) → unix_accept l w2 = (inl c, w3) →
  ∃ s, main fuel shared_dir socket_path h w = exit_of (run fuel s) ∧
    srv_conn s = c ∧ srv_mem s = None ∧ srv_world s = w3 ∧ vrings_ok s ∧ vrings_ok (run fuel s).2 ∧
    fs_inv ({[+ c +]} ⊎ {[+ l +]} ⊎ open_fds w) (srv_fs s) ∧
    ∀ n, Z.of_nat n < 2 ^ 63 - 1 → session_lasts n (srv_session s).
Proof.
  intros Hnew Hbind Hacc. set (fs' := mkFs _ w3 (inodes fs) (fhandles fs)).
  assert (fs_inv ({[+ c +]} ⊎ {[+ l +]} ⊎ open_fds w) fs') as Hinv.
  { apply fs_inv_opened; [by eapply new_inv|]. rewrite (new_world _ _ _ _ Hnew).
    pose proof (law_accept l w2) as Ha. rewrite Hacc in Ha. destruct Ha as [-> _].
    pose proof (law_bind socket_path (std_remove_file socket_path w1).2) as Hb. rewrite Hbind in Hb.
    destruct Hb as [-> _]. rewrite (law_remove socket_path w1). multiset_solver. }
  exists (Server_new c (Session_new fs') h). split_and!; try done.
  - unfold main. replace PASSTHROUGH_SUPPORTED with true by (unfold PASSTHROUGH_SUPPORTED; by destruct target_os).
    rewrite Hnew. destruct (std_remove_file socket_path w1) as [? wr]. simpl in Hbind. rewrite Hbind.
    unfold Connection_accept, os_call, mbind, M_bind. by rewrite Hacc.
  - apply server_new_vrings.
  - apply keeps_run, server_new_vrings.
  - intros n Hn. eapply lasts_opened; [|exact Hinv]. eapply lasts_new; [|exact Hnew]. lia.
Qed.

Lemma daemon_serves_witness :
  ∃ s, main (H3 := toy_mmap) (H4 := toy_events) (Socket0 := toy_closed) (UnixNet0 := toy_net)
            (RemoveFile0 := toy_rm) 2 [Byte.x2f] [Byte.x73] ∅ (toy0 8) =
       exit_of (run (H3 := toy_mmap) (H4 := toy_events) (Socket0 := toy_closed) 2 s) ∧ srv_conn s = 5 ∧
       (main (H3 := toy_mmap) (H4 := toy_events) (Socket0 := toy_closed) (UnixNet0 := toy_net)
            (RemoveFile0 := toy_rm) 2 [Byte.x2f] [Byte.x73] ∅ (toy0 8)).1 = Ok 0.
Proof.
  destruct (daemon_serves (HL := toy_laws) (H3 := toy_mmap) (H4 := toy_events) (Socket0 := toy_closed)
    (UnixNet0 := toy_net) (RemoveFile0 := toy_rm) (H5 := toy_net_laws) 2 [Byte.x2f] [Byte.x73] ∅ (toy0 8)
    (toy_fs 8) (world (toy_fs 8)) 4 (toy_alloc 12 (world (toy_fs 8))).2 5
    (toy_alloc 12 (toy_alloc 12 (world (toy_fs 8))).2).2) as (s & Hmain & Hc & _).
  - apply toy_fs_new. lia.
  - vm_compute. reflexivity.
  - vm_compute. reflexivity.
  - exists s. split; [exact Hmain|]. split; [exact Hc|]. vm_compute. reflexivity.
Defined.
