(* ===== verification/GuestSession.v ===== *)
(** * Requests and their meaning

    The request of a guest kernel for each operation ([sent], by the structures of
    [include/uapi/linux/fuse.h]) and the reply it gets ([reply_of]).  [Session::handle] on the bytes
    of a request is the operation on the file system with its result encoded; with [GuestRefine.v]
    it is a step of what a client sees. *)

From S2P Require Import Prelude Libc Errors Bytes Attr Wire Inode Handle Host Posix Passthrough FsProps.
From S2P Require Import GuestView GuestRefine Dispatch DispatchProps.
Local Open Scope Z_scope.

(** ** Encoding *)

Definition bit_if {A} (x : option A) (bit : Z) : Z := match x with Some _ => bit | None => 0 end.

Definition valid_bits (sa : SetAttr) : Z :=
  Z.lor (Z.lor (Z.lor (bit_if (sa_mode sa) FATTR_MODE) (bit_if (sa_uid sa) FATTR_UID))
               (Z.lor (bit_if (sa_gid sa) FATTR_GID) (bit_if (sa_size sa) FATTR_SIZE)))
        (Z.lor (bit_if (sa_atime sa) FATTR_ATIME) (bit_if (sa_mtime sa) FATTR_MTIME)).

(** [struct fuse_setattr_in]. *)
Definition encode_setattr (r : SetattrIn) : bytes :=
  u32_le (si_valid r) ++ u32_le 0 ++ u64_le 0 ++ u64_le (si_size r) ++ u64_le 0 ++ u64_le (si_atime r) ++
  u64_le (si_mtime r) ++ u64_le 0 ++ u32_le (si_atimensec r) ++ u32_le (si_mtimensec r) ++ u32_le 0 ++
  u32_le (si_mode r) ++ u32_le 0 ++ u32_le (si_uid r) ++ u32_le (si_gid r) ++ u32_le 0.

Record SetattrIn_ok (r : SetattrIn) : Prop := {
  sio_valid : is_uint 32 (si_valid r);
  sio_size : is_uint 64 (si_size r);
  sio_atime : is_uint 64 (si_atime r);
  sio_mtime : is_uint 64 (si_mtime r);
  sio_atimensec : is_uint 32 (si_atimensec r);
  sio_mtimensec : is_uint 32 (si_mtimensec r);
  sio_mode : is_uint 32 (si_mode r);
  sio_uid : is_uint 32 (si_uid r);
  sio_gid : is_uint 32 (si_gid r);
}.

Definition setattr_in (sa : SetAttr) : SetattrIn :=
  let time (t : option (Z * Z)) := default (0, 0) t in
  mkSetattrIn (valid_bits sa) (default 0 (sa_size sa)) (wrap 64 (time (sa_atime sa)).1) (wrap 64 (time (sa_mtime sa)).1)
    (time (sa_atime sa)).2 (time (sa_mtime sa)).2 (default 0 (sa_mode sa)) (default 0 (sa_uid sa)) (default 0 (sa_gid sa)).

Definition time_ok (t : Z * Z) : Prop := - 2 ^ 63 ≤ t.1 < 2 ^ 63 ∧ is_uint 32 t.2.

Definition within {A} (P : A → Prop) (x : option A) : Prop := match x with Some a => P a | None => True end.

Record setattr_ok (sa : SetAttr) : Prop := {
  sao_size : within (is_uint 64) (sa_size sa);
  sao_mode : within (is_uint 32) (sa_mode sa);
  sao_uid : within (is_uint 32) (sa_uid sa);
  sao_gid : within (is_uint 32) (sa_gid sa);
  sao_atime : within time_ok (sa_atime sa);
  sao_mtime : within time_ok (sa_mtime sa);
}.

Abbreviation is_flags f := (- 2 ^ 31 ≤ f < 2 ^ 31).

(** The opcode, the node and the body of the request for an operation; fields the server does not
    look at are arbitrary. *)
Inductive sent : FsOp → Opcode → Z → bytes → Prop :=
| sent_lookup p n rest : NUL ∉ n → sent (FLookup p n) OpLookup p (n ++ NUL :: rest)
| sent_forget i c rest : is_uint 64 c → sent (FForget i c) OpForget i (u64_le c ++ rest)
| sent_getattr i flags pad fh rest :
    sent (FGetattr i) OpGetattr i (u32_le flags ++ u32_le pad ++ u64_le fh ++ rest)
| sent_setattr i sa : setattr_ok sa → sent (FSetattr i sa) OpSetattr i (encode_setattr (setattr_in sa))
| sent_readlink i rest : sent (FReadlink i) OpReadlink i rest
| sent_symlink p n t rest :
    NUL ∉ n → NUL ∉ t → sent (FSymlink p n t) OpSymlink p (n ++ NUL :: t ++ NUL :: rest)
| sent_mkdir p n m umask rest :
    NUL ∉ n → is_uint 32 m → sent (FMkdir p n m) OpMkdir p (u32_le m ++ u32_le umask ++ n ++ NUL :: rest)
| sent_unlink p n rest : NUL ∉ n → sent (FUnlink p n) OpUnlink p (n ++ NUL :: rest)
| sent_rmdir p n rest : NUL ∉ n → sent (FRmdir p n) OpRmdir p (n ++ NUL :: rest)
| sent_rename p n p' n' rest :
    NUL ∉ n → NUL ∉ n' → is_uint 64 p' →
    sent (FRename p n p' n') OpRename p (u64_le p' ++ n ++ NUL :: n' ++ NUL :: rest)
| sent_rename2 p n p' n' flags rest :
    NUL ∉ n → NUL ∉ n' → is_uint 64 p' →
    sent (FRename p n p' n') OpRename2 p (u64_le p' ++ u64_le flags ++ n ++ NUL :: n' ++ NUL :: rest)
| sent_link i p n rest :
    NUL ∉ n → is_uint 64 i → sent (FLink i p n) OpLink p (u64_le i ++ n ++ NUL :: rest)
| sent_open i flags rest : is_flags flags → sent (FOpen i flags) OpOpen i (u32_le flags ++ rest)
| sent_create p n flags m umask rest :
    NUL ∉ n → is_flags flags → is_uint 32 m →
    sent (FCreate p n flags m) OpCreate p (u32_le flags ++ u32_le m ++ u64_le umask ++ n ++ NUL :: rest)
| sent_read node h off n rest :
    is_uint 64 h → is_uint 64 off → Z.of_nat n < 2 ^ 32 →
    sent (FRead h off n) OpRead node (u64_le h ++ u64_le off ++ u32_le (Z.of_nat n) ++ rest)
| sent_write node h off b misc rest :
    is_uint 64 h → is_uint 64 off → Z.of_nat (length b) < 2 ^ 32 → length misc = 20%nat →
    sent (FWrite h off b) OpWrite node
      (u64_le h ++ u64_le off ++ u32_le (Z.of_nat (length b)) ++ misc ++ b ++ rest)
| sent_statfs i rest : sent (FStatfs i) OpStatfs i rest
| sent_release node h rest : is_uint 64 h → sent (FRelease h) OpRelease node (u64_le h ++ rest)
| sent_fsync node h rest : is_uint 64 h → sent (FFsync h) OpFsync node (u64_le h ++ rest)
| sent_opendir i flags rest : sent (FOpendir i) OpOpendir i (u32_le flags ++ rest)
| sent_releasedir node h rest : is_uint 64 h → sent (FReleasedir h) OpReleasedir node (u64_le h ++ rest).

(** ** Replies *)

Definition ret_body (op : FsOp) (x : FsRet) : bytes :=
  match x with
  | RUnit | RDir _ => []
  | REntry id a => entry_out id a
  | RAttr a => match op with FLink id _ _ => entry_out id a | _ => attr_out a end
  | RCreated id h a => entry_out id a ++ open_out h
  | RHandle h => open_out h
  | RBytes b => b
  | RCount n => write_out (as_u32 (Z.of_nat n))
  | RStatvfs st => statfs_out st
  end.

Section Replies.
Context `{Libc}.

Definition reply_of (unique : Z) (op : FsOp) (r : outcome FsError FsRet) : Reply :=
  match op, r with
  | FForget _ _, _ => ReplyNone
  | _, Ok x => ok_reply unique (ret_body op x)
  | _, Err e => errno_reply unique e
  | _, Panic => ReplyNone
  end.
End Replies.

(** The listings the directory handles are being read from: RELEASEDIR forgets the one of its
    handle. *)
Abbreviation Listings := (gmap Z (list DirEntry)).

Definition listings_after (op : FsOp) (c : Listings) : Listings :=
  match op with FReleasedir h => delete h c | _ => c end.

(** The state of a session after an operation. *)
Definition session_after `{Host} (op : FsOp) (fs : PassthroughFs) (s : Session) : Session :=
  mkSession _ fs (listings_after op (readdir_cache s)).

(** * Lemmas *)

Lemma SetattrIn_encode r : SetattrIn_ok r → SetattrIn_from_bytes (encode_setattr r) = Ok r.
Proof.
  intros [Hv Hz Ha Hm Han Hmn Hmd Hu Hg]. assert (length (encode_setattr r) = 88%nat) as Hl by (unfold encode_setattr; len).
  rewrite SetattrIn_from_bytes_eq by (unfold slice_ok; rewrite Hl; lia). rewrite Hl, decide_True by lia.
  unfold encode_setattr. fields. unfold as_u32, as_u64. rewrite !wrap_id by done. by destruct r.
Qed.

Lemma within_default (P : Z → Prop) x : P 0 → within P x → P (default 0 x).
Proof. by destruct x. Qed.

Lemma setattr_in_ok sa : setattr_ok sa → SetattrIn_ok (setattr_in sa).
Proof.
  intros [Hz Hm Hu Hg Ha Ht]. split; simpl; try (by apply wrap_range); try (apply within_default; [uint|done]).
  - unfold valid_bits, bit_if.
    by destruct (sa_mode sa), (sa_uid sa), (sa_gid sa), (sa_size sa), (sa_atime sa), (sa_mtime sa).
  - destruct (sa_atime sa); [apply Ha|simpl; uint].
  - destruct (sa_mtime sa); [apply Ht|simpl; uint].
Qed.

Lemma request_header opcode unique nodeid body :
  is_uint 32 opcode → is_uint 64 unique → is_uint 64 nodeid → slice_ok (request opcode unique nodeid body) →
  ∃ h, InHeader_from_bytes (request opcode unique nodeid body) = Ok h ∧
    ih_opcode h = opcode ∧ ih_unique h = unique ∧ ih_nodeid h = nodeid.
Proof.
  intros Ho Hu Hn Hs. rewrite InHeader_from_bytes_eq by done.
  rewrite decide_True by (unfold request; len). eexists. split; [done|]. simpl. unfold request.
  fields. unfold as_u32, as_u64. by rewrite !wrap_id.
Qed.

Lemma request_body opcode unique nodeid body : InHeader_body (request opcode unique nodeid body) = body.
Proof.
  unfold InHeader_body. rewrite Nat.min_l by (unfold request, IN_HEADER_LEN; len).
  unfold request. rewrite !app_assoc. apply drop_app_length'. unfold IN_HEADER_LEN. len.
Qed.

Lemma trim_nul_name n rest : NUL ∉ n → trim_nul (n ++ NUL :: rest) = n.
Proof. intros Hn. unfold trim_nul. rewrite position_app by done. apply take_app_length. Qed.

Lemma split_two_names n t rest :
  NUL ∉ n → NUL ∉ t → split_two_cstrs (n ++ NUL :: t ++ NUL :: rest) = (Some n, Some t).
Proof.
  intros Hn Ht. unfold split_two_cstrs, cstrs_next. cbn [Nat.leb]. rewrite position_app by done. cbn [Nat.leb].
  rewrite take_app_length, drop_app_ge by lia. replace (S (length n) - length n)%nat with 1%nat by lia.
  change (drop 1 (NUL :: ?l)) with l. rewrite position_app by done. by rewrite take_app_length.
Qed.

Section Arms.
Context `{Libc, Build, HashOrder, Host}.
Implicit Types s : Session.

(** An arm that runs an operation and replies with its result. *)
Definition answers (unique : Z) (op : FsOp) (m : M Session Reply Reply) : Prop :=
  ∀ s, returned (E := ProtoError) m s =
    let '(r, fs) := exec_op op (s_fs s) in
    (match r with Panic => Panic | _ => Ok (reply_of unique op r) end, session_after op fs s).

Lemma answers_fs {A} op unique (m : M PassthroughFs FsError A) (f : A → FsRet) (body : A → bytes) :
  exec_op op = returns f m → (∀ i c, op ≠ FForget i c) → (∀ h, op ≠ FReleasedir h) →
  (∀ a, ret_body op (f a) = body a) →
  answers unique op (a ← try_fs unique m; mret (ok_reply unique (body a))).
Proof.
  intros He Hf Hr Hb s. rewrite He. unfold returned, returns, try_fs, zoom, map_errM, mbind, M_bind.
  assert (∀ fs, session_after op fs s = mkSession _ fs (readdir_cache s)) as Hs.
  { intros fs. unfold session_after. destruct op; try done. by destruct (Hr handle). }
  assert (∀ r, r ≠ Panic → reply_of unique op r =
    match r with Ok x => ok_reply unique (ret_body op x) | Err e => errno_reply unique e | Panic => ReplyNone end) as Hrep.
  { intros r _. unfold reply_of. destruct op; try done. by destruct (Hf ino count). }
  destruct (m (s_fs s)) as [[a|e|] fs]; simpl; rewrite Hs; [|by rewrite Hrep|done].
  rewrite Hrep by done. by rewrite Hb.
Qed.

Lemma answers_parse {A} op unique (r : outcome ProtoError A) a (k : A → M Session Reply Reply) :
  r = Ok a → answers unique op (k a) → answers unique op (x ← try_parse unique r; k x).
Proof. intros -> Hk s. exact (Hk s). Qed.

Lemma parse_u64 v rest : is_uint 64 v → slice_ok (u64_le v ++ rest) → parse Reader_u64 (u64_le v ++ rest) = Ok v.
Proof.
  intros Hv Hs. unfold parse, Reader_new. rewrite (Reader_u64_at _ Hs) by lia. rewrite decide_True by len. simpl.
  fields. f_equal. by apply wrap_id.
Qed.

Lemma parse_u32 v rest : slice_ok (u32_le v ++ rest) → parse Reader_u32 (u32_le v ++ rest) = Ok (wrap 32 v).
Proof.
  intros Hs. unfold parse, Reader_new. rewrite (Reader_u32_at _ Hs) by lia. rewrite decide_True by len. simpl. by fields.
Qed.

Lemma answers_forget unique i c rest :
  is_uint 64 c → slice_ok (u64_le c ++ rest) → answers unique (FForget i c) (handle_forget unique i (u64_le c ++ rest)).
Proof.
  intros Hc Hs. eapply answers_parse; [by apply parse_u64|]. intros s.
  unfold exec_op, returns, returned, fs_forget, zoom, mbind, M_bind. simpl.
  by destruct (PassthroughFs_forget i c (s_fs s)) as [[[]|e|] fs].
Qed.

Lemma answers_releasedir unique h rest :
  is_uint 64 h → slice_ok (u64_le h ++ rest) →
  answers unique (FReleasedir h) (handle_releasedir unique (u64_le h ++ rest)).
Proof.
  intros Hc Hs. eapply answers_parse; [by apply parse_u64|]. intros s.
  unfold exec_op, returns, returned, modify, try_fs, zoom, map_errM, mbind, M_bind. simpl.
  by destruct (PassthroughFs_releasedir h (s_fs s)) as [[[]|e|] fs].
Qed.

Lemma set_time_plain (t : option (Z * Z)) valid now_bit bit s :
  Z.land valid now_bit = 0 → Z.land valid bit = bit_if t bit → bit ≠ 0 → within time_ok t →
  set_time valid now_bit bit (wrap 64 (default (0, 0) t).1) (default (0, 0) t).2 s = (Ok t, s).
Proof.
  intros Hn Hb Hne Ht. unfold set_time. rewrite Hn, Hb. simpl. destruct t as [[sec ns]|]; simpl; [|done].
  rewrite (proj2 (Z.eqb_neq bit 0) Hne). simpl. destruct Ht as [Ht _]. simpl in Ht.
  unfold as_i64. by rewrite sign_wrap, sign_id.
Qed.

Lemma field_plain (x : option Z) valid bit :
  Z.land valid bit = bit_if x bit → bit ≠ 0 →
  (if negb (Z.land valid bit =? 0) then Some (default 0 x) else None) = x.
Proof. intros -> Hne. destruct x; simpl; [|done]. by rewrite (proj2 (Z.eqb_neq bit 0) Hne). Qed.

Lemma valid_bits_at sa :
  let v := valid_bits sa in
  Z.land v FATTR_MODE = bit_if (sa_mode sa) FATTR_MODE ∧ Z.land v FATTR_UID = bit_if (sa_uid sa) FATTR_UID ∧
  Z.land v FATTR_GID = bit_if (sa_gid sa) FATTR_GID ∧ Z.land v FATTR_SIZE = bit_if (sa_size sa) FATTR_SIZE ∧
  Z.land v FATTR_ATIME = bit_if (sa_atime sa) FATTR_ATIME ∧ Z.land v FATTR_MTIME = bit_if (sa_mtime sa) FATTR_MTIME ∧
  Z.land v FATTR_ATIME_NOW = 0 ∧ Z.land v FATTR_MTIME_NOW = 0.
Proof.
  unfold valid_bits, bit_if.
  by destruct (sa_mode sa), (sa_uid sa), (sa_gid sa), (sa_size sa), (sa_atime sa), (sa_mtime sa).
Qed.

Lemma answers_setattr unique i sa :
  setattr_ok sa → answers unique (FSetattr i sa) (handle_setattr unique i (encode_setattr (setattr_in sa))).
Proof.
  intros Hsa. eapply answers_parse; [by apply SetattrIn_encode, setattr_in_ok|]. intros s.
  destruct (valid_bits_at sa) as (Hm & Hu & Hg & Hz & Ha & Ht & Han & Htn). 
  unfold setattr_in. cbn [si_valid si_size si_atime si_mtime si_atimensec si_mtimensec si_mode si_uid si_gid].
  unfold returned at 1. rewrite M_bind_run, set_time_plain by (done || apply Hsa).
  rewrite M_bind_run, set_time_plain by (done || apply Hsa).
  rewrite !field_plain by done. replace (mkSetAttr _ _ _ _ _ _) with sa by (by destruct sa).
  by apply (answers_fs (FSetattr i sa) unique (PassthroughFs_setattr i sa) RAttr attr_out).
Qed.

Lemma ReadIn_sent h off n rest :
  is_uint 64 h → is_uint 64 off → Z.of_nat n < 2 ^ 32 →
  slice_ok (u64_le h ++ u64_le off ++ u32_le (Z.of_nat n) ++ rest) →
  ReadIn_from_bytes (u64_le h ++ u64_le off ++ u32_le (Z.of_nat n) ++ rest) = Ok (mkReadIn h off (Z.of_nat n)).
Proof.
  intros Hh Ho Hn Hs. rewrite ReadIn_from_bytes_eq by done. rewrite decide_True by len. fields.
  unfold as_u64, as_u32. rewrite !wrap_id; [done|uint|done|done].
Qed.

Lemma WriteIn_sent h off b misc rest :
  is_uint 64 h → is_uint 64 off → Z.of_nat (length b) < 2 ^ 32 → length misc = 20%nat →
  slice_ok (u64_le h ++ u64_le off ++ u32_le (Z.of_nat (length b)) ++ misc ++ b ++ rest) →
  WriteIn_from_bytes (u64_le h ++ u64_le off ++ u32_le (Z.of_nat (length b)) ++ misc ++ b ++ rest) =
    Ok (mkWriteIn h off (Z.of_nat (length b)), b ++ rest).
Proof.
  intros Hh Ho Hn Hm Hs. rewrite WriteIn_from_bytes_eq by done. rewrite decide_True by len. f_equal. f_equal.
  - fields. unfold as_u64, as_u32. rewrite !wrap_id; [done|uint|done|done].
  - rewrite !app_assoc, <- (app_assoc _ b rest). apply drop_app_length'. len.
Qed.

Lemma answers_write unique h off b misc rest :
  is_uint 64 h → is_uint 64 off → Z.of_nat (length b) < 2 ^ 32 → length misc = 20%nat →
  slice_ok (u64_le h ++ u64_le off ++ u32_le (Z.of_nat (length b)) ++ misc ++ b ++ rest) →
  answers unique (FWrite h off b)
    (handle_write unique (u64_le h ++ u64_le off ++ u32_le (Z.of_nat (length b)) ++ misc ++ b ++ rest)).
Proof.
  intros. eapply answers_parse; [by apply WriteIn_sent|]. cbn [wi_size wi_fh wi_offset].
  rewrite length_app, Nat2Z.inj_add, Z.min_l, Nat2Z.id, take_app_length by lia.
  by apply (answers_fs (FWrite h off b) unique _ RCount (λ n, write_out (as_u32 (Z.of_nat n)))).
Qed.

Lemma answers_ext {A} op unique (m : M Session Reply A) (k k' : A → M Session Reply Reply) :
  (∀ a, k a = k' a) → answers unique op (m ≫= k') → answers unique op (m ≫= k).
Proof.
  intros Hk Hm s. rewrite <- Hm. unfold returned, mbind, M_bind. destruct (m s) as [[a|e|] s']; [by rewrite Hk|done..].
Qed.

Lemma wrap_u32_le v : u32_le (wrap 32 v) = u32_le v.
Proof. rewrite !u32_le_split. symmetry. apply (le_split_mod v 4). Qed.

Lemma flags_roundtrip f : is_flags f → as_i32 (wrap 32 f) = f.
Proof. intros Hf. unfold as_i32. by rewrite sign_wrap, sign_id. Qed.

(** A request of the guest runs the operation it stands for. *)
Lemma handle_sent op opc node body unique :
  sent op opc node body → slice_ok (request (Opcode_code opc) unique node body) →
  answers unique op (handle_opcode opc unique node body).
Proof.
  intros Hsent Hs. assert (Z.of_nat (length body) + 40 < 2 ^ 63) as Hlen.
  { unfold slice_ok, request in Hs. autorewrite with len in Hs. lia. }
  clear Hs. assert (slice_ok body) as Hs by (unfold slice_ok; lia).
  destruct Hsent; cbn [handle_opcode]; autorewrite with len in Hlen.
  - unfold handle_lookup. cbv zeta. rewrite trim_nul_name by done.
    by apply (answers_fs (FLookup p n) unique _ (λ r, REntry r.1 r.2) (λ r, entry_out r.1 r.2)).
  - by apply answers_forget.
  - eapply answers_parse; [rewrite GetattrIn_from_bytes_eq, decide_True by (done || len); reflexivity|].
    by apply (answers_fs (FGetattr i) unique _ RAttr attr_out).
  - by apply answers_setattr.
  - by apply (answers_fs (FReadlink i) unique _ RBytes id).
  - unfold handle_symlink. rewrite split_two_names by done.
    by apply (answers_fs (FSymlink p n t) unique _ (λ r, REntry r.1 r.2) (λ r, entry_out r.1 r.2)).
  - eapply answers_parse.
    { apply (named_requests_roundtrip m 0 umask 0 n [] rest); try done; [apply not_elem_of_nil|unfold slice_ok; len]. }
    by apply (answers_fs (FMkdir p n m) unique _ (λ r, REntry r.1 r.2) (λ r, entry_out r.1 r.2)).
  - unfold handle_unlink. rewrite trim_nul_name by done. by apply (answers_fs (FUnlink p n) unique _ (λ _, RUnit) (λ _, [])).
  - unfold handle_rmdir. rewrite trim_nul_name by done. by apply (answers_fs (FRmdir p n) unique _ (λ _, RUnit) (λ _, [])).
  - eapply answers_parse.
    { apply (named_requests_roundtrip 0 0 0 p' n n' rest); try done; unfold slice_ok; len. }
    by apply (answers_fs (FRename p n p' n') unique _ (λ _, RUnit) (λ _, [])).
  - eapply answers_parse.
    { apply (named_requests_roundtrip 0 0 flags p' n n' rest); try done; unfold slice_ok; len. }
    by apply (answers_fs (FRename p n p' n') unique _ (λ _, RUnit) (λ _, [])).
  - eapply answers_parse.
    { apply (named_requests_roundtrip 0 0 0 i n [] rest); try done; [apply not_elem_of_nil|unfold slice_ok; len]. }
    by apply (answers_fs (FLink i p n) unique _ RAttr (entry_out i)).
  - eapply answers_parse; [by apply parse_u32|]. rewrite flags_roundtrip by done.
    by apply (answers_fs (FOpen i flags) unique _ RHandle open_out).
  - eapply answers_parse.
    { rewrite <- (wrap_u32_le flags).
      apply (named_requests_roundtrip (wrap 32 flags) m umask 0 n [] rest); try done;
        [apply wrap_range; lia|apply not_elem_of_nil|unfold slice_ok; len]. }
    cbn [ci_flags ci_mode fst snd]. rewrite flags_roundtrip by done.
    eapply answers_ext; [|by apply (answers_fs (FCreate p n flags m) unique _ (λ r, RCreated r.1.1 r.1.2 r.2)
      (λ r, entry_out r.1.1 r.2 ++ open_out r.1.2))]. by intros [[id h] a].
  - eapply answers_parse; [by apply ReadIn_sent|]. cbn [ri_fh ri_offset ri_size]. rewrite Nat2Z.id.
    by apply (answers_fs (FRead h off n) unique _ RBytes id).
  - by apply answers_write.
  - by apply (answers_fs (FStatfs i) unique _ RStatvfs statfs_out).
  - eapply answers_parse; [by apply parse_u64|]. by apply (answers_fs (FRelease h) unique _ (λ _, RUnit) (λ _, [])).
  - eapply answers_parse; [by apply parse_u64|]. by apply (answers_fs (FFsync h) unique _ (λ _, RUnit) (λ _, [])).
  - eapply answers_parse; [by apply parse_u32|]. by apply (answers_fs (FOpendir i) unique _ RHandle open_out).
  - by apply answers_releasedir.
Qed.
Lemma handle_bytes {E} opc unique node body s :
  Opcode_from (Opcode_code opc) = opc → is_uint 32 (Opcode_code opc) → is_uint 64 unique → is_uint 64 node →
  slice_ok (request (Opcode_code opc) unique node body) →
  Session_handle (E := E) (request (Opcode_code opc) unique node body) s =
    returned (handle_opcode opc unique node body) s.
Proof.
  intros Hof Ho Hu Hn Hs. destruct (request_header _ _ _ _ Ho Hu Hn Hs) as (h & Hh & Ho' & Hu' & Hn').
  unfold Session_handle. by rewrite Hh, Ho', Hu', Hn', Hof, request_body.
Qed.
End Arms.

Lemma sent_opcode op opc node body :
  sent op opc node body → Opcode_from (Opcode_code opc) = opc ∧ is_uint 32 (Opcode_code opc).
Proof. by destruct 1. Qed.

(** * Properties *)


#[local] Existing Instance linux_libc.
#[local] Existing Instance key_order.
#[local] Existing Instance debug_build.

