(* ===== verification/Conversation.v ===== *)
(** * Whole conversations

    What each request of a guest asks for ([asks], every opcode of the protocol) and what the
    guest may see ([mstep], [conversation]).  A session that serves the requests of a guest from a
    freshly opened share is such a conversation. *)

From S2P Require Import Prelude Libc Errors Bytes Attr Wire Inode Handle Host Posix Passthrough FsProps.
From S2P Require Import GuestView GuestRefine Dispatch DispatchProps Capacity GuestSession.
Local Open Scope Z_scope.

(** ** Requests *)

(** [MSet] is SETATTR with the times left open: they may be "now". *)
Inductive meaning :=
| MRun (op : FsOp)
| MSet (ino : Z) (size mode uid gid : option Z)
| MForget (l : list ForgetOne)
| MList (handle offset size : Z)
| MInit (max_readahead : Z)
| MNoop
| MUnsupported.

(** The requests that do not reach the file system: those with nothing to do and those the server
    does not support. *)
Definition noop (opc : Opcode) (body : bytes) : Prop :=
  match opc with
  | OpDestroy | OpFsyncdir => True
  | OpFlush => ∃ fh rest, is_uint 64 fh ∧ body = u64_le fh ++ rest
  | OpAccess => ∃ mask rest, body = u32_le mask ++ rest
  | _ => False
  end.

Definition unsupported (opc : Opcode) : bool :=
  match opc with
  | OpGetxattr | OpListxattr | OpSetxattr | OpRemovexattr | OpUnknown _ => true
  | _ => false
  end.

Definition asked_for (r : SetattrIn) (bit v : Z) : option Z :=
  if negb (Z.land (si_valid r) bit =? 0) then Some v else None.

Inductive asks : meaning → Opcode → Z → bytes → Prop :=
| asks_run op opc node body : sent op opc node body → asks (MRun op) opc node body
| asks_set i r :
    SetattrIn_ok r →
    asks (MSet i (asked_for r FATTR_SIZE (si_size r)) (asked_for r FATTR_MODE (si_mode r))
               (asked_for r FATTR_UID (si_uid r)) (asked_for r FATTR_GID (si_gid r)))
      OpSetattr i (encode_setattr r)
| asks_forget node l :
    Forall ForgetOne_ok l → Z.of_nat (length l) < 2 ^ 32 →
    asks (MForget l) OpBatchForget node (encode_batch_forget (Z.of_nat (length l)) l)
| asks_list node h off size :
    is_uint 64 h → is_uint 64 off → is_uint 32 size → asks (MList h off size) OpReaddir node (readdir_body h off size)
| asks_init node major minor ra flags rest :
    is_uint 32 ra →
    asks (MInit ra) OpInit node (u32_le major ++ u32_le minor ++ u32_le ra ++ u32_le flags ++ rest)
| asks_noop opc node body : noop opc body → asks MNoop opc node body
| asks_unsupported opc node body : unsupported opc = true → asks MUnsupported opc node body.

(** A request with what it asks for. *)
Record Req := mkReq { q_unique : Z; q_meaning : meaning; q_bytes : bytes }.

Definition req_ok (q : Req) : Prop :=
  ∃ opc node body, asks (q_meaning q) opc node body ∧ Opcode_from (Opcode_code opc) = opc ∧
    is_uint 32 (Opcode_code opc) ∧ is_uint 64 (q_unique q) ∧ is_uint 64 node ∧
    q_bytes q = request (Opcode_code opc) (q_unique q) node body ∧ slice_ok (q_bytes q).

(** ** What the guest may see *)

Section Seen.
Context `{Libc}.

Definition forget_in (v : View) (f : ForgetOne) : View :=
  set_inodes (forgotten (fo_nodeid f) (fo_nlookup f) (v_inodes v)) v.

(** The entries of a listing from an offset on, as many as a buffer holds. *)
Definition page_reply (unique offset size : Z) (l : list DirEntry) : Reply :=
  ok_reply unique (dirents offset (page (Z.to_nat size) (skip_z offset l))).

(** [c] is the listing each directory handle is being read from.  READDIR takes one when it starts
    from the beginning or there is none, and serves it until RELEASEDIR or a new start. *)
Inductive mstep (unique : Z) (v : View) (c : Listings) : meaning → Reply → View → Listings → Prop :=
| m_run op r v' :
    gstep v op r v' → mstep unique v c (MRun op) (reply_of unique op r) v' (listings_after op c)
| m_set i size mode uid gid atime mtime r v' :
    let op := FSetattr i (mkSetAttr size mode uid gid atime mtime) in
    gstep v op r v' → mstep unique v c (MSet i size mode uid gid) (reply_of unique op r) v' c
| m_forget l : mstep unique v c (MForget l) ReplyNone (foldl forget_in v l) c
| m_list_start h off size l :
    off = 0 ∨ c !! h = None → gstep v (FReaddir h) (Ok (RDir l)) v →
    mstep unique v c (MList h off size) (page_reply unique off size l) v (<[h := l]> c)
| m_list_more h off size l :
    off ≠ 0 → c !! h = Some l → mstep unique v c (MList h off size) (page_reply unique off size l) v c
| m_list_fails h off size e :
    off = 0 ∨ c !! h = None → mstep unique v c (MList h off size) (errno_reply unique e) v c
| m_init ra : mstep unique v c (MInit ra) (ok_reply unique (init_out ra)) v c
| m_noop : mstep unique v c MNoop (ok_reply unique []) v c
| m_unsupported : mstep unique v c MUnsupported (ReplyBytes (OutHeader_error_for unique (errno_val ENOSYS))) v c.

Inductive conversation : View → Listings → list (Req * Reply) → View → Listings → Prop :=
| talk_nil v c : conversation v c [] v c
| talk_cons v c v1 c1 v2 v3 c3 q reply l :
    mstep (q_unique q) v c (q_meaning q) reply v1 c1 → reaped_to v1 v2 → conversation v2 c1 l v3 c3 →
    conversation v c ((q, reply) :: l) v3 c3.

Definition proper_meaning (v : View) (m : meaning) : Prop :=
  match m with
  | MRun op => proper v op
  | MSet i size _ _ _ => i ≠ ROOT_ID ∧ (is_Some size → no_link v i)
  | _ => True
  end.
End Seen.

Section Along.
Context `{Libc, Build, HashOrder, Host, !PosixView}.

(** What holds of each request in the state it arrives in. *)
Fixpoint along (P : View → meaning → Prop) (qs : list Req) (s : Session) : Prop :=
  match qs with
  | [] => True
  | q :: qs => P (view (s_fs s)) (q_meaning q) ∧ along P qs (Session_handle (E := ProtoError) (q_bytes q) s).2
  end.
End Along.

(** The share with its root and nothing else. *)
Definition fresh_view (k : FileKey) (t : tree) : View :=
  mkView {[ROOT_ID := mkTracked k None [] 1]} ∅ t (ROOT_ID + 1).

(** * Lemmas *)

(** ** Reaping *)

Lemma reaped_in_use v v' k : reaped_to v v' → in_use v' k → in_use v k.
Proof.
  intros (Hi & Hh & _ & Hf & _) [[id Hid]|[(h & b & o & Ho & Hk)|(d & name & Hc)]].
  - left. exists id. unfold file_of in *. by rewrite <- Hi.
  - right; left. exists h, b, o. by rewrite <- Hh.
  - right; right. exists d, name. by eapply child_mono.
Qed.

Lemma reaped_to_trans v1 v2 v3 : reaped_to v1 v2 → reaped_to v2 v3 → reaped_to v1 v3.
Proof.
  intros H12 H23. pose proof H12 as (Hi & Hh & Hn & Hf & Hr). pose proof H23 as (Hi' & Hh' & Hn' & Hf' & Hr').
  split_and!; [congruence..| |].
  - by etrans.
  - intros k Hk Hk3 Hu. destruct (v_files v2 !! k) eqn:H2.
    + by apply (Hr' k).
    + apply (Hr k Hk H2). by eapply reaped_in_use.
Qed.

Lemma forgotten_file id count m i t : forgotten id count m !! i = Some t → k_file <$> m !! i = Some (k_file t).
Proof.
  unfold forgotten. case_decide; [by intros ->|]. destruct (m !! id) as [t'|] eqn:Ht; [|by intros ->].
  case_decide.
  - intros [_ ->]%lookup_delete_Some. done.
  - intros [[<- <-]|[_ ->]]%lookup_insert_Some; [by rewrite Ht|done].
Qed.

Lemma reaped_forgotten id count v v' :
  reaped_to v v' →
  reaped_to (set_inodes (forgotten id count (v_inodes v)) v) (set_inodes (forgotten id count (v_inodes v')) v').
Proof.
  intros (Hi & Hh & Hn & Hf & Hr). split_and!; simpl; [by rewrite Hi|done..|].
  intros k Hk Hk' Hu. apply (Hr k Hk Hk'). destruct Hu as [[i Hid]|Hu]; [left|by right].
  exists i. unfold file_of in *. simpl in Hid. destruct (forgotten _ _ _ !! i) as [t|] eqn:Ht; [|done].
  apply forgotten_file in Ht. by rewrite Ht.
Qed.

Lemma reaped_forgets l : ∀ v v', reaped_to v v' → reaped_to (foldl forget_in v l) (foldl forget_in v' l).
Proof. induction l as [|f l IH]; intros v v' Hr; [done|]. by apply IH, reaped_forgotten. Qed.

(** ** One request *)

Section Step.
Context `{Libc, Build, HashOrder, HL : HostLaws, !PosixView, !PosixLaws, !FlagLaws, !HashOrderLaws}.
Context (Hos : target_os ≠ OtherUnix).
Implicit Types s : Session.

(** A reply and a state the guest may see next. *)
Definition next_seen (unique : Z) (m : meaning) (s : Session) (r : outcome ProtoError Reply * Session) : Prop :=
  match r with
  | (Ok reply, s') => sane (s_fs s') ∧ ∃ v,
      mstep unique (view (s_fs s)) (readdir_cache s) m reply v (readdir_cache s') ∧ reaped_to v (view (s_fs s'))
  | (Err _, _) => False
  | (Panic, _) => True
  end.

Lemma next_run unique op s m :
  sane (s_fs s) → fs_roomy (s_fs s) → proper (view (s_fs s)) op → answers unique op m →
  next_seen unique (MRun op) s (returned m s).
Proof.
  intros Hs Hr Hp Ha. rewrite Ha. pose proof (exec_op_refines Hos (s_fs s) Hs Hr op Hp) as He. unfold wp in He.
  destruct (exec_op op (s_fs s)) as [r fs]. destruct He as (Hs' & v & Hg & Hrp). simpl in Hg.
  destruct r as [x|e|]; [| |done]; (split; [done|]); exists v; (split; [by constructor|done]).
Qed.

Lemma next_now (s : Session) t s' : now s = (Ok t, s') → ∃ w, same (world (s_fs s)) w ∧
  s' = mkSession _ (put_world w (s_fs s)) (readdir_cache s).
Proof.
  unfold now. pose proof (pl_now (world (s_fs s))) as Hw. destruct (sys_now (world (s_fs s))) as [x w].
  destruct (default (0, 0) x) as [secs nanos]. intros [= <- <-]. by exists w.
Qed.

Lemma next_set_time valid nb b t ns s : ∃ x w,
  set_time valid nb b t ns s = (Ok x, mkSession _ (put_world w (s_fs s)) (readdir_cache s)) ∧ same (world (s_fs s)) w.
Proof.
  unfold set_time. case_match.
  - destruct (now s) as [[y|e|] s'] eqn:Hn; try (revert Hn; unfold now; destruct (sys_now _) as [z w0];
      by destruct (default (0, 0) z)).
    destruct (next_now _ _ _ Hn) as (w & Hw & ->). exists (Some y), w. split; [|done].
    unfold mbind, M_bind. by rewrite Hn.
  - exists (if negb (Z.land valid b =? 0) then Some (as_i64 t, ns) else None), (world (s_fs s)).
    rewrite put_world_id. split; [|done]. destruct s; by case_match.
Qed.

Lemma returned_ok {E A} (m : M Session Reply A) (k : A → M Session Reply Reply) a s s' :
  m s = (Ok a, s') → returned (E := E) (m ≫= k) s = returned (k a) s'.
Proof. intros Hm. unfold returned, mbind, M_bind. by rewrite Hm. Qed.

Lemma next_set unique i r s :
  let size := asked_for r FATTR_SIZE (si_size r) in
  sane (s_fs s) → fs_roomy (s_fs s) → SetattrIn_ok r → i ≠ ROOT_ID → (is_Some size → no_link (view (s_fs s)) i) →
  next_seen unique (MSet i size (asked_for r FATTR_MODE (si_mode r)) (asked_for r FATTR_UID (si_uid r))
                         (asked_for r FATTR_GID (si_gid r))) s
    (returned (handle_setattr unique i (encode_setattr r)) s).
Proof.
  intros size Hs Hr Hok Hne Hnl. unfold handle_setattr. rewrite SetattrIn_encode by done.
  rewrite (returned_ok _ _ r s s) by done. cbv zeta.
  destruct (next_set_time (si_valid r) FATTR_ATIME_NOW FATTR_ATIME (si_atime r) (si_atimensec r) s) as (at' & w1 & Ht1 & Hw1).
  rewrite (returned_ok _ _ _ _ _ Ht1). set (s1 := mkSession _ _ _).
  destruct (next_set_time (si_valid r) FATTR_MTIME_NOW FATTR_MTIME (si_mtime r) (si_mtimensec r) s1) as (mt' & w2 & Ht2 & Hw2).
  rewrite (returned_ok _ _ _ _ _ Ht2). set (s2 := mkSession _ _ _).
  fold (asked_for r FATTR_SIZE (si_size r)) (asked_for r FATTR_MODE (si_mode r))
    (asked_for r FATTR_UID (si_uid r)) (asked_for r FATTR_GID (si_gid r)). fold size.
  set (sa := mkSetAttr _ _ _ _ at' mt').
  assert (same (world (s_fs s)) w2) as Hw by (by eapply same_trans).
  assert (view (s_fs s2) = view (s_fs s)) as Hv by (by apply (view_same w2 (s_fs s))).
  pose proof (answers_fs (FSetattr i sa) unique (PassthroughFs_setattr i sa) RAttr attr_out
    eq_refl ltac:(done) ltac:(done) ltac:(done)) as Ha.
  eapply (next_run unique (FSetattr i sa) s2) in Ha;
    [|by apply (sane_put w2 (s_fs s)), Hw|done|by rewrite Hv].
  unfold next_seen in *. rewrite Hv in Ha. destruct (returned _ s2) as [[reply|e|] s3]; [|done..].
  destruct Ha as (Hs3 & v & Hm & Hrp). split; [done|]. exists v. split; [|done].
  inversion Hm; subst. by apply m_set.
Qed.

Lemma forget_no_error ino count fs e fs' : PassthroughFs_forget ino count fs ≠ (Err e, fs').
Proof.
  unfold PassthroughFs_forget, with_inodes, zoom, close_fds, modify, mbind, M_bind.
  by destruct (InodeStore_forget ino count (inodes fs)).
Qed.

Lemma next_forgets l : ∀ s,
  sane (s_fs s) → Forall ForgetOne_ok l →
  ∃ s', forget_all l s = (Ok tt, s') ∧ sane (s_fs s') ∧ readdir_cache s' = readdir_cache s ∧
    reaped_to (foldl forget_in (view (s_fs s)) l) (view (s_fs s')).
Proof.
  induction l as [|f l IH]; intros s Hs Hl; cbn [forget_all foldl].
  - exists s. split_and!; [done..|]. by apply reaped_to_refl.
  - inversion_clear Hl as [|? ? [_ Hc] Hl']. rewrite M_bind_run.
    pose proof (refines_forget (s_fs s) Hs (fo_nodeid f) (fo_nlookup f) ltac:(apply Hc)) as He. unfold wp, exec_op, returns in He.
    rewrite M_bind_run in He. unfold fs_forget, zoom.
    destruct (PassthroughFs_forget _ _ (s_fs s)) as [[[]|e|] fs1] eqn:Hf; destruct He as (Hs1 & v1 & Hg & Hrp); cbn iota beta in *.
    + inversion Hg; subst. destruct (IH (mkSession _ fs1 (readdir_cache s)) Hs1 Hl') as (s' & Hall & Hs' & Hc' & Hrp').
      exists s'. split_and!; [done..|]. eapply reaped_to_trans; [|exact Hrp']. by apply reaped_forgets.
    + by apply forget_no_error in Hf.
    + inversion Hg.
Qed.

Lemma next_forget unique l s :
  sane (s_fs s) → Forall ForgetOne_ok l → Z.of_nat (length l) < 2 ^ 32 →
  next_seen unique (MForget l) s (returned (handle_batch_forget unique (encode_batch_forget (Z.of_nat (length l)) l)) s).
Proof.
  intros Hs Hl Hlen. unfold handle_batch_forget. rewrite parse_batch_forget_roundtrip, decide_True; try done.
  - rewrite (returned_ok _ _ l s s) by done. destruct (next_forgets l s Hs Hl) as (s' & Hf & Hs' & Hc & Hrp).
    rewrite (returned_ok _ _ _ _ _ Hf). split; [done|]. eexists. rewrite Hc. split; [constructor|done].
  - uint.
  - unfold slice_ok, encode_batch_forget. rewrite !length_app, length_concat_forgets. len.
Qed.

Lemma next_list unique h off size s :
  sane (s_fs s) → session_ok s → is_uint 64 h → is_uint 64 off → is_uint 32 size →
  next_seen unique (MList h off size) s (returned (handle_readdir unique (readdir_body h off size)) s).
Proof.
  intros Hs [_ Hc] Hh Ho Hz. unfold returned.
  assert ((off = 0 ∨ readdir_cache s !! h = None) ∨ off ≠ 0 ∧ ∃ l, readdir_cache s !! h = Some l) as [Hn|[Hn [l Hl]]].
  { destruct (decide (off = 0)); [by left; left|]. destruct (readdir_cache s !! h); [|by left; right]. eauto. }
  - pose proof (refines_readdir (s_fs s) Hs h) as He. unfold wp, exec_op, returns in He. rewrite M_bind_run in He.
    destruct (PassthroughFs_readdir h (s_fs s)) as [[l|e|] fs] eqn:Hr; destruct He as (Hs1 & v1 & Hg & Hrp); cbn iota beta in *.
    + rewrite (handle_readdir_eq unique h off size l s (mkSession _ fs (<[h := l]> (readdir_cache s))));
        [|done..|by eapply readdir_length|by apply listing_fresh].
      split; [done|]. exists v1. split; [|done]. inversion Hg; subst. by apply m_list_start.
    + rewrite (handle_readdir_fails unique h off size e s fs) by done.
      split; [done|]. exists v1. split; [|done]. inversion Hg; subst. by apply m_list_fails.
    + inversion Hg.
  - rewrite (handle_readdir_eq unique h off size l s s); [|done..|by eapply Hc|by apply listing_cached].
    split; [done|]. exists (view (s_fs s)). split; [by apply m_list_more|apply reaped_to_refl].
Qed.

Lemma next_init unique major minor ra flags rest s :
  let body := u32_le major ++ u32_le minor ++ u32_le ra ++ u32_le flags ++ rest in
  slice_ok body → is_uint 32 ra → sane (s_fs s) → next_seen unique (MInit ra) s (returned (handle_init unique body) s).
Proof.
  intros body Hb Hra Hs. unfold returned, handle_init, try_parse, lift, mbind, M_bind.
  rewrite InitIn_from_bytes_eq by done. rewrite decide_True by (unfold body; len). cbn [map_err ii_max_readahead].
  assert (field 4 8 body = ra) as ->.
  { unfold body. fields. unfold as_u32. by rewrite wrap_id. }
  split; [done|]. eexists. split; [constructor|apply reaped_to_refl].
Qed.

Lemma next_noop unique opc node body s :
  noop opc body → slice_ok body → sane (s_fs s) →
  next_seen unique MNoop s (returned (handle_opcode opc unique node body) s).
Proof.
  intros Hn Hb Hs.
  assert (handle_opcode opc unique node body s = (Ok (ok_reply unique []), s)) as Hr.
  { destruct opc; try done; cbn [handle_opcode noop] in *.
    - destruct Hn as (fh & rest & Hfh & ->). unfold handle_flush, FlushIn_from_bytes. by rewrite parse_u64.
    - destruct Hn as (mask & rest & ->). unfold handle_access, AccessIn_from_bytes. by rewrite parse_u32. }
  unfold returned. rewrite Hr. split; [done|]. eexists. split; [constructor|apply reaped_to_refl].
Qed.

Lemma next_unsupported unique opc node body s :
  unsupported opc = true → sane (s_fs s) →
  next_seen unique MUnsupported s (returned (handle_opcode opc unique node body) s).
Proof.
  intros Hu Hs. destruct opc; try done; (split; [done|]); eexists; (split; [constructor|apply reaped_to_refl]).
Qed.

Lemma session_step q s :
  req_ok q → sane (s_fs s) → session_roomy s → proper_meaning (view (s_fs s)) (q_meaning q) →
  next_seen (q_unique q) (q_meaning q) s (Session_handle (q_bytes q) s).
Proof.
  intros (opc & node & body & Ha & Hof & Ho & Hu & Hn & -> & Hsl) Hs [Hok Hr] Hp.
  assert (slice_ok body) as Hb by (rewrite <- (request_body (Opcode_code opc) (q_unique q) node body); by apply slice_body).
  rewrite handle_bytes by done. destruct Ha as [op opc node body Hse|i r Hin|node l Hl Hlen|node h off size Hh Hoff Hz|node major minor ra flags rest Hra|opc node body Hq|opc node body Hq].
  - apply next_run; [done..|]. by apply handle_sent.
  - by apply next_set; try apply Hp.
  - by apply next_forget.
  - by apply next_list.
  - by apply next_init.
  - by apply next_noop.
  - by apply next_unsupported.
Qed.
End Step.

(** ** A fresh share *)

Section New.
Context `{Libc, HashOrder, Host, !PosixView, !PosixLaws}.

Lemma new_sane path w fs w' :
  PassthroughFs_new path w = (Ok fs, w') →
  sane fs ∧ ∃ k, is_Some (entries_of (files w) k) ∧ view fs = fresh_view k (files w).
Proof.
  unfold PassthroughFs_new. case_bool_decide; [done|]. pose proof (pl_open path w) as Ho.
  destruct (sys_open _ _ w) as [[fd|e] w1]; [|done]. destruct Ho as (Hf & o & [Hn Hfd] & He).
  pose proof (pl_fstat fd w1) as Hst. destruct (sys_fstat fd w1) as [[st|e] w2]; [|done].
  destruct Hst as ([Hf2 Hfd2] & o' & n & Ho' & Hn' & Hd). rewrite Hfd, lookup_insert_eq in Ho'. injection Ho' as <-.
  pose proof (ds_key _ _ _ Hd) as Hk. intros [= <- <-]. split.
  - split; simpl.
    + apply store_ok_new.
    + apply handles_ok_new.
    + intros id d [<- <-]%lookup_singleton_Some. simpl. rewrite Hfd2, Hfd, lookup_insert_eq. eauto.
    + intros o1 fd1 Hown. inversion Hown as [id d Hd1|id d Hd1]; subst; simpl in Hd1; [|done].
      apply lookup_singleton_Some in Hd1 as [<- <-]. simpl. by rewrite Hfd2, Hfd, lookup_insert_eq.
    + intros o1 o2 fd1 Ho1 Ho2. inversion Ho1 as [i1 d1 Hd1|i1 d1 Hd1]; subst; simpl in Hd1; [|done].
      inversion Ho2 as [i2 d2 Hd2|i2 d2 Hd2]; subst; simpl in Hd2; [|done].
      apply lookup_singleton_Some in Hd1 as [<- _]. by apply lookup_singleton_Some in Hd2 as [<- _].
    + intros id d [<- <-]%lookup_singleton_Some. done.
  - exists (of_file o). split; [done|]. unfold view, view_of, fresh_view, InodeStore_new, HandleStore_new. simpl.
    rewrite map_fmap_singleton, omap_empty, Hf2, Hf. unfold tracked_of. simpl. by rewrite Hk.
Qed.
End New.

(** ** Histories *)

Section Runs.
Context `{Libc, Build, HashOrder, HL : HostLaws, !PosixView, !PosixLaws, !FlagLaws, !HashOrderLaws}.
Context (Hos : target_os ≠ OtherUnix).
Implicit Types s : Session.

(** A session that serves [n] more requests and whose files are what its tables say. *)
Definition lasts_sane (n : nat) (s : Session) : Prop := session_lasts n s ∧ sane (s_fs s).

Lemma lasts_sane_new path w fs w' n :
  Z.of_nat n < 2 ^ 63 - 1 → PassthroughFs_new path w = (Ok fs, w') → lasts_sane n (Session_new fs).
Proof. intros Hn Hnew. split; [eapply lasts_new; [|exact Hnew]; lia|by apply (new_sane _ _ _ _ Hnew)]. Qed.

Lemma lasts_step n q s :
  req_ok q → lasts_sane (S n) s → proper_meaning (view (s_fs s)) (q_meaning q) →
  ∃ reply s' v, Session_handle (E := ProtoError) (q_bytes q) s = (Ok reply, s') ∧ lasts_sane n s' ∧
    mstep (q_unique q) (view (s_fs s)) (readdir_cache s) (q_meaning q) reply v (readdir_cache s') ∧ reaped_to v (view (s_fs s')).
Proof.
  intros Hq [Hl Hs] Hp. pose proof (session_step Hos q s Hq Hs (lasts_roomy _ _ Hl) Hp) as Hn.
  destruct (session_lasts_step (E := ProtoError) n (q_bytes q) s) as (r & s' & Hh & Hl' & _); [|done|].
  { by destruct Hq as (? & ? & ? & ? & ? & ? & ? & ? & ? & ?). }
  rewrite Hh in Hn. destruct Hn as (Hs' & v & Hm & Hr). by exists r, s', v.
Qed.

Lemma conversation_runs qs : ∀ n s,
  Forall req_ok qs → lasts_sane (length qs + n) s → along proper_meaning qs s →
  ∃ rs s', serve_all (q_bytes <$> qs) s = (Ok rs, s') ∧ length rs = length qs ∧ lasts_sane n s' ∧
    conversation (view (s_fs s)) (readdir_cache s) (zip qs rs) (view (s_fs s')) (readdir_cache s').
Proof.
  induction qs as [|q qs IH]; intros n s Hq Hs Hp; cbn [fmap list_fmap serve_all along length plus] in *.
  - exists [], s. split_and!; [done..|]. constructor.
  - inversion_clear Hq as [|? ? Hq1 Hqs]. destruct Hp as [Hp1 Hps].
    destruct (lasts_step _ _ _ Hq1 Hs Hp1) as (r & s1 & v & Hh & Hs1 & Hm & Hr). rewrite Hh in Hps.
    destruct (IH n s1 Hqs Hs1 Hps) as (rs & s' & Hall & Hlen & Hs' & Hc).
    exists (r :: rs), s'. split_and!; [|simpl; by f_equal|done|by econstructor].
    unfold mbind, M_bind. by rewrite Hh, Hall.
Qed.

(** What every step keeps holds at the end. *)
Lemma invariant_runs (I : View → Prop) (P : View → meaning → Prop) qs :
  (∀ u v c m reply v' c', I v → proper_meaning v m → P v m → mstep u v c m reply v' c' → I v') →
  (∀ v v', I v → reaped_to v v' → I v') →
  ∀ n s, Forall req_ok qs → lasts_sane (length qs + n) s → along proper_meaning qs s → along P qs s →
  I (view (s_fs s)) → ∃ rs s', serve_all (q_bytes <$> qs) s = (Ok rs, s') ∧ lasts_sane n s' ∧ I (view (s_fs s')).
Proof.
  intros Hstep Hreap. induction qs as [|q qs IH]; intros n s Hq Hs Hp HP HI;
    cbn [fmap list_fmap serve_all along length plus] in *.
  - by exists [], s.
  - inversion_clear Hq as [|? ? Hq1 Hqs]. destruct Hp as [Hp1 Hps], HP as [HP1 HPs].
    destruct (lasts_step _ _ _ Hq1 Hs Hp1) as (r & s1 & v & Hh & Hs1 & Hm & Hr). rewrite Hh in Hps, HPs.
    destruct (IH n s1 Hqs Hs1 Hps HPs) as (rs & s' & Hall & Hs' & HI'); [by eauto|].
    exists (r :: rs), s'. split_and!; [|done..]. unfold mbind, M_bind. by rewrite Hh, Hall.
Qed.

(** It holds whenever a request arrives. *)
Lemma invariant_along (I : View → Prop) (P : View → meaning → Prop) qs :
  (∀ u v c m reply v' c', I v → proper_meaning v m → P v m → mstep u v c m reply v' c' → I v') →
  (∀ v v', I v → reaped_to v v' → I v') →
  ∀ n s, Forall req_ok qs → lasts_sane (length qs + n) s → along proper_meaning qs s → along P qs s →
  I (view (s_fs s)) → along (λ v _, I v) qs s.
Proof.
  intros Hstep Hreap. induction qs as [|q qs IH]; intros n s Hq Hs Hp HP HI; [done|].
  inversion_clear Hq as [|? ? Hq1 Hqs]. destruct Hp as [Hp1 Hps], HP as [HP1 HPs]. split; [done|].
  destruct (lasts_step _ _ _ Hq1 Hs Hp1) as (r & s1 & v & Hh & Hs1 & Hm & Hr). rewrite Hh in *.
  apply (IH n s1); [done..|]. eauto.
Qed.

Lemma along_mono (P Q : View → meaning → Prop) qs : ∀ s, (∀ v m, P v m → Q v m) → along P qs s → along Q qs s.
Proof. induction qs as [|q qs IH]; intros s HPQ; [done|]. intros [HP Hqs]. split; [by apply HPQ|by apply IH]. Qed.
End Runs.
