(* ===== verification/Places.v ===== *)
(** * Where files are

    The engine reopens a file by the name it believes the file has ([reopen_via_parent]).  The
    belief is right for every tracked file ([honest]) as long as no name at which a file is
    believed to be comes to denote another one ([tidy]): a guest that removes a file and makes a
    new one under the name while it still holds the old one breaks it. *)

From S2P Require Import Prelude Libc Errors Bytes Attr Wire Inode Handle Host Posix Passthrough FsProps.
From S2P Require Import GuestView GuestRefine Dispatch DispatchProps Capacity GuestSession Conversation.
Local Open Scope Z_scope.

(** The engine believes the file of [id] to be at the name [n] of [p]. *)
Definition placed (v : View) (id p : Z) (n : bytes) : Prop :=
  ∃ t, v_inodes v !! id = Some t ∧ k_parent t = Some p ∧ k_name t = n.

Definition honest (v : View) : Prop :=
  ∀ id p n d k, placed v id p n → resolves v p n d k → file_of v id = Some k.

Record wf_view (v : View) : Prop := {
  wv_ids id t : v_inodes v !! id = Some t → id < v_next v;
  wv_parent id t : v_inodes v !! id = Some t → id ≠ ROOT_ID → is_Some (k_parent t);
  wv_parents id t p : v_inodes v !! id = Some t → k_parent t = Some p → p < v_next v;
  wv_inj id id' k : file_of v id = Some k → file_of v id' = Some k → id = id';
}.

(** The name an operation gives a file is nobody's place, or that file's. *)
Definition tidy (v : View) (op : FsOp) : Prop :=
  match op with
  | FMkdir p n _ | FCreate p n _ _ | FSymlink p n _ => ∀ id, ¬ placed v id p n
  | FLink i p n => ∀ id, placed v id p n → id = i
  | FRename p n p' n' => ∀ id d k, placed v id p' n' → resolves v p n d k → file_of v id = Some k
  | _ => True
  end.

Definition tidy_meaning (v : View) (m : meaning) : Prop :=
  match m with
  | MRun op => tidy v op
  | _ => True
  end.

(** * Lemmas *)

(** ** Directory entries after a change *)

Lemma child_put d n k t d' n' k' :
  child (put_entry d n k t) d' n' = Some k' → (d' = d ∧ n' = n ∧ k' = k) ∨ child t d' n' = Some k'.
Proof.
  unfold child, entries_of, put_entry. destruct (decide (d = d')) as [<-|Hne]; [|rewrite lookup_alter_ne by done; by right].
  rewrite lookup_alter_eq. destruct (t !! d) as [m|]; [|done]. simpl. unfold edit_dir.
  destruct (n_body m) eqn:Hb; simpl; rewrite ?Hb; try done.
  intros [[<- <-]|[_ Hl]]%lookup_insert_Some; auto.
Qed.

Lemma child_put_eq d n k t : is_Some (entries_of t d) → child (put_entry d n k t) d n = Some k.
Proof.
  unfold child, entries_of, put_entry. rewrite lookup_alter_eq. destruct (t !! d) as [m|]; [|by intros []]. simpl.
  unfold edit_dir. destruct (n_body m) eqn:Hb; simpl; try by intros []. intros _. apply lookup_insert_eq.
Qed.

Lemma child_drop d n t d' n' k' : child (drop_entry d n t) d' n' = Some k' → child t d' n' = Some k'.
Proof.
  unfold child, entries_of, drop_entry. destruct (decide (d = d')) as [<-|Hne]; [|by rewrite lookup_alter_ne].
  rewrite lookup_alter_eq. destruct (t !! d) as [m|]; [|done]. simpl. unfold edit_dir.
  destruct (n_body m) eqn:Hb; simpl; rewrite ?Hb; try done. intros [_ Hl]%lookup_delete_Some. done.
Qed.

Lemma entries_drop d n t d' : is_Some (entries_of t d') → is_Some (entries_of (drop_entry d n t) d').
Proof.
  unfold entries_of, drop_entry. destruct (decide (d = d')) as [<-|Hne]; [|by rewrite lookup_alter_ne].
  rewrite lookup_alter_eq. destruct (t !! d) as [m|]; [|done]. simpl. unfold edit_dir. by destruct (n_body m) eqn:Hb; simpl; rewrite ?Hb.
Qed.

Lemma child_add d n k m t d' n' k' :
  (∀ es, n_body m = BDir es → es = ∅) →
  child (add_node d n k m t) d' n' = Some k' → (d' = d ∧ n' = n ∧ k' = k) ∨ child t d' n' = Some k'.
Proof.
  intros Hm. unfold add_node. destruct (decide (k = d')) as [<-|Hne].
  - unfold child, entries_of at 1. rewrite lookup_insert_eq. simpl. destruct (n_body m) as [es| | |] eqn:Hb; try done.
    rewrite (Hm es) by done. simpl. by rewrite lookup_empty.
  - unfold child, entries_of at 1. rewrite lookup_insert_ne by done. apply child_put.
Qed.

(** ** Steps *)

(** An operation that leaves the tables alone and gives at most one name to a file. *)
Lemma honest_files v t p d n k :
  wf_view v → honest v → file_of v p = Some d →
  (∀ d' n' k', child t d' n' = Some k' → (d' = d ∧ n' = n ∧ k' = k) ∨ child (v_files v) d' n' = Some k') →
  (∀ id, placed v id p n → file_of v id = Some k) → honest (set_files t v).
Proof.
  intros Hw Hh Hd Ht Hp id p' n' d' k' Hpl [Hd' Hc].
  change (file_of v p' = Some d') in Hd'. change (placed v id p' n') in Hpl. change (file_of v id = Some k').
  destruct (Ht _ _ _ Hc) as [(-> & -> & ->)|Hc'].
  - rewrite (wv_inj v Hw p' p d Hd' Hd) in Hpl. by apply Hp.
  - by eapply Hh.
Qed.

Lemma honest_shrinks v t :
  honest v → (∀ d n k, child t d n = Some k → child (v_files v) d n = Some k) → honest (set_files t v).
Proof. intros Hh Ht id p n d k Hpl [Hd Hc]. apply (Hh id p n d k); [done|]. split; [done|]. by apply Ht. Qed.

Lemma wf_files v t : wf_view v → wf_view (set_files t v).
Proof. by intros []. Qed.

Lemma wf_handles v m : wf_view v → wf_view (set_handles m v).
Proof. by intros []. Qed.

Section Steps.
Context `{Libc}.

Lemma known_below v id k : wf_view v → file_of v id = Some k → id < v_next v.
Proof. intros Hw. unfold file_of. destruct (v_inodes v !! id) as [t|] eqn:Ht; [|done]. intros _. by eapply wv_ids. Qed.

Lemma made_honest v p n b mode k v' :
  wf_view v → honest v → (∀ es, b = BDir es → es = ∅) → (∀ id, ¬ placed v id p n) → made v p n b mode k v' →
  wf_view v' ∧ honest v'.
Proof.
  intros Hw Hh Hb Hn (d & m & Hd & _ & _ & Hk & Hm & _ & ->). split; [by apply wf_files|].
  eapply honest_files; [done|done|exact Hd| |].
  - intros d' n' k'. apply child_add. intros es. rewrite Hm. apply Hb.
  - intros id Hid. by destruct (Hn id).
Qed.

(** *** A lookup *)

Section LookedUp.
Context (v : View) (p : Z) (n : bytes) (id : Z) (attr : Attr) (v' : View).
Context (Hw : wf_view v) (Hl : looked_up v p n id attr v').

(** The entry of [id] is new, the others are as they were. *)
Lemma looked_up_new : ∃ d k t, v_inodes v' !! id = Some t ∧ k_file t = k ∧ k_parent t = Some p ∧ k_name t = n ∧
  resolves v p n d k ∧ ∀ i, file_of v i = Some k → i = id.
Proof.
  destruct Hl as (d & k & m & Hres & _ & _ & Hid & ->). eexists d, k, _. split; [apply lookup_insert_eq|].
  split_and!; [done..|]. intros i Hi. destruct (v_inodes v !! id) as [t|] eqn:Ht; [|by destruct (proj2 Hid i)].
  apply (wv_inj v Hw i id k Hi). unfold file_of. by rewrite Ht, <- Hid.
Qed.

Lemma looked_up_old i : i ≠ id → v_inodes v' !! i = v_inodes v !! i.
Proof. intros Hne. destruct Hl as (d & k & m & _ & _ & _ & _ & ->). simpl. by rewrite lookup_insert_ne. Qed.

Lemma looked_up_known i k : i < v_next v → file_of v' i = Some k → file_of v i = Some k.
Proof.
  intros Hi. destruct (decide (i = id)) as [->|Hne]; [|unfold file_of; by rewrite looked_up_old].
  destruct Hl as (d & k' & m & _ & _ & _ & Hid & ->). unfold file_of. simpl. rewrite lookup_insert_eq.
  destruct (v_inodes v !! id) as [t|]; simpl; [congruence|]. destruct Hid as [-> _]. lia.
Qed.

Lemma looked_up_files : v_files v' = v_files v.
Proof. by destruct Hl as (d & k & m & _ & _ & _ & _ & ->). Qed.

Lemma looked_up_next : v_next v ≤ v_next v' ∧ id < v_next v'.
Proof.
  destruct Hl as (d & k & m & _ & _ & _ & Hid & ->). simpl.
  destruct (v_inodes v !! id) as [t|] eqn:Ht; simpl; [|destruct Hid as [-> _]; lia].
  pose proof (wv_ids v Hw id t Ht). lia.
Qed.

Lemma looked_up_wf : wf_view v'.
Proof.
  destruct looked_up_new as (d & k & t0 & Hnew & Hk & Hp & Hn & [Hd _] & Huniq).
  destruct looked_up_next as [Hle Hlt]. pose proof (known_below _ _ _ Hw Hd) as Hpn. split.
  - intros i t Hi. destruct (decide (i = id)) as [->|Hne]; [done|]. rewrite looked_up_old in Hi by done.
    apply (wv_ids v Hw) in Hi. lia.
  - intros i t Hi Hr. destruct (decide (i = id)) as [->|Hne]; [rewrite Hnew in Hi; simplify_eq; by rewrite Hp|].
    rewrite looked_up_old in Hi by done. by eapply wv_parent.
  - intros i t q Hi Hq. destruct (decide (i = id)) as [->|Hne]; [rewrite Hnew in Hi; simplify_eq; lia|].
    rewrite looked_up_old in Hi by done. pose proof (wv_parents v Hw i t q Hi Hq). lia.
  - assert (∀ i k1, i ≠ id → file_of v' i = Some k1 → file_of v i = Some k1) as Hold.
    { intros i k1 Hne. unfold file_of. by rewrite looked_up_old. }
    assert (file_of v' id = Some k) as Hid by (unfold file_of; rewrite Hnew; simpl; by f_equal).
    intros i1 i2 k1 Hf1 Hf2. destruct (decide (i1 = id)) as [->|Hne1], (decide (i2 = id)) as [->|Hne2]; [done|..].
    + symmetry. apply Huniq, Hold; [done|congruence].
    + apply Huniq, Hold; [done|congruence].
    + eapply (wv_inj v Hw); by apply Hold.
Qed.

Lemma looked_up_honest : honest v → honest v'.
Proof.
  intros Hh i q nm dd kk (t & Hi & Hq & Hnm) [Hqd Hqc]. rewrite looked_up_files in Hqc.
  destruct looked_up_new as (d & k & t0 & Hnew & Hk & Hp & Hn & [Hd Hc] & _).
  destruct (decide (i = id)) as [->|Hne].
  - rewrite Hnew in Hi. injection Hi as <-. assert (q = p) as -> by congruence.
    apply looked_up_known in Hqd; [|by eapply known_below]. unfold file_of. rewrite Hnew. simpl. congruence.
  - rewrite looked_up_old in Hi by done. pose proof (wv_parents v Hw i t q Hi Hq) as Hlt.
    assert (file_of v i = Some kk) as Hf; [|unfold file_of in *; by rewrite looked_up_old].
    apply (Hh i q nm dd kk); [by exists t|]. split; [by apply looked_up_known|done].
Qed.
End LookedUp.

(** *** The other operations *)

Lemma forgotten_entry id count m i t' :
  forgotten id count m !! i = Some t' →
  ∃ t, m !! i = Some t ∧ k_file t' = k_file t ∧ k_parent t' = k_parent t ∧ k_name t' = k_name t.
Proof.
  unfold forgotten. case_decide; [eauto|]. destruct (m !! id) as [t|] eqn:Ht; [|eauto]. case_decide.
  - intros [_ Hi]%lookup_delete_Some. eauto.
  - intros [[<- <-]|[_ Hi]]%lookup_insert_Some; eauto.
Qed.

Lemma forget_honest v id count :
  wf_view v → honest v →
  let v' := set_inodes (forgotten id count (v_inodes v)) v in wf_view v' ∧ honest v'.
Proof.
  intros Hw Hh v'. assert (∀ i k, file_of v' i = Some k → file_of v i = Some k) as Hf.
  { intros i k. unfold file_of. simpl. destruct (forgotten _ _ _ !! i) as [t'|] eqn:Ht; [|done]. simpl.
    destruct (forgotten_entry _ _ _ _ _ Ht) as (t & -> & -> & _). done. }
  split; [split|].
  - intros i t' (t & Ht & _)%forgotten_entry. by eapply (wv_ids v Hw).
  - intros i t' (t & Ht & _ & -> & _)%forgotten_entry. by eapply (wv_parent v Hw).
  - intros i t' q (t & Ht & _ & -> & _)%forgotten_entry. by eapply (wv_parents v Hw).
  - intros i i' k Hi%Hf Hi'%Hf. by eapply (wv_inj v Hw).
  - intros i q n d k (t' & Ht' & Hq & Hn) [Hd Hc]. pose proof (forgotten_entry _ _ _ _ _ Ht') as (t & Ht & Hk & Hp & Hnm).
    assert (file_of v i = Some k) as Hfi by (apply (Hh i q n d k); [exists t; split_and!; congruence|split; [by apply Hf|done]]).
    unfold file_of in *. rewrite Ht'. simpl. rewrite Ht in Hfi. simpl in Hfi. congruence.
Qed.

(** What is tracked where after a rename. *)
Lemma relocated_entry p n p' n' m m' i t' :
  relocated p n p' n' m m' → m' !! i = Some t' →
  ∃ t, m !! i = Some t ∧ k_file t' = k_file t ∧
    (k_parent t = Some p ∧ k_name t = n ∧ k_parent t' = Some p' ∧ k_name t' = n' ∨
     k_parent t' = k_parent t ∧ k_name t' = k_name t).
Proof.
  intros [[-> _]|(id & t & Ht & Hp & Hn & ->)]; [eauto 10|].
  intros [[<- <-]|[_ Hi]]%lookup_insert_Some; [|eauto 10]. exists t. split_and!; [done..|]. by left.
Qed.

Lemma relocated_file p n p' n' m m' i : relocated p n p' n' m m' → k_file <$> m' !! i = k_file <$> m !! i.
Proof.
  intros [[-> _]|(id & t & Ht & Hp & Hn & ->)]; [done|]. destruct (decide (i = id)) as [->|Hne].
  - by rewrite lookup_insert_eq, Ht.
  - by rewrite lookup_insert_ne.
Qed.

Lemma renamed_wf v p n p' n' v' : wf_view v → renamed v p n p' n' v' → wf_view v'.
Proof.
  intros Hw (d & d' & k & m' & _ & Hd' & _ & Hrel & ->). pose proof (known_below _ _ _ Hw Hd') as Hlt. split; simpl.
  - intros i t' Hi. destruct (relocated_entry _ _ _ _ _ _ _ _ Hrel Hi) as (t & Ht & _). by eapply (wv_ids v Hw).
  - intros i t' Hi Hr. destruct (relocated_entry _ _ _ _ _ _ _ _ Hrel Hi) as (t & Ht & _ & [(_ & _ & -> & _)|[-> _]]);
      [done|by eapply (wv_parent v Hw)].
  - intros i t' q Hi Hq. destruct (relocated_entry _ _ _ _ _ _ _ _ Hrel Hi) as (t & Ht & _ & [(_ & _ & He & _)|[He _]]).
    + congruence.
    + eapply (wv_parents v Hw); [exact Ht|congruence].
  - intros i i' k1. unfold file_of. simpl. rewrite !(relocated_file _ _ _ _ _ _ _ Hrel). apply (wv_inj v Hw).
Qed.

Lemma moved_child v d n d' n' k t :
  is_Some (entries_of (v_files v) d') →
  t = (if decide (child (v_files v) d' n' = Some k) then v_files v else move_entry d n d' n' k (v_files v)) →
  child t d' n' = Some k ∧
  ∀ dd nm kk, child t dd nm = Some kk → (dd = d' ∧ nm = n' ∧ kk = k) ∨ child (v_files v) dd nm = Some kk.
Proof.
  intros He ->. case_decide as Hc; [split; [done|by right]|]. unfold move_entry. split.
  - by apply child_put_eq, entries_drop.
  - intros dd nm kk [?|Hk%child_drop]%child_put; auto.
Qed.

Lemma renamed_honest v p n p' n' v' :
  wf_view v → honest v → tidy v (FRename p n p' n') → renamed v p n p' n' v' → honest v'.
Proof.
  intros Hw Hh Ht (d & d' & k & m' & Hres & Hd' & He & Hrel & ->).
  destruct (moved_child v d n d' n' k _ He eq_refl) as [Hnew Hchild].
  set (t := if decide _ then _ else _) in *. intros i q nm dd kk (t' & Hi & Hq & Hnm) [Hqd Hqc].
  simpl in Hi, Hqc. assert (∀ j, file_of (set_inodes m' (set_files t v)) j = file_of v j) as Hfile
    by (intros j; apply (relocated_file _ _ _ _ _ _ _ Hrel)). rewrite Hfile in *.
  destruct (relocated_entry _ _ _ _ _ _ _ _ Hrel Hi) as (t0 & Hi0 & _ & [(Hp0 & Hn0 & Hp1 & Hn1)|[Hp1 Hn1]]).
  - assert (q = p') as -> by congruence. assert (nm = n') as -> by congruence. assert (dd = d') as -> by congruence.
    assert (kk = k) as -> by congruence. apply (Hh i p n d k); [by exists t0|done].
  - assert (placed v i q nm) as Hpl by (exists t0; split_and!; congruence).
    destruct (Hchild _ _ _ Hqc) as [(-> & -> & ->)|Hc].
    + rewrite (wv_inj v Hw q p' d' Hqd Hd') in Hpl. by eapply Ht.
    + by eapply (Hh i q nm dd kk).
Qed.

Lemma linked_honest v id p n v' :
  wf_view v → honest v → id ≠ ROOT_ID → tidy v (FLink id p n) → linked_to v id p n v' → wf_view v' ∧ honest v'.
Proof.
  intros Hw Hh Hne Ht (d & k & Hd & _ & _ & Hk & ->). split; [by apply wf_files|].
  eapply honest_files; [done|done|exact Hd| |].
  - intros d' n' k'. apply child_put.
  - intros i Hi. rewrite (Ht i Hi). case_decide; [done|]. destruct Hk as (d' & t & Htr & Hres).
    destruct (wv_parent v Hw id t Htr Hne) as [q Hq]. rewrite Hq in Hres. eapply Hh; [|exact Hres]. by exists t.
Qed.

Lemma located_honest v id d k :
  wf_view v → honest v → id ≠ ROOT_ID → located_at v id d k → file_of v id = Some k.
Proof.
  intros Hw Hh Hne (t & Ht & Hres). destruct (wv_parent v Hw id t Ht Hne) as [q Hq]. rewrite Hq in Hres.
  eapply Hh; [|exact Hres]. by exists t.
Qed.

Lemma keeps_all_edits sa : Forall keeps_entries (edits sa).
Proof.
  unfold edits, size_edits, mode_edits, owner_edits. rewrite !Forall_app. split_and!.
  - destruct (sa_size sa); [|done]. apply Forall_singleton, keeps_edit_data.
  - destruct (sa_mode sa); [|done]. apply Forall_singleton, keeps_set_perm.
  - assert (∀ u g, keeps_entries (owner_edit u g)) as Ho by (intros u g; apply (keeps_set_owner (λ n, (_, _)))).
    by destruct (sa_uid sa), (sa_gid sa); try done; apply Forall_singleton.
Qed.

Lemma changed_honest v id sa l v' :
  wf_view v → honest v → l `prefix_of` edits sa → changed v id l v' → wf_view v' ∧ honest v'.
Proof.
  intros Hw Hh [l' Hl] [[_ ->]|(d & k & _ & ->)]; [done|]. split; [by apply wf_files|].
  pose proof (keeps_all_edits sa) as Hk. rewrite Hl, Forall_app in Hk.
  apply honest_shrinks; [done|]. intros d' n' k'. by rewrite child_alter by (apply keeps_edits, Hk).
Qed.

Lemma dropped_honest v d n :
  wf_view v ∧ honest v → let v' := set_files (drop_entry d n (v_files v)) v in wf_view v' ∧ honest v'.
Proof. intros [Hw Hh]. split; [by apply wf_files|]. apply honest_shrinks; [done|]. intros ???. apply child_drop. Qed.

Lemma written_honest v h off b n v' : wf_view v ∧ honest v → written_by v h off b n v' → wf_view v' ∧ honest v'.
Proof.
  intros [Hw Hh] (o & _ & _ & _ & ->). split; [by apply wf_files|]. apply honest_shrinks; [done|].
  intros ???. by rewrite child_alter by apply keeps_edit_data.
Qed.

Lemma handles_honest v m : wf_view v ∧ honest v → wf_view (set_handles m v) ∧ honest (set_handles m v).
Proof. intros [Hw Hh]. split; [by apply wf_handles|done]. Qed.

Lemma gstep_honest v op r v' :
  wf_view v → honest v → proper v op → tidy v op → gstep v op r v' → wf_view v' ∧ honest v'.
Proof.
  intros Hw Hh Hp Ht Hg. destruct Hg; try done; simpl in Ht; repeat match goal with
  | Hx : new_handle _ _ _ _ ?w |- wf_view ?w ∧ _ => destruct Hx as [_ ->]; apply handles_honest
  | |- wf_view (set_handles _ _) ∧ _ => apply handles_honest
  | Hx : looked_up ?w _ _ _ _ ?w' |- wf_view ?w' ∧ _ =>
      cut (wf_view w ∧ honest w); [intros [??]; split; [by eapply looked_up_wf|by eapply looked_up_honest]|]
  | Hx : made v _ _ _ _ _ ?w |- wf_view ?w ∧ _ => eapply (made_honest v), Hx; [done|done|by intros es [= <-]|done]
  | Hx : written_by _ _ _ _ _ ?w |- wf_view ?w ∧ _ => by eapply written_honest, Hx
  | Hx : linked_to v _ _ _ ?w |- wf_view ?w ∧ _ => by eapply linked_honest, Hx; try apply Hp
  | |- wf_view (set_files (drop_entry _ _ _) _) ∧ _ => by apply dropped_honest
  end; try done.
  - by apply forget_honest.
  - by eapply changed_honest.
  - eapply changed_honest; [done|done| |done]. apply prefix_take.
  - split; [by eapply renamed_wf|by eapply renamed_honest].
Qed.

Lemma mstep_honest unique v c m reply v' c' :
  wf_view v → honest v → proper_meaning v m → tidy_meaning v m → mstep unique v c m reply v' c' → wf_view v' ∧ honest v'.
Proof.
  intros Hw Hh Hp Ht Hm. destruct Hm as [op r v' Hg|i size mode uid gid atime mtime r v' op Hg|l| | | | | |]; try done.
  - eapply gstep_honest; [done|done|exact Hp|exact Ht|exact Hg].
  - apply (gstep_honest v op r); [done|done|exact Hp|exact I|exact Hg].
  - clear Hp Ht. revert v Hw Hh. induction l as [|f l IH]; intros v Hw Hh; [done|].
    destruct (forget_honest v (fo_nodeid f) (fo_nlookup f) Hw Hh) as [Hw' Hh']. by apply IH.
Qed.

Lemma reaped_honest v v' : wf_view v → honest v → reaped_to v v' → wf_view v' ∧ honest v'.
Proof.
  intros [Hids Hpar Hpars Hinj] Hh (Hi & _ & Hn & Hf & _). assert (∀ i, file_of v' i = file_of v i) as Hfile
    by (intros i; unfold file_of; by rewrite Hi). split; [split|].
  - intros i t. rewrite Hi, Hn. apply Hids.
  - intros i t. rewrite Hi. apply Hpar.
  - intros i t q. rewrite Hi, Hn. apply Hpars.
  - intros i i' k. rewrite !Hfile. apply Hinj.
  - intros i q n d k (t & Ht & Hq & Hnm) [Hd Hc]. rewrite Hfile in *. apply (Hh i q n d k).
    + exists t. by rewrite <- Hi.
    + split; [done|]. by eapply child_mono.
Qed.

Lemma fresh_honest k t : wf_view (fresh_view k t) ∧ honest (fresh_view k t).
Proof.
  split; [split|]; simpl.
  - intros i e [<- <-]%lookup_singleton_Some. lia.
  - by intros i e [<- <-]%lookup_singleton_Some.
  - by intros i e p [<- <-]%lookup_singleton_Some.
  - intros i i' k'. unfold file_of. simpl. intros Hi Hi'.
    destruct (decide (i = ROOT_ID)) as [->|?]; [|by rewrite lookup_singleton_ne in Hi].
    destruct (decide (i' = ROOT_ID)) as [->|?]; [done|by rewrite lookup_singleton_ne in Hi'].
  - intros i p n d k' (e & He & Hp & _) _. simpl in He. by apply lookup_singleton_Some in He as [<- <-].
Qed.
End Steps.
