(* ===== verification/GuestProps.v ===== *)
(** * What a guest can rely on

    The properties of a whole session on a host that follows [PosixLaws]: it is a conversation of
    the contract, an id stays with its file, a file is reopened under the right name as long as
    names are not reused, and what was written is read back. *)

From S2P Require Import Prelude Libc Errors Bytes Attr Wire Inode Handle Host Posix ToyHost ToyPosix Passthrough FsProps.
From S2P Require Import GuestView GuestRefine Dispatch DispatchProps Capacity GuestSession Conversation Places.
Local Open Scope Z_scope.

(** A request that does not give up the id. *)
Definition keeps_id (id : Z) (v : View) (m : meaning) : Prop :=
  match m with
  | MRun (FForget i _) => i ≠ id
  | MForget l => Forall (λ f, fo_nodeid f ≠ id) l
  | _ => True
  end.

Definition is_error `{Libc} (unique : Z) (r : Reply) : Prop := ∃ e, r = errno_reply unique e.

(** * Lemmas *)

(** ** Ids *)

Section Ids.
Context `{Libc}.

Lemma forgotten_other id count m i : i ≠ id → forgotten id count m !! i = m !! i.
Proof.
  intros Hne. unfold forgotten. case_decide; [done|]. destruct (m !! id); [|done].
  case_decide; [by apply lookup_delete_ne|by apply lookup_insert_ne].
Qed.

Lemma looked_up_keeps v p n i attr v' id k :
  looked_up v p n i attr v' → file_of v id = Some k → file_of v' id = Some k.
Proof.
  intros (d & k' & m & _ & _ & _ & Hi & ->). unfold file_of. simpl. destruct (decide (i = id)) as [->|Hne].
  - rewrite lookup_insert_eq. destruct (v_inodes v !! id) as [t|]; [|done]. simpl. intros [= <-]. by f_equal.
  - by rewrite lookup_insert_ne.
Qed.

Lemma gstep_keeps_id v op r v' id k :
  keeps_id id v (MRun op) → gstep v op r v' → file_of v id = Some k → file_of v' id = Some k.
Proof.
  intros Hk Hg Hf. destruct Hg; try done; repeat match goal with
  | Hx : looked_up _ _ _ _ _ ?w |- file_of ?w _ = _ => eapply looked_up_keeps; [exact Hx|]
  | Hx : made _ _ _ _ _ _ ?w |- file_of ?w _ = _ => by destruct Hx as (? & ? & _ & _ & _ & _ & _ & _ & ->)
  | Hx : new_handle _ _ _ _ ?w |- file_of ?w _ = _ => destruct Hx as [_ ->]; change (file_of (set_handles _ ?x) id) with (file_of x id)
  | Hx : written_by _ _ _ _ _ ?w |- file_of ?w _ = _ => by destruct Hx as (? & _ & _ & _ & ->)
  | Hx : linked_to _ _ _ _ ?w |- file_of ?w _ = _ => by destruct Hx as (? & ? & _ & _ & _ & _ & ->)
  | Hx : changed _ _ _ ?w |- file_of ?w _ = _ => by destruct Hx as [[_ ->]|(? & ? & _ & ->)]
  end; try done.
  - unfold file_of. simpl. by rewrite forgotten_other.
  - match goal with Hx : renamed _ _ _ _ _ _ |- _ => destruct Hx as (d & d' & k' & m' & _ & _ & _ & Hrel & ->) end.
    unfold file_of. simpl. by rewrite (relocated_file _ _ _ _ _ _ _ Hrel).
Qed.

Lemma mstep_keeps_id unique v c m reply v' c' id k :
  keeps_id id v m → mstep unique v c m reply v' c' → file_of v id = Some k → file_of v' id = Some k.
Proof.
  intros Hk Hm Hf. destruct Hm as [op r v' Hg|i size mode uid gid atime mtime r v' op Hg|l| | | | | |]; try done.
  - by eapply gstep_keeps_id.
  - by eapply (gstep_keeps_id v op).
  - simpl in Hk. revert v Hf. induction Hk as [|f l Hne Hl IH]; intros v Hf; [done|]. apply IH.
    unfold file_of in *. simpl. by rewrite forgotten_other.
Qed.

Lemma reaped_keeps_id v v' id : reaped_to v v' → file_of v' id = file_of v id.
Proof. intros (Hi & _). unfold file_of. by rewrite Hi. Qed.
End Ids.

(** ** Written data *)

Lemma drop_splice {A} off (b l : list A) : (off ≤ length l)%nat → drop off (splice off b l) = b ++ drop (off + length b) l.
Proof. intros Ho. unfold splice. rewrite drop_app_length'; [done|]. rewrite length_take. lia. Qed.

Lemma written_there off b data n : (n ≤ length b)%nat → take n (drop off (write_at off b data)) = take n b.
Proof.
  intros Hn. unfold write_at. case_decide as Hb; [subst; simpl in Hn; by replace n with O by lia|].
  rewrite drop_splice by (rewrite length_app, length_replicate; lia). by rewrite take_app_le.
Qed.

Lemma read_back `{Libc} o off data b m n b' :
  of_append o = false → (n ≤ m)%nat → (m ≤ length b)%nat →
  read_from (write_at (write_offset o (as_i64 off) data) (take m b) data) (as_i64 off) n b' →
  b' `prefix_of` take n b ∧ (b' = [] → n = 0%nat).
Proof.
  intros Happ Hnm Hm (_ & Hpre & Hemp). unfold write_offset in *. rewrite Happ in *. simpl in *.
  rewrite written_there in * by (rewrite length_take; lia). rewrite take_take, Nat.min_l in * by done. split; [done|].
  intros Hb'. specialize (Hemp Hb'). apply (f_equal length) in Hemp. rewrite length_take in Hemp. simpl in Hemp. lia.
Qed.

(** ** One request for an operation *)

(** The bytes of a request for an operation. *)
Definition asks_op (op : FsOp) (unique : Z) (req : bytes) : Prop :=
  ∃ opc node body, sent op opc node body ∧ is_uint 64 unique ∧ is_uint 64 node ∧
    req = request (Opcode_code opc) unique node body ∧ slice_ok req.

Section Requests.
Context `{Libc, Build, HashOrder, HL : HostLaws, !PosixView, !PosixLaws, !FlagLaws, !HashOrderLaws}.
Context (Hos : target_os ≠ OtherUnix).

Lemma request_step n op unique req s :
  asks_op op unique req → lasts_sane (S n) s → proper (view (s_fs s)) op →
  ∃ r s' v, Session_handle (E := ProtoError) req s = (Ok (reply_of unique op r), s') ∧ lasts_sane n s' ∧
    gstep (view (s_fs s)) op r v ∧ reaped_to v (view (s_fs s')).
Proof.
  intros (opc & node & body & Hse & Hu & Hn & -> & Hsl) Hs Hp. destruct (sent_opcode _ _ _ _ Hse) as [Hof Ho].
  destruct (lasts_step Hos n (mkReq unique (MRun op) (request (Opcode_code opc) unique node body)) s)
    as (reply & s' & v & Hh & Hs' & Hm & Hr); [|done|done|].
  { exists opc, node, body. by split_and!; [constructor|..]. }
  inversion Hm; subst. eauto 10.
Qed.

(** The file of an id exists. *)
Lemma sane_live fs id k : sane fs → file_of (view fs) id = Some k → is_Some (v_files (view fs) !! k).
Proof.
  intros Hs. unfold file_of. simpl. rewrite lookup_fmap. destruct (by_id (inodes fs) !! id) as [d|] eqn:Hd; [|done].
  intros [= <-]. destruct (sn_ids _ _ _ Hs id d Hd) as (o & Ho & Hk). simpl. rewrite <- Hk. by eapply pl_live.
Qed.

(** A handle keeps what it is open on and the file its contents through a reaping. *)
Lemma reaped_handle v v' h b o nd :
  reaped_to v v' → v_handles v !! h = Some (b, o) → v_files v !! of_file o = Some nd →
  v_handles v' !! h = Some (b, o) ∧ v_files v' !! of_file o = Some nd.
Proof.
  intros (_ & Hh & _ & Hf & Hr) Ho Hn. rewrite Hh. split; [done|].
  destruct (v_files v' !! of_file o) as [nd'|] eqn:Hn'; [f_equal; by eapply (lookup_weaken_inv _ _ _ _ _ Hn' Hf Hn)|].
  destruct (Hr (of_file o)); [by eexists|done|]. right; left. exists h, b, o. by rewrite Hh.
Qed.

(** Files stay where they are believed to be. *)
Lemma runs_honest qs n s :
  Forall req_ok qs → lasts_sane (length qs + n) s → along proper_meaning qs s → along tidy_meaning qs s →
  wf_view (view (s_fs s)) ∧ honest (view (s_fs s)) → along (λ v _, wf_view v ∧ honest v) qs s.
Proof.
  apply (invariant_along Hos (λ v, wf_view v ∧ honest v) tidy_meaning).
  - intros u v c m reply v' c' [Hw Hh] Hpm Htm Hst. by eapply mstep_honest.
  - intros v v' [Hw Hh] Hr. by eapply reaped_honest.
Qed.
End Requests.

(** ** A concrete session *)

#[local] Existing Instance linux_libc.
#[local] Existing Instance key_order.
#[local] Existing Instance debug_build.
#[local] Existing Instance linux_flags.

(** A decision procedure for [no_link]. *)
Definition at_link (v : View) (id : Z) : bool :=
  match t ← v_inodes v !! id; d ← file_of v (default ROOT_ID (k_parent t)); k ← child (v_files v) d (k_name t); v_files v !! k with
  | Some n => bool_decide (body_kind (n_body n) = Symlink)
  | None => false
  end.

Lemma no_link_at v id : at_link v id = false → no_link v id.
Proof.
  intros Ha d k n (t & Ht & Hd & Hc) Hn. unfold at_link in Ha. rewrite Ht in Ha. simpl in Ha. rewrite Hd in Ha. simpl in Ha.
  rewrite Hc in Ha. simpl in Ha. rewrite Hn in Ha. by apply bool_decide_eq_false in Ha.
Qed.

(** Look up [a], open it, write a byte, end the mount, forget [a], read the root directory from its
    start and on. *)
Definition sample_talk : list Req :=
  [mkReq 1 (MRun (FLookup ROOT_ID name_a)) (request 1 1 ROOT_ID (name_a ++ NUL :: []));
   mkReq 2 (MRun (FOpen 2 2)) (request 14 2 2 (u32_le 2 ++ []));
   mkReq 3 (MRun (FWrite 1 0 name_b)) (request 16 3 2 (u64_le 1 ++ u64_le 0 ++ u32_le 1 ++ replicate 20 NUL ++ name_b ++ []));
   mkReq 4 MNoop (request 38 4 ROOT_ID []);
   mkReq 5 (MForget [mkForgetOne 2 1]) (request 42 5 0 (encode_batch_forget 1 [mkForgetOne 2 1]));
   mkReq 6 (MRun (FOpendir ROOT_ID)) (request 27 6 ROOT_ID (u32_le 0 ++ []));
   mkReq 7 (MList 2 0 64) (request 28 7 ROOT_ID (readdir_body 2 0 64));
   mkReq 8 (MList 2 1 64) (request 28 8 ROOT_ID (readdir_body 2 1 64))].

Lemma name_plain b : b ≠ NUL → NUL ∉ [b].
Proof. intros Hb [=]%list_elem_of_singleton. done. Qed.

Lemma sample_talk_ok : Forall req_ok sample_talk.
Proof.
  repeat apply Forall_cons_2; [..|apply Forall_nil_2].
  - exists OpLookup, ROOT_ID, (name_a ++ [NUL]). split_and!; [by apply asks_run, sent_lookup, name_plain|done|unfold ROOT_ID; simpl; uint..|done|vm_compute; reflexivity].
  - exists OpOpen, 2, (u32_le 2 ++ []). split_and!; [apply asks_run, sent_open; lia|done|unfold ROOT_ID; simpl; uint..|done|vm_compute; reflexivity].
  - eexists OpWrite, 2, _. split_and!; [apply asks_run, (sent_write 2 1 0 name_b (replicate 20 NUL) []); (uint || done)|done|unfold ROOT_ID; simpl; uint..|done|vm_compute; reflexivity].
  - exists OpDestroy, ROOT_ID, []. split_and!; [by apply asks_noop|done|unfold ROOT_ID; simpl; uint..|done|vm_compute; reflexivity].
  - eexists OpBatchForget, 0, _. split_and!; [apply (asks_forget 0 [mkForgetOne 2 1])|done|unfold ROOT_ID; simpl; uint..|done|vm_compute; reflexivity].
    + apply Forall_singleton. split; simpl; uint.
    + done.
  - exists OpOpendir, ROOT_ID, (u32_le 0 ++ []). split_and!; [by apply asks_run, sent_opendir|done|unfold ROOT_ID; simpl; uint..|done|vm_compute; reflexivity].
  - exists OpReaddir, ROOT_ID, (readdir_body 2 0 64). split_and!; [apply asks_list; uint|done|unfold ROOT_ID; simpl; uint..|done|vm_compute; reflexivity].
  - exists OpReaddir, ROOT_ID, (readdir_body 2 1 64). split_and!; [apply asks_list; uint|done|unfold ROOT_ID; simpl; uint..|done|vm_compute; reflexivity].
Qed.

Lemma sample_talk_proper : along proper_meaning sample_talk toy_session.
Proof.
  cbn [along sample_talk q_meaning q_bytes proper_meaning proper]. split_and!; try exact I; try (vm_compute; reflexivity).
  - apply (bool_decide_unpack _). vm_compute. exact I.
  - apply no_link_at. vm_compute. reflexivity.
  - apply no_link_at. vm_compute. reflexivity.
Qed.

(** Unlink [a] and create a file of that name; rename [a] to [b]. *)
Definition replace_talk : list Req :=
  [mkReq 6 (MRun (FUnlink ROOT_ID name_a)) (request 10 6 ROOT_ID (name_a ++ NUL :: []));
   mkReq 7 (MRun (FCreate ROOT_ID name_a 1 0x1a4))
     (request 35 7 ROOT_ID (u32_le 1 ++ u32_le 0x1a4 ++ u64_le 0 ++ name_a ++ NUL :: []))].

Definition rename_talk : list Req :=
  take 1 sample_talk ++
  [mkReq 8 (MRun (FRename ROOT_ID name_a ROOT_ID name_b))
     (request 12 8 ROOT_ID (u64_le ROOT_ID ++ name_a ++ NUL :: name_b ++ NUL :: []))].

Lemma replace_talk_ok : Forall req_ok replace_talk.
Proof.
  repeat apply Forall_cons_2; [..|apply Forall_nil_2].
  - exists OpUnlink, ROOT_ID, (name_a ++ [NUL]). split_and!; [by apply asks_run, sent_unlink, name_plain|done|unfold ROOT_ID; simpl; uint..|done|vm_compute; reflexivity].
  - eexists OpCreate, ROOT_ID, _. split_and!; [apply asks_run, (sent_create ROOT_ID name_a 1 0x1a4 0 []); [by apply name_plain|lia|uint]|done|unfold ROOT_ID; simpl; uint..|done|vm_compute; reflexivity].
Qed.

Lemma rename_talk_ok : Forall req_ok rename_talk.
Proof.
  apply Forall_app. split; [apply Forall_take, sample_talk_ok|]. apply Forall_singleton.
  eexists OpRename, ROOT_ID, _. split_and!; [apply asks_run, (sent_rename ROOT_ID name_a ROOT_ID name_b []); [by apply name_plain|by apply name_plain|unfold ROOT_ID; uint]|done|unfold ROOT_ID; simpl; uint..|done|vm_compute; reflexivity].
Qed.

(** The session of [toy_fs] after some requests. *)
Definition toy_after (qs : list Req) : Session := (serve_all (q_bytes <$> qs) toy_session).2.

Lemma linux_os : target_os ≠ OtherUnix.
Proof. done. Qed.

Lemma toy_lasts qs n :
  Forall req_ok qs → along proper_meaning qs toy_session → Z.of_nat (length qs + n) < 2 ^ 63 - 1 →
  lasts_sane (HL := toy_laws) n (toy_after qs).
Proof.
  intros Hq Hp Hn. destruct (conversation_runs (HL := toy_laws) linux_os qs n toy_session) as (rs & s' & Hall & _ & Hs' & _);
    [done| |done|by unfold toy_after; rewrite Hall].
  eapply (lasts_sane_new (HL := toy_laws)); [done|]. apply (toy_fs_new 8). lia.
Qed.

(** * Properties *)

(** C2: from a freshly opened share, any history of fewer than 2^63 - 1 well-formed and proper
    requests is served to its end, and what the guest sees (every reply, and the files, inodes and
    handles behind its ids) is a conversation of the contract of the file system.  In it a new id
    is one never given before; LOOKUP, GETATTR, STATFS and the operations on the names in a
    directory act on the file the id was given for, those on a handle on the file it is open on;
    SETATTR, READLINK, OPEN, OPENDIR, and LINK where there is no AT_EMPTY_PATH, act on the file that
    is now at the place where the id was last seen; a directory is read in pages of the listing its
    handle took at the start; and a failed operation has done at most the part of its work the
    contract allows.  In a history that never gives such a place to another file ([tidy]) the file
    at the place is the file of the id throughout.  The state at the end lasts for [n] more
    requests. *)
Theorem sessions_refine `{Libc, Build, HashOrder, HL : HostLaws, !PosixView, !PosixLaws, !FlagLaws, !HashOrderLaws}
    path w fs w' qs n :
  target_os ≠ OtherUnix → PassthroughFs_new path w = (Ok fs, w') →
  Forall req_ok qs → along proper_meaning qs (Session_new fs) → Z.of_nat (length qs + n) < 2 ^ 63 - 1 →
  (∃ rs s' k, serve_all (q_bytes <$> qs) (Session_new fs) = (Ok rs, s') ∧ length rs = length qs ∧ lasts_sane n s' ∧
     is_Some (entries_of (files w) k) ∧
     conversation (fresh_view k (files w)) ∅ (zip qs rs) (view (s_fs s')) (readdir_cache s')) ∧
  (along tidy_meaning qs (Session_new fs) →
   along (λ v _, ∀ id d k, id ≠ ROOT_ID → located_at v id d k → file_of v id = Some k) qs (Session_new fs)).
Proof.
  intros Hos Hnew Hq Hp Hlen. destruct (new_sane _ _ _ _ Hnew) as (_ & k & Hk & Hv).
  assert (lasts_sane (length qs + n) (Session_new fs)) as Hl by by eapply lasts_sane_new.
  split.
  - destruct (conversation_runs Hos qs n (Session_new fs)) as (rs & s' & Hall & Hlr & Hs' & Hc); [done..|].
    exists rs, s', k. rewrite <- Hv. done.
  - intros Ht. eapply along_mono; [|by apply (runs_honest Hos qs n (Session_new fs)); [..|simpl; rewrite Hv; apply fresh_honest]].
    intros v m [Hw Hh] id d k'. by apply located_honest.
Qed.

Lemma sessions_refine_witness :
  (∃ rs s' k, serve_all (q_bytes <$> sample_talk) toy_session = (Ok rs, s') ∧ length rs = 8%nat ∧
    lasts_sane (HL := toy_laws) 100 s' ∧ is_Some (entries_of (files (toy0 8)) k) ∧
    conversation (fresh_view k (files (toy0 8))) ∅ (zip sample_talk rs) (view (s_fs s')) (readdir_cache s')) ∧
  along (λ v _, ∀ id d k, id ≠ ROOT_ID → located_at v id d k → file_of v id = Some k) sample_talk toy_session.
Proof.
  destruct (sessions_refine (HL := toy_laws) [Byte.x2f] (toy0 8) (toy_fs 8) (world (toy_fs 8)) sample_talk 100) as [Hc Ht].
  - done.
  - apply toy_fs_new. lia.
  - apply sample_talk_ok.
  - apply sample_talk_proper.
  - simpl. lia.
  - split; [exact Hc|]. apply Ht. cbn [along sample_talk q_meaning q_bytes tidy_meaning tidy]. by split_and!.
Defined.

(** C8: an id stays with its file.  Whatever a guest asks for in between (unlinking, renaming over
    and recreating names included), as long as it does not forget the id, the id stands for the
    same file, the file exists, and GETATTR fails or answers with the attributes of that file. *)
Theorem held_file `{Libc, Build, HashOrder, HL : HostLaws, !PosixView, !PosixLaws, !FlagLaws, !HashOrderLaws}
    qs s id k unique req :
  target_os ≠ OtherUnix → Forall req_ok qs → lasts_sane (S (length qs)) s → along proper_meaning qs s →
  along (keeps_id id) qs s → file_of (view (s_fs s)) id = Some k → asks_op (FGetattr id) unique req →
  ∃ rs s' nd reply s2, serve_all (q_bytes <$> qs) s = (Ok rs, s') ∧ file_of (view (s_fs s')) id = Some k ∧
    v_files (view (s_fs s')) !! k = Some nd ∧ Session_handle (E := ProtoError) req s' = (Ok reply, s2) ∧
    (is_error unique reply ∨ ∃ attr, reply = ok_reply unique (attr_out attr) ∧ attr_of k nd attr).
Proof.
  intros Hos Hq Hs Hp Hk Hf Hreq.
  destruct (invariant_runs Hos (λ v, file_of v id = Some k) (keeps_id id) qs) with (n := 1%nat) (s := s)
    as (rs & s' & Hall & Hs' & Hf'); try done.
  { intros u v c m reply v' c' Hv _ Hm Hst. by eapply mstep_keeps_id. }
  { intros v v' Hv Hr. by rewrite (reaped_keeps_id _ _ _ Hr). }
  { by rewrite Nat.add_1_r. }
  destruct (request_step Hos 0 _ _ _ s' Hreq Hs' I) as (r & s2 & v & Hh & _ & Hg & _).
  assert (is_Some (v_files (view (s_fs s')) !! k)) as [nd Hnd] by (eapply sane_live; [apply Hs'|done]).
  exists rs, s', nd, (reply_of unique (FGetattr id) r), s2. split_and!; [done..|].
  inversion Hg; subst; [left; by eexists|right]. eexists. split; [done|].
  match goal with Ha : has_attr _ _ _ |- _ => destruct Ha as (k' & n' & Hk' & Hn' & Ha) end. congruence.
Qed.

Lemma held_file_witness :
  let req := request 3 9 2 (u32_le 0 ++ u32_le 0 ++ u64_le 0 ++ []) in
  ∃ rs s' nd reply s2, serve_all (q_bytes <$> replace_talk) (toy_after (take 1 sample_talk)) = (Ok rs, s') ∧
    file_of (view (s_fs s')) 2 = Some (mkFileKey 1 12) ∧ v_files (view (s_fs s')) !! mkFileKey 1 12 = Some nd ∧
    Session_handle (E := ProtoError) req s' = (Ok reply, s2) ∧
    (is_error 9 reply ∨ ∃ attr, reply = ok_reply 9 (attr_out attr) ∧ attr_of (mkFileKey 1 12) nd attr).
Proof.
  intros req. apply (held_file (HL := toy_laws) replace_talk (toy_after (take 1 sample_talk)) 2 (mkFileKey 1 12) 9 req).
  - apply linux_os.
  - apply replace_talk_ok.
  - apply toy_lasts; [apply Forall_take, sample_talk_ok| |simpl; lia]. split; [apply sample_talk_proper|exact I].
  - split; [|split; [split|exact I]]; [apply (bool_decide_unpack _); vm_compute; exact I..|vm_compute; reflexivity].
  - done.
  - vm_compute. reflexivity.
  - exists OpGetattr, 2, (u32_le 0 ++ u32_le 0 ++ u64_le 0 ++ []).
    split_and!; [constructor|uint..|done|vm_compute; reflexivity].
Defined.

(** C10: a file is reopened under the right name.  After any history of proper requests in which no
    name at which the engine believes a tracked file to be is given to another file, OPEN of an id,
    with flags that neither create nor empty a file, fails or gives a new handle that is open on
    the file of that id, wherever the file has been renamed to meanwhile.  The id is not that of a
    symbolic link: OPEN of one follows the link. *)
Theorem open_own_file `{Libc, Build, HashOrder, HL : HostLaws, !PosixView, !PosixLaws, !FlagLaws, !HashOrderLaws}
    path w fs w' qs id flags unique req :
  target_os ≠ OtherUnix → PassthroughFs_new path w = (Ok fs, w') →
  Forall req_ok qs → along proper_meaning qs (Session_new fs) → along tidy_meaning qs (Session_new fs) →
  Z.of_nat (length qs) < 2 ^ 63 - 2 → asks_op (FOpen id flags) unique req → opens_existing flags →
  ∃ rs s', serve_all (q_bytes <$> qs) (Session_new fs) = (Ok rs, s') ∧
    (no_link (view (s_fs s')) id →
     ∃ reply s2, Session_handle (E := ProtoError) req s' = (Ok reply, s2) ∧
     (is_error unique reply ∨
      ∃ h o, reply = ok_reply unique (open_out h) ∧ v_handles (view (s_fs s')) !! h = None ∧
        v_handles (view (s_fs s2)) !! h = Some (false, o) ∧ file_of (view (s_fs s')) id = Some (of_file o))).
Proof.
  intros Hos Hnew Hq Hp Ht Hlen Hreq Hfl. destruct (new_sane _ _ _ _ Hnew) as (_ & k & _ & Hv).
  destruct (invariant_runs Hos (λ v, wf_view v ∧ honest v) tidy_meaning qs) with (n := 1%nat) (s := Session_new fs)
    as (rs & s' & Hall & Hs' & Hw & Hh); try done.
  { intros u v c m reply v' c' [Hw Hh] Hpm Htm Hst. by eapply mstep_honest. }
  { intros v v' [Hw Hh] Hr. by eapply reaped_honest. }
  { eapply lasts_sane_new; [|exact Hnew]. lia. }
  { simpl. rewrite Hv. apply fresh_honest. }
  exists rs, s'. split; [done|]. intros Hnl.
  destruct (request_step Hos 0 _ _ _ s' Hreq Hs' (conj Hfl Hnl)) as (r & s2 & v & Hr & _ & Hg & _ & Hvh & _).
  eexists _, s2. split; [exact Hr|]. inversion Hg; subst; [left; by eexists|right].
  match goal with Hn : new_handle _ _ _ _ _ |- _ => destruct Hn as [Hnone ->] end.
  eexists _, o. split_and!; [done|done| |].
  - rewrite Hvh. apply lookup_insert_eq.
  - unfold opens in *. case_decide; [done|].
    match goal with Ho : ∃ _ _, _ |- _ => destruct Ho as (d & k' & Hl & ->) end. by eapply located_honest.
Qed.

Lemma open_own_file_witness :
  let req := request 14 9 2 (u32_le 2 ++ []) in
  ∃ rs s', serve_all (q_bytes <$> rename_talk) toy_session = (Ok rs, s') ∧
    (no_link (view (s_fs s')) 2 →
     ∃ reply s2, Session_handle (E := ProtoError) req s' = (Ok reply, s2) ∧
     (is_error 9 reply ∨
      ∃ h o, reply = ok_reply 9 (open_out h) ∧ v_handles (view (s_fs s')) !! h = None ∧
        v_handles (view (s_fs s2)) !! h = Some (false, o) ∧ file_of (view (s_fs s')) 2 = Some (of_file o))).
Proof.
  intros req.
  apply (open_own_file (HL := toy_laws) [Byte.x2f] (toy0 8) (toy_fs 8) (world (toy_fs 8)) rename_talk 2 2 9 req).
  - apply linux_os.
  - apply toy_fs_new. lia.
  - apply rename_talk_ok.
  - split; [apply sample_talk_proper|split; [|exact I]]. split; apply (bool_decide_unpack _); vm_compute; exact I.
  - split; [exact I|split; [|exact I]]. intros id d k (t & Ht & _ & Hn).
    apply elem_of_map_to_list, list_elem_of_In in Ht. vm_compute in Ht. destruct Ht as [[= <- <-]|[[= <- <-]|[]]]; discriminate.
  - simpl. lia.
  - exists OpOpen, 2, (u32_le 2 ++ []). split_and!; [constructor; lia|uint..|done|vm_compute; reflexivity].
  - vm_compute. reflexivity.
Defined.

(** C6: what a guest writes is what it reads.  WRITE through one handle followed by READ through any
    handle of the same file, at whatever offsets: if both succeed, the first reply reports a number
    [m] of bytes, and the second carries what the file holds there once the first [m] bytes of the
    data are in it (at the offset asked for, or at the end through a handle opened for appending on
    Linux), or a leading part of that, which is empty only if there is nothing there.  In
    particular a READ at the offset of a WRITE that does not append, of no more bytes than it
    reported, gets the bytes written. *)
Theorem write_then_read `{Libc, Build, HashOrder, HL : HostLaws, !PosixView, !PosixLaws, !FlagLaws, !HashOrderLaws}
    s h1 h2 o1 o2 nd data off1 off2 b n u1 u2 req1 req2 :
  target_os ≠ OtherUnix → lasts_sane 2 s →
  v_handles (view (s_fs s)) !! h1 = Some (false, o1) → v_handles (view (s_fs s)) !! h2 = Some (false, o2) →
  of_file o1 = of_file o2 → v_files (view (s_fs s)) !! of_file o1 = Some nd → n_body nd = BFile data →
  asks_op (FWrite h1 off1 b) u1 req1 → asks_op (FRead h2 off2 n) u2 req2 →
  ∃ reply1 s1 reply2 s2, Session_handle (E := ProtoError) req1 s = (Ok reply1, s1) ∧
    Session_handle (E := ProtoError) req2 s1 = (Ok reply2, s2) ∧
    (is_error u1 reply1 ∨
     ∃ m, (m ≤ length b)%nat ∧ reply1 = ok_reply u1 (write_out (as_u32 (Z.of_nat m))) ∧
       (is_error u2 reply2 ∨
        ∃ b', reply2 = ok_reply u2 b' ∧
          read_from (write_at (write_offset o1 (as_i64 off1) data) (take m b) data) (as_i64 off2) n b' ∧
          (of_append o1 = false → off2 = off1 → (n ≤ m)%nat → b' `prefix_of` take n b ∧ (b' = [] → n = 0%nat)))).
Proof.
  intros Hos Hs Hh1 Hh2 Ho Hnd Hb Hreq1 Hreq2.
  destruct (request_step Hos 1 _ _ _ s Hreq1 Hs I) as (r1 & s1 & v1 & Hr1 & Hs1 & Hg1 & Hrp1).
  destruct (request_step Hos 0 _ _ _ s1 Hreq2 Hs1 I) as (r2 & s2 & v2 & Hr2 & _ & Hg2 & _).
  eexists _, s1, _, s2. split_and!; [exact Hr1|exact Hr2|].
  inversion Hg1; subst; [left; by eexists|right]. rename n0 into m.
  match goal with Hx : written_by _ _ _ _ _ _ |- _ => destruct Hx as (o & Ho' & Hm & Hoff & ->) end. assert (o = o1) as -> by congruence.
  exists m. split_and!; [done|done|]. inversion Hg2; subst; [left; by eexists|right]. rename b0 into b'.
  match goal with Hx : read_by _ _ _ _ _ |- _ => destruct Hx as (o & nd' & Ho2 & Hnd' & Hrd) end.
  exists b'. split; [done|]. set (data' := write_at (write_offset o1 (as_i64 off1) data) (take m b) data).
  destruct (reaped_handle _ (view (s_fs s1)) h2 false o2 (set_body (BFile data') nd) Hrp1) as [Hh2' Hnd2]; [done| |].
  { cbn [v_files set_files]. rewrite <- Ho, lookup_alter_eq, Hnd. simpl. unfold edit_data. by rewrite Hb. }
  assert (o = o2) as -> by congruence. rewrite Hnd2 in Hnd'. injection Hnd' as <-.
  pose proof (Hrd data' eq_refl) as Hread. split; [exact Hread|]. intros Happ -> Hnm. by apply (read_back o1 off1 data b m).
Qed.

Lemma write_then_read_witness :
  let s := toy_after (take 2 sample_talk) in
  let req1 := request 16 3 2 (u64_le 1 ++ u64_le 0 ++ u32_le 1 ++ replicate 20 NUL ++ name_b ++ []) in
  let req2 := request 15 4 2 (u64_le 1 ++ u64_le 0 ++ u32_le 1 ++ []) in
  ∃ reply1 s1 reply2 s2, Session_handle (E := ProtoError) req1 s = (Ok reply1, s1) ∧
    Session_handle (E := ProtoError) req2 s1 = (Ok reply2, s2) ∧
    (is_error 3 reply1 ∨
     ∃ m, (m ≤ 1)%nat ∧ reply1 = ok_reply 3 (write_out (as_u32 (Z.of_nat m))) ∧
       (is_error 4 reply2 ∨
        ∃ b', reply2 = ok_reply 4 b' ∧ read_from (write_at 0 (take m name_b) [Byte.x03]) 0 1 b' ∧
          (false = false → 0 = 0 → (1 ≤ m)%nat → b' `prefix_of` take 1 name_b ∧ (b' = [] → (1 = 0)%nat)))).
Proof.
  intros s req1 req2.
  apply (write_then_read (HL := toy_laws) s 1 1 (mkOpenFile (mkFileKey 1 12) false) (mkOpenFile (mkFileKey 1 12) false)
    (mkNode (BFile [Byte.x03]) 0x1a4 0 0) [Byte.x03] 0 0 name_b 1 3 4 req1 req2).
  - apply linux_os.
  - apply toy_lasts; [apply Forall_take, sample_talk_ok| |simpl; lia].
    destruct sample_talk_proper as (Hp1 & Hp2 & _). by split_and!.
  - vm_compute. reflexivity.
  - vm_compute. reflexivity.
  - done.
  - vm_compute. reflexivity.
  - done.
  - eexists OpWrite, 2, _. split_and!; [apply (sent_write 2 1 0 name_b (replicate 20 NUL) []); (uint || done)|uint..|done|vm_compute; reflexivity].
  - eexists OpRead, 2, _. split_and!; [apply (sent_read 2 1 0 1 []); (uint || done)|uint..|done|vm_compute; reflexivity].
Defined.

