(* ===== verification/Stack.v ===== *)
(** * The whole stack

    From the rings in the guest's memory to the files: serving a queue runs the session on the
    requests of its chains, in order, and the replies of the session are what the guest finds in
    its buffers.  With the refinement of [Conversation], a kick is a conversation of the abstract
    file system. *)

From S2P Require Import Prelude Libc Errors Bytes Attr Wire Inode Handle Host Posix ToyHost ToyPosix Passthrough FsProps.
From S2P Require Import GuestView GuestRefine Dispatch DispatchProps Capacity VhostMsg Memory Virtqueue VirtqueueProps.
From S2P Require Import Doorbell Connection Server ServerProps QueueProps GuestSession Conversation GuestProps.
Local Open Scope Z_scope.

(** A chain with the request in it and the addresses of its readable and writable bytes. *)
Record Offer := mkOffer { off_head : Z; off_req : bytes; off_in : list ptr; off_out : list ptr }.

(** The chain is in the table and holds the request; the reply has room of its own. *)
Definition offered `{Build} (mem : GuestMemory) (vq : Virtqueue) (ps : places) (h : Heap) (o : Offer) : Prop :=
  ∃ ds, linked (table_in mem vq h) (off_head o) ds ∧ (length ds ≤ MAX_CHAIN_LEN)%nat ∧
    segs_cells mem (readable_of ds) = Some (off_in o) ∧ segs_cells mem (writable_of ds) = Some (off_out o) ∧
    load_cells (off_in o) h = Some (off_req o) ∧
    Z.of_nat (length (off_out o)) < 2 ^ 32 ∧ NoDup (off_out o) ∧ transfer_fits (off_req o) (off_out o) ∧
    (∀ c, c ∈ off_out o → c ∉ ring_cells vq ps ++ used_cells vq ps) ∧ (∀ c, c ∈ off_in o → c ∉ used_cells vq ps).

(** The reply to one chain is not written into the buffers of another. *)
Definition untouched (o o' : Offer) : Prop :=
  (∀ c, c ∈ off_out o → c ∉ off_in o' ++ off_out o') ∧ (∀ c, c ∈ off_out o' → c ∉ off_in o ++ off_out o).

(** A reply in its buffers, as much of it as fits: the bytes, the length, and the memory with it. *)
Definition reply_in (ws : list ptr) (r : Reply) (h : Heap) : Prop :=
  match r with
  | ReplyNone => True
  | ReplyBytes b => load_cells (take (length b) ws) h = Some (take (length ws) b)
  end.
Definition reply_len (ws : list ptr) (r : Reply) : Z :=
  match r with ReplyNone => 0 | ReplyBytes b => Z.of_nat (min (length b) (length ws)) end.
Definition reply_stored (ws : list ptr) (r : Reply) (h : Heap) : Heap :=
  match r with
  | ReplyNone => h
  | ReplyBytes b => store_cells (take (length b) ws) (take (length ws) b) h
  end.

(** * Lemmas *)

Lemma reply_stored_in ws r h : NoDup ws → reply_in ws r (reply_stored ws r h).
Proof.
  intros Hnd. destruct r as [b|]; [|done]. simpl. apply load_store_same.
  - by eapply sublist_NoDup, sublist_take.
  - rewrite !length_take. lia.
Qed.

Lemma reply_stored_frame ws r h c : c ∉ ws → reply_stored ws r h !! c = h !! c.
Proof.
  intros Hc. destruct r as [b|]; [|done]. apply store_cells_notin. intros Hin. apply Hc.
  by eapply subseteq_take.
Qed.

Lemma reply_stored_ok mem ws r h : mem_ok h mem → mem_ok (reply_stored ws r h) mem.
Proof. intros Hm. destruct r; [by apply mem_ok_store|done]. Qed.

Lemma reply_in_agree ws r h h' : agree ws h h' → reply_in ws r h → reply_in ws r h'.
Proof.
  intros Ha. destruct r as [b|]; [|done]. simpl. intros <-. apply load_cells_agree.
  eapply agree_sub; [|exact Ha]. intros c. by apply subseteq_take.
Qed.

Lemma reply_len_uint ws r : Z.of_nat (length ws) < 2 ^ 32 → is_uint 32 (reply_len ws r).
Proof. intros Hw. destruct r; simpl; uint. Qed.

Lemma offered_agree `{Build} mem vq ps h h' o :
  queue_ready mem vq ps h → agree (ring_cells vq ps) h h' → agree (off_in o) h h' →
  offered mem vq ps h o → offered mem vq ps h' o.
Proof.
  intros Hq Ha Hin (ds & Hl & Hlen & Hi & Ho & Hr & Hrest). exists ds.
  split; [|split; [done|split; [done|split; [done|split; [|done]]]]].
  - eapply linked_mono; [|exact Hl]. intros i d. by rewrite (table_agree mem vq ps h h').
  - by rewrite (load_cells_agree _ _ _ Hin).
Qed.

Section Serve.
Context `{Libc, Build, HashOrder, HL : HostLaws, !VectoredLaws}.
Context (mem : GuestMemory) (ps : places).

(** What serving the request of [o] does, the reply [r] and the session [x] after it given. *)
Definition offer_served (vq : Virtqueue) (o : Offer) (r : Reply) (x : Session) (s : Server) : Server :=
  mkServer (srv_conn s) (srv_mem s) (srv_vrings s) x
    (used_pushed mem vq (p_used ps) (reply_stored (off_out o) r (srv_heap s)) (off_head o) (reply_len (off_out o) r)).

Lemma serve_offer vq o n s :
  queue_ready mem vq ps (srv_heap s) → offered mem vq ps (srv_heap s) o → session_lasts (S n) (srv_session s) →
  ∃ r x, Session_handle (E := ProtoError) (off_req o) (srv_session s) = (Ok r, x) ∧ session_lasts n x ∧
    answered (off_req o) r ∧ serve_request mem vq (off_head o) s = (Ok tt, offer_served vq o r x s).
Proof.
  intros Hq (ds & Hl & Hlen & Hin & Hout & Hreq & H32 & Hnd & Hfit & _) Hlasts.
  destruct (ready_chain_mapped mem ps vq _ _ ds _ _ Hq Hl Hlen Hin Hout) as [bs Hc].
  assert (bs = off_req o) as -> by (pose proof (cm_bs _ _ _ _ _ _ Hc); congruence).
  destruct (session_lasts_step (E := ProtoError) n (off_req o) (srv_session s) (cm_slice _ _ _ _ _ _ Hc) Hlasts)
    as (r & x & Hh & Hx & Ha). exists r, x. split_and!; [done..|].
  unfold serve_request, mbind, M_bind. rewrite (on_heap_read _ _ _ (read_chain_ready mem vq ps _ _ _ Hq Hl Hlen)).
  rewrite (prefix_run mem _ _ _ _ s Hc REQUEST_HEADER_LEN).
  rewrite (dispatch_equiv mem _ (off_req o) (off_out o) s); [|apply Hc..| |by eexists; split_and!; apply Hc|done].
  2:{ simpl. unfold writable_of. rewrite length_fmap. etrans; [apply length_filter|done]. }
  unfold dispatch_generic, mbind, M_bind. rewrite (gather_run mem _ _ _ _ s Hc). unfold on_session, zoom. rewrite Hh.
  assert (∀ s1, s1 = set_heap (reply_stored (off_out o) r (srv_heap s)) (set_session x s) →
    on_heap (push_used mem vq (off_head o) (reply_len (off_out o) r)) s1 = (Ok tt, offer_served vq o r x s)) as Hpush.
  { intros s1 ->. erewrite on_heap_ok; [done|]. apply (push_used_run mem vq (p_used ps) (qr_used _ _ _ _ Hq)).
    apply reply_stored_ok, Hc. }
  destruct r as [b|]; [|by apply Hpush; destruct s].
  rewrite (scatter_run mem _ _ _ _ s Hc (set_session x s) b) by (apply Hc || lia). by apply Hpush.
Qed.

(** The same as a step of the queue. *)
Lemma offer_request vq o n r x s :
  queue_ready mem vq ps (srv_heap s) → offered mem vq ps (srv_heap s) o → session_lasts n x → answered (off_req o) r →
  request_served mem ps vq (off_head o) (reply_len (off_out o) r) n s (offer_served vq o r x s).
Proof.
  intros Hq (ds & Hl & Hlen & Hin & Hout & Hreq & H32 & Hnd & Hfit & Hapart & _) Hx Ha. split; try done.
  - by apply reply_len_uint.
  - exists ds, (off_in o), (off_out o), (off_req o). split_and!; [done..|]. exists r. split; [done|].
    assert (reply_in (off_out o) r (srv_heap (offer_served vq o r x s))) as Hr.
    { eapply reply_in_agree; [|by apply (reply_stored_in (off_out o) r (srv_heap s))]. intros c Hc. simpl.
      apply (used_pushed_frame mem vq (p_used ps) (qr_used _ _ _ _ Hq)). intros Hu.
      by apply (Hapart c Hc), elem_of_app; right. }
    by destruct r.
  - exists (reply_stored (off_out o) r (srv_heap s)). split_and!; [apply reply_stored_ok, Hq| |done].
    intros c Hc. apply reply_stored_frame. intros Ho. by apply (Hapart c).
Qed.

Lemma offer_frame vq o r x s c :
  queue_ready mem vq ps (srv_heap s) → c ∉ off_out o → c ∉ used_cells vq ps →
  srv_heap (offer_served vq o r x s) !! c = srv_heap s !! c.
Proof.
  intros Hq Ho Hu. simpl. rewrite (used_pushed_frame mem vq (p_used ps) (qr_used _ _ _ _ Hq)) by done.
  by apply reply_stored_frame.
Qed.

(** ** A whole queue *)

(** The published chains of a queue, each with its request. *)
Record batch (vq : Virtqueue) (h : Heap) (os : list Offer) : Prop := {
  ba_ready : queue_ready mem vq ps h;
  ba_count : published mem h vq = length os;
  ba_heads : ring_head mem h vq <$> seqZ 0 (Z.of_nat (length os)) = off_head <$> os;
  ba_offered : Forall (offered mem vq ps h) os;
  ba_apart : ForallOrdPairs untouched os;
}.

(** The chains after the first one are as they were when it has been served. *)
Lemma batch_next vq o os s r x :
  batch vq (srv_heap s) (o :: os) →
  batch (vq_next vq) (srv_heap (offer_served (vq_next vq) o r x s)) os.
Proof.
  intros [Hq Hn Hh Hof Hap]. pose proof (ready_next mem vq ps _ _ Hq Hn) as Hq'.
  apply Forall_cons in Hof as [Ho Hos]. inversion_clear Hap as [|? ? Huo Hap'].
  set (h1 := srv_heap (offer_served (vq_next vq) o r x s)).
  assert (agree (ring_cells (vq_next vq) ps) (srv_heap s) h1) as Ha.
  { intros c Hc. apply offer_frame; [done| |].
    - destruct Ho as (ds & _ & _ & _ & _ & _ & _ & _ & _ & Hout & _). intros Hin. apply (Hout c Hin), elem_of_app. by left.
    - intros Hu. by apply (qr_apart _ _ _ _ Hq c). }
  assert (mem_ok h1 mem) as Hm by (apply used_pushed_ok, reply_stored_ok, Hq).
  assert (ring_head mem h1 (vq_next vq) <$> seqZ 0 (Z.of_nat (length os))
          = (ring_head mem (srv_heap s) (vq_next vq) <$> seqZ 0 (Z.of_nat (length os)) : list Z)) as Hheads.
  { apply list_fmap_ext. intros i z _. by eapply head_agree. }
  split.
  - by eapply ready_agree.
  - rewrite (published_agree mem (vq_next vq) ps _ _ Hq' Ha). apply published_next; [apply Hq|apply Hq|done].
  - rewrite Hheads. cbn [length fmap list_fmap] in Hh. rewrite ring_heads_S in Hh. by injection Hh.
  - apply Forall_forall. intros o' Hin. eapply offered_agree; [exact Hq'|exact Ha| |].
    + intros c Hc. rewrite Forall_forall in Huo, Hos. destruct (Hos o' Hin) as (ds & _ & _ & _ & _ & _ & _ & _ & _ & _ & Hi).
      apply offer_frame; [done| |by apply Hi]. intros Hc'. by apply (proj1 (Huo o' Hin) c Hc'), elem_of_app; left.
    + rewrite Forall_forall in Hos. exact (Hos o' Hin).
  - done.
Qed.

Context (idx : nat) `{!Events}.

Lemma process_offer vq o os n s :
  slot_queue idx s = Some vq → batch vq (srv_heap s) (o :: os) → session_lasts (S n) (srv_session s) →
  ∃ r x, Session_handle (E := ProtoError) (off_req o) (srv_session s) = (Ok r, x) ∧ session_lasts n x ∧
    answered (off_req o) r ∧
    process_one mem idx vq s =
      (Ok true, offer_served (vq_next vq) o r x (update_slot idx (set_slot_vq (vq_next vq)) s)).
Proof.
  intros Hslot [Hq Hn Hh Hof Hap] Hl. apply Forall_cons in Hof as [Ho Hos].
  pose proof (ready_next mem vq ps _ _ Hq Hn) as Hq'. unfold process_one, mbind, M_bind.
  rewrite (on_heap_read _ s _ (pop_published mem _ (qr_mem _ _ _ _ Hq) vq _ (ready_avail _ _ _ _ Hq) Hn)).
  cbn [length fmap list_fmap] in Hh. rewrite ring_heads_S in Hh. injection Hh as -> _.
  destruct (serve_offer (vq_next vq) o n (update_slot idx (set_slot_vq (vq_next vq)) s)) as (r & x & Hs & Hx & Ha & Hrun);
    [done..|]. exists r, x. split_and!; [done..|]. unfold modify. by rewrite Hrun.
Qed.

(** The loop answers every chain: the session serves the requests in order, and its replies are in
    the buffers of the chains. *)
Lemma loop_offers os : ∀ fuel k s vq,
  (length os < fuel)%nat → slot_queue idx s = Some vq → batch vq (srv_heap s) os →
  session_lasts (length os) (srv_session s) → 0 ≤ k → k + Z.of_nat (length os) < 2 ^ 31 →
  ∃ rs s', process_loop fuel mem idx k s = (Ok (k + Z.of_nat (length os)), s') ∧
    serve_all (off_req <$> os) (srv_session s) = (Ok rs, srv_session s') ∧
    queue_served mem ps idx vq (length os) (zip_with (λ o, reply_len (off_out o)) os rs) s s' ∧
    Forall2 (λ o r, reply_in (off_out o) r (srv_heap s')) os rs ∧
    (∀ c, c ∉ used_cells vq ps → Forall (λ o, c ∉ off_out o) os → srv_heap s' !! c = srv_heap s !! c).
Proof.
  induction os as [|o os IH]; intros [|fuel] k s vq Hf Hslot Hb Hl Hk Hk'; cbn [length] in *; try lia;
    rewrite process_loop_S; unfold mbind, M_bind, gets; rewrite Hslot; unfold map_errM.
  - exists [], s. pose proof Hb as [Hq Hn _ _ _]. split_and!; [|done|by apply served_nothing|by constructor|done].
    unfold process_one, mbind, M_bind.
    rewrite (on_heap_read _ s _ (pop_empty mem _ (qr_mem _ _ _ _ Hq) vq (ready_avail _ _ _ _ Hq) Hn)).
    by rewrite Z.add_0_r.
  - destruct (process_offer vq o os (length os) s Hslot Hb Hl) as (r & x & Hh & Hx & Ha & ->). cbn [map_err].
    unfold lift. rewrite iadd_in by lia.
    set (s0 := update_slot idx (set_slot_vq (vq_next vq)) s). set (s1 := offer_served (vq_next vq) o r x s0).
    pose proof Hb as [Hq Hn Hheads Hof Hap]. apply Forall_cons in Hof as [Ho Hos]. inversion_clear Hap as [|? ? Huo _].
    pose proof (ready_next mem vq ps _ _ Hq Hn) as Hq'.
    destruct (IH fuel (k + 1) s1 (vq_next vq)) as (rs & s2 & Hrun & Hall & Hqs & Hrs & Hfr);
      [lia| |by apply (batch_next vq o os s0)|done|lia|lia|].
    { unfold slot_queue, s1. cbn [offer_served srv_vrings]. unfold s0. rewrite update_lookup.
      unfold slot_queue in Hslot. by destruct (srv_vrings s !! idx). }
    exists (r :: rs), s2. split_and!.
    + rewrite Hrun. do 2 f_equal. lia.
    + cbn [fmap list_fmap serve_all]. unfold mbind, M_bind. rewrite Hh. change x with (srv_session s1). by rewrite Hall.
    + cbn [length fmap list_fmap] in Hheads. rewrite ring_heads_S in Hheads. injection Hheads as Hhead _.
      cbn [zip_with]. eapply (served_more mem ps idx vq (length os) (off_head o)); [done|done|by rewrite Hhead| |exact Hqs].
      pose proof (offer_request (vq_next vq) o (length os) r x s0 Hq' Ho Hx Ha) as Hr. by destruct Hr.
    + constructor; [|done]. destruct Ho as (ds & _ & _ & _ & _ & _ & _ & Hnd & _ & Hout & _).
      eapply reply_in_agree; [|by apply (reply_stored_in (off_out o) r (srv_heap s0))]. intros c Hc.
      assert (c ∉ used_cells vq ps) as Hu by (intros Hu; apply (Hout c Hc), elem_of_app; by right).
      rewrite Hfr; [|done|].
      * apply (used_pushed_frame mem (vq_next vq) (p_used ps) (qr_used _ _ _ _ Hq')). exact Hu.
      * eapply Forall_impl; [exact Huo|]. intros o' [Hd _] Hc'. by apply (Hd c Hc), elem_of_app; right.
    + intros c Hu [Hc Hcs]%Forall_cons. rewrite Hfr by done. by apply (offer_frame (vq_next vq) o r x s0).
Qed.
End Serve.

(** ** A whole mount *)

(** A round: the guest has changed its memory and published chains, and kicks the queue. *)
Record Round := mkRound {
  rd_queue : nat;
  rd_places : places;
  rd_heap : Heap;
  rd_offers : list Offer;
  rd_reqs : list Req;
}.

(** One round after the other: the memory the guest finds at the end of each. *)
Fixpoint serve_rounds `{Libc, Build, HashOrder, Host, !Events} (fuel : nat) (l : list Round) : M Server Stop (list Heap) :=
  match l with
  | [] => mret []
  | rd :: l =>
      _ ← modify (set_heap (rd_heap rd));
      _ ← process_vring fuel (rd_queue rd);
      h ← gets srv_heap;
      hs ← serve_rounds fuel l;
      mret (h :: hs)
  end.

Section Mount.
Context `{Libc, Build, HashOrder, HL : HostLaws, !VectoredLaws, !Events, !EventLaws, !PosixView, !PosixLaws, !FlagLaws, !HashOrderLaws}.
Context (Hos : target_os ≠ OtherUnix) (fuel : nat) (mem : GuestMemory).
Implicit Types s : Server.

(** A descriptor that is not a file: writing to it changes none. *)
Definition bell (fd : Z) : Prop := ∀ b w, same w (sys_write fd b w).2.

(** The guest follows the virtio rules and sends proper requests. *)
Definition round_ok (rd : Round) (s : Server) : Prop :=
  ∃ slot vq, srv_vrings s !! rd_queue rd = Some slot ∧ slot_vq slot = Some vq ∧
    (∀ fd, slot_call_fd slot = Some fd → bell fd) ∧
    batch mem (rd_places rd) vq (rd_heap rd) (rd_offers rd) ∧
    off_req <$> rd_offers rd = q_bytes <$> rd_reqs rd ∧ Forall req_ok (rd_reqs rd) ∧
    along proper_meaning (rd_reqs rd) (srv_session s) ∧ (length (rd_reqs rd) < fuel)%nat.

Fixpoint rounds_ok (l : list Round) (s : Server) : Prop :=
  match l with
  | [] => True
  | rd :: l => round_ok rd s ∧ rounds_ok l (process_vring fuel (rd_queue rd) (set_heap (rd_heap rd) s)).2
  end.

(** The replies are in the buffers of the chains. *)
Definition replies_in (rd : Round) (rs : list Reply) (h : Heap) : Prop :=
  Forall2 (λ o r, reply_in (off_out o) r h) (rd_offers rd) rs.

Lemma conversation_app v c l1 v1 c1 l2 v2 c2 :
  conversation v c l1 v1 c1 → conversation v1 c1 l2 v2 c2 → conversation v c (l1 ++ l2) v2 c2.
Proof. induction 1; [done|]. intros Hc. cbn [app]. econstructor; eauto. Qed.

Lemma notified_same slot n s :
  (∀ fd, slot_call_fd slot = Some fd → bell fd) →
  ∃ w, notified slot n s = set_world w s ∧ same (srv_world s) w ∧ open_fds w = open_fds (srv_world s).
Proof.
  intros Hb. assert (s = set_world (srv_world s) s) as Hid by (by destruct s as [? ? ? [[] ?] ?]).
  destruct n; simpl; [by exists (srv_world s)|]. destruct (slot_call_fd slot) as [fd|]; [|by exists (srv_world s)].
  eexists. split; [done|]. split; [by apply Hb|apply law_write].
Qed.

Lemma round_runs rd n s :
  srv_mem s = Some mem → round_ok rd s → lasts_sane (length (rd_reqs rd) + n) (srv_session s) →
  ∃ rs s', process_vring fuel (rd_queue rd) (set_heap (rd_heap rd) s) = (Ok tt, s') ∧ srv_mem s' = Some mem ∧
    length rs = length (rd_reqs rd) ∧ lasts_sane n (srv_session s') ∧ replies_in rd rs (srv_heap s') ∧
    conversation (view (srv_fs s)) (readdir_cache (srv_session s)) (zip (rd_reqs rd) rs)
      (view (srv_fs s')) (readdir_cache (srv_session s')).
Proof.
  intros Hmem (slot & vq & Hslot & Hvq & Hbell & Hb & Hreq & Hok & Hp & Hf) Hl.
  assert (length (rd_offers rd) = length (rd_reqs rd)) as Hlen.
  { apply (f_equal length) in Hreq. by rewrite !length_fmap in Hreq. }
  destruct (conversation_runs Hos (rd_reqs rd) n (srv_session s) Hok Hl Hp) as (rs & x & Hall & Hrs & Hx & Hconv).
  destruct (loop_offers mem (rd_places rd) (rd_queue rd) (rd_offers rd) fuel 0 (set_heap (rd_heap rd) s) vq)
    as (rs' & s1 & Hrun & Hall' & Hqs & Hin & _); [lia| |done| |lia| |].
  { unfold slot_queue. simpl. by rewrite Hslot. }
  { destruct Hl as [[Hok' Hroom] _]. split; [done|]. eapply s_room_weaken; [|exact Hroom]. lia. }
  { pose proof (ba_ready _ _ _ _ _ Hb) as Hq. pose proof (qr_count _ _ _ _ Hq). pose proof (qr_size _ _ _ _ Hq).
    pose proof (ba_count _ _ _ _ _ Hb). lia. }
  simpl in Hall'. rewrite Hreq, Hall in Hall'. injection Hall' as <- Hx1.
  destruct (notified_same slot (length (rd_offers rd)) s1 Hbell) as (w & Hw & Hsame & Hfds).
  assert (srv_session s1 = x) as Hs1 by (by rewrite Hx1).
  exists rs, (notified slot (length (rd_offers rd)) s1). split_and!.
  - unfold process_vring, mbind, M_bind, gets. simpl. rewrite Hmem, Hslot, Hvq, Hrun. cbn [Z.add]. unfold notified.
    clear. destruct (length (rd_offers rd)), (slot_call_fd slot); done.
  - rewrite Hw. simpl. rewrite (qs_mem _ _ _ _ _ _ _ _ Hqs). done.
  - done.
  - rewrite Hw. destruct Hx as [Hx1' Hx2]. split; [by apply lasts_world; [|rewrite Hs1]|].
    simpl. apply (sane_put w (srv_fs s1)); [|apply Hsame]. unfold srv_fs. by rewrite Hs1.
  - rewrite Hw. exact Hin.
  - rewrite Hw. change (view (srv_fs (set_world w s1))) with (view (put_world w (srv_fs s1))).
    rewrite view_same by done. unfold srv_fs. simpl. by rewrite Hs1.
Qed.

Lemma mount_runs l : ∀ n s,
  srv_mem s = Some mem → rounds_ok l s → lasts_sane (length (concat (rd_reqs <$> l)) + n) (srv_session s) →
  ∃ hs rss s', serve_rounds fuel l s = (Ok hs, s') ∧ lasts_sane n (srv_session s') ∧
    Forall3 replies_in l rss hs ∧
    conversation (view (srv_fs s)) (readdir_cache (srv_session s)) (zip (concat (rd_reqs <$> l)) (concat rss))
      (view (srv_fs s')) (readdir_cache (srv_session s')).
Proof.
  induction l as [|rd l IH]; intros n s Hmem Hok Hl; cbn [serve_rounds].
  - exists [], [], s. split_and!; [done..|constructor|constructor].
  - destruct Hok as [Hrd Hok]. cbn [fmap list_fmap concat] in Hl. rewrite length_app, <- Nat.add_assoc in Hl.
    destruct (round_runs rd _ s Hmem Hrd Hl) as (rs & s1 & Hrun & Hmem1 & Hlen & Hl1 & Hin & Hc).
    rewrite Hrun in Hok. destruct (IH n s1 Hmem1 Hok Hl1) as (hs & rss & s2 & Hall & Hl2 & Hins & Hc2).
    exists (srv_heap s1 :: hs), (rs :: rss), s2. split_and!; [|done|by constructor|].
    + unfold mbind, M_bind, modify, gets. by rewrite Hrun, Hall.
    + cbn [fmap list_fmap concat]. rewrite zip_with_app by done. by eapply conversation_app.
Qed.
End Mount.

(** ** A small mount *)

#[local] Existing Instance toy_host.
#[local] Existing Instance linux_libc.
#[local] Existing Instance key_order.
#[local] Existing Instance debug_build.
#[local] Existing Instance linux_flags.

(** The memory of [io_heap] with [n] chains published so far. *)
Definition round_heap (n : Z) (req : bytes) : Heap := store_cells (cells (7, 0x42) 2) (u16_le n) (io_heap req).

Definition io_offer (req : bytes) : Offer :=
  mkOffer 0 req (cells (7, 0x80) 50 ++ cells (7, 0xB2) 30) (cells (7, 0x100) 10 ++ cells (7, 0x140) 30).

(** LOOKUP of [a], then GETATTR of what it found. *)
Definition req_lookup : bytes := request 1 7 ROOT_ID (name_a ++ NUL :: replicate 38 NUL).
Definition req_getattr : bytes := request 3 8 2 (u32_le 0 ++ u32_le 0 ++ u64_le 0 ++ replicate 24 NUL).

Definition toy_rounds : list Round :=
  [mkRound 0 io_places (round_heap 1 req_lookup) [io_offer req_lookup]
     [mkReq 7 (MRun (FLookup ROOT_ID name_a)) req_lookup];
   mkRound 0 io_places (round_heap 2 req_getattr) [io_offer req_getattr]
     [mkReq 8 (MRun (FGetattr 2)) req_getattr]].

Definition mount_server : Server :=
  mkServer 3 (Some io_memory) [mkVringSlot (Some 4) 0 (Some (ring_queue 4 0)) None (Some 5) true] toy_session ∅.

Lemma round_chain n req :
  n = 1 ∨ n = 2 → load_cells (off_in (io_offer req)) (round_heap n req) = Some req →
  linked (table_in io_memory (ring_queue 4 (n - 1)) (round_heap n req)) 0
    [(0x1080, 50, 1, 1); (0x10B2, 30, 1, 2); (0x1100, 10, 3, 3); (0x1140, 30, 2, 0)] →
  transfer_fits req (off_out (io_offer req)) →
  offered io_memory (ring_queue 4 (n - 1)) io_places (round_heap n req) (io_offer req).
Proof.
  intros Hn Hreq Hl Hfit. eexists. split; [exact Hl|]. split_and!.
  - simpl. unfold MAX_CHAIN_LEN. lia.
  - vm_compute. reflexivity.
  - vm_compute. reflexivity.
  - done.
  - vm_compute. reflexivity.
  - cbn [off_out io_offer]. apply NoDup_app. split_and!; [apply NoDup_cells| |apply NoDup_cells].
    intros c. rewrite !elem_of_cells. simpl. lia.
  - done.
  - intros c. unfold ring_cells, used_cells. cbn [off_out io_offer]. rewrite !elem_of_app, !elem_of_cells. simpl. lia.
  - intros c. unfold used_cells. cbn [off_in io_offer]. rewrite !elem_of_app, !elem_of_cells. simpl. lia.
Qed.

Lemma round_batch n req :
  n = 1 ∨ n = 2 → offered io_memory (ring_queue 4 (n - 1)) io_places (round_heap n req) (io_offer req) →
  published io_memory (round_heap n req) (ring_queue 4 (n - 1)) = 1%nat →
  ring_head io_memory (round_heap n req) (ring_queue 4 (n - 1)) 0 = 0 →
  batch io_memory io_places (ring_queue 4 (n - 1)) (round_heap n req) [io_offer req].
Proof.
  intros Hn Ho Hp Hh. split.
  - split.
    + apply mem_ok_store, io_memory_ok.
    + split; [simpl; lia|by exists 16384].
    + simpl. uint.
    + split; simpl; lia.
    + vm_compute. reflexivity.
    + vm_compute. reflexivity.
    + split; [simpl; lia|vm_compute; reflexivity].
    + intros c. unfold ring_cells, used_cells. rewrite !elem_of_app, !elem_of_cells. simpl. lia.
    + rewrite Hp. simpl. lia.
    + rewrite Hp. intros i Hi. replace i with 0 by lia. rewrite Hh.
      destruct Ho as (ds & Hl & Hlen & Hi' & Ho' & _ & H32 & Hnd & _ & Hap & _). exists ds, (off_in (io_offer req)), (off_out (io_offer req)).
      by split_and!.
  - done.
  - change (seqZ 0 (Z.of_nat (length [io_offer req]))) with [0]. cbn [fmap list_fmap]. by rewrite Hh.
  - by apply Forall_singleton.
  - repeat constructor.
Qed.

Ltac toy_round :=
  apply round_batch; [by auto| |vm_compute; reflexivity..]; apply round_chain; [by auto|vm_compute; reflexivity| |exact I];
  do 3 (eapply linked_more; [vm_compute; reflexivity..|]); apply linked_last; vm_compute; reflexivity.

Lemma toy_batch1 : batch io_memory io_places (ring_queue 4 0) (round_heap 1 req_lookup) [io_offer req_lookup].
Proof. change 0 with (1 - 1). toy_round. Qed.

Lemma toy_batch2 : batch io_memory io_places (ring_queue 4 1) (round_heap 2 req_getattr) [io_offer req_getattr].
Proof. change 1 with (2 - 1). toy_round. Qed.

Lemma lookup_request : req_ok (mkReq 7 (MRun (FLookup ROOT_ID name_a)) req_lookup).
Proof.
  exists OpLookup, ROOT_ID, (name_a ++ NUL :: replicate 38 NUL).
  split_and!; [by apply asks_run, sent_lookup, name_plain|done|unfold ROOT_ID; simpl; uint..|done|vm_compute; reflexivity].
Qed.

Lemma getattr_request : req_ok (mkReq 8 (MRun (FGetattr 2)) req_getattr).
Proof.
  exists OpGetattr, 2, (u32_le 0 ++ u32_le 0 ++ u64_le 0 ++ replicate 24 NUL).
  split_and!; [apply asks_run; constructor|done|simpl; uint..|done|vm_compute; reflexivity].
Qed.

Lemma toy_rounds_ok : rounds_ok (H4 := kick_events) 2 io_memory toy_rounds mount_server.
Proof.
  split; [|split; [|exact I]].
  - exists (mkVringSlot (Some 4) 0 (Some (ring_queue 4 0)) None (Some 5) true), (ring_queue 4 0).
    split_and!; [done|done|by intros fd [= <-] b w; simpl; destruct (bell_count w)|apply toy_batch1|done| | |simpl; lia].
    + apply Forall_singleton, lookup_request.
    + split; [|exact I]. apply (bool_decide_unpack _). vm_compute. exact I.
  - exists (mkVringSlot (Some 4) 0 (Some (ring_queue 4 1)) None (Some 5) true), (ring_queue 4 1).
    split_and!; [vm_compute; reflexivity|done|by intros fd [= <-] b w; simpl; destruct (bell_count w)|apply toy_batch2|done| |by split|simpl; lia].
    apply Forall_singleton, getattr_request.
Qed.

(** * Properties *)

(** C1: a mount is a conversation with the abstract file system.  From a freshly opened share, in
    any number of rounds the guest publishes chains with proper requests in its memory, by the
    virtio rules and in either queue, and kicks.  Every round is served to its end; at the end of
    each the guest finds in the buffers of every chain the reply to its request, as much of it as
    fits; and all requests of the mount, in the order of the rings, with these replies, are one
    conversation of the contract of the file system. *)
Theorem mounts_refine
    `{Libc, Build, HashOrder, HL : HostLaws, !VectoredLaws, !Events, !EventLaws, !PosixView, !PosixLaws, !FlagLaws, !HashOrderLaws}
    fuel mem path w fs w' s l n :
  target_os ≠ OtherUnix → PassthroughFs_new path w = (Ok fs, w') →
  srv_session s = Session_new fs → srv_mem s = Some mem → rounds_ok fuel mem l s →
  Z.of_nat (length (concat (rd_reqs <$> l)) + n) < 2 ^ 63 - 1 →
  ∃ hs rss s' k, serve_rounds fuel l s = (Ok hs, s') ∧ lasts_sane n (srv_session s') ∧
    Forall3 replies_in l rss hs ∧ is_Some (entries_of (files w) k) ∧
    conversation (fresh_view k (files w)) ∅ (zip (concat (rd_reqs <$> l)) (concat rss))
      (view (srv_fs s')) (readdir_cache (srv_session s')).
Proof.
  intros Hos Hnew Hs Hmem Hok Hlen. destruct (new_sane _ _ _ _ Hnew) as (_ & k & Hk & Hv).
  destruct (mount_runs Hos fuel mem l n s Hmem Hok) as (hs & rss & s' & Hall & Hl & Hin & Hc).
  { rewrite Hs. by eapply lasts_sane_new. }
  exists hs, rss, s', k. split_and!; [done..|]. unfold srv_fs in Hc at 1. rewrite Hs in Hc. simpl in Hc.
  by rewrite Hv in Hc.
Qed.

Lemma mounts_refine_witness :
  ∃ hs rss s' k, serve_rounds (H3 := kick_events) 2 toy_rounds mount_server = (Ok hs, s') ∧
    lasts_sane (HL := toy_laws) 9 (srv_session s') ∧
    Forall3 replies_in toy_rounds rss hs ∧ is_Some (entries_of (files (toy0 8)) k) ∧
    conversation (fresh_view k (files (toy0 8))) ∅ (zip (concat (rd_reqs <$> toy_rounds)) (concat rss))
      (view (srv_fs s')) (readdir_cache (srv_session s')).
Proof.
  apply (mounts_refine (HL := toy_laws) (H3 := toy_vectored) (H4 := kick_events) (H5 := kick_event_laws) 2 io_memory
    [Byte.x2f] (toy0 8) (toy_fs 8) (world (toy_fs 8)) mount_server toy_rounds 9).
  - done.
  - apply toy_fs_new. lia.
  - done.
  - done.
  - apply toy_rounds_ok.
  - simpl. lia.
Defined.
