(* ===== verification/Hazards.v ===== *)
(** * Where the contract ends

    The requests [proper] and [tidy] exclude, and the hosts [PosixLaws] excludes, are not idle
    conditions.  This file proves what SETATTR does at a reused name, that OPEN passes the guest's
    flags on unchanged and that LINK does not count its reference, and runs the engine on requests
    and hosts outside the conditions. *)

From S2P Require Import Prelude Libc Errors Bytes Attr Wire Inode Handle Host Posix ToyHost ToyPosix Passthrough FsProps.
From S2P Require Import GuestView GuestRefine Dispatch DispatchProps Capacity GuestSession Conversation Places GuestProps.
Local Open Scope Z_scope.

#[local] Existing Instance linux_libc.
#[local] Existing Instance key_order.
#[local] Existing Instance debug_build.
#[local] Existing Instance linux_flags.

(** ** Histories of operations *)

Definition after_ops (ops : list FsOp) (fs : PassthroughFs) : PassthroughFs := foldl (λ fs op, (exec_op op fs).2) fs ops.

Definition contents (v : View) (k : FileKey) : option bytes :=
  n ← v_files v !! k;
  match n_body n with
  | BFile data => Some data
  | _ => None
  end.

Definition resize_to (size : Z) : SetAttr := mkSetAttr (Some size) None None None None None.
Definition chmod_to (mode : Z) : SetAttr := mkSetAttr None (Some mode) None None None None.

(** A symbolic link to the file [s] beside the shared directory. *)
Definition name_l : bytes := [Byte.x6c].
Definition escape_link : list FsOp :=
  [FSymlink ROOT_ID name_l [Byte.x2e; Byte.x2e; Byte.x2f; Byte.x73]; FOpen 2 0].

(** ** Other hosts *)

(** [toy_host] with its own [openat] and [fstatat]. *)
Definition toy_with (openat : Z → bytes → Z → option Z → toy_world → (Z + Z) * toy_world)
    (fstatat : Z → bytes → Z → toy_world → (stat + Z) * toy_world) : Host := {|
  World := toy_world;
  sys_open := sys_open (Host := toy_host);
  sys_openat := openat;
  sys_dupfd_cloexec := sys_dupfd_cloexec (Host := toy_host);
  sys_close := sys_close (Host := toy_host);
  sys_fstat := sys_fstat (Host := toy_host);
  sys_fstatat := fstatat;
  sys_fstatvfs := sys_fstatvfs (Host := toy_host);
  sys_mkdirat := sys_mkdirat (Host := toy_host);
  sys_unlinkat := sys_unlinkat (Host := toy_host);
  sys_renameat := sys_renameat (Host := toy_host);
  sys_symlinkat := sys_symlinkat (Host := toy_host);
  sys_readlinkat := sys_readlinkat (Host := toy_host);
  sys_linkat := sys_linkat (Host := toy_host);
  sys_fchmodat := sys_fchmodat (Host := toy_host);
  sys_fchownat := sys_fchownat (Host := toy_host);
  sys_utimensat := sys_utimensat (Host := toy_host);
  sys_ftruncate := sys_ftruncate (Host := toy_host);
  sys_pread := sys_pread (Host := toy_host);
  sys_pwrite := sys_pwrite (Host := toy_host);
  sys_preadv := sys_preadv (Host := toy_host);
  sys_pwritev := sys_pwritev (Host := toy_host);
  sys_fsync := sys_fsync (Host := toy_host);
  nix_dir_from_fd := nix_dir_from_fd (Host := toy_host);
  nix_dir_iter := nix_dir_iter (Host := toy_host);
  sys_now := sys_now (Host := toy_host);
|}.

(** Another process renames [b] to [a] whenever the engine has just looked at a name. *)
Definition racy_host : Host :=
  toy_with toy_openat (λ d n f w, let '(r, w) := sys_fstatat (Host := toy_host) d n f w in
                                  (r, (toy_rename 3 name_b 3 name_a w).2)).

(** The share with the files [a] and [b], before anything is looked up. *)
Definition racy_fs : PassthroughFs (H := racy_host) :=
  mkFs racy_host (world (after_ops [FCreate ROOT_ID name_b 2 0x1a4; FWrite 1 0 name_b] (toy_fs 8)))
       (inodes (toy_fs 8)) HandleStore_new.

(** [open] with the flags of macOS: each bit as the bit of Linux that means the same. *)
Definition mac_flags (flags : Z) : Z :=
  let bit (mac linux : Z) := if has mac flags then linux else 0 in
  Z.lor (Z.lor (Z.land flags 3) (Z.lor (bit 0x8 0x400) (bit 0x200 0x40)))
        (Z.lor (Z.lor (bit 0x400 0x200) (bit 0x800 0x80)) (Z.lor (bit 0x100000 0x10000) (bit 0x200000 0x220000))).

Definition mac_host : Host :=
  toy_with (λ d n f m w, toy_openat d n (mac_flags f) m w) (sys_fstatat (Host := toy_host)).

Definition mac_session : Session (H := mac_host) :=
  mkSession mac_host (mkFs mac_host (world (toy_fs 8)) (inodes (toy_fs 8)) HandleStore_new) ∅.

(** [O_WRONLY|O_APPEND] of a Linux guest. *)
Definition GUEST_APPEND : Z := 0x401.

(** * Lemmas *)

Lemma contents_some v k data : contents v k = Some data → ∃ nd, v_files v !! k = Some nd ∧ n_body nd = BFile data.
Proof.
  unfold contents. destruct (v_files v !! k) as [nd|]; [|done]. simpl. intros Hb. exists nd. split; [done|].
  by destruct (n_body nd); simplify_eq.
Qed.

Lemma no_link_file `{Libc} v id d k nd :
  located_at v id d k → v_files v !! k = Some nd → body_kind (n_body nd) ≠ Symlink → no_link v id.
Proof. intros Hl Hnd Hb d' k' n' Hl' Hn'. rewrite (located_unique _ _ _ _ _ _ Hl' Hl) in Hn'. congruence. Qed.

(** What SETATTR of a size does to the view. *)
Lemma resize_acts `{Libc} v id size d k r v' :
  gstep v (FSetattr id (resize_to size)) r v' → located_at v id d k →
  ∃ f, keeps_entries f ∧ v' = set_files (alter f k (v_files v)) v ∧
    ((∃ e, r = Err e) ∨ (∃ attr, r = Ok (RAttr attr)) ∧ f = edit_data (resize (Z.to_nat (as_i64 size)) NUL)).
Proof.
  intros Hg Hl. set (g := edit_data (resize (Z.to_nat (as_i64 size)) NUL)).
  assert (keeps_entries (λ n, n)) as Hke by (intros n; by destruct (n_body n)).
  assert (v = set_files (alter (λ n, n) k (v_files v)) v) as Hsame.
  { destruct v as [vi vh t vn]. unfold set_files. simpl. f_equal. apply map_eq. intros i. rewrite lookup_alter.
    case_decide; [subst|done]. by destruct (t !! i). }
  inversion Hg; subst; [exists (λ n, n); by eauto 10| |];
    match goal with Hc : changed _ _ _ _ |- _ => destruct Hc as [[Hn ->]|(d' & k' & Hl' & ->)] end; try done.
  - rewrite (located_unique _ _ _ _ _ _ Hl' Hl). exists g. split_and!; [apply keeps_edit_data|done|by eauto].
  - exists (λ n, n). by eauto 10.
  - rewrite (located_unique _ _ _ _ _ _ Hl' Hl). destruct j as [|[|j]].
    all: eexists; split_and!; [|reflexivity|by eauto]; first [exact Hke|apply keeps_edit_data].
Qed.

(** Files an id or a name still leads to survive a reaping. *)
Lemma reaped_used v v' k : reaped_to v v' → in_use v' k → v_files v' !! k = v_files v !! k.
Proof.
  intros (_ & _ & _ & Hf & Hr) Hu. destruct (v_files v' !! k) as [nd|] eqn:Hk; [by rewrite (lookup_weaken _ _ _ _ Hk Hf)|].
  destruct (v_files v !! k) as [nd|] eqn:Hk'; [|done]. by destruct (Hr k).
Qed.

Lemma reaped_id v v' id k : reaped_to v v' → file_of v id = Some k → v_files v' !! k = v_files v !! k.
Proof. intros Hr Hf. apply reaped_used; [done|]. left. exists id. by rewrite (reaped_keeps_id _ _ _ Hr). Qed.

Lemma reaped_located v v' id d k : reaped_to v v' → located_at v id d k → v_files v' !! k = v_files v !! k.
Proof.
  intros Hr (t & _ & Hd & Hc). apply reaped_used; [done|]. right; right. exists d, (k_name t).
  unfold child, entries_of in *. by rewrite (reaped_id _ _ _ _ Hr Hd).
Qed.

(** A request is its operation. *)
Lemma asked_runs `{Libc, Build, HashOrder, Host} op unique req s :
  asks_op op unique req →
  Session_handle (E := ProtoError) req s =
    let '(r, fs) := exec_op op (s_fs s) in
    (match r with Panic => Panic | _ => Ok (reply_of unique op r) end, session_after op fs s).
Proof.
  intros (opc & node & body & Hse & Hu & Hn & -> & Hsl). destruct (sent_opcode _ _ _ _ Hse) as [Hof Ho].
  rewrite handle_bytes by done. by apply handle_sent.
Qed.

(** ** LINK leaves the inode table alone *)

Section Link.
Context `{Libc, HashOrder, Host}.
Context (i : InodeStore).

Definition at_inodes (fs : PassthroughFs) : Prop := inodes fs = i.

Lemma syscall_inodes {A} (call : World → (A + Z) * World) : keeps at_inodes (syscall call).
Proof. intros fs Hi. unfold syscall. by destruct (call (world fs)) as [[a|e] w]. Qed.

Lemma inode_inodes id : keeps at_inodes (PassthroughFs_inode id).
Proof.
  intros fs Hi. unfold PassthroughFs_inode, with_inodes, zoom, InodeStore_get. by destruct (by_id (inodes fs) !! id).
Qed.

Lemma link_inodes id p name : keeps at_inodes (PassthroughFs_link id p name).
Proof.
  unfold PassthroughFs_link, parent_fd_name, PassthroughFs_getattr.
  repeat first [ apply syscall_inodes | apply inode_inodes | case_decide | keeps_step ].
Qed.
End Link.

Lemma forget_evicts i id d :
  id ≠ ROOT_ID → by_id i !! id = Some d → by_id (InodeStore_forget id (i_lookups d) i).2 !! id = None.
Proof.
  intros Hid Hd. unfold InodeStore_forget. rewrite (proj2 (Z.eqb_neq id ROOT_ID) Hid), Hd. simpl.
  rewrite Z.leb_refl. apply lookup_delete_eq.
Qed.

(** * Properties *)

(** C36: SETATTR acts on a name.  When the place where the engine last saw the file of an id now
    holds another file (the name was unlinked or renamed over and given to that file), a request to
    set the size of the id never changes the file of the id: it fails, or it cuts or extends the
    other file. *)
Theorem setattr_wrong_file `{Libc, Build, HashOrder, HL : HostLaws, !PosixView, !PosixLaws, !FlagLaws, !HashOrderLaws}
    s id size dir k k' data unique req :
  target_os ≠ OtherUnix → lasts_sane 1 s → id ≠ ROOT_ID →
  file_of (view (s_fs s)) id = Some k → located_at (view (s_fs s)) id dir k' → k' ≠ k →
  contents (view (s_fs s)) k' = Some data → asks_op (FSetattr id (resize_to size)) unique req →
  ∃ reply s', Session_handle (E := ProtoError) req s = (Ok reply, s') ∧
    v_files (view (s_fs s')) !! k = v_files (view (s_fs s)) !! k ∧
    (is_error unique reply ∨
     (∃ attr, reply = ok_reply unique (attr_out attr)) ∧
     contents (view (s_fs s')) k' = Some (resize (Z.to_nat (as_i64 size)) NUL data)).
Proof.
  intros Hos Hs Hid Hf Hl Hk Hc Hreq. apply contents_some in Hc as (nd & Hnd & Hb).
  assert (proper (view (s_fs s)) (FSetattr id (resize_to size))) as Hp.
  { split; [done|]. intros _. eapply no_link_file; [exact Hl|exact Hnd|by rewrite Hb]. }
  destruct (request_step Hos 0 _ _ _ s Hreq Hs Hp) as (r & s' & v & Hh & _ & Hg & Hr).
  destruct (resize_acts _ _ _ _ _ _ _ Hg Hl) as (f & Hke & -> & Hcase).
  eexists _, s'. split_and!; [exact Hh|..].
  - rewrite (reaped_id _ _ id k Hr) by done. simpl. by rewrite lookup_alter_ne by done.
  - destruct Hcase as [[e ->]|[[attr ->] ->]]; [left; by eexists|right]. split; [by eexists|].
    unfold contents. rewrite (reaped_located _ _ id dir k' Hr).
    + cbn [v_files set_files]. rewrite lookup_alter_eq, Hnd. simpl. unfold edit_data. by rewrite Hb.
    + destruct Hl as (t & Ht & Hd & Hch). exists t. split; [done|]. split; [done|].
      cbn [v_files set_files]. by rewrite child_alter.
Qed.

(** The old [a] has id 2 and is the file 12; the new one is the file 13. *)
Lemma setattr_wrong_file_witness :
  let s := toy_after (take 1 sample_talk ++ replace_talk) in
  let req := request 4 9 2 (encode_setattr (setattr_in (resize_to 5))) in
  ∃ reply s', Session_handle (E := ProtoError) req s = (Ok reply, s') ∧
    v_files (view (s_fs s')) !! mkFileKey 1 12 = v_files (view (s_fs s)) !! mkFileKey 1 12 ∧
    (is_error 9 reply ∨
     (∃ attr, reply = ok_reply 9 (attr_out attr)) ∧
     contents (view (s_fs s')) (mkFileKey 1 13) = Some (resize (Z.to_nat (as_i64 5)) NUL [])).
Proof.
  intros s req.
  apply (setattr_wrong_file (HL := toy_laws) s 2 5 (mkFileKey 1 10) (mkFileKey 1 12) (mkFileKey 1 13) [] 9 req).
  - apply linux_os.
  - apply toy_lasts; [apply Forall_app; split; [apply Forall_take, sample_talk_ok|apply replace_talk_ok]| |simpl; lia].
    split; [apply sample_talk_proper|]. split; [|split; [split|exact I]]; [apply (bool_decide_unpack _); vm_compute; exact I..|vm_compute; reflexivity].
  - done.
  - vm_compute. reflexivity.
  - eexists. split_and!; [|split]; vm_compute; reflexivity.
  - done.
  - vm_compute. reflexivity.
  - exists OpSetattr, 2, (encode_setattr (setattr_in (resize_to 5))).
    split_and!; [|uint..|done|vm_compute; reflexivity]. constructor. by split.
Defined.



(** C39: LINK does not count the reference it hands out.  Its reply is an entry, for which the
    guest's kernel adds one to its count of the id, as it does for LOOKUP, MKDIR, SYMLINK and
    CREATE; but the table of the engine is as before.  So when the guest then gives back the
    references it got before the LINK, and keeps that one, the engine drops the inode. *)
Theorem link_entry_uncounted `{Libc, Build, HashOrder, Host} s id p name d u1 req1 reply s1 u2 req2 :
  asks_op (FLink id p name) u1 req1 → id ≠ ROOT_ID → by_id (inodes (s_fs s)) !! id = Some d →
  Session_handle (E := ProtoError) req1 s = (Ok reply, s1) → asks_op (FForget id (i_lookups d)) u2 req2 →
  (is_error u1 reply ∨ ∃ attr, reply = ok_reply u1 (entry_out id attr)) ∧ inodes (s_fs s1) = inodes (s_fs s) ∧
  let r2 := Session_handle (E := ProtoError) req2 s1 in
  r2.1 = Ok ReplyNone ∧ by_id (inodes (s_fs r2.2)) !! id = None.
Proof.
  intros Hreq1 Hid Hd Hrun Hreq2. rewrite (asked_runs _ _ _ _ Hreq1) in Hrun.
  pose proof (link_inodes (inodes (s_fs s)) id p name (s_fs s) eq_refl) as Hi.
  unfold exec_op, returns in Hrun. rewrite M_bind_run in Hrun.
  assert (inodes (s_fs s1) = inodes (s_fs s) ∧ (is_error u1 reply ∨ ∃ attr, reply = ok_reply u1 (entry_out id attr))) as [Hi1 Hrep].
  { destruct (PassthroughFs_link id p name (s_fs s)) as [[attr|e|] fs]; simplify_eq/=;
      (split; [exact Hi|]); [right|left]; by eexists. }
  split_and!; [done..|]. rewrite (asked_runs _ _ _ _ Hreq2). pose proof (forget_evicts _ _ _ Hid Hd) as Hnone.
  destruct s1 as [[w i hs] c]. simpl in Hi1. subst i. cbn [s_fs inodes].
  unfold exec_op, returns, PassthroughFs_forget, with_inodes, zoom, close_fds, modify, mbind, M_bind. simpl.
  by destruct (InodeStore_forget _ _ _) as [fds i'].
Qed.

(** LOOKUP of [a], LINK of it as [b], FORGET of one reference; the guest holds another, and gets
    [EBADF] for it. *)
Lemma link_entry_uncounted_witness :
  let handle := Session_handle (H2 := toy_host) (E := ProtoError) in
  let s := toy_after (take 1 sample_talk) in
  let r1 := handle (request 13 2 ROOT_ID (u64_le 2 ++ name_b ++ NUL :: [])) s in
  let r2 := handle (request 2 3 2 (u64_le 1 ++ [])) r1.2 in
  (∃ b, r1.1 = Ok (ReplyBytes b) ∧ field 8 16 b = 2) ∧ by_id (inodes (s_fs r2.2)) !! 2 = None ∧
  (handle (request 3 4 2 (replicate 16 NUL)) r2.2).1 = Ok (ReplyBytes (OutHeader_error_for 4 (errno_val EBADF))).
Proof.
  intros handle s r1 r2. assert (∃ b, r1.1 = Ok (ReplyBytes b) ∧ field 8 16 b = 2) as (b & Hb & Hf).
  { exists (match r1.1 with Ok (ReplyBytes b) => b | _ => [] end). split; vm_compute; reflexivity. }
  destruct (link_entry_uncounted s 2 ROOT_ID name_b (mkInodeData 2 4 Regular (mkFileKey 1 12) (Some ROOT_ID) name_a 1) 2
    (request 13 2 ROOT_ID (u64_le 2 ++ name_b ++ NUL :: [])) (ReplyBytes b) r1.2 3
    (request 2 3 2 (u64_le 1 ++ []))) as (_ & _ & _ & Hnone).
  - exists OpLink, ROOT_ID, (u64_le 2 ++ name_b ++ NUL :: []).
    split_and!; [constructor; [by apply name_plain|uint]|unfold ROOT_ID; uint..|done|vm_compute; reflexivity].
  - done.
  - vm_compute. reflexivity.
  - rewrite <- Hb. apply surjective_pairing.
  - exists OpForget, 2, (u64_le 1 ++ []). split_and!; [constructor; simpl; uint|uint..|done|vm_compute; reflexivity].
  - split_and!; [by exists b|exact Hnone|vm_compute; reflexivity].
Defined.

(** OPEN of a symbolic link follows it on the host, out of the shared directory: the guest
    makes a link to [../s], opens the link's own id, and reads the file [s] it was never given. *)
Theorem open_follows_link :
  let fs := after_ops escape_link (toy_fs 8) in
  (exec_op (FRead 1 0 16) fs).1 = Ok (RBytes [Byte.x01; Byte.x02]) ∧
  child (files (toy0 8)) (mkFileKey 1 10) name_s = None ∧ child (files (toy0 8)) (mkFileKey 1 9) name_s = Some (mkFileKey 1 11) ∧
  contents (view fs) (mkFileKey 1 11) = Some [Byte.x01; Byte.x02].
Proof. split_and!; vm_compute; reflexivity. Qed.

(** Setting the mode, the owner or the times of the shared directory itself fails: it has no name
    in a parent, and the calls get the empty name. *)
Theorem root_setattr_fails :
  (exec_op (FSetattr ROOT_ID (chmod_to 0x1c0)) (toy_fs 8)).1 = Err (FsError_from_io (Os (errno_val ENOENT))).
Proof. vm_compute. reflexivity. Qed.

(** The key under which a lookup registers a file and the descriptor it keeps come from two calls.
    When the name changes hands in between, the id is registered for the file that was there and
    its descriptor is open on the other: LOOKUP of [a] answers with inode number 12 and size 1,
    GETATTR of the new id with number 13. *)
Theorem lookup_race :
  let r := PassthroughFs_lookup (H1 := racy_host) ROOT_ID name_a racy_fs in
  (∃ attr, r.1 = Ok (2, attr) ∧ a_ino attr = 12) ∧
  i_key <$> by_id (inodes r.2) !! 2 = Some (mkFileKey 1 12) ∧
  (∃ attr, (PassthroughFs_getattr (H1 := racy_host) 2 r.2).1 = Ok attr ∧ a_ino attr = 13).
Proof. split_and!; [eexists|..|eexists]; try split; vm_compute; reflexivity. Qed.
