(* ===== verification/SourceTests.v ===== *)
(** * The unit tests of the sources

    The tests in the [mod tests] of the sources, run on the model: [assert!] and [unwrap] panic
    when they fail, and a test passes when it ends with [Ok].  They check the definitions against
    the behaviour their authors pinned down.  Tests on a temporary directory run on [ToyHost]
    with an empty root; a memory file holds the bytes the tests touch. *)

From S2P Require Import Prelude Libc Errors Bytes Attr Wire Inode Handle Host ToyHost Passthrough.
From S2P Require Import Dispatch VhostMsg Memory Virtqueue Doorbell Connection Server.
From Stdlib Require Import Strings.String.
From stdpp Require Import list.
Local Open Scope Z_scope.

Abbreviation length := Datatypes.length.

(** [b"..."]. *)
Abbreviation b s := (list_byte_of_string s%string).

Abbreviation Test S := (M S unit unit).

Definition passes {S} (t : Test S) (s : S) : bool :=
  match (t s).1 with
  | Ok _ => true
  | _ => false
  end.

Definition assert {S} (c : bool) : Test S := if c then mret tt else panic.
Definition assert_eq {S A} `{EqDecision A} (x y : A) : Test S := assert (bool_decide (x = y)).

(** [.unwrap()], and an error the test looks at. *)
Definition unwrap {S E A} (m : M S E A) : M S unit A := λ s,
  let '(r, s) := m s in
  (match r with Ok a => Ok a | _ => Panic end, s).
Definition result {S E A} (m : M S E A) : M S unit (outcome E A) := attempt m.
Definition matches {E A} (f : E → bool) (r : outcome E A) : bool :=
  match r with
  | Err e => f e
  | _ => false
  end.
Definition is_truncated (e : ProtoError) : bool :=
  match e with
  | Truncated => true
  | _ => false
  end.
Definition unwrap_opt {S A} (o : option A) : M S unit A :=
  match o with
  | Some a => mret a
  | None => panic
  end.

#[export] Instance MsgHeader_eq_dec : EqDecision MsgHeader.
Proof. solve_decision. Defined.
#[export] Instance VringState_eq_dec : EqDecision VringState.
Proof. solve_decision. Defined.
#[export] Instance VringAddr_eq_dec : EqDecision VringAddr.
Proof. solve_decision. Defined.
#[export] Instance VringFdPayload_eq_dec : EqDecision VringFdPayload.
Proof. solve_decision. Defined.
#[export] Instance MemoryRegion_eq_dec : EqDecision MemoryRegion.
Proof. solve_decision. Defined.

(** ** [fuse/bytes.rs] *)

Module BytesTests.
Local Open Scope rust_scope.

Definition reader_writer_roundtrip : Test Reader :=
  let w := Writer_new |> Writer_u32 1 |> Writer_u64 2 |> Writer_u16 3 |> Writer_cstr (b "hi") in
  _ ← modify (λ _, Reader_new (Writer_into_vec w));
  a ← unwrap Reader_u32;
  _ ← assert_eq a 1;
  a ← unwrap Reader_u64;
  _ ← assert_eq a 2;
  a ← unwrap Reader_u16;
  _ ← assert_eq a 3;
  s ← unwrap Reader_cstr;
  assert_eq s (b "hi").

Definition reader_reports_truncation_instead_of_panicking : Test Reader :=
  _ ← modify (λ _, Reader_new [Byte.x01; Byte.x02; Byte.x03]);
  r ← result Reader_u32;
  assert (matches is_truncated r).

Definition pad_to_is_a_noop_if_already_long_enough : Test unit :=
  let w := Writer_new |> Writer_bytes [Byte.x01; Byte.x02; Byte.x03; Byte.x04] |> Writer_pad_to 2 in
  assert_eq (Writer_into_vec w) [Byte.x01; Byte.x02; Byte.x03; Byte.x04].

Example bytes_tests_pass :
  passes reader_writer_roundtrip (Reader_new []) &&
  passes reader_reports_truncation_instead_of_panicking (Reader_new []) &&
  passes pad_to_is_a_noop_if_already_long_enough tt = true.
Proof. vm_compute. reflexivity. Qed.
End BytesTests.

(** ** [fuse/wire.rs] and [fuse/linux_errno.rs] *)

Module WireTests.

Definition init_out_advertises_max_pages_matching_max_write : Test Reader :=
  let bytes := init_out 0 in
  _ ← assert_eq (length bytes) INIT_OUT_LEN;
  _ ← modify (λ _, Reader_new bytes);
  _ ← unwrap Reader_u32;
  minor ← unwrap Reader_u32;
  _ ← unwrap Reader_u32;
  flags ← unwrap Reader_u32;
  _ ← unwrap Reader_u16;
  _ ← unwrap Reader_u16;
  max_write ← unwrap Reader_u32;
  _ ← unwrap Reader_u32;
  max_pages ← unwrap Reader_u16;
  _ ← assert (28 <=? minor);
  _ ← assert (negb (Z.land flags FUSE_MAX_PAGES =? 0));
  _ ← assert_eq max_write MAX_WRITE;
  assert_eq (max_pages * ASSUMED_GUEST_PAGE_SIZE) MAX_WRITE.

Definition success_header_only_matches_reply_except_for_len : Test unit :=
  let via_reply := OutHeader_reply 0xabcd 0 [] in
  let via_header_only := OutHeader_success_header_only 0xabcd (16 + 4096) in
  _ ← assert_eq (length via_reply) OUT_HEADER_LEN;
  _ ← assert_eq (length via_header_only) OUT_HEADER_LEN;
  _ ← assert_eq (drop 4 via_reply) (drop 4 via_header_only);
  assert_eq (le_combine (take 4 via_header_only)) (16 + 4096).

Definition common_low_errnos_match_posix_standard_values `{Libc} : Test unit :=
  _ ← assert_eq (to_linux_errno (errno_val ENOENT)) 2;
  _ ← assert_eq (to_linux_errno (errno_val EACCES)) 13;
  _ ← assert_eq (to_linux_errno (errno_val EEXIST)) 17;
  _ ← assert_eq (to_linux_errno (errno_val EINVAL)) 22;
  _ ← assert_eq (to_linux_errno (errno_val ENOTDIR)) 20;
  _ ← assert_eq (to_linux_errno (errno_val EISDIR)) 21;
  assert_eq (to_linux_errno (errno_val EROFS)) 30.

Definition enosys_is_always_linux_38 `{Libc} : Test unit :=
  assert_eq (to_linux_errno (errno_val ENOSYS)) 38.

Definition unmapped_errno_falls_back_to_eio_not_a_raw_passthrough `{Libc} : Test unit :=
  assert_eq (to_linux_errno 999999) 5.

Example wire_tests_pass :
  passes init_out_advertises_max_pages_matching_max_write (Reader_new []) &&
  passes success_header_only_matches_reply_except_for_len tt = true.
Proof. vm_compute. reflexivity. Qed.

(** On both hosts. *)
Example errno_tests_pass :
  forallb (λ l : Libc,
    passes common_low_errnos_match_posix_standard_values tt && passes enosys_is_always_linux_38 tt &&
    passes unmapped_errno_falls_back_to_eio_not_a_raw_passthrough tt) [linux_libc; macos_libc] = true.
Proof. vm_compute. reflexivity. Qed.
End WireTests.

(** ** [vhost_user/header.rs] and [vhost_user/payload.rs] *)

Module MessageTests.

Definition header_roundtrip : Test unit :=
  let h := MsgHeader_new GetFeatures 0 8 in
  let bytes := MsgHeader_to_bytes h in
  let h2 := MsgHeader_from_bytes bytes in
  _ ← assert_eq h h2;
  r ← unwrap (lift (MsgHeader_request h2));
  _ ← assert_eq r GetFeatures;
  assert (negb (MsgHeader_is_reply h2)).

Definition reply_sets_flag : Test unit :=
  let h := MsgHeader_reply GetFeatures 8 in
  _ ← assert (MsgHeader_is_reply h);
  assert_eq (Z.land (mh_flags h) FLAG_VERSION_1) FLAG_VERSION_1.

Definition unknown_request_is_an_error_not_a_panic : Test unit :=
  let h := MsgHeader_from_bytes (MsgHeader_to_bytes (MsgHeader_new GetFeatures 0 0)) in
  let raw := mkMsgHeader 9999 (mh_flags h) (mh_size h) in
  assert (matches (λ e, match e with UnknownRequest c => c =? 9999 | _ => false end) (MsgHeader_request raw)).

Definition u64_payload_roundtrip : Test unit :=
  let p := 0xdeadbeef00001234 in
  q ← unwrap (lift (U64Payload_from_bytes (U64Payload_to_bytes p)));
  assert_eq q p.

Definition vring_state_roundtrip : Test unit :=
  let s := mkVringState 3 256 in
  s' ← unwrap (lift (VringState_from_bytes (VringState_to_bytes s)));
  assert_eq s' s.

Definition vring_addr_roundtrip : Test unit :=
  let a := mkVringAddr 1 0 0x1000 0x2000 0x3000 0 in
  a' ← unwrap (lift (VringAddr_from_bytes (VringAddr_to_bytes a)));
  assert_eq a' a.

Definition vring_fd_payload_mask : Test unit :=
  let p := mkVringFdPayload 2 true in
  q ← unwrap (lift (VringFdPayload_from_bytes (VringFdPayload_to_bytes p)));
  _ ← assert_eq q p;
  let p2 := mkVringFdPayload 5 false in
  q2 ← unwrap (lift (VringFdPayload_from_bytes (VringFdPayload_to_bytes p2)));
  assert_eq q2 p2.

Definition memory_regions_roundtrip : Test unit :=
  let regions := [mkMemoryRegion 0 0x100000000 0x7f0000000000 0;
                  mkMemoryRegion 0x100000000 0x2000 0x7f0000010000 0x1000] in
  rs ← unwrap (lift (MemoryRegions_from_bytes (MemoryRegions_to_bytes regions)));
  assert_eq rs regions.

Definition truncated_payload_is_an_error : Test unit :=
  let short := [Byte.x01; Byte.x02; Byte.x03] in
  _ ← assert (matches is_truncated (U64Payload_from_bytes short));
  _ ← assert (matches is_truncated (VringState_from_bytes short));
  assert (matches is_truncated (MemoryRegions_from_bytes (Byte.x01 :: replicate 7 NUL))).

Example message_tests_pass :
  forallb (λ t, passes t tt)
    [header_roundtrip; reply_sets_flag; unknown_request_is_an_error_not_a_panic; u64_payload_roundtrip;
     vring_state_roundtrip; vring_addr_roundtrip; vring_fd_payload_mask; memory_regions_roundtrip;
     truncated_payload_is_an_error] = true.
Proof. vm_compute. reflexivity. Qed.
End MessageTests.

(** ** [vhost_user/memory.rs] *)

Module MemoryTests.

(** The bytes of a fresh anonymous mapping. *)
Fixpoint zeroed (p : ptr) (len : nat) (h : Heap) : Heap :=
  match len with
  | O => h
  | S len => zeroed (ptr_add p 1) len (<[p := NUL]> h)
  end.

(** One anonymous mapping per test, the object 7.  All of it is zero; [touched] lists the parts
    the test touches, as offsets and lengths, and the heap holds those. *)
Definition new_anonymous_for_test (touched : list (Z * nat)) (gpa user_addr len : Z)
    : M Heap unit GuestMemory := λ h,
  (Ok (mkGuestMemory [mkRegion gpa user_addr len (7, 0) (7, 0) len]),
   foldr (λ r h, zeroed (7, r.1) r.2 h) h touched).

Definition unwrapped {A} (m : M Heap unit (option A)) : M Heap unit A := o ← m; unwrap_opt o.

(** [get_slice_mut(..).unwrap().copy_from_slice(data)] and [get_slice(..).unwrap()]. *)
Definition copy_to (mem : GuestMemory) (space : AddrSpace) (addr : Z) (data : bytes) : Test Heap :=
  s ← unwrap_opt (get_slice_mut mem space addr (Z.of_nat (length data)));
  store s data.
Definition slice_at (mem : GuestMemory) (space : AddrSpace) (addr len : Z) : M Heap unit bytes :=
  s ← unwrap_opt (get_slice mem space addr len);
  load s.

Definition anonymous_region_roundtrip : Test Heap :=
  mem ← new_anonymous_for_test [(0, 16%nat); (0xffe, 2%nat)] 0x1000 0x1000 4096;
  _ ← unwrapped (write_u32 mem Gpa 0x1000 0xdeadbeef);
  v ← read_u32 mem Gpa 0x1000;
  _ ← assert_eq v (Some 0xdeadbeef);
  _ ← unwrapped (write_u16 mem Gpa 0x1ffe 0x1234);
  v ← read_u16 mem Gpa 0x1ffe;
  assert_eq v (Some 0x1234).

Definition out_of_range_returns_none : Test Heap :=
  mem ← new_anonymous_for_test [(0, 16%nat); (0xffe, 2%nat)] 0x1000 0x1000 4096;
  v ← read_u32 mem Gpa 0x500;
  _ ← assert_eq v None;
  v ← read_u32 mem Gpa 0x2000;
  _ ← assert_eq v None;
  v ← read_u64 mem Gpa 0x1ffc;
  assert_eq v None.

Definition slice_access : Test Heap :=
  mem ← new_anonymous_for_test [(0, 16%nat); (0xffe, 2%nat)] 0x1000 0x1000 4096;
  let data := b "hello, virtio" in
  _ ← copy_to mem Gpa 0x1000 data;
  s ← slice_at mem Gpa 0x1000 (Z.of_nat (length data));
  assert_eq s data.

Definition gpa_and_user_address_spaces_are_independent : Test Heap :=
  mem ← new_anonymous_for_test [(0, 16%nat)] 0x40000000 0x7f00000000 4096;
  _ ← unwrapped (write_u32 mem Gpa 0x40000000 111);
  v ← read_u32 mem Gpa 0x40000000;
  _ ← assert_eq v (Some 111);
  v ← read_u32 mem User 0x40000000;
  _ ← assert_eq v None;
  _ ← unwrapped (write_u32 mem User 0x7f00000000 222);
  v ← read_u32 mem User 0x7f00000000;
  _ ← assert_eq v (Some 222);
  v ← read_u32 mem Gpa 0x7f00000000;
  assert_eq v None.

Example memory_tests_pass :
  forallb (λ t, passes t ∅)
    [anonymous_region_roundtrip; out_of_range_returns_none; slice_access;
     gpa_and_user_address_spaces_are_independent] = true.
Proof. vm_compute. reflexivity. Qed.
End MemoryTests.

(** ** [vhost_user/virtqueue.rs] *)

Module VirtqueueTests.
Import MemoryTests.
Section Tests.
Context `{Build}.

(** The tests touch the rings and the buffers 4096 bytes behind them. *)
Definition test_queue (queue_size : Z) : M Heap unit (GuestMemory * Virtqueue) :=
  let gpa := 0x10000 in
  let desc_addr := gpa in
  let avail_addr := desc_addr + queue_size * DESC_LEN in
  let used_addr := avail_addr + AVAIL_RING_OFFSET + queue_size * 2 + 2 in
  let total := Z.shiftl 1 20 in
  mem ← new_anonymous_for_test [(0, 256%nat); (used_addr + 4096 - gpa, 320%nat)] gpa gpa total;
  mret (mem, Virtqueue_new queue_size desc_addr avail_addr used_addr).

Definition write_desc (mem : GuestMemory) (vq : Virtqueue) (idx addr len flags next : Z) : Test Heap :=
  let off := desc_addr vq + idx * DESC_LEN in
  _ ← copy_to mem User off (u64_le addr);
  _ ← unwrapped (write_u32 mem User (off + 8) len);
  _ ← unwrapped (write_u16 mem User (off + 12) flags);
  unwrapped (write_u16 mem User (off + 14) next).

Definition publish_avail (mem : GuestMemory) (vq : Virtqueue) (slot head new_idx : Z) : Test Heap :=
  let ring_off := avail_addr vq + AVAIL_RING_OFFSET + slot * 2 in
  _ ← unwrapped (write_u16 mem User ring_off head);
  unwrapped (write_u16 mem User (avail_addr vq + 2) new_idx).

Definition pop_avail_returns_none_when_empty : Test Heap :=
  q ← test_queue 8;
  let '(mem, vq) := q in
  r ← unwrap (pop_avail mem vq);
  assert_eq r.1 None.

Definition single_request_response_chain_roundtrip : Test Heap :=
  q ← test_queue 8;
  let '(mem, vq) := q in
  let req_addr := used_addr vq + 4096 in
  let resp_addr := req_addr + 256 in
  _ ← write_desc mem vq 0 req_addr 5 VIRTQ_DESC_F_NEXT 1;
  _ ← write_desc mem vq 1 resp_addr 64 VIRTQ_DESC_F_WRITE 0;
  _ ← copy_to mem Gpa req_addr (b "hello");
  _ ← publish_avail mem vq 0 0 1;
  r ← unwrap (pop_avail mem vq);
  let '(popped, vq) := r in
  head ← unwrap_opt popped;
  _ ← assert_eq head 0;
  r ← unwrap (pop_avail mem vq);
  _ ← assert_eq r.1 None;
  chain ← unwrap (read_chain mem vq head);
  _ ← assert_eq (c_readable chain) [(req_addr, 5)];
  _ ← assert_eq (c_writable chain) [(resp_addr, 64)];
  request ← unwrap (gather_readable mem chain);
  _ ← assert_eq request (b "hello");
  let response := b "a fine response" in
  written ← unwrap (scatter_writable mem chain response);
  _ ← assert_eq written (Z.of_nat (length response));
  s ← slice_at mem Gpa resp_addr (Z.of_nat (length response));
  _ ← assert_eq s response;
  _ ← unwrap (push_used mem vq head written);
  v ← read_u16 mem User (used_addr vq + 2);
  assert_eq v (Some 1).

Definition push_used_advances_index_and_records_head_and_len : Test Heap :=
  q ← test_queue 4;
  let '(mem, vq) := q in
  _ ← unwrap (push_used mem vq 2 42);
  v ← read_u16 mem User (used_addr vq + 2);
  _ ← assert_eq v (Some 1);
  let elem_off := used_addr vq + USED_RING_OFFSET in
  v ← read_u32 mem User elem_off;
  _ ← assert_eq v (Some 2);
  v ← read_u32 mem User (elem_off + 4);
  _ ← assert_eq v (Some 42);
  _ ← unwrap (push_used mem vq 3 7);
  v ← read_u16 mem User (used_addr vq + 2);
  _ ← assert_eq v (Some 2);
  let elem_off2 := used_addr vq + USED_RING_OFFSET + USED_ELEM_LEN in
  v ← read_u32 mem User elem_off2;
  _ ← assert_eq v (Some 3);
  v ← read_u32 mem User (elem_off2 + 4);
  assert_eq v (Some 7).

(** The descriptors of "foo", "bar" and "baz" and their contents. *)
Definition three_segment_readable_chain (mem : GuestMemory) (vq : Virtqueue) : M Heap unit DescChain :=
  let a := used_addr vq + 4096 in
  let bb := a + 64 in
  let c := bb + 64 in
  _ ← write_desc mem vq 0 a 3 VIRTQ_DESC_F_NEXT 1;
  _ ← write_desc mem vq 1 bb 3 VIRTQ_DESC_F_NEXT 2;
  _ ← write_desc mem vq 2 c 3 0 0;
  _ ← copy_to mem Gpa a (b "foo");
  _ ← copy_to mem Gpa bb (b "bar");
  _ ← copy_to mem Gpa c (b "baz");
  mret (mkDescChain 0 [(a, 3); (bb, 3); (c, 3)] []).

Definition multi_descriptor_readable_chain_is_gathered_in_order : Test Heap :=
  q ← test_queue 8;
  let '(mem, vq) := q in
  _ ← three_segment_readable_chain mem vq;
  _ ← publish_avail mem vq 0 0 1;
  r ← unwrap (pop_avail mem vq);
  let '(popped, vq) := r in
  head ← unwrap_opt popped;
  chain ← unwrap (read_chain mem vq head);
  gathered ← unwrap (gather_readable mem chain);
  assert_eq gathered (b "foobarbaz").

Definition indirect_descriptor_is_rejected : Test Heap :=
  q ← test_queue 4;
  let '(mem, vq) := q in
  _ ← write_desc mem vq 0 0x1234 16 VIRTQ_DESC_F_INDIRECT 0;
  _ ← publish_avail mem vq 0 0 1;
  r ← unwrap (pop_avail mem vq);
  let '(popped, vq) := r in
  head ← unwrap_opt popped;
  r ← result (read_chain mem vq head);
  assert (matches (λ e, match e with IndirectUnsupported => true | _ => false end) r).

Fixpoint iovecs_to_vec (iov : list slice) : M Heap unit bytes :=
  match iov with
  | [] => mret []
  | v :: iov => x ← load v; out ← iovecs_to_vec iov; mret (x ++ out)
  end.

Definition gather_readable_prefix_stops_at_max_len_across_segments : Test Heap :=
  q ← test_queue 8;
  let '(mem, vq) := q in
  chain ← three_segment_readable_chain mem vq;
  p ← unwrap (gather_readable_prefix mem chain 0);
  _ ← assert_eq p [];
  p ← unwrap (gather_readable_prefix mem chain 2);
  _ ← assert_eq p (b "fo");
  p ← unwrap (gather_readable_prefix mem chain 3);
  _ ← assert_eq p (b "foo");
  p ← unwrap (gather_readable_prefix mem chain 5);
  _ ← assert_eq p (b "fooba");
  p ← unwrap (gather_readable_prefix mem chain 100);
  assert_eq p (b "foobarbaz").

(** The body of the [iovecs_from_*] tests. *)
Definition iovecs_test (skip max_total : Z) (k : list slice → bytes → Test Heap) : Test Heap :=
  q ← test_queue 8;
  let '(mem, vq) := q in
  chain ← three_segment_readable_chain mem vq;
  iov ← unwrap (iovecs_from mem (c_readable chain) skip max_total false);
  v ← iovecs_to_vec iov;
  k iov v.

Definition iovecs_from_with_no_skip_covers_all_segments : Test Heap :=
  iovecs_test 0 9 (λ iov v, _ ← assert_eq (length iov) 3%nat; assert_eq v (b "foobarbaz")).
Definition iovecs_from_skip_within_first_segment : Test Heap :=
  iovecs_test 1 8 (λ _ v, assert_eq v (b "oobarbaz")).
Definition iovecs_from_skip_exactly_one_full_segment : Test Heap :=
  iovecs_test 3 6 (λ iov v, _ ← assert_eq (length iov) 2%nat; assert_eq v (b "barbaz")).
Definition iovecs_from_skip_spanning_multiple_segments : Test Heap :=
  iovecs_test 4 5 (λ _ v, assert_eq v (b "arbaz")).
Definition iovecs_from_max_total_truncates_mid_segment : Test Heap :=
  iovecs_test 0 4 (λ _ v, assert_eq v (b "foob")).
Definition iovecs_from_skip_and_max_total_combined : Test Heap :=
  iovecs_test 3 2 (λ _ v, assert_eq v (b "ba")).
Definition iovecs_from_skip_past_everything_yields_empty : Test Heap :=
  iovecs_test 9 100 (λ iov _, assert_eq (length iov) 0%nat).

(** [slice.fill(b'X')] through every [iovec]; the bytes filled. *)
Fixpoint fill_x (iov : list slice) (offset : nat) : M Heap unit nat :=
  match iov with
  | [] => mret offset
  | v :: iov =>
      let n := Z.to_nat (sl_len v) in
      _ ← store v (replicate n Byte.x58);
      fill_x iov (offset + n)
  end.

Definition iovecs_from_mutable_writes_through_to_guest_memory : Test Heap :=
  q ← test_queue 8;
  let '(mem, vq) := q in
  let a := used_addr vq + 4096 in
  let bb := a + 64 in
  _ ← write_desc mem vq 0 a 4 (Z.lor VIRTQ_DESC_F_NEXT VIRTQ_DESC_F_WRITE) 1;
  _ ← write_desc mem vq 1 bb 4 VIRTQ_DESC_F_WRITE 0;
  _ ← publish_avail mem vq 0 0 1;
  r ← unwrap (pop_avail mem vq);
  let '(popped, vq) := r in
  head ← unwrap_opt popped;
  chain ← unwrap (read_chain mem vq head);
  _ ← assert_eq (c_writable chain) [(a, 4); (bb, 4)];
  iov ← unwrap (iovecs_from mem (c_writable chain) 2 6 true);
  offset ← fill_x iov 0;
  _ ← assert_eq offset 6%nat;
  whole_a ← slice_at mem Gpa a 4;
  whole_b ← slice_at mem Gpa bb 4;
  _ ← assert_eq whole_a [NUL; NUL; Byte.x58; Byte.x58];
  assert_eq whole_b [Byte.x58; Byte.x58; Byte.x58; Byte.x58].
End Tests.

(** With and without overflow checks. *)
Example virtqueue_tests_pass :
  forallb (λ bd : Build, forallb (λ t, passes t ∅)
    [pop_avail_returns_none_when_empty; single_request_response_chain_roundtrip;
     push_used_advances_index_and_records_head_and_len;
     multi_descriptor_readable_chain_is_gathered_in_order; indirect_descriptor_is_rejected;
     gather_readable_prefix_stops_at_max_len_across_segments;
     iovecs_from_with_no_skip_covers_all_segments; iovecs_from_skip_within_first_segment;
     iovecs_from_skip_exactly_one_full_segment; iovecs_from_skip_spanning_multiple_segments;
     iovecs_from_max_total_truncates_mid_segment; iovecs_from_skip_and_max_total_combined;
     iovecs_from_skip_past_everything_yields_empty;
     iovecs_from_mutable_writes_through_to_guest_memory]) [checked_build; unchecked_build] = true.
Proof. vm_compute. reflexivity. Qed.
End VirtqueueTests.

(** ** [fuse/dispatch.rs] *)

Module DispatchTests.
#[local] Existing Instance linux_libc.
#[local] Existing Instance key_order.
#[local] Existing Instance checked_build.
Local Open Scope rust_scope.

Definition O_RDWR : Z := 2.

(** [tempfile::tempdir()]: an empty root. *)
Definition tempdir : toy_world := mkToy {[10 := TDir 9 []; 9 := TDir 9 []]} ∅ 20 16 extra0.

Definition session_in_tempdir : M toy_world unit Session := λ w,
  match PassthroughFs_new [Byte.x2f] w with
  | (Ok fs, w) => (Ok (Session_new fs), w)
  | (_, w) => (Panic, w)
  end.

(** A test of a fresh session. *)
Definition in_tempdir (t : Test Session) : bool :=
  match session_in_tempdir tempdir with
  | (Ok s, _) => passes t s
  | _ => false
  end.

Definition test_request (opcode unique nodeid : Z) (body : bytes) : bytes :=
  Writer_into_vec
    (Writer_new |> Writer_u32 (as_u32 (Z.of_nat (IN_HEADER_LEN + length body))) |> Writer_u32 opcode
     |> Writer_u64 unique |> Writer_u64 nodeid |> Writer_u32 0 |> Writer_u32 0 |> Writer_u32 0 |> Writer_u32 0
     |> Writer_bytes body).

Definition unwrap_ok (reply : Reply) : M Session unit bytes :=
  match reply with
  | ReplyBytes r =>
      _ ← assert_eq (as_i32 (field 4 4 r)) 0;
      mret (drop OUT_HEADER_LEN r)
  | ReplyNone => panic
  end.

Definition init_negotiates_version : Test Session :=
  let body := Writer_new |> Writer_u32 7 |> Writer_u32 45 |> Writer_u32 0 |> Writer_u32 0 in
  reply ← Session_handle (test_request 26 1 0 (Writer_into_vec body));
  reply ← unwrap_ok reply;
  _ ← assert_eq (length reply) INIT_OUT_LEN;
  _ ← assert_eq (field 4 0 reply) 7;
  assert_eq (field 4 4 reply) INIT_OUT_MINOR.

(** The body of a CREATE. *)
Definition create_body (name : bytes) : bytes :=
  Writer_into_vec (Writer_new |> Writer_u32 O_RDWR |> Writer_u32 0x1a4 |> Writer_u32 0 |> Writer_u32 0
                   |> Writer_cstr name).

(** [std::fs::read(dir.path().join(name))]. *)
Definition fs_read (name : bytes) (w : toy_world) : option bytes :=
  match t_nodes w !! 10 with
  | Some (TDir _ es) =>
      ino ← toy_assoc name es;
      match t_nodes w !! ino with
      | Some (TFile data) => Some data
      | _ => None
      end
  | _ => None
  end.

Definition create_write_read_via_dispatch : Test Session :=
  reply ← Session_handle (test_request 35 1 ROOT_ID (create_body (b "f.txt")));
  reply ← unwrap_ok reply;
  _ ← assert_eq (length reply) (ENTRY_OUT_LEN + 16)%nat;
  let fh := field 8 ENTRY_OUT_LEN reply in
  let write_body := Writer_new |> Writer_u64 fh |> Writer_u64 0 |> Writer_u32 5 |> Writer_u32 0 |> Writer_u64 0
                    |> Writer_u32 0 |> Writer_u32 0 |> Writer_bytes (b "hello") in
  reply ← Session_handle (test_request 16 2 0 (Writer_into_vec write_body));
  reply ← unwrap_ok reply;
  _ ← assert_eq (field 4 0 reply) 5;
  w ← gets (λ s : Session, world (s_fs s));
  _ ← assert_eq (fs_read (b "f.txt") w) (Some (b "hello"));
  let read_body := Writer_new |> Writer_u64 fh |> Writer_u64 0 |> Writer_u32 4096 |> Writer_u32 0 |> Writer_u64 0
                   |> Writer_u32 0 |> Writer_u32 0 in
  reply ← Session_handle (test_request 15 3 0 (Writer_into_vec read_body));
  reply ← unwrap_ok reply;
  assert_eq reply (b "hello").

Definition forget_gets_no_reply : Test Session :=
  reply ← Session_handle (test_request 2 1 ROOT_ID (Writer_into_vec (Writer_new |> Writer_u64 1)));
  assert (match reply with ReplyNone => true | _ => false end).

Definition unknown_opcode_is_enosys_not_a_panic : Test Session :=
  reply ← Session_handle (test_request 9999 1 ROOT_ID []);
  match reply with
  | ReplyBytes r => assert_eq (as_i32 (field 4 4 r)) (-38)
  | ReplyNone => panic
  end.

(** The [while] loop that takes the names out of a listing. *)
Fixpoint names_of (fuel : nat) (off : nat) (reply : bytes) : list bytes :=
  match fuel with
  | O => []
  | S fuel =>
      if (off <? length reply)%nat then
        let namelen := Z.to_nat (field 4 (off + 16) reply) in
        let name := take namelen (drop (off + 24) reply) in
        name :: names_of fuel (off + ((24 + namelen + 7) / 8) * 8) reply
      else []
  end.

Fixpoint create_all (names : list bytes) : Test Session :=
  match names with
  | [] => mret tt
  | name :: names =>
      reply ← Session_handle (test_request 35 1 ROOT_ID (create_body name));
      _ ← unwrap_ok reply;
      create_all names
  end.

(** The source sorts the names and compares the lists. *)
Definition readdir_lists_created_entries : Test Session :=
  let expected := [b "a"; b "b"; b "c"] in
  _ ← create_all expected;
  reply ← Session_handle (test_request 27 2 ROOT_ID (Writer_into_vec (Writer_new |> Writer_u32 0 |> Writer_u32 0)));
  reply ← unwrap_ok reply;
  let dh := field 8 0 reply in
  let readdir_body := Writer_new |> Writer_u64 dh |> Writer_u64 0 |> Writer_u32 4096 |> Writer_u32 0 |> Writer_u64 0
                      |> Writer_u32 0 |> Writer_u32 0 in
  reply ← Session_handle (test_request 28 3 ROOT_ID (Writer_into_vec readdir_body));
  reply ← unwrap_ok reply;
  let names := names_of (length reply) 0 reply in
  _ ← assert_eq (length names) 3%nat;
  assert (forallb (λ n, bool_decide (n ∈ names)) expected).

Example dispatch_tests_pass :
  forallb in_tempdir
    [init_negotiates_version; create_write_read_via_dispatch; forget_gets_no_reply;
     unknown_opcode_is_enosys_not_a_panic; readdir_lists_created_entries] = true.
Proof. vm_compute. reflexivity. Qed.
End DispatchTests.

(** ** [doorbell.rs] and [vhost_user/connection.rs] *)

Module SignalTests.

Definition notify_then_consume `{Libc, FdCalls W, BellCalls W} : Test W :=
  d ← unwrap Doorbell_new;
  c ← unwrap (Doorbell_consume 2 d);
  _ ← assert (negb c);
  _ ← unwrap (Doorbell_notify d);
  _ ← unwrap (Doorbell_notify d);
  c ← unwrap (Doorbell_consume 2 d);
  _ ← assert c;
  c ← unwrap (Doorbell_consume 2 d);
  assert (negb c).

Example doorbell_tests_pass :
  forallb (λ l : Libc,
    passes (notify_then_consume (H0 := toy_fd_calls (errno_val EAGAIN)) (H1 := toy_bell_calls))
      (mkBells None None 0 0)) [linux_libc; macos_libc] = true.
Proof. vm_compute. reflexivity. Qed.

(** One direction of [UnixStream::pair()]; a descriptor is passed as its number. *)
Definition send_recv_roundtrip_no_fds : Test toy_stream :=
  let payload := U64Payload_to_bytes 0x1234 in
  _ ← unwrap (Connection_send 3 (MsgHeader_new SetFeatures 0 (as_u32 (Z.of_nat (length payload)))) payload []);
  m ← unwrap (Connection_recv 4);
  let '(header, recv_payload, fds) := m in
  r ← unwrap (lift (MsgHeader_request header));
  _ ← assert_eq r SetFeatures;
  _ ← assert_eq recv_payload payload;
  assert_eq fds [].

Definition send_recv_roundtrip_with_fd : Test toy_stream :=
  let dummy := 9 in
  let payload := U64Payload_to_bytes 0 in
  _ ← unwrap (Connection_send 3 (MsgHeader_new SetVringKick 0 (as_u32 (Z.of_nat (length payload)))) payload [dummy]);
  m ← unwrap (Connection_recv 4);
  let '(header, _, fds) := m in
  r ← unwrap (lift (MsgHeader_request header));
  _ ← assert_eq r SetVringKick;
  assert_eq (length fds) 1%nat.

(** The other end is closed: nothing is left to receive. *)
Definition disconnect_is_reported_not_a_zero_length_message : Test toy_stream :=
  r ← result (Connection_recv 4);
  assert (matches (λ e, match e with Disconnected => true | _ => false end) r).

Example connection_tests_pass :
  forallb (λ t, passes t [])
    [send_recv_roundtrip_no_fds; send_recv_roundtrip_with_fd;
     disconnect_is_reported_not_a_zero_length_message] = true.
Proof. vm_compute. reflexivity. Qed.
End SignalTests.

(** ** [vhost_user/server.rs]

    The front-end's messages are handed to [handle_request], and a kick is one pass of
    [serve_kicks] over the queue's descriptor; the socket, the thread and the wait for the call
    descriptor have no counterpart.  Of the 8 MiB memory file the bytes the tests touch are
    there. *)

Module ServerTests.
Import MemoryTests DispatchTests.
#[local] Existing Instance linux_libc.
#[local] Existing Instance key_order.
#[local] Existing Instance checked_build.
#[local] Existing Instance toy_mmap.
Local Open Scope rust_scope.

Definition test_events : Events := {|
  sys_poll fds w := (inl (replicate (length fds) 1), w);
  events_calls := {| read_waits fd w := false; sys_read fd n w := (inl 8%nat, w); sys_write fd x w := (inl (length x), w) |};
|}.
#[local] Existing Instance test_events.
Definition test_socket : Socket World := {|
  send_with_fd _ x _ w := (inl (length x), w);
  recv_with_fd _ _ _ w := (inl ([], []), w);
|}.
#[local] Existing Instance test_socket.

Definition TEST_QUEUE_SIZE : Z := 64.
Definition GPA_BASE : Z := 0x40000000.
Definition USER_BASE : Z := 0x7f00000000.

Record TestQueue := mkTestQueue {
  tq_guest_mem : GuestMemory;
  tq_desc_addr : Z;
  tq_avail_addr : Z;
  tq_used_addr : Z;
  tq_next_gpa : Z;
  tq_next_desc_idx : Z;
  tq_avail_idx : Z;
}.

Definition with_heap {A} (m : M Heap unit A) : M Server unit A := zoom srv_heap set_heap m.
Definition message (r : Request) (payload : bytes) (fds : list Z) : Test Server := unwrap (handle_request r payload fds).

Definition TestQueue_new : M Server unit TestQueue :=
  _ ← message GetFeatures [] [];
  _ ← message SetFeatures (U64Payload_to_bytes VIRTIO_FEATURES) [];
  _ ← message GetProtocolFeatures [] [];
  _ ← message SetProtocolFeatures (U64Payload_to_bytes 0) [];
  _ ← message SetOwner [] [];
  let mem_file := 30 in
  let mem_len := Z.shiftl 8 20 in
  let region := mkMemoryRegion GPA_BASE mem_len USER_BASE 0 in
  _ ← message SetMemTable (MemoryRegions_to_bytes [region]) [mem_file];
  guest_mem ← unwrap (on_world (map_regions [region] [mem_file]));
  let desc_addr := USER_BASE + 0x1000 in
  let avail_addr := desc_addr + TEST_QUEUE_SIZE * 16 in
  let used_addr := avail_addr + 4 + TEST_QUEUE_SIZE * 2 + 64 in
  let data_base := GPA_BASE + 0x100000 in
  _ ← message SetVringNum (VringState_to_bytes (mkVringState 1 TEST_QUEUE_SIZE)) [];
  _ ← message SetVringAddr (VringAddr_to_bytes (mkVringAddr 1 0 desc_addr used_addr avail_addr 0)) [];
  _ ← message SetVringBase (VringState_to_bytes (mkVringState 1 0)) [];
  let kick_r := 31 in
  let call_w := 32 in
  _ ← message SetVringKick (VringFdPayload_to_bytes (mkVringFdPayload 1 false)) [kick_r];
  _ ← message SetVringCall (VringFdPayload_to_bytes (mkVringFdPayload 1 false)) [call_w];
  _ ← message SetVringEnable (VringState_to_bytes (mkVringState 1 1)) [];
  mret (mkTestQueue guest_mem desc_addr avail_addr used_addr data_base 0 0).

Definition set_next_gpa (a : Z) (tq : TestQueue) : TestQueue :=
  mkTestQueue (tq_guest_mem tq) (tq_desc_addr tq) (tq_avail_addr tq) (tq_used_addr tq) a
              (tq_next_desc_idx tq) (tq_avail_idx tq).
Definition set_next_desc (i : Z) (tq : TestQueue) : TestQueue :=
  mkTestQueue (tq_guest_mem tq) (tq_desc_addr tq) (tq_avail_addr tq) (tq_used_addr tq) (tq_next_gpa tq)
              i (tq_avail_idx tq).
Definition set_avail_idx (i : Z) (tq : TestQueue) : TestQueue :=
  mkTestQueue (tq_guest_mem tq) (tq_desc_addr tq) (tq_avail_addr tq) (tq_used_addr tq) (tq_next_gpa tq)
              (tq_next_desc_idx tq) i.

Definition readable_buf (data : bytes) (tq : TestQueue) : M Server unit (Z * Z * TestQueue) :=
  let addr := tq_next_gpa tq in
  let len := Z.of_nat (length data) in
  _ ← with_heap (copy_to (tq_guest_mem tq) Gpa addr data);
  mret (addr, len, set_next_gpa (addr + len) tq).

Definition writable_buf (len : Z) (tq : TestQueue) : Z * Z * TestQueue :=
  (tq_next_gpa tq, len, set_next_gpa (tq_next_gpa tq + len) tq).

(** The [for] loop of [write_chain]. *)
Fixpoint write_chain (segments : list (Z * Z * bool)) (tq : TestQueue) : M Server unit TestQueue :=
  match segments with
  | [] => mret tq
  | (addr, len, writable) :: segments =>
      let idx := tq_next_desc_idx tq in
      let flags := if writable : bool then 2 else 0 in
      let '(flags, next) := match segments with [] => (flags, 0) | _ => (Z.lor flags 1, idx + 1) end in
      let off := tq_desc_addr tq + idx * 16 in
      _ ← with_heap (copy_to (tq_guest_mem tq) User off (u64_le addr));
      _ ← with_heap (unwrapped (write_u32 (tq_guest_mem tq) User (off + 8) len));
      _ ← with_heap (unwrapped (write_u16 (tq_guest_mem tq) User (off + 12) flags));
      _ ← with_heap (unwrapped (write_u16 (tq_guest_mem tq) User (off + 14) next));
      write_chain segments (set_next_desc (idx + 1) tq)
  end.

Definition submit_and_wait (head : Z) (tq : TestQueue) : M Server unit (Z * Z * TestQueue) :=
  let mem := tq_guest_mem tq in
  let slot := tq_avail_idx tq mod TEST_QUEUE_SIZE in
  _ ← with_heap (unwrapped (write_u16 mem User (tq_avail_addr tq + 4 + slot * 2) head));
  let tq := set_avail_idx (wrap 16 (tq_avail_idx tq + 1)) tq in
  _ ← with_heap (unwrapped (write_u16 mem User (tq_avail_addr tq + 2) (tq_avail_idx tq)));
  _ ← unwrap (serve_kicks 2 [((1%nat, 31), POLLIN)]);
  used_idx ← with_heap (unwrapped (read_u16 mem User (tq_used_addr tq + 2)));
  let slot := wrap 16 (used_idx - 1) mod TEST_QUEUE_SIZE in
  let elem_off := tq_used_addr tq + 4 + slot * 8 in
  used_id ← with_heap (unwrapped (read_u32 mem User elem_off));
  used_len ← with_heap (unwrapped (read_u32 mem User (elem_off + 4)));
  mret (used_id, used_len, tq).

Definition init_request (unique : Z) : bytes :=
  test_request 26 unique 0
    (Writer_into_vec (Writer_new |> Writer_u32 7 |> Writer_u32 45 |> Writer_u32 0 |> Writer_u32 0)).

Definition io_body (fh offset size : Z) : bytes :=
  Writer_into_vec (Writer_new |> Writer_u64 fh |> Writer_u64 offset |> Writer_u32 size |> Writer_u32 0
                   |> Writer_u64 0 |> Writer_u32 0 |> Writer_u32 0).
Definition write_request_header (unique fh offset size : Z) : bytes :=
  test_request 16 unique 1 (io_body fh offset size).
Definition read_request_header (unique fh offset size : Z) : bytes :=
  test_request 15 unique 1 (io_body fh offset size).

Definition full_handshake_and_one_request_over_a_real_socket : Test Server :=
  tq ← TestQueue_new;
  r ← readable_buf (init_request 1) tq;
  let '(req_addr, req_len, tq) := r in
  let '(resp_addr, resp_len, tq) := writable_buf 4096 tq in
  let head := tq_next_desc_idx tq in
  tq ← write_chain [(req_addr, req_len, false); (resp_addr, resp_len, true)] tq;
  r ← submit_and_wait head tq;
  let '(used_id, used_len, tq) := r in
  _ ← assert_eq used_id head;
  _ ← assert_eq (Z.to_nat used_len) (INIT_OUT_LEN + OUT_HEADER_LEN)%nat;
  reply ← with_heap (slice_at (tq_guest_mem tq) Gpa resp_addr used_len);
  _ ← assert_eq (as_i32 (field 4 4 reply)) 0;
  assert_eq (field 4 OUT_HEADER_LEN reply) 7.

(** [fs.create(ROOT_ID, name, O_RDWR, 0o644).unwrap()]: the handle. *)
Definition create_file (name : bytes) : M Server unit Z :=
  r ← unwrap (on_fs (PassthroughFs_create ROOT_ID name O_RDWR 0x1a4));
  mret r.1.2.

Definition test_payload (n : nat) : bytes := (λ i, byte.of_Z (Z.of_nat i mod 251)) <$> seq 0 n.

(** The source cuts 10000 bytes into 4000, 4000 and 2000 for the WRITE, and reads them into 6016
    and 4000; the sizes are arguments here. *)
Definition zero_copy_write_then_read_multi_descriptor_roundtrip (p0 p1 p2 out0 out1 : nat) : Test Server :=
  fh ← create_file (b "zerocopy.bin");
  tq ← TestQueue_new;
  let payload := test_payload (p0 + p1 + p2) in
  let size := Z.of_nat (length payload) in
  r ← readable_buf (write_request_header 2 fh 0 size) tq;
  let '(header_addr, header_len, tq) := r in
  r ← readable_buf (take p0 payload) tq;
  let '(p0_addr, p0_len, tq) := r in
  r ← readable_buf (take p1 (drop p0 payload)) tq;
  let '(p1_addr, p1_len, tq) := r in
  r ← readable_buf (drop (p0 + p1) payload) tq;
  let '(p2_addr, p2_len, tq) := r in
  let '(resp_addr, resp_len, tq) := writable_buf 64 tq in
  let head := tq_next_desc_idx tq in
  tq ← write_chain [(header_addr, header_len, false); (p0_addr, p0_len, false); (p1_addr, p1_len, false);
                    (p2_addr, p2_len, false); (resp_addr, resp_len, true)] tq;
  r ← submit_and_wait head tq;
  let '(used_id, used_len, tq) := r in
  _ ← assert_eq used_id head;
  write_reply ← with_heap (slice_at (tq_guest_mem tq) Gpa resp_addr used_len);
  _ ← assert_eq (as_i32 (field 4 4 write_reply)) 0;
  _ ← assert_eq (field 4 OUT_HEADER_LEN write_reply) size;
  w ← gets srv_world;
  _ ← assert_eq (fs_read (b "zerocopy.bin") w) (Some payload);
  r ← readable_buf (read_request_header 3 fh 0 size) tq;
  let '(read_req_addr, read_req_len, tq) := r in
  let '(out0_addr, out0_len, tq) := writable_buf (Z.of_nat out0) tq in
  let '(out1_addr, out1_len, tq) := writable_buf (Z.of_nat out1) tq in
  let head := tq_next_desc_idx tq in
  tq ← write_chain [(read_req_addr, read_req_len, false); (out0_addr, out0_len, true);
                    (out1_addr, out1_len, true)] tq;
  r ← submit_and_wait head tq;
  let '(used_id, used_len, tq) := r in
  _ ← assert_eq used_id head;
  _ ← assert_eq used_len (Z.of_nat OUT_HEADER_LEN + size);
  first ← with_heap (slice_at (tq_guest_mem tq) Gpa out0_addr out0_len);
  _ ← assert_eq (as_i32 (field 4 4 first)) 0;
  second ← with_heap (slice_at (tq_guest_mem tq) Gpa out1_addr (size - (out0_len - Z.of_nat OUT_HEADER_LEN)));
  assert_eq (drop OUT_HEADER_LEN first ++ second) payload.

Definition zero_copy_read_past_eof_returns_short_success_not_error : Test Server :=
  fh ← create_file (b "short.bin");
  _ ← unwrap (on_fs (PassthroughFs_write fh 0 (b "0123456789")));
  _ ← unwrap (on_fs (PassthroughFs_fsync fh));
  tq ← TestQueue_new;
  r ← readable_buf (read_request_header 4 fh 6 100) tq;
  let '(req_addr, req_len, tq) := r in
  let '(out_addr, out_len, tq) := writable_buf 200 tq in
  let head := tq_next_desc_idx tq in
  tq ← write_chain [(req_addr, req_len, false); (out_addr, out_len, true)] tq;
  r ← submit_and_wait head tq;
  let '(used_id, used_len, tq) := r in
  _ ← assert_eq used_id head;
  _ ← assert_eq (Z.to_nat used_len) (OUT_HEADER_LEN + 4)%nat;
  reply ← with_heap (slice_at (tq_guest_mem tq) Gpa out_addr used_len);
  _ ← assert_eq (as_i32 (field 4 4 reply)) 0;
  assert_eq (drop OUT_HEADER_LEN reply) (b "6789").

Definition zero_copy_write_with_bad_handle_returns_errno_not_panic : Test Server :=
  tq ← TestQueue_new;
  let bogus_fh := 0xdeadbeef in
  r ← readable_buf (write_request_header 5 bogus_fh 0 4) tq;
  let '(req_addr, req_len, tq) := r in
  r ← readable_buf (b "data") tq;
  let '(payload_addr, payload_len, tq) := r in
  let '(resp_addr, resp_len, tq) := writable_buf 64 tq in
  let head := tq_next_desc_idx tq in
  tq ← write_chain [(req_addr, req_len, false); (payload_addr, payload_len, false);
                    (resp_addr, resp_len, true)] tq;
  r ← submit_and_wait head tq;
  let '(used_id, used_len, tq) := r in
  _ ← assert_eq used_id head;
  _ ← assert_eq (Z.to_nat used_len) OUT_HEADER_LEN;
  reply ← with_heap (slice_at (tq_guest_mem tq) Gpa resp_addr used_len);
  assert (negb (as_i32 (field 4 4 reply) =? 0)).

(** A server on a fresh session; [n] bytes of the data area of the memory file are there. *)
Definition served_in_tempdir (n : nat) (t : Test Server) : bool :=
  let h := zeroed (30, 0x1000) 0x540 (zeroed (30, 0x100000) n ∅) in
  match session_in_tempdir tempdir with
  | (Ok s, _) => passes t (Server_new 3 s h)
  | _ => false
  end.

Example server_tests_pass :
  served_in_tempdir 160 full_handshake_and_one_request_over_a_real_socket &&
  served_in_tempdir 400 zero_copy_read_past_eof_returns_short_success_not_error &&
  served_in_tempdir 400 zero_copy_write_with_bad_handle_returns_errno_not_panic = true.
Proof. vm_compute. reflexivity. Qed.

Example server_zero_copy_test_passes :
  served_in_tempdir 700 (zero_copy_write_then_read_multi_descriptor_roundtrip 80 80 40 136 80) = true.
Proof. vm_compute. reflexivity. Qed.
End ServerTests.
