(* ===== verification/CoreTests.v ===== *)
(** * The integration tests and the benchmarks of the engine

    [tests/passthrough.rs] and [benches/core_ops.rs], run on [ToyHost] with an empty directory.
    The benchmark harness is not part of the repository: it is a parameter of the benchmarks
    ([Criterion]), and its timing has no counterpart. *)

From S2P Require Import Prelude Libc Errors Bytes Attr Wire Inode Handle Host ToyHost Passthrough.
From S2P Require Import Dispatch VhostMsg Memory Virtqueue Doorbell Connection Server SourceTests.
From Stdlib Require Import Strings.String Numbers.DecimalString.
From stdpp Require Import list.
Import DispatchTests.
Local Open Scope Z_scope.

#[local] Existing Instance linux_libc.
#[local] Existing Instance key_order.

Abbreviation length := Datatypes.length.
Abbreviation b s := (list_byte_of_string s%string).

(** ** [std::fs] on the directory of the test *)

Definition on_disk (name : bytes) : M PassthroughFs unit (option bytes) := gets (λ fs, fs_read name (world fs)).

(** The node behind [dir.path().join(name)]. *)
Definition path_node (name : bytes) (w : toy_world) : option (Z * toy_node) :=
  match t_nodes w !! 10 with
  | Some (TDir p es) => toy_child 10 p es name w
  | _ => None
  end.

Definition path_exists (name : bytes) : M PassthroughFs unit bool :=
  gets (λ fs, bool_decide (is_Some (fst <$> path_node name (world fs)))).

Definition metadata_mode (name : bytes) : M PassthroughFs unit Z := λ fs,
  match path_node name (world fs) with
  | Some (ino, n) => (Ok (st_mode (toy_stat (world fs) ino n)), fs)
  | None => (Panic, fs)
  end.

(** [std::fs::write] of a new file. *)
Definition fs_write (name data : bytes) (w : toy_world) : toy_world :=
  match t_nodes w !! 10 with
  | Some (TDir p es) => toy_add 10 p es name (TFile data) 0x1a4 w
  | _ => w
  end.

Definition fs_new (w : toy_world) : outcome unit PassthroughFs :=
  match PassthroughFs_new [Byte.x2f] w with
  | (Ok fs, _) => Ok fs
  | _ => Panic
  end.

Definition fs_in_tempdir : outcome unit PassthroughFs := fs_new tempdir.

Definition runs_in (fs : outcome unit PassthroughFs) (t : Test PassthroughFs) : bool :=
  match fs with
  | Ok fs => passes t fs
  | _ => false
  end.

(** ** [tests/passthrough.rs] *)

Module PassthroughTests.

Definition root_getattr_is_a_directory : Test PassthroughFs :=
  attr ← unwrap (PassthroughFs_getattr ROOT_ID);
  assert (Attr_is_dir attr).

Definition create_write_read_roundtrip : Test PassthroughFs :=
  r ← unwrap (PassthroughFs_create ROOT_ID (b "hello.txt") O_RDWR 0x1a4);
  let '(ino, handle, attr) := r in
  _ ← assert (Attr_is_regular attr);
  n ← unwrap (PassthroughFs_write handle 0 (b "hello, riftlessfs"));
  _ ← assert_eq n 17%nat;
  _ ← unwrap (PassthroughFs_fsync handle);
  data ← unwrap (PassthroughFs_read handle 0 4096);
  _ ← assert_eq data (b "hello, riftlessfs");
  _ ← unwrap (PassthroughFs_release handle);
  disk ← on_disk (b "hello.txt");
  _ ← assert_eq disk (Some (b "hello, riftlessfs"));
  r ← unwrap (PassthroughFs_lookup ROOT_ID (b "hello.txt"));
  _ ← assert_eq r.1 ino;
  assert_eq (a_size r.2) 17.

Definition write_vectored_gathers_multiple_iovecs_into_one_write : Test PassthroughFs :=
  r ← unwrap (PassthroughFs_create ROOT_ID (b "vectored_write.txt") O_RDWR 0x1a4);
  let '(_, handle, _) := r in
  let iov := [b "hello, "; b "vectored "; b "world"] in
  let expected := concat iov in
  n ← unwrap (PassthroughFs_write_vectored handle 0 iov);
  _ ← assert_eq n (length expected);
  _ ← unwrap (PassthroughFs_fsync handle);
  disk ← on_disk (b "vectored_write.txt");
  _ ← assert_eq disk (Some expected);
  unwrap (PassthroughFs_release handle).

(** The bytes read go into the buffers in order. *)
Definition read_vectored_scatters_one_read_into_multiple_iovecs : Test PassthroughFs :=
  r ← unwrap (PassthroughFs_create ROOT_ID (b "vectored_read.txt") O_RDWR 0x1a4);
  let '(_, handle, _) := r in
  let full := b "0123456789abcdef" in
  _ ← unwrap (PassthroughFs_write handle 0 full);
  _ ← unwrap (PassthroughFs_fsync handle);
  filled ← unwrap (PassthroughFs_read_vectored handle 0 [5; 5; 6]%nat);
  _ ← assert_eq (length filled) (length full);
  _ ← assert_eq (take 5 filled) (take 5 full);
  _ ← assert_eq (take 5 (drop 5 filled)) (take 5 (drop 5 full));
  _ ← assert_eq (drop 10 filled) (drop 10 full);
  unwrap (PassthroughFs_release handle).

Definition read_vectored_at_offset_and_past_eof_matches_read : Test PassthroughFs :=
  r ← unwrap (PassthroughFs_create ROOT_ID (b "vectored_read_eof.txt") O_RDWR 0x1a4);
  let '(_, handle, _) := r in
  _ ← unwrap (PassthroughFs_write handle 0 (b "0123456789"));
  _ ← unwrap (PassthroughFs_fsync handle);
  filled ← unwrap (PassthroughFs_read_vectored handle 6 [8%nat]);
  _ ← assert_eq (length filled) 4%nat;
  _ ← assert_eq filled (b "6789");
  unwrap (PassthroughFs_release handle).

(** The source sorts the names and compares the lists. *)
Definition mkdir_lookup_readdir_rmdir : Test PassthroughFs :=
  r ← unwrap (PassthroughFs_mkdir ROOT_ID (b "subdir") 0x1ed);
  let '(sub_ino, attr) := r in
  _ ← assert (Attr_is_dir attr);
  _ ← unwrap (PassthroughFs_create sub_ino (b "a") O_RDWR 0x1a4);
  _ ← unwrap (PassthroughFs_create sub_ino (b "b") O_RDWR 0x1a4);
  dh ← unwrap (PassthroughFs_opendir sub_ino);
  entries ← unwrap (PassthroughFs_readdir dh);
  let names := de_name <$> entries in
  _ ← unwrap (PassthroughFs_releasedir dh);
  _ ← assert_eq (length names) 2%nat;
  _ ← assert (forallb (λ n, bool_decide (n ∈ names)) [b "a"; b "b"]);
  _ ← unwrap (PassthroughFs_unlink sub_ino (b "a"));
  _ ← unwrap (PassthroughFs_unlink sub_ino (b "b"));
  _ ← unwrap (PassthroughFs_rmdir ROOT_ID (b "subdir"));
  r ← result (PassthroughFs_lookup ROOT_ID (b "subdir"));
  assert (matches (λ _, true) r).

Definition rename_updates_tracked_location : Test PassthroughFs :=
  r ← unwrap (PassthroughFs_create ROOT_ID (b "old.txt") O_RDWR 0x1a4);
  let '(ino, _, _) := r in
  _ ← unwrap (PassthroughFs_rename ROOT_ID (b "old.txt") ROOT_ID (b "new.txt"));
  e ← path_exists (b "old.txt");
  _ ← assert (negb e);
  e ← path_exists (b "new.txt");
  _ ← assert e;
  _ ← unwrap (PassthroughFs_setattr ino (mkSetAttr None (Some 0x180) None None None None));
  mode ← metadata_mode (b "new.txt");
  assert_eq (Z.land mode 0x1ff) 0x180.

Definition symlink_readlink : Test PassthroughFs :=
  r ← unwrap (PassthroughFs_symlink ROOT_ID (b "link") (b "target"));
  let '(ino, attr) := r in
  _ ← assert (Attr_is_symlink attr);
  target ← unwrap (PassthroughFs_readlink ino);
  assert_eq target (b "target").

Definition setattr_truncate : Test PassthroughFs :=
  r ← unwrap (PassthroughFs_create ROOT_ID (b "trunc.txt") O_RDWR 0x1a4);
  let '(_, handle, _) := r in
  _ ← unwrap (PassthroughFs_write handle 0 (b "0123456789"));
  r ← unwrap (PassthroughFs_lookup ROOT_ID (b "trunc.txt"));
  attr ← unwrap (PassthroughFs_setattr r.1 (mkSetAttr (Some 4) None None None None None));
  _ ← assert_eq (a_size attr) 4;
  data ← unwrap (PassthroughFs_read handle 0 4096);
  _ ← assert_eq data (b "0123");
  unwrap (PassthroughFs_release handle).

Definition hardlink : Test PassthroughFs :=
  r ← unwrap (PassthroughFs_create ROOT_ID (b "orig.txt") O_RDWR 0x1a4);
  let '(ino, _, _) := r in
  attr ← unwrap (PassthroughFs_link ino ROOT_ID (b "linked.txt"));
  _ ← assert_eq (a_nlink attr) 2;
  e ← path_exists (b "linked.txt");
  _ ← assert e;
  r_a ← unwrap (PassthroughFs_lookup ROOT_ID (b "orig.txt"));
  r_b ← unwrap (PassthroughFs_lookup ROOT_ID (b "linked.txt"));
  _ ← assert_eq r_a.1 r_b.1;
  assert_eq r_a.1 ino.

Definition forget_evicts_inode : Test PassthroughFs :=
  r ← unwrap (PassthroughFs_create ROOT_ID (b "f.txt") O_RDWR 0x1a4);
  let '(ino, _, _) := r in
  before ← gets PassthroughFs_inode_count;
  _ ← unwrap (PassthroughFs_forget ino 1);
  after ← gets PassthroughFs_inode_count;
  assert_eq after (before - 1)%nat.

Example passthrough_tests_pass :
  forallb (runs_in fs_in_tempdir)
    [root_getattr_is_a_directory; create_write_read_roundtrip;
     write_vectored_gathers_multiple_iovecs_into_one_write;
     read_vectored_scatters_one_read_into_multiple_iovecs;
     read_vectored_at_offset_and_past_eof_matches_read; mkdir_lookup_readdir_rmdir;
     rename_updates_tracked_location; symlink_readlink; setattr_truncate; hardlink;
     forget_evicts_inode] = true.
Proof. vm_compute. reflexivity. Qed.
End PassthroughTests.

(** ** [benches/core_ops.rs] *)

Module CoreOps.

(** The engine and the counter of [bench_write_4k]. *)
Record BenchState := mkBench { bench_fs : PassthroughFs; counter : nat }.

Abbreviation Bench := (M BenchState unit).

Definition on_fs {A} (m : M PassthroughFs unit A) : Bench A :=
  zoom bench_fs (λ fs st, mkBench fs (counter st)) m.

(** [criterion::Bencher]: it calls the closures it is given. *)
Class Criterion := {
  b_iter : Bench unit → Bench unit;
  b_iter_batched {A : Type} : Bench A → (A → Bench unit) → Bench unit;
}.

Section Benches.
Context `{Criterion}.

(** The benchmark on a directory: whether it ends without a panic. *)
Definition runs_on (dir : toy_world) (m : Bench unit) : bool :=
  match fs_new dir with
  | Ok fs => passes m (mkBench fs 0)
  | _ => false
  end.

Definition bench_getattr : bool :=
  runs_on (fs_write (b "f") (b "data") tempdir) (
    r ← on_fs (unwrap (PassthroughFs_lookup ROOT_ID (b "f")));
    _ ← b_iter (_ ← on_fs (unwrap (PassthroughFs_getattr r.1)); mret tt);
    b_iter (_ ← on_fs (metadata_mode (b "f")); mret tt)).

Definition bench_lookup : bool :=
  runs_on (fs_write (b "f") (b "data") tempdir) (
    b_iter_batched (mret tt)
      (λ _, r ← on_fs (unwrap (PassthroughFs_lookup ROOT_ID (b "f")));
            on_fs (unwrap (PassthroughFs_forget r.1 1)))).

Definition payload : bytes := replicate 4096 Byte.xab.

(** [libc::open], [libc::pread] and [libc::close] of the baseline. *)
Definition raw_open (name : bytes) : M PassthroughFs unit Z := λ fs,
  match path_node name (world fs) with
  | Some (ino, _) =>
      match toy_alloc ino (world fs) with
      | (inl fd, w) => (Ok fd, mkFs _ w (inodes fs) (fhandles fs))
      | (inr _, w) => (Ok (-1), mkFs _ w (inodes fs) (fhandles fs))
      end
  | None => (Ok (-1), fs)
  end.

Definition raw_pread (fd : Z) : M PassthroughFs unit Z := λ fs,
  let '(r, w) := sys_pread fd 4096 0 (world fs) in
  (Ok (match r with inl d => Z.of_nat (length d) | inr _ => -1 end), mkFs _ w (inodes fs) (fhandles fs)).

Definition bench_read_4k : bool :=
  runs_on (fs_write (b "f") payload tempdir) (
    r ← on_fs (unwrap (PassthroughFs_lookup ROOT_ID (b "f")));
    handle ← on_fs (unwrap (PassthroughFs_open r.1 O_RDONLY));
    raw_fd ← on_fs (raw_open (b "f"));
    _ ← b_iter (_ ← on_fs (unwrap (PassthroughFs_read handle 0 4096)); mret tt);
    _ ← b_iter (_ ← on_fs (raw_pread raw_fd); mret tt);
    on_fs (unwrap (close_fds [raw_fd]))).

(** [format!("w{n}")]. *)
Definition file_name (n : nat) : bytes := b (String.append "w" (NilEmpty.string_of_uint (Nat.to_uint n))).

(** [counter.fetch_add(1)]. *)
Definition fetch_add : Bench nat := λ st, (Ok (counter st), mkBench (bench_fs st) (S (counter st))).

Definition bench_write_4k : bool :=
  runs_on tempdir (
    b_iter_batched
      (n ← fetch_add;
       let name := file_name n in
       r ← on_fs (unwrap (PassthroughFs_create ROOT_ID name O_RDWR 0x1a4));
       let '(ino, handle, _) := r in
       mret (name, ino, handle))
      (λ x, let '(name, ino, handle) := x in
            _ ← on_fs (unwrap (PassthroughFs_write handle 0 payload));
            _ ← on_fs (unwrap (PassthroughFs_release handle));
            _ ← on_fs (unwrap (PassthroughFs_forget ino 1));
            on_fs (unwrap (PassthroughFs_unlink ROOT_ID name)))).
End Benches.

(** A harness that calls a closure [n] times, and runs the set-ups of a batch before its
    routines. *)
Fixpoint repeated {A} (n : nat) (m : Bench A) : Bench (list A) :=
  match n with
  | O => mret []
  | S n => a ← m; l ← repeated n m; mret (a :: l)
  end.

Fixpoint each {A} (l : list A) (routine : A → Bench unit) : Bench unit :=
  match l with
  | [] => mret tt
  | a :: l => _ ← routine a; each l routine
  end.

Definition small_runs : Criterion := {|
  b_iter m := _ ← repeated 2 m; mret tt;
  b_iter_batched A setup routine :=
    l ← repeated 2 setup;
    _ ← each l routine;
    l ← repeated 1 setup;
    each l routine;
|}.

Example benchmarks_run :
  bench_getattr (H := small_runs) && bench_lookup (H := small_runs) && bench_read_4k (H := small_runs) &&
  bench_write_4k (H := small_runs) = true.
Proof. vm_compute. reflexivity. Qed.
End CoreOps.
